(* ===== verification/_CoqProject ===== *)
-Q . S2P
Prelude.v
Slots.v
Lbr.v
LbrState.v
StateFile.v
Wrappers.v
Kernel.v
Armor.v
ArmorInv.v
ArmorProps.v
Intercept.v
Cfg.v
CfgInv.v
JitPath.v
Jit.v
Enum.v
EnumProps.v
Kstates.v
KstatesCmp.v
Precompute.v
Simplify.v
Dummies.v
Handshake.v
Tidy.v
AddressTaken.v
Builder.v
Frame.v
Driver.v
BinCfi.v
BuilderProps.v
Startup.v
Process.v
Padyn.v
Cli.v
Verdicts.v
