(* ===== verification/Prelude.v ===== *)
(** * PathArmor: a verification library

    PathArmor checks the control flow of a running program against its
    control-flow graph.  The processor records the last sixteen branches of a
    task in its Last Branch Record (LBR).  A kernel module (lkm/) switches the
    recording with the tasks, hides what libraries, callbacks and signal
    handlers do from it, and when the program makes a sensitive system call it
    asks whether the branches in the LBR are a path of the program: it looks in
    a cache of digests, and if they are not there it asks the analyzer
    (dyninst-static/), a process that has the control-flow graph and answers
    through ioctls on /dev/armor.  State files (include/patharmor/lbr-state.h)
    carry precomputed paths from the analyzer to the module.  The program itself is
    prepared by a library that is preloaded (shared/) and by a Dyninst pass that wraps its
    library calls (dyninst-pass/); a driver (di-opt/) runs the passes.

    ** Files

    - Prelude.v: machine integers with their wrap-around, counted loops, bytes,
      the class [Refinement] (an implementation simulates a specification along
      every trace) and list lemmas.
    - Slots.v: fixed arrays of slots owned by tasks; the theory shared by the
      four per-task tables of the module.
    - Lbr.v: lkm/lbr.c and lbr.h.  [Hw] is the register file of a CPU with
      [get_lbr], [put_lbr], [flush_lbr], [enable_lbr]; [Stack] the bounded stacks;
      [Cache] [save_lbr] and [restore_lbr] with their contract, a finite map from
      tasks to LBR states; [Digest] [hash_lbr]; [TaskBits] the personality bits.
    - LbrState.v: lbr-state.h.  [Tag] is the format of tagged addresses; [Paths]
      the structures of a state file, [hash_paths] and [update_paths].
    - StateFile.v: lbr-state.h, the packed form of these structures: byte buffers
      with pointers in them, [lbr_sizeof_paths], [lbr_link_paths],
      [lbr_pack_paths], [write_paths] and [read_paths].
    - Wrappers.v: the tables of library calls, callbacks and signal handlers in
      lkm/armor.c ([find_cache_entry_init] to [sig_exit]), and their contract.
    - Kernel.v: the shared state of the module ([kstate]: registers of every CPU,
      tasks, tables, JIT handshake, device) and the monad of handlers, a
      resumption that may finish, sleep on a queue or fault.
    - Armor.v: every handler of lkm/armor.c and [validate_lbr] of lkm/lbr.c, in
      that monad: context switches, signals, fork, exit, execve, the
      intercepted system calls, open, close and all ioctls.
    - ArmorInv.v: [Sys], the step relation that interleaves handlers of any
      number of tasks, and its invariant.
    - ArmorProps.v: what single handlers do.
    - Intercept.v: lkm/intercept.c and [armor_init] and [armor_exit].
    - Cfg.v: the graph of the analyzer (arms_edge.c, arms_bb.c, arms_function.c,
      arms_cfg.c): objects in a heap, methods as computations that can fail.
    - CfgInv.v: well-formedness of the graph.
    - JitPath.v: [jit_track_callstack] and [jit_path_exists] of lbr_analysis.C.
    - Jit.v: [jit_validate_lbr] of lbr_analysis.C with its cleaning
      ([remove_lib_enter_edges]), normalization and look-up of branches.
    - Enum.v: [get_lbr_states] of lbr_analysis.C: states, state sets,
      configuration, the backward depth-first search and its queue.
    - EnumProps.v: the paths that search is meant to find, and that it does.
    - Kstates.v: from states to a state file: [LBRState::hash], [sort_by_hash],
      [generate_lbr_kstates], [read_lbr_kstates] and [write_lbr_kstates].
    - KstatesCmp.v: [cmp_lbr_kstates], the comparison of two state files.
    - Precompute.v: enumeration and generation in sequence.
    - Simplify.v: [collapse_function] and [simplify_cfg] of lbr_analysis.C.
    - Dummies.v: [add_dummy_shlib_blocks] of lbr_analysis.C with the reader of
      bin.info.
    - Handshake.v: [run_lbr_state_analysis_daemon] of lbr_analysis_pass.C, the loop
      of the analyzer around [jit_validate_lbr], as a state machine that runs
      beside the module ([moves], on top of [Sys]).
    - Tidy.v: graphs before simplification, and that adding dummies keeps them so.
    - AddressTaken.v: the policies of address_taken_parser.C that read the graph.
    - Builder.v: arms_dyninst_cfg.c and arms_icall_resolver.h: functions, blocks and
      edges are entered from what ParseAPI gives; [retouch] enters a second parse.
    - Frame.v: what the operations on the graph leave alone (class [Frame]).
    - Driver.v: [preprocess_cfg] of lbr_analysis_pass.C and the naive address-taken
      analysis.
    - BinCfi.v: the address-taken policy bin-cfi, which reads the binary.
    - BuilderProps.v: the graph represents what ParseAPI gave.
    - Startup.v: [runOnModule], [run_lbr_state_analysis] and [write_lbr_state_file] of
      lbr_analysis_pass.C: build, prepare, enumerate, write.
    - Process.v: shared/wrappers.c, the library preloaded into the program: the start
      under supervision and the wrapper of [pthread_create], on top of Armor.v.
    - Padyn.v: dyninst-pass/padyn.cpp, the pass that instruments library functions and
      indirect calls, and the tables it hands to the module.
    - Cli.v: the command line (cli.h, passcli.h, passi.h), the driver di-opt.cpp and the
      options of the analyzer.
    - Verdicts.v: the daemon that was started on a binary, beside the module.

    ** What the theorems show

    Kernel module.  A context switch gives every task its LBR back
    ([sched_roundtrip]); the window that is hashed lists the recorded branches
    (lemma [window_of_branches]); the tables of library calls and callbacks are one
    stack per task along every supported trace ([lib_traces],
    and the lemmas [cbk_roundtrip] and [lib_call_roundtrip]), kill exactly on overflow
    (lemma [lib_kills]), are inherited by forks and emptied by exits
    (lemmas [fork_inherits] and [deferred_exit_forgets]).  Under every interleaving the
    tables and the JIT cache stay well-formed, no handler faults, and one
    validation runs at a time ([armor_invariant]).  [validate_lbr_paths] gives
    every outcome of a validation, and [handshake_live] that with a running
    analyzer each one is answered, by the verdict on its own LBR, after at most
    five steps of the analyzer, whatever other tasks do.  Tasks that are not supervised are left alone
    ([unsupervised_untouched]).  Patches of the kernel go to and from the
    interceptors, and loading the module is all or nothing
    (lemma [intercept_symbol_jumps], and [armor_init_all_or_nothing]).  Three theorems
    state what goes wrong: a race in [lib_exit] ([lib_exit_race]), a
    cache that forgets everything when it wraps ([jit_cache_wraps]), supervision
    that comes back after execve ([execve_resurrects]); [get_offsets_bound] gives
    the exact condition of a buffer overrun.

    Program.  The pass that instruments it wraps exactly the library functions and indirect
    calls it should, and the tables it hands over through the kernel module are read back by
    the analyzer as they were meant ([wrapLibraries_exact], [wrapIndirects_exact],
    [tables_reach_analyzer]).  [main] is called under supervision, with its call as the only entry of
    the LBR, or the process ends before ([armor_main_supervises]); threads start with
    their own routine and argument, and the library call around it is not recorded
    ([pthread_create_wraps]).

    Driver.  Parsing a command line always ends, and reads back what was written
    ([parse_command_line]); the analyzer runs exactly on the lines whose options are known, come
    once and have good values ([driver_runs_analyzer]).

    All together.  Along every run of a daemon that was started on a binary, beside
    the module and any tasks, a verdict that an LBR is valid is backed by a walk through a
    graph that extends the one prepared from that binary ([daemon_verdicts_sound]).

    State files.  [update_paths_live]: relocation turns every tagged address
    into the one the running process uses; [digests_agree]: the digest of an
    LBR equals that of a valid state exactly when the branches are the same;
    [state_file_roundtrip]: packing, writing and reading back at another address
    gives the same paths, and no access leaves its buffer.

    Analyzer.  Whatever ParseAPI gives (within [view_ok]) is entered without a
    failure, and the graph has exactly its functions, blocks and edges
    ([build_cfg_represents]); a second parse only extends it ([retouch_extends],
    which is what [jit_validate_lbr_sound] asks of [retouch]).  Preparation marks
    exactly the functions it should and ends as bin.info says
    ([preprocess_cfg_prepares]); the address-taken policy bin-cfi is exact
    ([bin_cfi_reset_exact]).  [analyzer_run_ends] puts the parts together and
    says how a run ends, and that the file of a run without daemon has no state but the
    empty one.  Every graph that is built is well-formed, and every operation on
    it is free of undefined behaviour ([graph_invariant]); edges are found
    ([find_added_edge]); address-taken functions are exactly marked
    (lemma [mark_at_functions_exact]).  The path search ends and accepts only
    explained LBRs ([jit_path_exists_sound_total]); without returns it accepts
    exactly those, so that the limit of sixteen visits per edge loses nothing
    ([jit_path_exists_decides]); with returns its call matching depends on the
    order of edge objects in memory ([return_match_order]).  A valid verdict
    means a walk through the graph ([jit_validate_lbr_sound]), and on
    branches the graph knows the verdict is exact ([jit_validate_lbr_decides]).
    The enumeration ends and gives exactly the windows of the backward paths
    of the black-listed functions ([get_lbr_states_exact]); the state file holds
    exactly these ([generate_lbr_kstates_exact], and [precompute_exact] for the
    two together); [sort_by_hash] sorts ([sort_by_hash_sorts]); two files that
    compare as equal or superset are so ([cmp_lbr_kstates_superset]).  Collapsing
    a function hides exactly its internal edges and adds exactly the fastpaths to
    its exits ([collapse_function_exact]), so that simplification keeps the
    traces of calls, returns and indirect branches ([simplify_cfg_traces]); the
    callback and loader edges are added, with every error result
    ([add_dummy_shlib_blocks_links], [bininfo_roundtrip]).

    ** Bounds and fuel

    Arrays have the sizes of the code (16 LBR entries, 8 stack entries, 1024 LBR
    cache slots, the table sizes of lbr.h, 512 JIT cache entries, 32 libraries).
    The search of JitPath.v has the fuel [search_fuel], one more than sixteen
    times the number of edges: an edge is on the current path at most sixteen
    times, so this depth is never reached ([jit_path_exists_sound_total]).
    [parse_loop] of Cli.v has the number of arguments as fuel, which is enough
    ([parse_command_line]).  [for_index] of Jit.v, the index loop over a set that its body may extend, takes
    its fuel as an argument of [jit_validate_lbr]; only the PLT/GOT case uses
    it.  [bsearch] has the length of the table as fuel, enough because the
    interval shrinks ([bsearch_in_spec]).  The search of Enum.v has the depth
    [depth_fuel], the window times one more than the number of edges, and one: between
    two indirect edges a path repeats no direct edge; its queue has [queue_fuel],
    one more than the number of blocks: a block is queued once.  That both are
    enough is part of [get_lbr_states_exact].  The breadth-first search of
    Simplify.v has as many rounds as there are blocks, because a block is queued
    once ([search_exits_spec]); [lines] of Dummies.v has the length of the file,
    and loses nothing of it ([lines_concat]).

    ** Parameters

    The digest (MD4), [qsort] ([Qsort]: a permutation, sorted when the
    comparison is an order), the conversion of jiffies, [kallsyms_lookup_name], what
    user memory holds, which registrations of the kernel fail, the memory
    allocator of the analyzer ([Malloc]: a fresh non-null address).  Of Dyninst: the
    functions, blocks and edges of the code object with what it promises of them
    ([view_ok], [one_block]), the immediate operands of the instructions, and for the
    policy bin-cfi the record [binary]: sections, functions, blocks and operands, and the
    value C++ leaves open when pointers are subtracted that are no whole number of
    words apart.  The output of the script that resolves indirect calls.  In the
    program: what Dyninst finds in the process and which changes it accepts ([process]), the
    results of [open], [fcntl], [close] and [malloc], and [pthread_create] of the C
    library, which returns.
    Jit.v is stated for any [retouch] that extends the graph; the real one does.
    Where a theorem needs that different branches have different digests, it
    assumes this of the states it is about ([no_digest_collision]), and the same of
    the 64-bit signatures of cycles ([no_collision]).

    ** Not modelled

    Printing and the statistics sysctl table; spin locks and the table mutexes,
    whose critical sections are atomic steps here; the readers of text files in
    lbr-state.h; the signal handler of lbr_analysis_pass.C; value parsers of types no option
    has; the methods of arms_dyninst_cfg.c on BPatch objects, which nothing
    calls; the dump tool and the assembly stubs; the third-party trees. *)

From Stdlib Require Export ZArith Lia.
From stdpp Require Export base numbers list gmap strings.

Declare Scope pa_scope.
Delimit Scope pa_scope with pa.
Open Scope Z_scope.

(** ** Machine integers

    A w-bit unsigned integer is a [Z] kept in [0, 2^w) by an explicit wrap. *)

Definition u64 (z : Z) : Z := z mod 2 ^ 64.
Definition u32 (z : Z) : Z := z mod 2 ^ 32.
Definition u8 (z : Z) : Z := z mod 2 ^ 8.

#[global] Arguments u64 _ : simpl never.
#[global] Arguments u32 _ : simpl never.
#[global] Arguments u8 _ : simpl never.

(** The signed reading of a 64-bit (32-bit) pattern. *)
Definition s64 (z : Z) : Z := if decide (u64 z < 2 ^ 63) then u64 z else u64 z - 2 ^ 64.
Definition s32 (z : Z) : Z := if decide (u32 z < 2 ^ 31) then u32 z else u32 z - 2 ^ 32.

Definition is_u64 (z : Z) : Prop := 0 <= z < 2 ^ 64.

(** C truth: an integer used as a condition. *)
Definition c_true (z : Z) : bool := negb (Z.eqb z 0).

(** The NULL pointer; a pointer is its address. *)
Definition NULL : Z := 0.

Create HintDb pa.
Create Rewrite HintDb pa.

Lemma u64_range z : 0 <= u64 z < 2 ^ 64.
Proof. unfold u64. apply Z.mod_pos_bound. lia. Qed.

Lemma u64_small z : is_u64 z -> u64 z = z.
Proof. unfold is_u64. intros. unfold u64. apply Z.mod_small. lia. Qed.

Lemma u64_idemp z : u64 (u64 z) = u64 z.
Proof. apply u64_small, u64_range. Qed.

Lemma u64_add_l a b : u64 (u64 a + b) = u64 (a + b).
Proof. unfold u64. apply Zplus_mod_idemp_l. Qed.

Lemma u64_add_r a b : u64 (a + u64 b) = u64 (a + b).
Proof. unfold u64. apply Zplus_mod_idemp_r. Qed.

Lemma u64_testbit z i : 0 <= i -> Z.testbit (u64 z) i = if decide (i < 64) then Z.testbit z i else false.
Proof.
  intros Hi. unfold u64. case_decide.
  - apply Z.mod_pow2_bits_low; lia.
  - apply Z.mod_pow2_bits_high; lia.
Qed.

#[export] Hint Resolve u64_range u64_small u64_idemp : pa.
#[global] Hint Rewrite u64_idemp u64_add_l u64_add_r : pa.

(** ** Counted loops

    [for_up n body s] is [for (i = 0; i < n; i++) body], the state threaded. *)

Definition for_up {S : Type} (n : nat) (body : nat -> S -> S) (s : S) : S :=
  foldl (fun s i => body i s) s (seq 0 n).

Lemma for_up_S {S} n (body : nat -> S -> S) s :
  for_up (Datatypes.S n) body s = body n (for_up n body s).
Proof. unfold for_up. rewrite seq_S, foldl_app. done. Qed.

(** Loop invariants: [I i s] holds before iteration [i]. *)
Lemma for_up_ind {S} (I : nat -> S -> Prop) n (body : nat -> S -> S) s :
  I 0%nat s ->
  (forall i s, (i < n)%nat -> I i s -> I (Datatypes.S i) (body i s)) ->
  I n (for_up n body s).
Proof.
  intros H0 Hstep.
  assert (forall m, (m <= n)%nat -> I m (for_up m body s)) as H; [|apply H; lia].
  induction m as [|m IH]; intros Hm; [done|].
  rewrite for_up_S. apply Hstep; [lia|]. apply IH. lia.
Qed.

(** ** Little-endian encoding of machine words (x86) *)

Fixpoint le_bytes (n : nat) (z : Z) : list Z :=
  match n with
  | O => []
  | S n => z mod 256 :: le_bytes n (z / 256)
  end.

Fixpoint le_word (l : list Z) : Z :=
  match l with
  | [] => 0
  | b :: l => b + 256 * le_word l
  end.

Lemma length_le_bytes n z : length (le_bytes n z) = n.
Proof. revert z. induction n as [|n IH]; intros z; simpl; congruence. Qed.

Lemma le_word_bytes n z : 0 <= z < 256 ^ Z.of_nat n -> le_word (le_bytes n z) = z.
Proof.
  revert z. induction n as [|n IH]; intros z Hz.
  - simpl in *. lia.
  - rewrite Nat2Z.inj_succ, Z.pow_succ_r in Hz by lia. cbn [le_bytes le_word].
    rewrite IH.
    + pose proof (Z.div_mod z 256). lia.
    + split; [apply Z.div_pos; lia|]. apply Z.div_lt_upper_bound; lia.
Qed.

Lemma le_bytes_u64_inj a b : is_u64 a -> is_u64 b -> le_bytes 8 a = le_bytes 8 b -> a = b.
Proof.
  unfold is_u64. intros Ha Hb Heq.
  rewrite <- (le_word_bytes 8 a), <- (le_word_bytes 8 b) by (simpl; lia). by rewrite Heq.
Qed.

(** ** Lists *)

Lemma app_inj_length {A} (a b c d : list A) :
  length a = length c -> a ++ b = c ++ d -> a = c /\ b = d.
Proof. intros. by apply app_inj_1. Qed.

Lemma cons_inj {A} (x y : A) l k : x :: l = y :: k -> x = y /\ l = k.
Proof. by intros [= -> ->]. Qed.

Lemma Some_pair_inj {A B} (a c : A) (b d : B) : Some (a, b) = Some (c, d) -> a = c /\ b = d.
Proof. by intros [= -> ->]. Qed.

Lemma lookup_total_seq_map {A} `{Inhabited A} (f : nat -> A) n i :
  (i < n)%nat -> (f <$> seq 0 n) !!! i = f i.
Proof.
  intros Hi. apply list_lookup_total_correct.
  rewrite list_lookup_fmap, lookup_seq_lt by lia. done.
Qed.

(** A loop over an array that rewrites each element and carries a state. *)
Fixpoint map_accum {S A B} (f : S -> A -> S * B) (s : S) (l : list A) : S * list B :=
  match l with
  | [] => (s, [])
  | x :: l =>
      let '(s, y) := f s x in
      let '(s, ys) := map_accum f s l in
      (s, y :: ys)
  end.

Lemma length_map_accum {S A B} (f : S -> A -> S * B) s l : length (map_accum f s l).2 = length l.
Proof.
  revert s. induction l as [|x l IH]; intros s; simpl; [done|].
  destruct (f s x) as [s1 y]. specialize (IH s1). destruct (map_accum f s1 l). simpl in *. lia.
Qed.

(** The state at the end: [J] holds if every step keeps it and some step, or
    the start, establishes it. *)
Lemma map_accum_state {S A B} (J : S -> Prop) (f : S -> A -> S * B) l s :
  (forall s x, x ∈ l -> J s -> J (f s x).1) ->
  J s \/ (exists x, x ∈ l /\ forall s, J (f s x).1) ->
  J (map_accum f s l).1.
Proof.
  revert s. induction l as [|x l IH]; intros s Hkeep Hest; simpl.
  - destruct Hest as [?|(x & Hx & _)]; [done|]. by apply elem_of_nil in Hx.
  - pose proof (Hkeep s x) as Hk. destruct (f s x) as [s1 y] eqn:Hf.
    specialize (IH s1). destruct (map_accum f s1 l) as [s2 ys]. simpl in *.
    apply IH; [intros; apply Hkeep; [by right|done]|].
    destruct Hest as [HJ|(z & Hz & HJ)].
    + left. apply Hk; [by left|done].
    + apply elem_of_cons in Hz as [->|Hz].
      * left. specialize (HJ s). by rewrite Hf in HJ.
      * right. eauto.
Qed.

Lemma map_accum_fmap {S A A' B} (h : A -> A') (f : S -> A' -> S * B) l s :
  map_accum f s (h <$> l) = map_accum (fun s x => f s (h x)) s l.
Proof.
  revert s. induction l as [|x l IH]; intros s; simpl; [done|].
  destruct (f s (h x)). by rewrite IH.
Qed.

(** The output, elementwise, when it does not depend on the state. *)
Lemma map_accum_map {S A B} (g : A -> B) (f : S -> A -> S * B) l s :
  (forall s x, x ∈ l -> (f s x).2 = g x) -> (map_accum f s l).2 = g <$> l.
Proof.
  revert s. induction l as [|x l IH]; intros s Hf; simpl; [done|].
  pose proof (Hf s x) as Hx. destruct (f s x) as [s1 y]. simpl in *.
  specialize (IH s1). destruct (map_accum f s1 l) as [s2 ys]. simpl in *.
  rewrite Hx by (by left). f_equal. apply IH. intros. apply Hf. by right.
Qed.

(** [mapM] of a total function on the elements at hand. *)
Lemma mapM_Some_map {A B} (f : A -> option B) (g : A -> B) l :
  (forall x, x ∈ l -> f x = Some (g x)) -> mapM f l = Some (g <$> l).
Proof.
  induction l as [|x l IH]; intros Hf; simpl; [done|].
  rewrite Hf, IH; [done| |by left]. intros. apply Hf. by right.
Qed.

(** Filling an array by index. *)
Lemma fmap_seq_lookup {A} `{Inhabited A} (f : nat -> A) (l : list A) :
  (forall i, (i < length l)%nat -> f i = l !!! i) -> f <$> seq 0 (length l) = l.
Proof.
  intros Hf. apply list_eq. intros i. rewrite list_lookup_fmap.
  destruct (decide (i < length l)%nat) as [Hi|Hi].
  - rewrite lookup_seq_lt by done. simpl. rewrite Hf by done.
    symmetry. by apply list_lookup_lookup_total_lt.
  - rewrite lookup_seq_ge, lookup_ge_None_2 by lia. done.
Qed.

(** [concat] of blocks of equal positive length is injective. *)
Lemma concat_inj {A} (n : nat) (l k : list (list A)) :
  Forall (fun x => length x = n) l -> Forall (fun x => length x = n) k ->
  length l = length k -> concat l = concat k -> l = k.
Proof.
  revert k. induction l as [|x l IH]; intros [|y k] Hl Hk Hlen Heq; try done; simpl in *; try lia.
  decompose_Forall_hyps.
  apply app_inj_length in Heq as [-> ?]; [|congruence].
  f_equal. apply IH; auto.
Qed.

(** ** Refinement of an event-driven component

    A component reacts to events; its contract is a partial function on an
    abstract state, undefined on the event sequences it does not support.
    [Refinement impl spec] is what a component promises to its clients: along
    every supported sequence the implementation produces the outputs of the
    contract. *)

Class Refinement {I S E O : Type} (impl : E -> I -> I * O) (spec : E -> S -> option (S * O)) := {
  ref_rel : I -> S -> Prop;
  ref_step ev i s s' o :
    ref_rel i s -> spec ev s = Some (s', o) ->
    exists i', impl ev i = (i', o) /\ ref_rel i' s'
}.

Section runs.
Context {I S E O : Type} (impl : E -> I -> I * O) (spec : E -> S -> option (S * O)).

Fixpoint impl_run (evs : list E) (i : I) : I * list O :=
  match evs with
  | [] => (i, [])
  | ev :: evs =>
      let '(i, o) := impl ev i in
      let '(i, os) := impl_run evs i in
      (i, o :: os)
  end.

Fixpoint spec_run (evs : list E) (s : S) : option (S * list O) :=
  match evs with
  | [] => Some (s, [])
  | ev :: evs =>
      match spec ev s with
      | None => None
      | Some (s, o) =>
          match spec_run evs s with
          | None => None
          | Some (s, os) => Some (s, o :: os)
          end
      end
  end.

Lemma run_simulates `{!Refinement impl spec} evs i s s' os :
  ref_rel i s -> spec_run evs s = Some (s', os) ->
  exists i', impl_run evs i = (i', os) /\ ref_rel i' s'.
Proof.
  revert i s os. induction evs as [|ev evs IH]; intros i s os HR; cbn [spec_run impl_run].
  - intros [= <- <-]. eauto.
  - destruct (spec ev s) as [[s1 o]|] eqn:He; [|done].
    destruct (spec_run evs s1) as [[s2 os']|] eqn:Hr; [|done]. intros [= <- <-].
    destruct (ref_step ev i s s1 o HR He) as (i1 & -> & HR1).
    destruct (IH i1 s1 os' HR1 Hr) as (i2 & -> & HR2). eauto.
Qed.

(** A part of the abstract state no event of the sequence touches. *)
Lemma spec_run_frame {V} (view : S -> V) evs s s' os :
  Forall (fun ev => forall s s' o, spec ev s = Some (s', o) -> view s' = view s) evs ->
  spec_run evs s = Some (s', os) -> view s' = view s.
Proof.
  intros Hevs. revert s os. induction Hevs as [|ev evs Hev _ IH]; intros s os; cbn [spec_run].
  - by intros [= <- <-].
  - destruct (spec ev s) as [[s1 o]|] eqn:He; [|done].
    destruct (spec_run evs s1) as [[s2 os']|] eqn:Hr; [|done]. intros [= <- <-].
    rewrite (IH _ _ Hr). by eapply Hev.
Qed.

Lemma spec_run_app evs1 evs2 s :
  spec_run (evs1 ++ evs2) s =
    '(s1, os1) ← spec_run evs1 s; '(s2, os2) ← spec_run evs2 s1; Some (s2, os1 ++ os2).
Proof.
  revert s. induction evs1 as [|ev evs1 IH]; intros s; cbn [spec_run app].
  - simpl. destruct (spec_run evs2 s) as [[]|]; done.
  - destruct (spec ev s) as [[s1 o]|]; [|done]. rewrite IH.
    destruct (spec_run evs1 s1) as [[s2 os1]|]; [|done]. simpl.
    destruct (spec_run evs2 s2) as [[]|]; done.
Qed.

End runs.
