(* ===== verification/Slots.v ===== *)
(** Fixed tables of slots owned by tasks.

    The kernel module keeps every piece of per-task state in a statically
    allocated array whose slots carry a [task_struct] pointer, with [NULL]
    marking a free slot: [lbr_cache] in lkm/lbr.c and [lib_data], [cbk_data]
    and [sig_data] in lkm/armor.c.  This file is the theory the four share:
    looking up a task's slot, and what writing one slot does to the lookup of
    every task. *)

From S2P Require Import Prelude.

(** The owner field of a slot. *)
Class Keyed (A : Type) := slot_key : A -> Z.

Section slots.
Context {A : Type} `{Keyed A}.
Implicit Types (l : list A) (t : Z) (x old : A).

(** First slot whose owner is [t], as the module's linear scans find it. *)
Definition slot_find (t : Z) (l : list A) : option (nat * A) :=
  list_find (fun x => slot_key x = t) l.

Definition slot_get (t : Z) (l : list A) : option A := snd <$> slot_find t l.

(** A task owns at most one slot. *)
Definition slots_uniq (l : list A) : Prop :=
  forall i j x y, l !! i = Some x -> l !! j = Some y ->
    slot_key x = slot_key y -> slot_key x <> NULL -> i = j.

Lemma slot_find_Some t l i x :
  slot_find t l = Some (i, x) -> l !! i = Some x /\ slot_key x = t.
Proof. intros (?&?&?)%list_find_Some. done. Qed.

Lemma slot_find_None t l i x :
  slot_find t l = None -> l !! i = Some x -> slot_key x <> t.
Proof. intros Hn%list_find_None Hi. by eapply Forall_lookup_1 in Hn. Qed.

Lemma slot_get_None t l : slot_get t l = None <-> slot_find t l = None.
Proof. unfold slot_get. apply fmap_None. Qed.

Lemma slot_get_Some_1 t l x :
  slot_get t l = Some x -> exists i, l !! i = Some x /\ slot_key x = t.
Proof.
  unfold slot_get. intros ([i y] & Hf & ->)%fmap_Some. exists i. by apply slot_find_Some.
Qed.

Lemma slot_get_key t l x : slot_get t l = Some x -> slot_key x = t.
Proof. by intros (? & _ & ?)%slot_get_Some_1. Qed.

(** With unique owners the scan finds a task's slot wherever it is. *)
Lemma slot_find_uniq l i x :
  slots_uniq l -> slot_key x <> NULL -> l !! i = Some x ->
  slot_find (slot_key x) l = Some (i, x).
Proof.
  intros Hu Hk Hi.
  destruct (slot_find (slot_key x) l) as [[j y]|] eqn:Hf.
  - apply slot_find_Some in Hf as [Hj Hkey].
    assert (i = j) as <- by (eapply Hu; eauto). congruence.
  - exfalso. by eapply slot_find_None.
Qed.

Lemma slot_get_Some t l x :
  slots_uniq l -> t <> NULL ->
  slot_get t l = Some x <-> exists i, l !! i = Some x /\ slot_key x = t.
Proof.
  intros Hu Ht. split; [apply slot_get_Some_1|].
  intros (i & Hi & <-). unfold slot_get. by rewrite (slot_find_uniq l i x).
Qed.

(** Writing one slot.  The new owner is nobody, the old owner, or a task that
    owned no slot; then owners stay unique and exactly the two owners involved
    see a difference. *)
Section write.
Context (l : list A) (i : nat) (old x : A).
Hypothesis Hu : slots_uniq l.
Hypothesis Hi : l !! i = Some old.
Hypothesis Hown : slot_key x = NULL \/ slot_key x = slot_key old \/ slot_get (slot_key x) l = None.

Lemma slots_uniq_insert : slots_uniq (<[i := x]> l).
Proof.
  assert (forall j y, l !! j = Some y -> slot_key y = slot_key x -> slot_key x <> NULL -> j = i) as Hx.
  { intros j y Hj Hy Hn. destruct Hown as [?|[He|He]]; [done| |].
    - eapply Hu; eauto; congruence.
    - exfalso. eapply slot_find_None; [by apply slot_get_None|exact Hj|done]. }
  intros j k y z Hj Hk Hyz Hn.
  apply list_lookup_insert_Some in Hj as [(<- & <- & ?)|[? Hj]];
    apply list_lookup_insert_Some in Hk as [(<- & <- & ?)|[? Hk]]; eauto.
  - symmetry. eapply Hx; eauto.
  - eapply Hx; eauto; congruence.
Qed.

Lemma slot_get_insert t :
  t <> NULL ->
  slot_get t (<[i := x]> l) =
    if decide (t = slot_key x) then Some x
    else if decide (t = slot_key old) then None else slot_get t l.
Proof.
  intros Ht. apply option_eq. intros y.
  rewrite slot_get_Some by eauto using slots_uniq_insert.
  assert (i < length l)%nat as Hlt by (by eapply lookup_lt_Some).
  split.
  - intros (j & Hj & Hk).
    apply list_lookup_insert_Some in Hj as [(<- & <- & ?)|[Hne Hj]].
    + by rewrite decide_True.
    + case_decide as Hd1.
      { exfalso. subst t. destruct Hown as [Hown'|[He|He]].
        - congruence.
        - apply Hne. eapply Hu; eauto; congruence.
        - eapply slot_find_None; [by apply slot_get_None|exact Hj|done]. }
      rewrite decide_False.
      { apply slot_get_Some; eauto. }
      intros ->. apply Hne. eapply Hu; eauto; congruence.
  - case_decide as Hd1.
    { intros [= ->]. exists i. rewrite list_lookup_insert_eq by done. by subst. }
    case_decide as Hd2; [done|].
    intros (j & Hj & Hk)%slot_get_Some_1. exists j.
    rewrite list_lookup_insert_ne; [done|]. intros ->. congruence.
Qed.
End write.

(** A task owns a slot exactly when some slot names it; a table with no free
    slot has no slot owned by [NULL]. *)
Lemma slot_free_Some l i x : slot_find NULL l = Some (i, x) -> l !! i = Some x /\ slot_key x = NULL.
Proof. apply slot_find_Some. Qed.

(** Capacity: while fewer tasks than slots are recorded, a slot is free. *)
Lemma slots_free_exists l (D : gset Z) :
  slots_uniq l ->
  (forall i x, l !! i = Some x -> slot_key x <> NULL -> slot_key x ∈ D) ->
  (size D < length l)%nat -> is_Some (slot_find NULL l).
Proof.
  intros Hu HD Hsz. destruct (slot_find NULL l) as [p|] eqn:Hf; [eauto|exfalso].
  assert (forall i x, l !! i = Some x -> slot_key x <> NULL) as Hnn
    by (intros i x; by apply slot_find_None).
  assert (NoDup (slot_key <$> l)) as Hnd.
  { apply NoDup_alt. intros i j k Hi Hj.
    apply list_lookup_fmap_Some in Hi as (x & -> & Hx).
    apply list_lookup_fmap_Some in Hj as (y & Hy & Hjy). eapply Hu; eauto. }
  assert (list_to_set (C:=gset Z) (slot_key <$> l) ⊆ D) as Hsub%subseteq_size.
  { intros k. rewrite elem_of_list_to_set, list_elem_of_fmap.
    intros (x & -> & Hx). apply list_elem_of_lookup in Hx as [i Hi]. eauto. }
  rewrite size_list_to_set, length_fmap in Hsub by done. lia.
Qed.

Lemma slots_uniq_free n x : slot_key x = NULL -> slots_uniq (replicate n x).
Proof.
  intros Hk i j y z [-> _]%lookup_replicate. congruence.
Qed.

Lemma slot_get_free n x t : slot_key x = NULL -> t <> NULL -> slot_get t (replicate n x) = None.
Proof.
  intros Hk Ht. apply slot_get_None, list_find_None, Forall_replicate. simpl. congruence.
Qed.

End slots.

#[export] Hint Resolve slots_uniq_insert slots_uniq_free : pa.
