(* ===== verification/Lbr.v ===== *)
(** The Last Branch Record layer of the kernel module: lkm/lbr.c and lkm/lbr.h.

    [Hw] is the register file of one CPU and the routines that read, write and
    flush it; [Stack] the two bounded stacks; [Cache] the per-task LBR cache
    used across context switches; [Digest] the hash the module computes of an
    LBR state; the supervision bits of a task close the file. *)

From S2P Require Import Prelude Slots.

(** ** Data *)

Definition LBR_ENTRIES : nat := 16.

(** [struct lbr_t]: the LBR registers of one CPU, saved for one task. *)
Record lbr_t := Lbr {
  l_debug : Z;   (* IA32_DEBUGCTL *)
  l_select : Z;  (* LBR_SELECT *)
  l_tos : Z;     (* index of the most recent branch *)
  l_from : list Z;
  l_to : list Z;
  l_task : Z     (* owner: a task_struct pointer *)
}.

#[global] Instance lbr_t_eq_dec : EqDecision lbr_t.
Proof. solve_decision. Defined.

#[global] Instance lbr_t_keyed : Keyed lbr_t := l_task.

(** A zeroed [struct lbr_t] (memset). *)
Definition lbr_zero : lbr_t :=
  Lbr 0 0 0 (replicate LBR_ENTRIES 0) (replicate LBR_ENTRIES 0) NULL.

Definition set_l_task (t : Z) (l : lbr_t) : lbr_t :=
  Lbr (l_debug l) (l_select l) (l_tos l) (l_from l) (l_to l) t.

(** ** The register file *)

Module Hw.

Definition MSR_IA32_DEBUGCTLMSR : Z := 0x1d9.
Definition MSR_LBR_SELECT : Z := 0x1c8.
Definition MSR_LBR_TOS : Z := 0x1c9.
Definition MSR_LBR_NHM_FROM : Z := 0x680.
Definition MSR_LBR_NHM_TO : Z := 0x6c0.

(** The enable bit, and the branch filter of [MSR_LBR_SELECT]. *)
Definition IA32_DEBUGCTL : Z := 0x1.
Definition LBR_SELECT : Z := 0x185.

Definition wrmsrl (a v : Z) (m : gmap Z Z) : gmap Z Z := <[a := v]> m.
Definition rdmsrl (a : Z) (m : gmap Z Z) : Z := default 0 (m !! a).

Definition LBR_SKIP : Z := 3.

(** [LBR_FROM]: drop the three flag bits by shifting them out and
    sign-extending back. *)
Definition LBR_FROM (from : Z) : Z := u64 (Z.shiftr (s64 (Z.shiftl from LBR_SKIP)) LBR_SKIP).

Definition LBR_FROM_FLAG_MISPRED : Z := Z.shiftl 1 63.
Definition LBR_FROM_FLAG_IN_TSX : Z := Z.shiftl 1 62.
Definition LBR_FROM_FLAG_ABORT : Z := Z.shiftl 1 61.

Definition flush_lbr (enable : bool) (m : gmap Z Z) : gmap Z Z :=
  let m := wrmsrl MSR_LBR_TOS 0 m in
  let m := for_up LBR_ENTRIES (fun i m =>
             let m := wrmsrl (MSR_LBR_NHM_FROM + Z.of_nat i) 0 m in
             wrmsrl (MSR_LBR_NHM_TO + Z.of_nat i) 0 m) m in
  if enable then wrmsrl MSR_IA32_DEBUGCTLMSR IA32_DEBUGCTL m
  else wrmsrl MSR_IA32_DEBUGCTLMSR 0 m.

(** [get_lbr(&lbr)]: every field but the owner is overwritten. *)
Definition get_lbr (m : gmap Z Z) (lbr : lbr_t) : lbr_t :=
  Lbr (rdmsrl MSR_IA32_DEBUGCTLMSR m)
      (rdmsrl MSR_LBR_SELECT m)
      (rdmsrl MSR_LBR_TOS m)
      ((fun i : nat => LBR_FROM (rdmsrl (MSR_LBR_NHM_FROM + Z.of_nat i) m)) <$> seq 0 LBR_ENTRIES)
      ((fun i : nat => rdmsrl (MSR_LBR_NHM_TO + Z.of_nat i) m) <$> seq 0 LBR_ENTRIES)
      (l_task lbr).

Definition put_lbr (lbr : lbr_t) (m : gmap Z Z) : gmap Z Z :=
  let m := wrmsrl MSR_IA32_DEBUGCTLMSR (l_debug lbr) m in
  let m := wrmsrl MSR_LBR_SELECT (l_select lbr) m in
  let m := wrmsrl MSR_LBR_TOS (l_tos lbr) m in
  for_up LBR_ENTRIES (fun i m =>
    let m := wrmsrl (MSR_LBR_NHM_FROM + Z.of_nat i) (l_from lbr !!! i) m in
    wrmsrl (MSR_LBR_NHM_TO + Z.of_nat i) (l_to lbr !!! i) m) m.

(** [enable_lbr]: set the filter, flush, enable. *)
Definition enable_lbr (m : gmap Z Z) : gmap Z Z :=
  flush_lbr true (wrmsrl MSR_LBR_SELECT LBR_SELECT m).

Lemma rdmsrl_wrmsrl a b v m :
  rdmsrl a (wrmsrl b v m) = if decide (a = b) then v else rdmsrl a m.
Proof.
  unfold rdmsrl, wrmsrl. case_decide as Hd.
  - subst. by rewrite lookup_insert_eq.
  - by rewrite lookup_insert_ne by congruence.
Qed.

(** The loop shared by [flush_lbr] and [put_lbr]: which register holds what
    after the branch registers were written from two value sources. *)
Definition wr_branches (f t : nat -> Z) (m : gmap Z Z) : gmap Z Z :=
  for_up LBR_ENTRIES (fun i m =>
    wrmsrl (MSR_LBR_NHM_TO + Z.of_nat i) (t i)
      (wrmsrl (MSR_LBR_NHM_FROM + Z.of_nat i) (f i) m)) m.

Lemma rdmsrl_wr_branches f t m a :
  rdmsrl a (wr_branches f t m) =
    if decide (MSR_LBR_NHM_FROM <= a < MSR_LBR_NHM_FROM + 16) then f (Z.to_nat (a - MSR_LBR_NHM_FROM))
    else if decide (MSR_LBR_NHM_TO <= a < MSR_LBR_NHM_TO + 16) then t (Z.to_nat (a - MSR_LBR_NHM_TO))
    else rdmsrl a m.
Proof.
  unfold wr_branches, LBR_ENTRIES, MSR_LBR_NHM_FROM, MSR_LBR_NHM_TO.
  set (I := fun (n : nat) m' => (n <= 16)%nat -> rdmsrl a m' =
    if decide (1664 <= a < 1664 + Z.of_nat n) then f (Z.to_nat (a - 1664))
    else if decide (1728 <= a < 1728 + Z.of_nat n) then t (Z.to_nat (a - 1728))
    else rdmsrl a m).
  enough (I 16%nat (for_up 16 (fun i m => wrmsrl (1728 + Z.of_nat i) (t i)
                      (wrmsrl (1664 + Z.of_nat i) (f i) m)) m)) as HI by (apply HI; lia).
  apply for_up_ind; subst I; simpl.
  - intros _. rewrite !decide_False by lia. done.
  - intros i m' Hi IH Hle. rewrite !rdmsrl_wrmsrl, IH by lia.
    repeat case_decide; subst; try lia; try done; f_equal; lia.
Qed.

Lemma flush_lbr_eq enable m :
  flush_lbr enable m =
    wrmsrl MSR_IA32_DEBUGCTLMSR (if enable then IA32_DEBUGCTL else 0)
      (wr_branches (fun _ => 0) (fun _ => 0) (wrmsrl MSR_LBR_TOS 0 m)).
Proof. by destruct enable. Qed.

Lemma put_lbr_eq lbr m :
  put_lbr lbr m =
    wr_branches (fun i => l_from lbr !!! i) (fun i => l_to lbr !!! i)
      (wrmsrl MSR_LBR_TOS (l_tos lbr)
        (wrmsrl MSR_LBR_SELECT (l_select lbr)
          (wrmsrl MSR_IA32_DEBUGCTLMSR (l_debug lbr) m))).
Proof. done. Qed.

Create Rewrite HintDb msr.
#[global] Hint Rewrite rdmsrl_wr_branches rdmsrl_wrmsrl : msr.

(** Decide every register comparison left by the lookup lemmas. *)
Ltac msr := autorewrite with msr;
  unfold MSR_IA32_DEBUGCTLMSR, MSR_LBR_SELECT, MSR_LBR_TOS, MSR_LBR_NHM_FROM, MSR_LBR_NHM_TO, LBR_ENTRIES in *;
  repeat case_decide; try lia; try done.

(** *** [LBR_FROM] *)

Lemma LBR_FROM_alt z :
  LBR_FROM z = if Z.testbit z 60 then z mod 2 ^ 61 + 7 * 2 ^ 61 else z mod 2 ^ 61.
Proof.
  unfold LBR_FROM, s64, LBR_SKIP, u64. rewrite Z.shiftl_mul_pow2, Z.shiftr_div_pow2 by lia.
  change (2 ^ 64) with (2 ^ 61 * 2 ^ 3). rewrite Z.mul_mod_distr_r by lia.
  assert (0 <= z mod 2 ^ 61 < 2 ^ 61) as Hr by (apply Z.mod_pos_bound; lia).
  rewrite <- (Z.mod_pow2_bits_low z 61) by lia. set (r := z mod 2 ^ 61) in *.
  assert (Z.testbit r 60 = bool_decide (2 ^ 60 <= r)) as ->.
  { rewrite Z.testbit_eqb by lia. case_bool_decide as Hb.
    - rewrite <- (Z.div_unique r (2 ^ 60) 1 (r - 2 ^ 60)) by lia. done.
    - rewrite Z.div_small by lia. done. }
  repeat case_decide; case_bool_decide; try lia.
  - rewrite Z.div_mul by lia. apply Z.mod_small. lia.
  - replace (r * 2 ^ 3 - 2 ^ 61 * 2 ^ 3) with ((r - 2 ^ 61) * 2 ^ 3) by lia.
    rewrite Z.div_mul by lia.
    rewrite <- (Z_mod_plus_full _ 1), Z.mod_small; lia.
Qed.

Lemma LBR_FROM_range z : is_u64 (LBR_FROM z).
Proof. unfold LBR_FROM. apply u64_range. Qed.

Lemma LBR_FROM_idemp z : LBR_FROM (LBR_FROM z) = LBR_FROM z.
Proof.
  assert (0 <= z mod 2 ^ 61 < 2 ^ 61) as Hr by (apply Z.mod_pos_bound; lia).
  assert (LBR_FROM z mod 2 ^ 61 = z mod 2 ^ 61) as Hm.
  { rewrite LBR_FROM_alt. destruct (Z.testbit z 60).
    - rewrite Z_mod_plus_full. apply Z.mod_small; lia.
    - apply Z.mod_small; lia. }
  rewrite (LBR_FROM_alt (LBR_FROM z)), Hm.
  rewrite <- (Z.mod_pow2_bits_low (LBR_FROM z) 61), Hm, Z.mod_pow2_bits_low by lia.
  symmetry. apply LBR_FROM_alt.
Qed.

(** *** Reading back what was written *)

(** The canonical form [get_lbr] produces: both arrays have sixteen entries,
    and the sources carry no flag bits. *)
Definition lbr_wf (l : lbr_t) : Prop :=
  length (l_from l) = LBR_ENTRIES /\ length (l_to l) = LBR_ENTRIES /\
  Forall (fun a => LBR_FROM a = a) (l_from l).

Lemma get_lbr_wf m l : lbr_wf (get_lbr m l).
Proof.
  unfold lbr_wf, get_lbr; simpl. repeat split; repeat constructor; apply LBR_FROM_idemp.
Qed.

(** The sixteen branch registers, read back as an array. *)
Lemma regs_eq (f : nat -> Z) (l : list Z) :
  length l = LBR_ENTRIES -> (forall i, (i < 16)%nat -> f i = l !!! i) -> f <$> seq 0 LBR_ENTRIES = l.
Proof. intros Hl Hf. rewrite <- Hl. apply fmap_seq_lookup. rewrite Hl. apply Hf. Qed.

Lemma get_put_lbr l l' m :
  lbr_wf l -> get_lbr (put_lbr l m) l' = set_l_task (l_task l') l.
Proof.
  intros (Hf & Ht & Hc). destruct l as [db sl ts fr to tk]; simpl in *.
  unfold get_lbr, set_l_task; rewrite put_lbr_eq; simpl l_debug; simpl l_select; simpl l_tos.
  f_equal; [msr|msr|msr| |]; apply regs_eq; try done; intros i Hi;
    rewrite rdmsrl_wr_branches; unfold MSR_LBR_NHM_FROM, MSR_LBR_NHM_TO.
  - rewrite decide_True by lia. replace (Z.to_nat _) with i by lia.
    apply (Forall_lookup_1 _ _ i _ Hc). apply list_lookup_lookup_total_lt. simpl. rewrite Hf. apply Hi.
  - rewrite decide_False, decide_True by lia. f_equal. lia.
Qed.

Lemma get_flush_lbr en m l :
  get_lbr (flush_lbr en m) l =
    Lbr (if en then IA32_DEBUGCTL else 0) (rdmsrl MSR_LBR_SELECT m) 0
        (replicate LBR_ENTRIES 0) (replicate LBR_ENTRIES 0) (l_task l).
Proof.
  rewrite flush_lbr_eq. unfold get_lbr. f_equal; [msr|msr|msr| |];
    apply regs_eq; try apply length_replicate; intros i Hi;
    rewrite lookup_total_replicate_2 by done; msr.
Qed.

End Hw.

(** ** Bounded stacks

    [struct stack_t] and [struct stack_lbr_t] are the same structure over two
    element types.  A push on a full stack and a pop of an empty one send
    [SIGKILL] to the current task and leave the stack alone; the boolean each
    operation returns says whether that happened. *)

Module Stack.

Definition STACKSIZE : nat := 8.

Record stack (A : Type) := Stk { s_size : nat; s_items : list A }.
Arguments Stk {A}.
Arguments s_size {A}.
Arguments s_items {A}.

#[global] Instance stack_eq_dec `{EqDecision A} : EqDecision (stack A).
Proof. solve_decision. Defined.

#[global] Instance lbr_inhabited : Inhabited lbr_t := populate lbr_zero.

Definition stack_zero {A} (z : A) : stack A := Stk 0 (replicate STACKSIZE z).

Definition stack_push (s : stack Z) (u : Z) : stack Z * bool :=
  if decide (s_size s = STACKSIZE) then (s, true)
  else (Stk (s_size s + 1) (<[s_size s := u]> (s_items s)), false).

Definition stack_pop (s : stack Z) : Z * stack Z * bool :=
  if decide (s_size s = 0%nat) then (0, s, true)
  else let n := (s_size s - 1)%nat in
       (s_items s !!! n, Stk n (s_items s), false).

(** Pushing an LBR state reads it from the registers of the current CPU. *)
Definition lbr_stack_push (m : gmap Z Z) (s : stack lbr_t) : stack lbr_t * bool :=
  if decide (s_size s = STACKSIZE) then (s, true)
  else (Stk (s_size s + 1) (<[s_size s := Hw.get_lbr m (s_items s !!! s_size s)]> (s_items s)), false).

(** Popping one writes it back. *)
Definition lbr_stack_pop (m : gmap Z Z) (s : stack lbr_t) : gmap Z Z * stack lbr_t * bool :=
  if decide (s_size s = 0%nat) then (m, s, true)
  else let n := (s_size s - 1)%nat in
       (Hw.put_lbr (s_items s !!! n) m, Stk n (s_items s), false).

(** Type invariant, and the abstract stack, top first. *)
Definition stack_wf {A} (s : stack A) : Prop :=
  (s_size s <= STACKSIZE)%nat /\ length (s_items s) = STACKSIZE.

Definition stack_elems {A} (s : stack A) : list A := reverse (take (s_size s) (s_items s)).

Lemma stack_zero_wf {A} (z : A) : stack_wf (stack_zero z).
Proof. split; simpl; unfold STACKSIZE; [lia|done]. Qed.

Lemma stack_elems_length {A} (s : stack A) : stack_wf s -> length (stack_elems s) = s_size s.
Proof. intros [? ?]. unfold stack_elems. rewrite length_reverse, length_take. lia. Qed.

Lemma stack_write_elems {A} (s : stack A) u :
  stack_wf s -> s_size s <> STACKSIZE ->
  stack_wf (Stk (s_size s + 1) (<[s_size s := u]> (s_items s))) /\
  stack_elems (Stk (s_size s + 1) (<[s_size s := u]> (s_items s))) = u :: stack_elems s.
Proof.
  intros [Hsz Hlen] Hne. unfold stack_wf, stack_elems; simpl. rewrite length_insert.
  split; [split; [lia|done]|].
  rewrite Nat.add_1_r, (take_S_r _ _ u) by (apply list_lookup_insert_eq; lia).
  by rewrite take_insert_ge, reverse_snoc by lia.
Qed.

Lemma stack_drop_elems {A} `{Inhabited A} (s : stack A) :
  stack_wf s -> s_size s <> 0%nat ->
  stack_wf (Stk (s_size s - 1) (s_items s)) /\
  stack_elems s = s_items s !!! (s_size s - 1)%nat :: stack_elems (Stk (s_size s - 1) (s_items s)).
Proof.
  intros [Hsz Hlen] Hne. unfold stack_wf, stack_elems; simpl. split; [split; [lia|done]|].
  destruct (s_size s) as [|n]; [done|]. simpl. rewrite Nat.sub_0_r.
  rewrite (take_S_r _ _ (s_items s !!! n)) by (apply list_lookup_lookup_total_lt; lia).
  by rewrite reverse_snoc.
Qed.

Lemma stack_elems_cons {A} (s : stack A) x r : stack_elems s = x :: r -> s_size s <> 0%nat.
Proof. unfold stack_elems. intros He Hz. rewrite Hz in He. done. Qed.

Lemma stack_push_spec s u :
  stack_wf s -> (s_size s < STACKSIZE)%nat ->
  exists s', stack_push s u = (s', false) /\ stack_wf s' /\ stack_elems s' = u :: stack_elems s.
Proof.
  intros Hwf Hlt. unfold stack_push. rewrite decide_False by lia.
  eexists; split; [done|]. apply stack_write_elems; [done|lia].
Qed.

Lemma stack_pop_spec s u r :
  stack_wf s -> stack_elems s = u :: r ->
  exists s', stack_pop s = (u, s', false) /\ stack_wf s' /\ stack_elems s' = r /\
             s_size s' = (s_size s - 1)%nat.
Proof.
  intros Hwf He. pose proof (stack_elems_cons _ _ _ He) as Hne.
  unfold stack_pop. rewrite decide_False by done.
  destruct (stack_drop_elems s Hwf Hne) as [Hwf' He']. rewrite He in He'. simplify_eq.
  eexists; split; [done|]. done.
Qed.

Lemma lbr_stack_push_spec m s :
  stack_wf s -> (s_size s < STACKSIZE)%nat ->
  exists s' l, lbr_stack_push m s = (s', false) /\ stack_wf s' /\
    l = Hw.get_lbr m (s_items s !!! s_size s) /\ stack_elems s' = l :: stack_elems s.
Proof.
  intros Hwf Hlt. unfold lbr_stack_push. rewrite decide_False by lia.
  eexists _, _; split; [done|].
  destruct (stack_write_elems s (Hw.get_lbr m (s_items s !!! s_size s)) Hwf); [lia|done].
Qed.

Lemma lbr_stack_pop_spec m s l r :
  stack_wf s -> stack_elems s = l :: r ->
  exists s', lbr_stack_pop m s = (Hw.put_lbr l m, s', false) /\ stack_wf s' /\ stack_elems s' = r /\
             s_size s' = (s_size s - 1)%nat.
Proof.
  intros Hwf He. pose proof (stack_elems_cons _ _ _ He) as Hne.
  unfold lbr_stack_pop. rewrite decide_False by done.
  destruct (stack_drop_elems s Hwf Hne) as [Hwf' He']. rewrite He in He'. simplify_eq.
  eexists; split; [done|]. done.
Qed.

(** The type invariant survives every operation, on every branch. *)
Lemma stack_push_wf s u : stack_wf s -> stack_wf (stack_push s u).1.
Proof.
  intros Hwf. unfold stack_push. case_decide; [done|]. by apply stack_write_elems.
Qed.

Lemma lbr_stack_push_wf m s : stack_wf s -> stack_wf (lbr_stack_push m s).1.
Proof.
  intros Hwf. unfold lbr_stack_push. case_decide; [done|]. by apply stack_write_elems.
Qed.

Lemma stack_pop_wf s : stack_wf s -> stack_wf (stack_pop s).1.2.
Proof. intros [? ?]. unfold stack_pop. case_decide; split; simpl; try done; lia. Qed.

Lemma lbr_stack_pop_wf m s : stack_wf s -> stack_wf (lbr_stack_pop m s).1.2.
Proof. intros [? ?]. unfold lbr_stack_pop. case_decide; split; simpl; try done; lia. Qed.

End Stack.

#[export] Hint Resolve Stack.stack_push_wf Stack.lbr_stack_push_wf Stack.stack_pop_wf
  Stack.lbr_stack_pop_wf Stack.stack_zero_wf : pa.

(** ** The LBR cache: saving and restoring across context switches *)

Module Cache.

Definition LBR_CACHE_SIZE : nat := 1024.

(** [init_lbr_cache]: memset to zero. *)
Definition init_lbr_cache : list lbr_t := replicate LBR_CACHE_SIZE lbr_zero.

(** [save_lbr] for task [current]: the first free slot takes the registers of
    the CPU and the task's pointer; the LBR is then switched off.  The last
    component is [saved], which is [false] when the cache was full. *)
Definition save_lbr (current : Z) (lbr_cache : list lbr_t) (m : gmap Z Z) : list lbr_t * gmap Z Z * bool :=
  let '(lbr_cache, saved) :=
    match slot_find NULL lbr_cache with
    | Some (i, e) => (<[i := set_l_task current (Hw.get_lbr m e)]> lbr_cache, true)
    | None => (lbr_cache, false)
    end in
  (lbr_cache, Hw.wrmsrl Hw.MSR_IA32_DEBUGCTLMSR 0 m, saved).

(** [restore_lbr] for task [current]: its slot is written to the registers and
    freed.  The last component is [found]. *)
Definition restore_lbr (current : Z) (lbr_cache : list lbr_t) (m : gmap Z Z) : list lbr_t * gmap Z Z * bool :=
  match slot_find current lbr_cache with
  | Some (i, e) => (<[i := set_l_task NULL e]> lbr_cache, Hw.put_lbr e m, true)
  | None => (lbr_cache, m, false)
  end.

(** The abstract cache: a finite map from suspended tasks to their registers. *)
Definition cache_rel (c : list lbr_t) (M : gmap Z lbr_t) : Prop :=
  length c = LBR_CACHE_SIZE /\ slots_uniq c /\ M !! NULL = None /\
  forall t, t <> NULL -> M !! t = slot_get t c.

Lemma cache_rel_init : cache_rel init_lbr_cache ∅.
Proof.
  split; [apply length_replicate|]. split; [by apply slots_uniq_free|].
  split; [apply lookup_empty|]. intros t Ht.
  by rewrite lookup_empty, (slot_get_free LBR_CACHE_SIZE lbr_zero).
Qed.

Lemma cache_rel_free c M :
  cache_rel c M -> (size M < LBR_CACHE_SIZE)%nat -> exists i e, slot_find NULL c = Some (i, e).
Proof.
  intros (Hlen & Hu & Hnull & Hm) Hsz.
  destruct (slots_free_exists c (dom M)) as [[i e] Hf]; eauto.
  - intros i x Hi Hk. apply elem_of_dom. exists x. rewrite Hm by done.
    unfold slot_get. by rewrite (slot_find_uniq c i x).
  - rewrite size_dom, Hlen. done.
Qed.

(** Writing slot [i] of a cache, on the abstract side. *)
Lemma cache_rel_insert c M i old x M' :
  cache_rel c M -> c !! i = Some old ->
  (slot_key x = NULL \/ slot_key x = slot_key old \/ slot_get (slot_key x) c = None) ->
  M' !! NULL = None ->
  (forall t, t <> NULL -> M' !! t =
    if decide (t = slot_key x) then Some x
    else if decide (t = slot_key old) then None else M !! t) ->
  cache_rel (<[i := x]> c) M'.
Proof.
  intros (Hlen & Hu & Hnull & Hm) Hi Hown Hnull' HM'.
  split; [by rewrite length_insert|]. split; [by eapply slots_uniq_insert|].
  split; [done|]. intros t Ht. rewrite HM', (slot_get_insert _ _ old) by done.
  repeat case_decide; auto.
Qed.

Lemma save_lbr_refines current c M m :
  current <> NULL -> cache_rel c M -> M !! current = None -> (size M < LBR_CACHE_SIZE)%nat ->
  exists c' task, save_lbr current c m = (c', Hw.wrmsrl Hw.MSR_IA32_DEBUGCTLMSR 0 m, true) /\
    task = current /\
    cache_rel c' (<[current := set_l_task current (Hw.get_lbr m lbr_zero)]> M).
Proof.
  intros Hc HR Hfresh Hsz. pose proof HR as (Hlen & Hu & Hnull & Hm).
  destruct (cache_rel_free c M HR Hsz) as (i & e & Hf).
  unfold save_lbr. rewrite Hf. eexists _, _; split; [done|]. split; [done|].
  apply slot_find_Some in Hf as [Hi Hk].
  eapply cache_rel_insert; [done|done| | |].
  - right; right. simpl. change (slot_key _) with current. by rewrite <- Hm.
  - rewrite lookup_insert_ne by done. done.
  - intros t Ht. change (slot_key (set_l_task _ _)) with current.
    destruct (decide (t = current)) as [->|Hne].
    + by rewrite lookup_insert_eq.
    + rewrite lookup_insert_ne by done. rewrite decide_False by congruence. done.
Qed.

Lemma restore_lbr_refines current c M m l :
  current <> NULL -> cache_rel c M -> M !! current = Some l ->
  exists c', restore_lbr current c m = (c', Hw.put_lbr l m, true) /\
    cache_rel c' (delete current M).
Proof.
  intros Hc HR Hl. pose proof HR as (Hlen & Hu & Hnull & Hm).
  rewrite Hm in Hl by done. unfold slot_get in Hl.
  apply fmap_Some in Hl as ([i e] & Hf & ->). simpl.
  unfold restore_lbr. rewrite Hf. eexists; split; [done|].
  apply slot_find_Some in Hf as [Hi Hk].
  eapply cache_rel_insert; [done|done|by left| |].
  - by rewrite lookup_delete_ne.
  - intros t Ht. change (slot_key (set_l_task NULL e)) with NULL. rewrite decide_False by done.
    destruct (decide (t = current)) as [->|Hne].
    + by rewrite lookup_delete_eq, decide_True.
    + rewrite lookup_delete_ne by done. rewrite decide_False by congruence. done.
Qed.

(** *** Traces of context switches

    A CPU runs supervised tasks one after the other: [EvRun] is whatever the
    running task and the hardware do to the registers, [EvOut t] the
    [sched_out] hook of task [t], [EvIn t] its [sched_in] hook. *)
Inductive sched_ev :=
| EvRun (f : gmap Z Z -> gmap Z Z)
| EvOut (t : Z)
| EvIn (t : Z).

Definition impl_ev (ev : sched_ev) (s : list lbr_t * gmap Z Z) : (list lbr_t * gmap Z Z) * unit :=
  (match ev with
   | EvRun f => (s.1, f s.2)
   | EvOut t => (save_lbr t s.1 s.2).1
   | EvIn t => (restore_lbr t s.1 s.2).1
   end, tt).

(** The contract: a task's registers are kept under its name.  [None] is a
    schedule the module does not support: a task switched out twice, switched
    in without having been switched out, or more than 1024 suspended tasks. *)
Definition spec_ev (ev : sched_ev) (s : gmap Z lbr_t * gmap Z Z) : option ((gmap Z lbr_t * gmap Z Z) * unit) :=
  let '(M, m) := s in
  match ev with
  | EvRun f => Some (M, f m, tt)
  | EvOut t =>
      if decide (t <> NULL /\ M !! t = None /\ (size M < LBR_CACHE_SIZE)%nat) then
        Some (<[t := set_l_task t (Hw.get_lbr m lbr_zero)]> M, Hw.wrmsrl Hw.MSR_IA32_DEBUGCTLMSR 0 m, tt)
      else None
  | EvIn t =>
      if decide (t <> NULL) then
        match M !! t with
        | Some l => Some (delete t M, Hw.put_lbr l m, tt)
        | None => None
        end
      else None
  end.

Definition sched_rel (i : list lbr_t * gmap Z Z) (s : gmap Z lbr_t * gmap Z Z) : Prop :=
  cache_rel i.1 s.1 /\ i.2 = s.2.

Lemma impl_ev_refines ev i s s' o :
  sched_rel i s -> spec_ev ev s = Some (s', o) ->
  exists i', impl_ev ev i = (i', o) /\ sched_rel i' s'.
Proof.
  revert ev i s s' o. intros ev [c m] [M m0] s' [] [HR Hm]. simpl in HR, Hm. subst m0. unfold impl_ev. cbn [fst snd].
  destruct ev as [f|t|t]; cbn [spec_ev].
  - intros [= <-]. eexists; split; done.
  - case_decide as Hd; [|done]. intros [= <-]. destruct Hd as (? & ? & ?).
    destruct (save_lbr_refines t c M m) as (c' & ? & -> & -> & ?); eauto. by eexists.
  - case_decide as Hd; [|done]. destruct (M !! t) as [l|] eqn:Hl; [|done]. intros [= <-].
    destruct (restore_lbr_refines t c M m l) as (c' & -> & ?); eauto. by eexists.
Qed.

#[global] Instance cache_refines : Refinement impl_ev spec_ev :=
  {| ref_rel := sched_rel; ref_step := impl_ev_refines |}.

(** Events of other tasks leave a suspended task's entry alone. *)
Definition ev_of (ev : sched_ev) : Z :=
  match ev with EvRun _ => NULL | EvOut t => t | EvIn t => t end.

Lemma spec_ev_other ev t s s' o :
  ev_of ev <> t -> spec_ev ev s = Some (s', o) -> s'.1 !! t = s.1 !! t.
Proof.
  intros Hne. destruct s as [M m], ev as [f|u|u]; simpl in *.
  - by intros [= <- <-].
  - case_decide; [|done]. intros [= <- <-]. simpl. by rewrite lookup_insert_ne.
  - case_decide; [|done]. destruct (M !! u); [|done]. intros [= <- <-]. simpl. by rewrite lookup_delete_ne.
Qed.

End Cache.

(** ** Statistics *)

(** The counters of [struct armor_stats]. *)
Inductive armor_stat :=
| St_sig_enter | St_sig_return | St_lib_enter | St_lib_return | St_cbk_enter | St_cbk_return
| St_new_tasks | St_tasks_exit
| St_execve | St_mmap | St_mmap_exec | St_read | St_write | St_mprotect | St_mprotect_exec | St_sigaction
| St_sched_out | St_sched_in | St_digests
| St_offline_lookups | St_offline_hits | St_offline_misses
| St_jit_lookups | St_jit_cache_hits | St_jit_requests | St_jit_hits | St_jit_unsupported
| St_jit_misses | St_jit_busy | St_jit_timeouts
| St_offline_cache_size | St_jit_cache_size | St_jit_sec | St_jit_usec.

#[global] Instance armor_stat_eq_dec : EqDecision armor_stat.
Proof. solve_decision. Defined.

Definition armor_stats : Type := armor_stat -> Z.

(** [ARMOR_STAT_ADD] and [ARMOR_STAT_INC] on 64-bit counters. *)
Definition ARMOR_STAT_ADD (f : armor_stat) (y : Z) (st : armor_stats) : armor_stats :=
  fun g => if decide (f = g) then u64 (st f + y) else st g.
Definition ARMOR_STAT_INC (f : armor_stat) (st : armor_stats) : armor_stats := ARMOR_STAT_ADD f 1 st.

(** ** The digest of an LBR state *)

Module Digest.

Definition DIGEST_LENGTH : nat := 16.

(** The byte stream of one branch pair, as two [sizeof(uint64_t)] updates. *)
Definition pair_bytes (p : Z * Z) : list Z := le_bytes 8 p.1 ++ le_bytes 8 p.2.

(** The pairs of an LBR, newest first: entry [i] is at [(tos - i) % 16], the
    subtraction in [uint64_t]. *)
Definition lbr_window (l : lbr_t) : list (Z * Z) :=
  (fun i : nat =>
     let k := Z.to_nat (u64 (l_tos l - Z.of_nat i) mod Z.of_nat LBR_ENTRIES) in
     (l_from l !!! k, l_to l !!! k)) <$> seq 0 LBR_ENTRIES.

Section hash.
(** The kernel's digest of a byte stream, fed by [crypto_hash_update]. *)
Context (md4 : list Z -> list Z).

Definition hash_lbr (l : lbr_t) (st : armor_stats) : list Z * armor_stats :=
  (md4 (concat (pair_bytes <$> lbr_window l)), ARMOR_STAT_INC St_digests st).

End hash.

Lemma length_pair_bytes p : length (pair_bytes p) = 16%nat.
Proof. unfold pair_bytes. by rewrite length_app, !length_le_bytes. Qed.

Lemma length_lbr_window l : length (lbr_window l) = 16%nat.
Proof. done. Qed.

Definition pair_u64 (p : Z * Z) : Prop := is_u64 p.1 /\ is_u64 p.2.

Lemma pair_bytes_inj p q : pair_u64 p -> pair_u64 q -> pair_bytes p = pair_bytes q -> p = q.
Proof.
  intros [Hp1 Hp2] [Hq1 Hq2] Heq. destruct p as [a b], q as [c d]; simpl in *.
  apply app_inj_length in Heq as [H1 H2]; [|by rewrite !length_le_bytes].
  f_equal; by apply le_bytes_u64_inj.
Qed.

Lemma pair_bytes_blocks ps : Forall (fun x => length x = 16%nat) (pair_bytes <$> ps).
Proof. apply Forall_fmap, Forall_true. intros. apply length_pair_bytes. Qed.

Lemma length_pairs_bytes ps : length (concat (pair_bytes <$> ps)) = (16 * length ps)%nat.
Proof.
  induction ps as [|p ps IH]; [done|].
  rewrite fmap_cons. cbn [concat length]. rewrite length_app, length_pair_bytes, IH. lia.
Qed.

Lemma pairs_bytes_inj ps qs :
  Forall pair_u64 ps -> Forall pair_u64 qs -> length ps = length qs ->
  concat (pair_bytes <$> ps) = concat (pair_bytes <$> qs) -> ps = qs.
Proof.
  intros Hp Hq Hlen Heq.
  apply (concat_inj 16) in Heq; [|apply pair_bytes_blocks..|by rewrite !length_fmap].
  clear Hlen. revert qs Hq Heq. induction Hp as [|p ps Hp _ IH]; intros [|q qs] Hq Heq; try done.
  rewrite !fmap_cons in Heq. apply Forall_cons in Hq as [? ?]. apply cons_inj in Heq as [H1 H2].
  f_equal; [by apply pair_bytes_inj|by apply IH].
Qed.

End Digest.

(** ** Supervision bits of a task

    Two bits of [task_struct->personality], a 32-bit word. *)

Module TaskBits.

Definition TASK_LBR : Z := 0x80000000.
Definition SUSP_LBR : Z := 0x40000000.

(** [~x] on a 32-bit unsigned word. *)
Definition not32 (z : Z) : Z := u32 (Z.lnot z).

Definition set_task_lbr (p : Z) : Z := Z.lor p TASK_LBR.
Definition clr_task_lbr (p : Z) : Z := Z.land p (not32 TASK_LBR).
Definition tst_task_lbr (p : Z) : bool := c_true (Z.land p TASK_LBR).
Definition susp_task_lbr (p : Z) : Z := Z.lor (Z.land p (not32 TASK_LBR)) SUSP_LBR.
Definition wakeup_task_lbr (p : Z) : Z := Z.lor (Z.land p (not32 SUSP_LBR)) TASK_LBR.
Definition issusp_task_lbr (p : Z) : bool := c_true (Z.land p SUSP_LBR).

Lemma land_pow2_true p n : 0 <= n -> c_true (Z.land p (2 ^ n)) = Z.testbit p n.
Proof.
  intros Hn. unfold c_true. destruct (Z.testbit p n) eqn:Hb.
  - apply negb_true_iff, Z.eqb_neq. intros Hz.
    assert (Z.testbit (Z.land p (2 ^ n)) n = true) as Ht
      by (rewrite Z.land_spec, Hb, Z.pow2_bits_true by done; done).
    by rewrite Hz, Z.bits_0 in Ht.
  - apply negb_false_iff, Z.eqb_eq. apply Z.bits_inj'. intros i Hi.
    rewrite Z.land_spec, Z.bits_0, Z.pow2_bits_eqb by done.
    destruct (Z.eqb_spec n i) as [<-|]; [by rewrite Hb|apply andb_false_r].
Qed.

Lemma tst_task_lbr_bit p : tst_task_lbr p = Z.testbit p 31.
Proof. apply (land_pow2_true p 31). lia. Qed.

Lemma issusp_task_lbr_bit p : issusp_task_lbr p = Z.testbit p 30.
Proof. apply (land_pow2_true p 30). lia. Qed.

Lemma testbit_not32_pow2 n i : 0 <= n < 32 -> 0 <= i ->
  Z.testbit (not32 (2 ^ n)) i = bool_decide (i < 32 /\ i <> n).
Proof.
  intros Hn Hi. unfold not32, u32. case_bool_decide as Hd.
  - rewrite Z.mod_pow2_bits_low, Z.lnot_spec, Z.pow2_bits_false by lia. done.
  - destruct (decide (i < 32)) as [Hlt|Hge].
    + assert (i = n) as -> by lia.
      rewrite Z.mod_pow2_bits_low, Z.lnot_spec, Z.pow2_bits_true by lia. done.
    + apply Z.mod_pow2_bits_high. lia.
Qed.

End TaskBits.

(** ** Properties *)



(** [LBR_FROM] keeps the 61 address bits of a branch source and replaces
    the three flag bits (mispredicted, in a transaction, abort) by copies of
    the sign bit, so a canonical kernel or user address reads back whole. *)
Theorem LBR_FROM_bits z i :
  0 <= i < 64 ->
  Z.testbit (Hw.LBR_FROM z) i = Z.testbit z (Z.min i 60).
Proof.
  intros Hi. rewrite Hw.LBR_FROM_alt.
  destruct (decide (i < 61)) as [Hlt|Hge].
  - rewrite Z.min_l, <- (Z.mod_pow2_bits_low z 61 i) by lia.
    destruct (Z.testbit z 60); [|done].
    rewrite <- (Z.mod_pow2_bits_low (_ + _) 61), Z_mod_plus_full, Z.mod_mod by lia. done.
  - rewrite Z.min_r by lia. destruct (Z.testbit z 60).
    + rewrite <- (Z.sub_add 61 i), <- Z.div_pow2_bits, Z.div_add, Z.div_small by (try apply Z.mod_pos_bound; lia).
      assert (i = 61 \/ i = 62 \/ i = 63) as [->|[->| ->]] by lia; done.
    + apply Z.mod_pow2_bits_high. lia.
Qed.

Lemma LBR_FROM_bits_witness :
  Z.testbit (Hw.LBR_FROM 0xe0007f0012345678) 62 = Z.testbit 0xe0007f0012345678 (Z.min 62 60).
Proof. apply LBR_FROM_bits. lia. Defined.

(** Suspending a supervised task and waking it up: supervision is off in
    between and the suspension visible, the other thirty personality bits
    never change, and the wake-up gives back the word the task started with. *)
Theorem susp_wakeup_task_lbr p :
  0 <= p < 2 ^ 32 -> TaskBits.tst_task_lbr p = true -> TaskBits.issusp_task_lbr p = false ->
  TaskBits.tst_task_lbr (TaskBits.susp_task_lbr p) = false /\
  TaskBits.issusp_task_lbr (TaskBits.susp_task_lbr p) = true /\
  (forall i, 0 <= i -> i <> 30 -> i <> 31 -> Z.testbit (TaskBits.susp_task_lbr p) i = Z.testbit p i) /\
  TaskBits.wakeup_task_lbr (TaskBits.susp_task_lbr p) = p.
Proof.
  intros Hp Ht Hs. rewrite TaskBits.tst_task_lbr_bit in Ht. rewrite TaskBits.issusp_task_lbr_bit in Hs.
  assert (forall i, 0 <= i -> Z.testbit (TaskBits.susp_task_lbr p) i =
    if decide (i = 30) then true else if decide (i = 31) then false else Z.testbit p i) as Hb.
  { intros i Hi. unfold TaskBits.susp_task_lbr.
    change TaskBits.TASK_LBR with (2 ^ 31). change TaskBits.SUSP_LBR with (2 ^ 30).
    rewrite Z.lor_spec, Z.land_spec, TaskBits.testbit_not32_pow2, Z.pow2_bits_eqb by lia.
    destruct (decide (32 <= i)).
    - rewrite <- (Z.mod_small p (2 ^ 32)), Z.mod_pow2_bits_high by lia.
      repeat case_decide; try lia.
    - destruct (Z.eqb_spec 30 i); case_bool_decide; repeat case_decide; try lia;
        destruct (Z.testbit p i); done. }
  rewrite TaskBits.tst_task_lbr_bit, TaskBits.issusp_task_lbr_bit, !Hb by lia. split_and!; try done.
  - intros i Hi ? ?. rewrite Hb by done. repeat case_decide; done.
  - apply Z.bits_inj'. intros i Hi. unfold TaskBits.wakeup_task_lbr.
    change TaskBits.TASK_LBR with (2 ^ 31). change TaskBits.SUSP_LBR with (2 ^ 30).
    rewrite Z.lor_spec, Z.land_spec, Hb, TaskBits.testbit_not32_pow2, Z.pow2_bits_eqb by lia.
    destruct (decide (32 <= i)).
    + rewrite <- (Z.mod_small p (2 ^ 32)), Z.mod_pow2_bits_high by lia.
      rewrite bool_decide_false, andb_false_r by lia. by apply Z.eqb_neq; lia.
    + destruct (Z.eqb_spec 31 i) as [<-|]; case_bool_decide; repeat case_decide; subst; try lia; try done;
        try (by rewrite Ht); try (by rewrite Hs); destruct (Z.testbit p i); done.
Qed.

Lemma susp_wakeup_task_lbr_witness :
  TaskBits.tst_task_lbr (TaskBits.susp_task_lbr 0x80400000) = false /\
  TaskBits.issusp_task_lbr (TaskBits.susp_task_lbr 0x80400000) = true /\
  (forall i, 0 <= i -> i <> 30 -> i <> 31 ->
     Z.testbit (TaskBits.susp_task_lbr 0x80400000) i = Z.testbit 0x80400000 i) /\
  TaskBits.wakeup_task_lbr (TaskBits.susp_task_lbr 0x80400000) = 0x80400000.
Proof. apply susp_wakeup_task_lbr; [lia|reflexivity|reflexivity]. Defined.

Section processor.
(** The processor's side of the LBR ring, as the manual documents it: while
    recording is enabled, a taken branch advances the top-of-stack index
    modulo sixteen and fills the entry it then names. *)
Context (branch : Z -> Z -> gmap Z Z -> gmap Z Z).

Definition records_branches : Prop :=
  forall from to m a,
    Hw.rdmsrl Hw.MSR_IA32_DEBUGCTLMSR m = Hw.IA32_DEBUGCTL ->
    let tos := (Hw.rdmsrl Hw.MSR_LBR_TOS m + 1) mod 16 in
    Hw.rdmsrl a (branch from to m) =
      if decide (a = Hw.MSR_LBR_TOS) then tos
      else if decide (a = Hw.MSR_LBR_NHM_FROM + tos) then from
      else if decide (a = Hw.MSR_LBR_NHM_TO + tos) then to
      else Hw.rdmsrl a m.

Definition run_branches (bs : list (Z * Z)) (m : gmap Z Z) : gmap Z Z :=
  foldl (fun m b => branch b.1 b.2 m) m bs.

Definition window_of (m : gmap Z Z) : list (Z * Z) := Digest.lbr_window (Hw.get_lbr m lbr_zero).

(** The registers while a task runs: recording on, a valid ring index. *)
Definition recording (m : gmap Z Z) : Prop :=
  Hw.rdmsrl Hw.MSR_IA32_DEBUGCTLMSR m = Hw.IA32_DEBUGCTL /\ 0 <= Hw.rdmsrl Hw.MSR_LBR_TOS m < 16.

Lemma lookup_window m i :
  (i < 16)%nat -> 0 <= Hw.rdmsrl Hw.MSR_LBR_TOS m < 16 ->
  window_of m !! i =
    Some (let k := (Hw.rdmsrl Hw.MSR_LBR_TOS m - Z.of_nat i) mod 16 in
          (Hw.LBR_FROM (Hw.rdmsrl (Hw.MSR_LBR_NHM_FROM + k) m), Hw.rdmsrl (Hw.MSR_LBR_NHM_TO + k) m)).
Proof.
  intros Hi Ht. unfold window_of, Digest.lbr_window, LBR_ENTRIES.
  rewrite list_lookup_fmap, lookup_seq_lt by done. cbn [fmap option_fmap option_map Nat.add Hw.get_lbr l_tos l_from l_to].
  assert (u64 (Hw.rdmsrl Hw.MSR_LBR_TOS m - Z.of_nat i) mod Z.of_nat 16 =
          (Hw.rdmsrl Hw.MSR_LBR_TOS m - Z.of_nat i) mod 16) as ->.
  { unfold u64. change (2 ^ 64) with (16 * 2 ^ 60). change (Z.of_nat 16) with 16.
    by rewrite Z.rem_mul_r, Z.mul_comm, Z_mod_plus_full, Z.mod_mod by lia. }
  set (k := (_ - _) mod 16).
  assert (0 <= k < 16) by (apply Z.mod_pos_bound; lia).
  cbv zeta. rewrite !lookup_total_seq_map by (unfold LBR_ENTRIES; lia). by rewrite Z2Nat.id by lia.
Qed.

Lemma window_branch m from to :
  records_branches -> recording m ->
  recording (branch from to m) /\
  window_of (branch from to m) = (Hw.LBR_FROM from, to) :: take 15 (window_of m).
Proof.
  intros Hbr [Hen Htos]. pose proof (fun a => Hbr from to m a Hen) as Hrd. cbv zeta in Hrd.
  set (tos := Hw.rdmsrl Hw.MSR_LBR_TOS m) in *.
  assert (Hw.rdmsrl Hw.MSR_LBR_TOS (branch from to m) = (tos + 1) mod 16) as Htos' by (by rewrite Hrd).
  assert (0 <= (tos + 1) mod 16 < 16) as Hr by (apply Z.mod_pos_bound; lia).
  assert (recording (branch from to m)) as [Hen' _].
  { split; [|lia]. rewrite Hrd. Hw.msr. }
  split; [split; [done|lia]|]. apply list_eq. intros i.
  destruct (decide (i < 16)%nat) as [Hi|Hi].
  2:{ rewrite !lookup_ge_None_2; [done| |]; cbn [length]; rewrite ?length_take; unfold window_of;
        rewrite Digest.length_lbr_window; lia. }
  rewrite lookup_window by lia. rewrite Htos'. cbv zeta.
  rewrite lookup_cons. destruct i as [|i].
  - rewrite Z.sub_0_r, Z.mod_mod, !Hrd by lia. do 2 f_equal; [f_equal|]; Hw.msr.
  - rewrite lookup_take_lt, lookup_window by lia. fold tos. cbv zeta.
    assert (((tos + 1) mod 16 - Z.of_nat (S i)) mod 16 = (tos - Z.of_nat i) mod 16) as ->
      by (rewrite Zminus_mod_idemp_l; f_equal; lia).
    set (k := (tos - Z.of_nat i) mod 16).
    assert (0 <= k < 16) as Hk by (apply Z.mod_pos_bound; lia).
    assert (k <> (tos + 1) mod 16) as Hne.
    { subst k. Z.div_mod_to_equations. lia. }
    rewrite !Hrd. do 2 f_equal; [f_equal|]; Hw.msr.
Qed.

(** What the module hashes is what the task did: after [enable_lbr] and
    any sequence of taken branches, the window [hash_lbr] walks (from the top
    of stack downwards) lists the last sixteen branches, newest first, with
    the flag bits of the sources removed and zeros where nothing was recorded
    yet. *)
Theorem window_of_branches m bs :
  records_branches ->
  window_of (run_branches bs (Hw.enable_lbr m)) =
    take 16 (reverse ((fun b => (Hw.LBR_FROM b.1, b.2)) <$> bs) ++ replicate 16 (0, 0)).
Proof.
  intros Hbr.
  enough (recording (run_branches bs (Hw.enable_lbr m)) /\
    window_of (run_branches bs (Hw.enable_lbr m)) =
    take 16 (reverse ((fun b => (Hw.LBR_FROM b.1, b.2)) <$> bs) ++ replicate 16 (0, 0))) by tauto.
  unfold run_branches. induction bs as [|b bs [IHr IH]] using rev_ind.
  - split.
    + cbn [foldl]. unfold Hw.enable_lbr, recording. rewrite Hw.flush_lbr_eq. split; Hw.msr.
    + cbn [foldl]. unfold Hw.enable_lbr, window_of. rewrite Hw.get_flush_lbr. reflexivity.
  - rewrite foldl_snoc. destruct (window_branch _ b.1 b.2 Hbr IHr) as [Hr' ->]. split; [done|].
    rewrite IH, fmap_app, list_fmap_singleton, reverse_snoc. cbn [app take].
    f_equal. rewrite take_take. reflexivity.
Qed.

End processor.

(** A processor that follows the manual. *)
Definition record_branch (from to : Z) (m : gmap Z Z) : gmap Z Z :=
  let tos := (Hw.rdmsrl Hw.MSR_LBR_TOS m + 1) mod 16 in
  Hw.wrmsrl Hw.MSR_LBR_TOS tos
    (Hw.wrmsrl (Hw.MSR_LBR_NHM_FROM + tos) from (Hw.wrmsrl (Hw.MSR_LBR_NHM_TO + tos) to m)).

Lemma window_of_branches_witness :
  window_of (run_branches record_branch [(0x400100, 0x400200); (0x400210, 0x400300)] (Hw.enable_lbr ∅)) =
    take 16 (reverse [(Hw.LBR_FROM 0x400100, 0x400200); (Hw.LBR_FROM 0x400210, 0x400300)] ++ replicate 16 (0, 0)).
Proof.
  apply (window_of_branches record_branch).
  intros from to m a _. unfold record_branch. cbv zeta. rewrite !Hw.rdmsrl_wrmsrl. reflexivity.
Defined.
