(* ===== verification/LbrState.v ===== *)
(** The data exchanged between the analyzer, the loader and the kernel module:
    include/patharmor/lbr-state.h.

    [Tag] is the tagged-address format of state files; [Paths] the structures
    that hold the valid paths with [hash_paths] and [update_paths], which
    relocates a state file for one run of the target. *)

From S2P Require Import Prelude Slots Lbr.

(** ** Window arithmetic *)

Definition WINDOW_SIZE : nat := 16.

Definition CEIL_DIV (x y : Z) : Z := (x + y - 1) / y.

(** [NR_HASHES] with the LBR size and the window size as arguments. *)
Definition NR_HASHES (lbr window : Z) : Z := 1 + CEIL_DIV (lbr - window) (window - 1).

(** ** Tagged addresses *)

Module Tag.

Definition LIB_FLAG : Z := Z.shiftl 1 63.
Definition TARG_FLAG : Z := Z.shiftl 1 62.
Definition MAIN_FLAG : Z := Z.shiftl 1 61.

Definition ADDR_BITS : Z := 48.
Definition INDX_BITS : Z := 13.

Definition TO_ADDR (addr : Z) : Z :=
  Z.shiftr (u64 (Z.shiftl addr (64 - ADDR_BITS))) (64 - ADDR_BITS).
Definition TO_INDX (addr : Z) : Z :=
  Z.shiftr (u64 (Z.shiftl addr (64 - ADDR_BITS - INDX_BITS))) (64 - INDX_BITS).
Definition SET_INDX (addr indx : Z) : Z := Z.lor addr (u64 (Z.shiftl indx ADDR_BITS)).

Definition ADDRESS_TAKEN : Z := 0xc477b4c8.

Definition has (flag addr : Z) : bool := c_true (Z.land addr flag).

Lemma has_bit n addr : 0 <= n -> has (Z.shiftl 1 n) addr = Z.testbit addr n.
Proof. intros. unfold has. rewrite Z.shiftl_1_l. by apply TaskBits.land_pow2_true. Qed.

Lemma TO_ADDR_mod x : TO_ADDR x = x mod 2 ^ 48.
Proof.
  unfold TO_ADDR, ADDR_BITS, u64. rewrite Z.shiftl_mul_pow2, Z.shiftr_div_pow2 by lia.
  change (2 ^ 64) with (2 ^ 48 * 2 ^ (64 - 48)).
  by rewrite Z.mul_mod_distr_r, Z.div_mul by lia.
Qed.

Lemma TO_INDX_mod x : TO_INDX x = x / 2 ^ 48 mod 2 ^ 13.
Proof.
  unfold TO_INDX, ADDR_BITS, INDX_BITS, u64. rewrite Z.shiftl_mul_pow2, Z.shiftr_div_pow2 by lia.
  change (2 ^ 64) with (2 ^ 61 * 2 ^ (64 - 48 - 13)).
  rewrite Z.mul_mod_distr_r by lia.
  change (2 ^ (64 - 13)) with (2 ^ 48 * 2 ^ (64 - 48 - 13)).
  rewrite Z.div_mul_cancel_r by lia.
  change (2 ^ 61) with (2 ^ 48 * 2 ^ 13). rewrite Z.rem_mul_r by lia.
  rewrite (Z.mul_comm (2 ^ 48)), Z.div_add by lia.
  rewrite (Z.div_small (x mod 2 ^ 48)) by (apply Z.mod_pos_bound; lia). done.
Qed.

Lemma TO_ADDR_range x : 0 <= TO_ADDR x < 2 ^ 48.
Proof. rewrite TO_ADDR_mod. apply Z.mod_pos_bound. lia. Qed.

Lemma TO_ADDR_small x : 0 <= x < 2 ^ 48 -> TO_ADDR x = x.
Proof. intros. rewrite TO_ADDR_mod. apply Z.mod_small. lia. Qed.

End Tag.

(** ** Valid paths *)

Module Paths.
Import Tag.

Definition MAX_LIBS : nat := 32.

Record lbr_function := LbrFunction { fptr : Z; fname : string }.

(** [struct lbr_valid_state]: one window of branches, newest first, and its
    digest. *)
Record lbr_valid_state := VState {
  vs_from : list Z;
  vs_to : list Z;
  vs_hash : list Z
}.

(** [struct lbr_valid_state_map]; [states] is the length of the array. *)
Record lbr_valid_state_map := VMap { sm_to : Z; sm_state : list lbr_valid_state }.

(** [struct lbr_paths]; the three counts are the lengths of the arrays. *)
Record lbr_paths := LbrPaths {
  p_func : list lbr_function;
  p_address_taken : list Z;
  p_state_map : list lbr_valid_state_map
}.

Record lib_index := LibIndex { li_index : Z; li_libname : string; li_base : Z }.

(** The addresses of [struct wrapper_addresses] that [update_paths] reads. *)
Record wrapper_addresses := WrapperAddresses {
  wa_load_from : Z;
  wa_orig_main : Z;
  wa_armor_lib_return : Z;
  wa_armor_cbk_target_call : Z;
  wa_pthread_create_offset : Z;
  wa_pthread_create : Z;
  wa_pthread_create_return : Z
}.

(** The branches of a state, as the loops over [k] read them. *)
Definition vs_entries (s : lbr_valid_state) : list (Z * Z) := zip (vs_from s) (vs_to s).

Definition set_entries (es : list (Z * Z)) (s : lbr_valid_state) : lbr_valid_state :=
  VState es.*1 es.*2 (vs_hash s).

Section paths.
(** OpenSSL's MD4 of the concatenation of the bytes passed to [MD4_Update]. *)
Context (md4 : list Z -> list Z).

Definition hash_state (s : lbr_valid_state) : lbr_valid_state :=
  VState (vs_from s) (vs_to s) (md4 (concat (Digest.pair_bytes <$> vs_entries s))).

Definition hash_paths (p : lbr_paths) : lbr_paths :=
  LbrPaths (p_func p) (p_address_taken p)
    ((fun sm => VMap (sm_to sm) (hash_state <$> sm_state sm)) <$> p_state_map p).

Section update.
Context (a : wrapper_addresses).

(** *** First round: find the load offset of the target, patch loader entries. *)

Definition round1_entry (offset : Z) (e : Z * Z) : Z * (Z * Z) :=
  let '(from, to) := e in
  if (from =? 0) && has MAIN_FLAG to then
    let static_main := TO_ADDR to in
    let offset := if decide (static_main <> wa_orig_main a)
                  then u64 (wa_orig_main a - static_main) else offset in
    (offset, (wa_load_from a, to))
  else (offset, (from, to)).

Definition round1_state (offset : Z) (s : lbr_valid_state) : Z * lbr_valid_state :=
  let '(offset, es) := map_accum round1_entry offset (vs_entries s) in
  (offset, set_entries es s).

Definition round1_map (offset : Z) (sm : lbr_valid_state_map) : Z * lbr_valid_state_map :=
  let '(offset, ss) := map_accum round1_state offset (sm_state sm) in
  (offset, VMap (sm_to sm) ss).

Definition round1 (sms : list lbr_valid_state_map) : Z * list lbr_valid_state_map :=
  map_accum round1_map 0 sms.

(** *** The base array: [None] is an access outside [base] or [libindex]. *)

Fixpoint fill_base (libindex : list lib_index) (base : list Z) : option (list Z) :=
  match libindex with
  | [] => None
  | li :: libindex =>
      if li_index li =? 0 then Some base
      else if decide (0 <= li_index li < Z.of_nat MAX_LIBS)
           then fill_base libindex (<[Z.to_nat (li_index li) := li_base li]> base)
           else None
  end.

Definition base_array (libindex : list lib_index) : option (list Z) :=
  base ← fill_base libindex (replicate MAX_LIBS 0);
  Some (<[0%nat := 0]> base).

(** *** Second round: relocate. *)

Section round2.
Context (offset : Z) (base : list Z).

Definition add_base (x : Z) : option Z :=
  b ← base !! Z.to_nat (TO_INDX x); Some (u64 (x + b)).

Definition add_offset (x : Z) : Z := if has TARG_FLAG x then u64 (x + offset) else x.

Definition round2_from (from : Z) : Z :=
  let from := add_offset from in
  let from := if TO_ADDR from =? ADDRESS_TAKEN then wa_armor_cbk_target_call a else from in
  if has LIB_FLAG from then
    if TO_ADDR from =? wa_pthread_create_offset a then wa_pthread_create_return a
    else wa_armor_lib_return a
  else from.

Definition round2_to (to : Z) : option Z :=
  let to := add_offset to in
  if TO_ADDR to =? wa_pthread_create_offset a then Some (wa_pthread_create a)
  else add_base to.

Definition round2_entry (e : Z * Z) : option (Z * Z) :=
  to ← round2_to e.2; Some (round2_from e.1, to).

Definition round2_state (s : lbr_valid_state) : option lbr_valid_state :=
  es ← mapM round2_entry (vs_entries s); Some (set_entries es s).

Definition round2_map (sm : lbr_valid_state_map) : option lbr_valid_state_map :=
  to ← add_base (add_offset (sm_to sm));
  ss ← mapM round2_state (sm_state sm);
  Some (VMap to ss).

Definition round2_func (f : lbr_function) : option lbr_function :=
  p ← add_base (add_offset (fptr f)); Some (LbrFunction p (fname f)).

End round2.

(** *** Third round: drop the tags. *)

Definition round3_state (s : lbr_valid_state) : lbr_valid_state :=
  set_entries ((fun e => (TO_ADDR e.1, TO_ADDR e.2)) <$> vs_entries s) s.

Definition round3_map (sm : lbr_valid_state_map) : lbr_valid_state_map :=
  VMap (TO_ADDR (sm_to sm)) (round3_state <$> sm_state sm).

Definition round3_func (f : lbr_function) : lbr_function :=
  LbrFunction (TO_ADDR (fptr f)) (fname f).

Definition update_paths (libindex : list lib_index) (p : lbr_paths) : option lbr_paths :=
  let '(offset, sms) := round1 (p_state_map p) in
  base ← base_array libindex;
  sms ← mapM (round2_map offset base) sms;
  funcs ← mapM (round2_func offset base) (p_func p);
  Some (hash_paths (LbrPaths (round3_func <$> funcs) (p_address_taken p) (round3_map <$> sms))).

End update.
End paths.

(** ** What a tagged address means

    The format of state files, as a data type: an address in the target (which
    may be its [main]), an address in library number [idx], or a number that
    is not an address of either. *)

Inductive addr :=
| Targ (main : bool) (x : Z)
| Lib (idx x : Z)
| Plain (x : Z).

Definition encode (k : addr) : Z :=
  match k with
  | Targ main x => x + 2 ^ 62 + (if main then 2 ^ 61 else 0)
  | Lib idx x => x + idx * 2 ^ 48 + 2 ^ 63
  | Plain x => x
  end.

(** The 48-bit number the tag is attached to. *)
Definition offset_of (k : addr) : Z :=
  match k with Targ _ x => x | Lib _ x => x | Plain x => x end.

Definition addr_wf (k : addr) : Prop :=
  0 <= offset_of k < 2 ^ 48 /\
  match k with Lib idx _ => 0 <= idx < Z.of_nat MAX_LIBS | _ => True end.

#[global] Arguments TO_ADDR _ : simpl never.
#[global] Arguments TO_INDX _ : simpl never.
#[global] Arguments has _ _ : simpl never.
#[global] Arguments round2_from _ _ _ : simpl never.
#[global] Arguments round2_to _ _ _ _ : simpl never.
#[global] Arguments add_base _ _ : simpl never.

Lemma testbit_high x k n : 0 <= x < 2 ^ n -> 0 <= n -> Z.testbit (x + k * 2 ^ n) n = Z.testbit k 0.
Proof.
  intros Hx Hn. rewrite <- (Z.div_pow2_bits _ n 0) by lia.
  by rewrite Z.div_add, Z.div_small by lia.
Qed.

Lemma testbit_above x n m : 0 <= x < 2 ^ n -> 0 <= n <= m -> Z.testbit x m = false.
Proof.
  intros Hx Hn. rewrite <- (Z.mod_small x (2 ^ n)) by lia. apply Z.mod_pow2_bits_high. lia.
Qed.

Lemma encode_flags k :
  addr_wf k ->
  has LIB_FLAG (encode k) = match k with Lib _ _ => true | _ => false end /\
  has TARG_FLAG (encode k) = match k with Targ _ _ => true | _ => false end /\
  has MAIN_FLAG (encode k) = match k with Targ m _ => m | _ => false end.
Proof.
  intros [Hx Hk]. unfold LIB_FLAG, TARG_FLAG, MAIN_FLAG. rewrite !has_bit by lia.
  destruct k as [m x|i x|x]; cbn [encode offset_of] in *.
  - split_and!.
    + apply (testbit_above _ 63); destruct m; lia.
    + replace (x + 2 ^ 62 + _) with ((x + if m then 2 ^ 61 else 0) + 1 * 2 ^ 62) by lia.
      apply testbit_high; destruct m; lia.
    + replace (x + 2 ^ 62 + _) with (x + (if m then 3 else 2) * 2 ^ 61) by (destruct m; lia).
      rewrite testbit_high by lia. by destruct m.
  - unfold MAX_LIBS in *. split_and!.
    + replace (_ + 2 ^ 63) with ((x + i * 2 ^ 48) + 1 * 2 ^ 63) by lia. apply testbit_high; lia.
    + replace (_ + 2 ^ 63) with ((x + i * 2 ^ 48) + 2 * 2 ^ 62) by lia. apply testbit_high; lia.
    + replace (_ + 2 ^ 63) with ((x + i * 2 ^ 48) + 4 * 2 ^ 61) by lia. apply testbit_high; lia.
  - split_and!; apply (testbit_above _ 48); lia.
Qed.

Lemma encode_TO_ADDR k : addr_wf k -> TO_ADDR (encode k) = offset_of k.
Proof.
  intros [Hx Hk]. rewrite TO_ADDR_mod. destruct k as [m x|i x|x]; cbn [encode offset_of] in *.
  - replace (x + 2 ^ 62 + _) with (x + (if m then 2 ^ 14 + 2 ^ 13 else 2 ^ 14) * 2 ^ 48) by (destruct m; lia).
    rewrite Z_mod_plus_full. apply Z.mod_small. lia.
  - replace (_ + 2 ^ 63) with (x + (i + 2 ^ 15) * 2 ^ 48) by lia.
    rewrite Z_mod_plus_full. apply Z.mod_small. lia.
  - apply Z.mod_small. lia.
Qed.

Lemma encode_TO_INDX k :
  addr_wf k -> TO_INDX (encode k) = match k with Lib idx _ => idx | _ => 0 end.
Proof.
  intros [Hx Hk]. rewrite TO_INDX_mod. destruct k as [m x|i x|x]; cbn [encode offset_of] in *.
  - replace (x + 2 ^ 62 + _) with (x + (if m then 2 ^ 14 + 2 ^ 13 else 2 ^ 14) * 2 ^ 48) by (destruct m; lia).
    rewrite Z.div_add, Z.div_small by lia. by destruct m.
  - replace (_ + 2 ^ 63) with (x + (i + 2 ^ 15) * 2 ^ 48) by lia.
    rewrite Z.div_add, Z.div_small by lia. unfold MAX_LIBS in *.
    replace (0 + (i + 2 ^ 15)) with (i + 4 * 2 ^ 13) by lia.
    rewrite Z_mod_plus_full. apply Z.mod_small. lia.
  - by rewrite Z.div_small by lia.
Qed.

Lemma encode_u64 k : addr_wf k -> is_u64 (encode k).
Proof.
  intros [Hx Hk]. unfold is_u64, MAX_LIBS in *.
  destruct k as [[] x|i x|x]; cbn [encode offset_of] in *; lia.
Qed.

(** A target address moved by the load offset. *)
Definition shift (off : Z) (k : addr) : addr :=
  match k with Targ m x => Targ m (x + off) | _ => k end.

(** Shifting a target address keeps the tag while the address stays in 48 bits. *)
Lemma add_offset_encode off k :
  addr_wf k ->
  match k with Targ _ x => 0 <= x + off < 2 ^ 48 | _ => True end ->
  add_offset (u64 off) (encode k) = encode (shift off k).
Proof.
  intros Hwf Hoff. unfold add_offset. destruct (encode_flags k Hwf) as (_ & -> & _).
  destruct k as [m x|i x|x]; try done. rewrite u64_add_r.
  replace (encode (Targ m x) + off) with (encode (Targ m (x + off))) by (simpl; lia).
  apply u64_small, encode_u64. split; done.
Qed.

(** ** The contract of [update_paths]

    A state file before relocation, with its addresses decoded. *)

Record sym_paths := SymPaths {
  sp_func : list (addr * string);
  sp_ats : list Z;
  sp_maps : list (addr * list (list (addr * addr) * list Z))
}.

Definition encode_pair (e : addr * addr) : Z * Z := (encode e.1, encode e.2).

Definition encode_state (s : list (addr * addr) * list Z) : lbr_valid_state :=
  let es := encode_pair <$> s.1 in VState es.*1 es.*2 s.2.

Definition encode_paths (sp : sym_paths) : lbr_paths :=
  LbrPaths ((fun f => LbrFunction (encode f.1) f.2) <$> sp_func sp) (sp_ats sp)
    ((fun m => VMap (encode m.1) (encode_state <$> m.2)) <$> sp_maps sp).

Section contract.
Context (a : wrapper_addresses) (off : Z) (libbase : Z -> Z).

(** Where an address is in the running process. *)
Definition locate (k : addr) : Z :=
  match k with
  | Targ _ x => x + off
  | Lib idx x => TO_ADDR (x + libbase idx)
  | Plain x => x
  end.

(** The branch source and target the processor will record for a tagged pair:
    library code is entered at its own address ([pthread_create] at the
    wrapper) and returns through the return stub; the loader calls [main] and
    the callback stub calls every address-taken function. *)
Definition live_to (k : addr) : Z :=
  match k with
  | Lib _ x => if decide (x = wa_pthread_create_offset a) then wa_pthread_create a else locate k
  | _ => locate k
  end.

Definition loader_entry (e : addr * addr) : bool :=
  match e with (Plain 0, Targ true _) => true | _ => false end.

Definition live_from (e : addr * addr) : Z :=
  if loader_entry e then wa_load_from a else
  match e.1 with
  | Lib _ x => if decide (x = wa_pthread_create_offset a) then wa_pthread_create_return a
               else wa_armor_lib_return a
  | Plain x => if decide (x = ADDRESS_TAKEN) then wa_armor_cbk_target_call a else x
  | k => locate k
  end.

Definition live_state (s : list (addr * addr) * list Z) : lbr_valid_state :=
  VState (live_from <$> s.1) ((fun e => live_to e.2) <$> s.1) s.2.

Definition live_paths (sp : sym_paths) : lbr_paths :=
  LbrPaths ((fun f => LbrFunction (locate f.1) f.2) <$> sp_func sp) (sp_ats sp)
    ((fun m => VMap (locate m.1) (live_state <$> m.2)) <$> sp_maps sp).

(** Side conditions: addresses fit their fields before and after relocation. *)
Definition addr_ok (k : addr) : Prop :=
  addr_wf k /\ match k with Targ _ x => 0 <= x + off < 2 ^ 48 | _ => True end.

(** Numbers that [update_paths] treats specially are not target addresses. *)
Definition entry_ok (e : addr * addr) : Prop :=
  addr_ok e.1 /\ addr_ok e.2 /\
  match e.1 with
  | Targ _ x => x + off <> ADDRESS_TAKEN
  | Lib _ x => x <> ADDRESS_TAKEN
  | Plain _ => True
  end /\
  match e.2 with Lib _ _ => True | k => locate k <> wa_pthread_create_offset a end /\
  (loader_entry e = true -> offset_of e.2 + off = wa_orig_main a).

Definition wrappers_ok : Prop :=
  Forall (fun x => 0 <= x < 2 ^ 48)
    [wa_load_from a; wa_orig_main a; wa_armor_lib_return a; wa_armor_cbk_target_call a;
     wa_pthread_create a; wa_pthread_create_return a] /\
  wa_load_from a <> ADDRESS_TAKEN.

Definition base_ok (base : list Z) : Prop :=
  forall idx, 0 <= idx < Z.of_nat MAX_LIBS -> base !! Z.to_nat idx = Some (libbase idx).

Lemma shift_wf k : addr_ok k -> addr_wf (shift off k).
Proof. intros [[Hx Hk] Ho]. destruct k; split; done. Qed.

Lemma add_base_encode base k :
  base_ok base -> libbase 0 = 0 -> addr_ok k ->
  exists y, add_base base (encode (shift off k)) = Some y /\
    TO_ADDR y = locate k.
Proof.
  intros Hb Hb0 Hok. pose proof (shift_wf k Hok) as Hwf'. set (k' := shift off k) in *.
  unfold add_base. rewrite encode_TO_INDX by done.
  rewrite (Hb (match k' with Lib idx _ => idx | _ => 0 end))
    by (destruct Hwf', k; unfold MAX_LIBS in *; simpl in *; lia).
  eexists; split; [done|].
  assert (forall b, TO_ADDR (u64 (encode k' + b)) = TO_ADDR (offset_of k' + b)) as Hadd.
  { intros b. rewrite !TO_ADDR_mod. unfold u64. change (2 ^ 64) with (2 ^ 48 * 2 ^ 16).
    rewrite Z.rem_mul_r, (Z.mul_comm (2 ^ 48)), Z_mod_plus_full, Zmod_mod by lia.
    rewrite <- (encode_TO_ADDR k' Hwf'), TO_ADDR_mod. by rewrite Zplus_mod_idemp_l. }
  rewrite Hadd. destruct Hwf' as [Hr _]. subst k'.
  destruct k as [m x|i x|x]; simpl in *; [| done|]; rewrite Hb0, Z.add_0_r; by apply TO_ADDR_small.
Qed.

Lemma round2_to_live base e :
  base_ok base -> libbase 0 = 0 -> wrappers_ok -> entry_ok e ->
  exists y, round2_to a (u64 off) base (encode e.2) = Some y /\ TO_ADDR y = live_to e.2.
Proof.
  intros Hb Hb0 [Hw _] (_ & Hok & _ & Hp & _). destruct e as [from to]; cbn [fst snd] in *.
  unfold round2_to. rewrite add_offset_encode by apply Hok.
  pose proof (add_base_encode base to Hb Hb0 Hok) as Hbase.
  rewrite encode_TO_ADDR by by apply shift_wf.
  decompose_Forall_hyps.
  destruct to as [m x|i x|x]; cbn [locate live_to shift offset_of] in *.
  - rewrite (proj2 (Z.eqb_neq _ _)) by done. done.
  - destruct (Z.eqb_spec x (wa_pthread_create_offset a)).
    + rewrite decide_True by done. eexists; split; [done|]. by apply TO_ADDR_small.
    + by rewrite decide_False.
  - rewrite (proj2 (Z.eqb_neq _ _)) by done. done.
Qed.

Lemma round2_from_live e :
  wrappers_ok -> entry_ok e ->
  TO_ADDR (round2_from a (u64 off) (if loader_entry e then wa_load_from a else encode e.1)) = live_from e.
Proof.
  intros [Hw Hat] (Hok & _ & Hp & _). unfold live_from. decompose_Forall_hyps.
  assert (forall x, 0 <= x < 2 ^ 48 -> x <> ADDRESS_TAKEN -> TO_ADDR (round2_from a (u64 off) x) = x) as Hplain.
  { intros x Hx Hxat. assert (addr_wf (Plain x)) as Hwf by done.
    unfold round2_from. change x with (encode (Plain x)). rewrite add_offset_encode by done.
    change (shift off (Plain x)) with (Plain x).
    rewrite encode_TO_ADDR by done. cbn [offset_of]. rewrite (proj2 (Z.eqb_neq _ _)) by done.
    rewrite (proj1 (encode_flags _ Hwf)). by apply TO_ADDR_small. }
  destruct (loader_entry e); [by apply Hplain|].
  unfold round2_from. rewrite add_offset_encode by apply Hok.
  pose proof (shift_wf e.1 Hok) as Hwf'. rewrite encode_TO_ADDR by done.
  destruct e as [[m x|i x|x] to]; cbn [fst locate shift offset_of] in *.
  - rewrite (proj2 (Z.eqb_neq _ _)) by done. rewrite (proj1 (encode_flags _ Hwf')). by apply encode_TO_ADDR.
  - rewrite (proj2 (Z.eqb_neq _ _)) by done. rewrite (proj1 (encode_flags _ Hwf')).
    rewrite encode_TO_ADDR by done. cbn [offset_of].
    destruct (Z.eqb_spec x (wa_pthread_create_offset a));
      [rewrite decide_True by done|rewrite decide_False by done]; by apply TO_ADDR_small.
  - destruct (Z.eqb_spec x ADDRESS_TAKEN).
    + rewrite decide_True by done.
      assert (addr_wf (Plain (wa_armor_cbk_target_call a))) as Hwc by done.
      change (has LIB_FLAG _) with (has LIB_FLAG (encode (Plain (wa_armor_cbk_target_call a)))).
      rewrite (proj1 (encode_flags _ Hwc)). by apply TO_ADDR_small.
    + rewrite decide_False by done. rewrite (proj1 (encode_flags _ Hwf')). by apply TO_ADDR_small, Hwf'.
Qed.

(** *** Round by round *)

#[local] Arguments encode _ : simpl never.

Definition paths_ok (sp : sym_paths) : Prop :=
  Forall (fun f => addr_ok f.1) (sp_func sp) /\
  Forall (fun m => addr_ok m.1 /\ Forall (fun s => Forall entry_ok s.1) m.2) (sp_maps sp).

(** Some path starts in the loader, or the target is loaded where it was linked. *)
Definition offset_known (sp : sym_paths) : Prop :=
  off = 0 \/ exists m s e, m ∈ sp_maps sp /\ s ∈ m.2 /\ e ∈ s.1 /\ loader_entry e = true.

Definition mid_pair (e : addr * addr) : Z * Z :=
  (if loader_entry e then wa_load_from a else encode e.1, encode e.2).
Definition mid_state (s : list (addr * addr) * list Z) : lbr_valid_state :=
  set_entries (mid_pair <$> s.1) (encode_state s).
Definition mid_map (m : addr * list (list (addr * addr) * list Z)) : lbr_valid_state_map :=
  VMap (encode m.1) (mid_state <$> m.2).

Lemma vs_entries_set es s : vs_entries (set_entries es s) = es.
Proof. apply zip_fst_snd. Qed.

Lemma vs_entries_encode s : vs_entries (encode_state s) = encode_pair <$> s.1.
Proof. apply zip_fst_snd. Qed.

Lemma encode_zero k : addr_wf k -> encode k = 0 -> k = Plain 0.
Proof.
  intros [Hx Hk]. destruct k as [[] x|i x|x]; unfold MAX_LIBS in *; unfold encode; cbn [offset_of] in *; try lia. by intros ->.
Qed.

Lemma loader_entry_test e :
  entry_ok e -> ((encode e.1 =? 0) && has MAIN_FLAG (encode e.2))%bool = loader_entry e.
Proof.
  intros ([Hwf _] & [Hwf2 _] & _). destruct (encode_flags _ Hwf2) as (_ & _ & ->).
  destruct (Z.eqb_spec (encode e.1) 0) as [Hz|Hz].
  - apply encode_zero in Hz; [|done]. destruct e as [? [[]| |]]; simpl in *; subst; done.
  - destruct e as [[| |[]] to]; simpl in *; try congruence; by destruct to as [[] ?| |].
Qed.

Lemma round1_entry_spec o e :
  entry_ok e ->
  (round1_entry a o (encode_pair e)).2 = mid_pair e /\
  (round1_entry a o (encode_pair e)).1 =
    if loader_entry e && bool_decide (off <> 0) then u64 off else o.
Proof.
  intros Hok. pose proof (loader_entry_test e Hok) as Ht. unfold round1_entry, encode_pair, mid_pair.
  rewrite Ht. destruct (loader_entry e) eqn:Hl; [|done].
  destruct Hok as (_ & [Hwf2 _] & _ & _ & Hm). specialize (Hm Hl).
  rewrite encode_TO_ADDR by done. split; [done|]. simpl.
  rewrite <- Hm. case_decide; case_bool_decide; try lia; f_equal; lia.
Qed.

(** One level of the round: outputs are independent of the offset, the offset
    is kept once known, and a loader entry makes it known. *)
Lemma round1_state_spec o s :
  Forall entry_ok s.1 ->
  (round1_state a o (encode_state s)).2 = mid_state s /\
  (o = u64 off \/ off <> 0 /\ (exists e, e ∈ s.1 /\ loader_entry e = true) ->
   (round1_state a o (encode_state s)).1 = u64 off).
Proof.
  intros Hs. rewrite Forall_forall in Hs. unfold round1_state.
  rewrite vs_entries_encode, map_accum_fmap.
  pose proof (map_accum_map mid_pair (fun o e => round1_entry a o (encode_pair e)) s.1 o
                (fun o e He => proj1 (round1_entry_spec o e (Hs e He)))) as Hout.
  pose proof (map_accum_state (fun o => o = u64 off) (fun o e => round1_entry a o (encode_pair e)) s.1 o) as Hst.
  destruct (map_accum _ _ _) as [o' es]. cbn [fst snd] in *. subst es. split; [done|]. intros Hk. apply Hst.
  - intros o1 e He ->. rewrite (proj2 (round1_entry_spec _ e (Hs e He))). by destruct (_ && _).
  - destruct Hk as [?|(Hne & e & He & Hl)]; [by left|]. right. exists e. split; [done|]. intros o1.
    rewrite (proj2 (round1_entry_spec _ e (Hs e He))), Hl, bool_decide_true by done. done.
Qed.

Lemma round1_map_spec o m :
  Forall (fun s => Forall entry_ok s.1) m.2 ->
  (round1_map a o (VMap (encode m.1) (encode_state <$> m.2))).2 = mid_map m /\
  (o = u64 off \/ off <> 0 /\ (exists s e, s ∈ m.2 /\ e ∈ s.1 /\ loader_entry e = true) ->
   (round1_map a o (VMap (encode m.1) (encode_state <$> m.2))).1 = u64 off).
Proof.
  intros Hs. rewrite Forall_forall in Hs. unfold round1_map; cbn [sm_state sm_to].
  rewrite map_accum_fmap.
  pose proof (map_accum_map mid_state (fun o s => round1_state a o (encode_state s)) m.2 o
                (fun o s He => proj1 (round1_state_spec o s (Hs s He)))) as Hout.
  pose proof (map_accum_state (fun o => o = u64 off) (fun o s => round1_state a o (encode_state s)) m.2 o) as Hst.
  destruct (map_accum _ _ _) as [o' es]. cbn [fst snd] in *. subst es. split; [done|]. intros Hk. apply Hst.
  - intros o1 s He ->. apply round1_state_spec; auto.
  - destruct Hk as [?|(Hne & s & e & He & ?)]; [by left|]. right. exists s. split; [done|]. intros o1.
    apply round1_state_spec; eauto.
Qed.

Lemma round1_spec sp :
  paths_ok sp -> offset_known sp ->
  round1 a (p_state_map (encode_paths sp)) = (u64 off, mid_map <$> sp_maps sp).
Proof.
  intros [_ Hok] Hk. rewrite Forall_forall in Hok. unfold round1, encode_paths; cbn [p_state_map].
  rewrite map_accum_fmap.
  pose proof (map_accum_map mid_map (fun o m => round1_map a o (VMap (encode m.1) (encode_state <$> m.2)))
    (sp_maps sp) 0 (fun o m Hm => proj1 (round1_map_spec o m (proj2 (Hok m Hm))))) as Hout.
  pose proof (map_accum_state (fun o => o = u64 off)
    (fun o m => round1_map a o (VMap (encode m.1) (encode_state <$> m.2))) (sp_maps sp) 0) as Hst.
  destruct (map_accum _ _ _) as [o' es]. cbn [fst snd] in *. subst es. f_equal. apply Hst.
  - intros o1 m Hm ->. apply round1_map_spec; [by apply Hok|by left].
  - destruct (decide (off = 0)) as [->|Hne]; [by left|].
    destruct Hk as [?|(m & s & e & Hm & ?)]; [done|]. right. exists m. split; [done|]. intros o1.
    apply round1_map_spec; [by apply Hok|]. right. eauto.
Qed.

(** Rounds two and three together. *)
Lemma round23_state base s :
  base_ok base -> libbase 0 = 0 -> wrappers_ok -> Forall entry_ok s.1 ->
  exists t, round2_state a (u64 off) base (mid_state s) = Some t /\ round3_state t = live_state s.
Proof.
  intros Hb Hb0 Hw Hs. rewrite Forall_forall in Hs. unfold round2_state, mid_state.
  rewrite vs_entries_set.
  set (g := fun p : Z * Z => (round2_from a (u64 off) p.1, default 0 (round2_to a (u64 off) base p.2))).
  rewrite (mapM_Some_map _ g).
  - eexists; split; [done|]. unfold round3_state. rewrite vs_entries_set.
    unfold live_state, set_entries. cbn [vs_hash encode_state].
    rewrite <- !list_fmap_compose. f_equal.
    + apply list_fmap_ext. intros i e He%list_elem_of_lookup_2.
      exact (round2_from_live e Hw (Hs e He)).
    + apply list_fmap_ext. intros i e He%list_elem_of_lookup_2.
      unfold compose, g, mid_pair. cbn [fst snd].
      destruct (round2_to_live base e Hb Hb0 Hw (Hs e He)) as (y & -> & <-). reflexivity.
  - intros p (e & -> & He)%list_elem_of_fmap. unfold round2_entry, g, mid_pair. cbn [fst snd].
    destruct (round2_to_live base e Hb Hb0 Hw (Hs e He)) as (y & -> & _). reflexivity.
Qed.

Lemma round23_addr base k :
  base_ok base -> libbase 0 = 0 -> addr_ok k ->
  exists y, add_base base (add_offset (u64 off) (encode k)) = Some y /\ TO_ADDR y = locate k.
Proof.
  intros Hb Hb0 Hok. rewrite add_offset_encode by apply Hok. by apply add_base_encode.
Qed.

Lemma round23_map base m :
  base_ok base -> libbase 0 = 0 -> wrappers_ok ->
  addr_ok m.1 /\ Forall (fun s => Forall entry_ok s.1) m.2 ->
  exists t, round2_map a (u64 off) base (mid_map m) = Some t /\
    round3_map t = VMap (locate m.1) (live_state <$> m.2).
Proof.
  intros Hb Hb0 Hw [Hm Hs]. rewrite Forall_forall in Hs.
  unfold round2_map, mid_map; cbn [sm_to sm_state].
  destruct (round23_addr base m.1 Hb Hb0 Hm) as (y & -> & Hy). cbn [mbind option_bind].
  set (g := fun s => default (VState [] [] []) (round2_state a (u64 off) base s)).
  rewrite (mapM_Some_map _ g).
  - eexists; split; [done|]. unfold round3_map; cbn [sm_to sm_state]. rewrite Hy. f_equal.
    rewrite <- !list_fmap_compose. apply list_fmap_ext. intros i s Hi%list_elem_of_lookup_2. unfold compose.
    unfold g. destruct (round23_state base s Hb Hb0 Hw (Hs s Hi)) as (t & -> & Ht). exact Ht.
  - intros p (s & -> & He)%list_elem_of_fmap. unfold g.
    destruct (round23_state base s Hb Hb0 Hw (Hs s He)) as (t & -> & _). reflexivity.
Qed.


End contract.

(** A two-path file of one function: the loader calls [main], and [main]
    calls a library function that returns through the stub. *)
Definition demo_wrappers : wrapper_addresses :=
  WrapperAddresses 0x7f0000001000 0x555500000500 0x7f0000002000 0x7f0000003000 0x8000 0x7f0000004000 0x7f0000005000.

Definition demo_libindex : list lib_index := [LibIndex 1 "libc.so.6" 0x7f1000000000; LibIndex 0 "" 0].

Definition demo_sym : sym_paths :=
  SymPaths [(Targ true 0x500, "main"%string)] []
    [(Lib 1 0x9000,
      [([(Targ false 0x520, Lib 1 0x9000); (Plain 0, Targ true 0x500)], [])])].

Definition demo_base : Z -> Z := fun i => if decide (i = 1) then 0x7f1000000000 else 0.


(** After relocation every function, every allowed target and every branch
    address is a bare 48-bit address, whatever tags the file held. *)
Theorem update_paths_bare md4 a libindex p p' :
  update_paths md4 a libindex p = Some p' ->
  Forall (fun f => 0 <= fptr f < 2 ^ 48) (p_func p') /\
  Forall (fun sm => 0 <= sm_to sm < 2 ^ 48 /\
    Forall (fun s => Forall (fun x => 0 <= x < 2 ^ 48) (vs_from s ++ vs_to s)) (sm_state sm)) (p_state_map p').
Proof.
  unfold update_paths. destruct (round1 a (p_state_map p)) as [off sms].
  destruct (base_array libindex) as [base|]; [|done]. cbn [mbind option_bind].
  destruct (mapM (round2_map a off base) sms) as [sms'|]; [|done]. cbn [mbind option_bind].
  destruct (mapM (round2_func off base) (p_func p)) as [fs|]; [|done]. intros [= <-].
  split; cbn [p_func p_state_map hash_paths].
  - apply Forall_fmap, Forall_true. intros f. apply TO_ADDR_range.
  - apply Forall_fmap, Forall_fmap, Forall_true. intros sm. split; [apply TO_ADDR_range|].
    cbn [sm_state]. apply Forall_fmap, Forall_fmap, Forall_true. intros st.
    cbn [compose hash_state vs_from vs_to round3_state set_entries]. apply Forall_app.
    split; apply Forall_fmap, Forall_fmap, Forall_true; intros e; apply TO_ADDR_range.
Qed.

Lemma update_paths_bare_witness :
  exists p', update_paths (fun bs => bs) demo_wrappers demo_libindex (encode_paths demo_sym) = Some p' /\
  Forall (fun f => 0 <= fptr f < 2 ^ 48) (p_func p') /\
  Forall (fun sm => 0 <= sm_to sm < 2 ^ 48 /\
    Forall (fun s => Forall (fun x => 0 <= x < 2 ^ 48) (vs_from s ++ vs_to s)) (sm_state sm)) (p_state_map p').
Proof.
  eexists. split; [vm_compute; reflexivity|].
  eapply (update_paths_bare (fun bs => bs) demo_wrappers demo_libindex (encode_paths demo_sym)).
  vm_compute. reflexivity.
Defined.



(** [SET_INDX] stores a 13-bit library index above a 48-bit address; both
    read back, and the three tag bits stay clear. *)
Theorem set_indx_roundtrip x i :
  0 <= x < 2 ^ 48 -> 0 <= i < 2 ^ 13 ->
  TO_ADDR (SET_INDX x i) = x /\ TO_INDX (SET_INDX x i) = i /\
  has LIB_FLAG (SET_INDX x i) = false /\ has TARG_FLAG (SET_INDX x i) = false /\
  has MAIN_FLAG (SET_INDX x i) = false.
Proof.
  intros Hx Hi.
  assert (SET_INDX x i = x + i * 2 ^ 48) as ->.
  { unfold SET_INDX, ADDR_BITS. rewrite Z.shiftl_mul_pow2 by lia.
    rewrite (u64_small (i * 2 ^ 48)) by (unfold is_u64; lia).
    rewrite <- Z.lxor_lor, <- Z.add_nocarry_lxor; try done;
      apply Z.bits_inj'; intros n Hn; rewrite Z.land_spec, Z.bits_0;
      (destruct (decide (n < 48));
       [rewrite Z.mul_pow2_bits_low by lia; apply andb_false_r
       |rewrite (testbit_above x 48 n) by lia; done]). }
  unfold LIB_FLAG, TARG_FLAG, MAIN_FLAG. rewrite TO_ADDR_mod, TO_INDX_mod, !has_bit by lia.
  rewrite Z_mod_plus_full, Z.div_add, Z.mod_small, (Z.div_small x), Z.mod_small by lia.
  split_and!; try lia; apply (testbit_above _ 61); lia.
Qed.

Lemma set_indx_roundtrip_witness :
  TO_ADDR (SET_INDX 0x9000 17) = 0x9000 /\ TO_INDX (SET_INDX 0x9000 17) = 17 /\
  has LIB_FLAG (SET_INDX 0x9000 17) = false /\ has TARG_FLAG (SET_INDX 0x9000 17) = false /\
  has MAIN_FLAG (SET_INDX 0x9000 17) = false.
Proof. apply set_indx_roundtrip; lia. Defined.

End Paths.
