(* ===== verification/StateFile.v ===== *)
(** State files: the packed form of [struct lbr_paths] and its way to disk and
    back, [lbr_sizeof_paths], [lbr_link_paths], [lbr_pack_paths], [write_paths]
    and [read_paths] of include/patharmor/lbr-state.h.

    A packed structure is one buffer: the header, the blacklisted functions, the
    address-taken functions, the state maps, and the states of each map.  The
    pointers inside it are absolute; after reading a file they are those of the
    writer, and [lbr_link_paths] recomputes them for the buffer's own address.
    Buffers are byte lists at an address, and an access outside gives [None]. *)

From Stdlib Require Import Ascii.
From S2P Require Import Prelude Slots Lbr LbrState.
Import Paths.

(** ** Layout (x86-64) *)

Definition sizeof_function : Z := 24.   (* uint64_t, char[16] *)
Definition sizeof_state : Z := 272.     (* 16 * uint64_t, 16 * uint64_t, 16 bytes *)
Definition sizeof_map : Z := 24.        (* uint64_t, uint32_t, 4 bytes padding, pointer *)
Definition sizeof_paths : Z := 48.      (* three times uint32_t, 4 bytes padding, pointer *)
Definition MAX_FNAME_LENGTH : nat := 16.

(** *** Access to the buffer [bs] at [base] *)

Definition at_off (base : Z) (bs : list Z) (addr : Z) (n : nat) : option nat :=
  let o := addr - base in
  if decide (0 <= o /\ o + Z.of_nat n <= Z.of_nat (length bs)) then Some (Z.to_nat o) else None.

Definition rd_bytes (n : nat) (base : Z) (bs : list Z) (addr : Z) : option (list Z) :=
  o ← at_off base bs addr n; Some (take n (drop o bs)).
Definition rd (n : nat) (base : Z) (bs : list Z) (addr : Z) : option Z := le_word <$> rd_bytes n base bs addr.
Definition wr (n : nat) (base : Z) (bs : list Z) (addr v : Z) : option (list Z) :=
  o ← at_off base bs addr n; Some (take o bs ++ le_bytes n v ++ drop (o + n) bs).

(** The fields of the header and of state map [i], by their address. *)
Definition funcs_at (base : Z) : Z := base.
Definition func_at (base : Z) : Z := base + 8.
Definition ats_at (base : Z) : Z := base + 16.
Definition address_taken_at (base : Z) : Z := base + 24.
Definition state_maps_at (base : Z) : Z := base + 32.
Definition state_map_at (base : Z) : Z := base + 40.
Definition map_to_at (m i : Z) : Z := m + i * sizeof_map.
Definition map_states_at (m i : Z) : Z := m + i * sizeof_map + 8.
Definition map_state_at (m i : Z) : Z := m + i * sizeof_map + 16.

(** ** Linking *)

(** The loop over the state maps from [i] on, [n] of them. *)
Fixpoint link_maps (n : nat) (i base : Z) (bs : list Z) (p : Z) : option (list Z) :=
  match n with
  | O => Some bs
  | S n =>
      m ← rd 8 base bs (state_map_at base);
      bs ← wr 8 base bs (map_state_at m i) p;
      states ← rd 4 base bs (map_states_at m i);
      link_maps n (i + 1) base bs (u64 (p + states * sizeof_state))
  end.

Definition lbr_link_paths (base : Z) (bs : list Z) : option (list Z) :=
  let p := u64 (base + sizeof_paths) in
  bs ← wr 8 base bs (func_at base) p;
  funcs ← rd 4 base bs (funcs_at base);
  let p := u64 (p + funcs * sizeof_function) in
  bs ← wr 8 base bs (address_taken_at base) p;
  ats ← rd 4 base bs (ats_at base);
  let p := u64 (p + ats * 8) in
  bs ← wr 8 base bs (state_map_at base) p;
  maps ← rd 4 base bs (state_maps_at base);
  let p := u64 (p + maps * sizeof_map) in
  link_maps (Z.to_nat maps) 0 base bs p.

(** [lbr_sizeof_paths] of a buffer. *)
Fixpoint sizeof_states (n : nat) (i base : Z) (bs : list Z) (size : Z) : option Z :=
  match n with
  | O => Some size
  | S n =>
      m ← rd 8 base bs (state_map_at base);
      states ← rd 4 base bs (map_states_at m i);
      sizeof_states n (i + 1) base bs (u64 (size + states * sizeof_state))
  end.

Definition lbr_sizeof_paths (base : Z) (bs : list Z) : option Z :=
  funcs ← rd 4 base bs (funcs_at base);
  ats ← rd 4 base bs (ats_at base);
  maps ← rd 4 base bs (state_maps_at base);
  sizeof_states (Z.to_nat maps) 0 base bs
    (u64 (sizeof_paths + funcs * sizeof_function + ats * 8 + maps * sizeof_map)).

(** ** Packing *)

(** The bytes of the structures.  [fname] is filled up with NUL bytes.  A
    pointer and the padding in front of it come from the memory packed. *)
Definition enc_name (s : string) : list Z :=
  let b := (fun c => Z.of_N (N_of_ascii c)) <$> String.list_ascii_of_string s in
  b ++ replicate (MAX_FNAME_LENGTH - length b) 0.
Definition enc_function (f : lbr_function) : list Z := le_bytes 8 (fptr f) ++ enc_name (fname f).
Definition enc_state (s : lbr_valid_state) : list Z :=
  concat (le_bytes 8 <$> vs_from s) ++ concat (le_bytes 8 <$> vs_to s) ++ vs_hash s.

Record pointer := Pointer { ptr_pad : list Z; ptr_val : Z }.
Definition enc_counted (n : Z) (q : pointer) : list Z := le_bytes 4 n ++ ptr_pad q ++ le_bytes 8 (ptr_val q).
Definition enc_map (sm : lbr_valid_state_map) (q : pointer) : list Z :=
  le_bytes 8 (sm_to sm) ++ enc_counted (Z.of_nat (length (sm_state sm))) q.

(** The pointers of a structure: of the header, and of each state map. *)
Record layout := Layout { lay_func : pointer; lay_at : pointer; lay_map : pointer; lay_state : list pointer }.

Definition enc_header (p : lbr_paths) (y : layout) : list Z :=
  enc_counted (Z.of_nat (length (p_func p))) (lay_func y) ++
  enc_counted (Z.of_nat (length (p_address_taken p))) (lay_at y) ++
  enc_counted (Z.of_nat (length (p_state_map p))) (lay_map y).

(** [lbr_sizeof_paths] of a structure that is not packed. *)
Definition sizeof_of (p : lbr_paths) : Z :=
  foldl (fun size sm => u64 (size + Z.of_nat (length (sm_state sm)) * sizeof_state))
    (u64 (sizeof_paths + Z.of_nat (length (p_func p)) * sizeof_function +
       Z.of_nat (length (p_address_taken p)) * 8 + Z.of_nat (length (p_state_map p)) * sizeof_map))
    (p_state_map p).

(** [memcpy(packed + offset, src, ...)]; outside the block there is no result. *)
Definition memcpy (packed : list Z) (offset : Z) (src : list Z) : option (list Z) :=
  if decide (offset + Z.of_nat (length src) <= Z.of_nat (length packed))
  then Some (take (Z.to_nat offset) packed ++ src ++ drop (Z.to_nat offset + length src) packed) else None.

Definition enc_funcs (p : lbr_paths) : list Z := concat (enc_function <$> p_func p).
Definition enc_ats (p : lbr_paths) : list Z := concat (le_bytes 8 <$> p_address_taken p).
Definition enc_maps (p : lbr_paths) (qs : list pointer) : list Z := concat (zip_with enc_map (p_state_map p) qs).
Definition enc_states (sm : lbr_valid_state_map) : list Z := concat (enc_state <$> sm_state sm).

Fixpoint pack_states (packed : list Z) (offset : Z) (sms : list lbr_valid_state_map) : option (list Z) :=
  match sms with
  | [] => Some packed
  | sm :: sms =>
      packed ← memcpy packed offset (enc_states sm);
      pack_states packed (u64 (offset + Z.of_nat (length (sm_state sm)) * sizeof_state)) sms
  end.

(** [lbr_pack_paths] of the structure [p] with pointers [y], into the block
    [packed] that [my_malloc] returns at [base]. *)
Definition lbr_pack_paths (base : Z) (packed : list Z) (p : lbr_paths) (y : layout) : option (list Z) :=
  packed ← memcpy packed 0 (enc_header p y);
  let offset := sizeof_paths in
  packed ← memcpy packed offset (enc_funcs p);
  let offset := u64 (offset + Z.of_nat (length (p_func p)) * sizeof_function) in
  packed ← memcpy packed offset (enc_ats p);
  let offset := u64 (offset + Z.of_nat (length (p_address_taken p)) * 8) in
  packed ← memcpy packed offset (enc_maps p (lay_state y));
  let offset := u64 (offset + Z.of_nat (length (p_state_map p)) * sizeof_map) in
  packed ← pack_states packed offset (p_state_map p);
  lbr_link_paths base packed.

(** What [write_paths] puts into the file, and [read_paths] of a file into a
    buffer at [base], when no call of the C library fails. *)
Definition write_paths (base : Z) (bs : list Z) : option (list Z) :=
  size ← lbr_sizeof_paths base bs; rd_bytes (Z.to_nat size) base bs base.
Definition read_paths (base : Z) (file : list Z) : option (list Z) := lbr_link_paths base file.

(** ** Reading a packed structure, as its users do: through its pointers *)

Fixpoint until_nul (bs : list Z) : list Z :=
  match bs with [] => [] | b :: bs => if decide (b = 0) then [] else b :: until_nul bs end.
Definition dec_name (bs : list Z) : string :=
  String.string_of_list_ascii ((fun b => ascii_of_N (Z.to_N b)) <$> until_nul bs).
Definition dec_function (bs : list Z) : lbr_function := LbrFunction (le_word (take 8 bs)) (dec_name (drop 8 bs)).
Definition dec_words (n : nat) (bs : list Z) : list Z := (fun k => le_word (take 8 (drop (8 * k) bs))) <$> seq 0 n.
Definition dec_state (bs : list Z) : lbr_valid_state :=
  VState (dec_words 16 (take 128 bs)) (dec_words 16 (take 128 (drop 128 bs))) (drop 256 bs).

Definition rd_array {A} (size : nat) (dec : list Z -> A) (base : Z) (bs : list Z) (addr : Z) (n : nat) : option (list A) :=
  mapM (fun k : nat => dec <$> rd_bytes size base bs (addr + Z.of_nat k * Z.of_nat size)) (seq 0 n).

Definition rd_map (base : Z) (bs : list Z) (m : Z) (i : nat) : option lbr_valid_state_map :=
  to ← rd 8 base bs (map_to_at m (Z.of_nat i));
  n ← rd 4 base bs (map_states_at m (Z.of_nat i));
  q ← rd 8 base bs (map_state_at m (Z.of_nat i));
  ss ← rd_array 272 dec_state base bs q (Z.to_nat n);
  Some (VMap to ss).

Definition view_paths (base : Z) (bs : list Z) : option lbr_paths :=
  funcs ← rd 4 base bs (funcs_at base); f ← rd 8 base bs (func_at base);
  ats ← rd 4 base bs (ats_at base); a ← rd 8 base bs (address_taken_at base);
  maps ← rd 4 base bs (state_maps_at base); m ← rd 8 base bs (state_map_at base);
  fs ← rd_array 24 dec_function base bs f (Z.to_nat funcs);
  aas ← rd_array 8 le_word base bs a (Z.to_nat ats);
  sms ← mapM (rd_map base bs m) (seq 0 (Z.to_nat maps));
  Some (LbrPaths fs aas sms).

(** ** Buffers *)

(** [x] lies at offset [o] of [bs]. *)
Definition has (bs : list Z) (o : nat) (x : list Z) : Prop :=
  exists a c, bs = a ++ x ++ c /\ length a = o.

Lemma has_app bs o x y : has bs o (x ++ y) -> has bs o x /\ has bs (o + length x) y.
Proof.
  intros (a & c & -> & <-). split.
  - exists a, (y ++ c). by rewrite <- app_assoc.
  - exists (a ++ x), c. by rewrite length_app, <- !app_assoc.
Qed.

Lemma has_self bs : has bs 0 bs.
Proof. exists [], []. by rewrite app_nil_r. Qed.

Lemma has_rd_bytes bs base o n x addr : has bs o x -> length x = n -> addr = base + Z.of_nat o ->
  rd_bytes n base bs addr = Some x.
Proof.
  intros (a & c & -> & <-) <- ->. unfold rd_bytes, at_off.
  rewrite decide_True by (rewrite !length_app; lia). cbn [mbind option_bind].
  replace (Z.to_nat _) with (length a) by lia. by rewrite drop_app_length, take_app_length.
Qed.

Lemma has_rd bs base o n v addr : has bs o (le_bytes n v) -> 0 <= v < 256 ^ Z.of_nat n -> addr = base + Z.of_nat o ->
  rd n base bs addr = Some v.
Proof.
  intros H Hv ->. unfold rd. erewrite has_rd_bytes; [|exact H|apply length_le_bytes|done].
  cbn. by rewrite le_word_bytes.
Qed.

Lemma wr_eq a x c bs' n base bs addr v :
  bs = a ++ x ++ c -> bs' = a ++ le_bytes n v ++ c -> length x = n -> addr = base + Z.of_nat (length a) ->
  wr n base bs addr v = Some bs'.
Proof.
  intros -> -> <- ->. unfold wr, at_off.
  rewrite decide_True by (rewrite !length_app; lia). cbn [mbind option_bind].
  replace (Z.to_nat _) with (length a) by lia.
  rewrite take_app_length, <- drop_drop, drop_app_length, drop_app_length. reflexivity.
Qed.

Lemma memcpy_app packed done' rest offset src :
  packed = done' ++ rest -> offset = Z.of_nat (length done') -> (length src <= length rest)%nat ->
  memcpy packed offset src = Some ((done' ++ src) ++ drop (length src) rest).
Proof.
  intros -> -> Hle. unfold memcpy. rewrite decide_True by (rewrite length_app; lia).
  rewrite Nat2Z.id, take_app_length, <- drop_drop, drop_app_length, app_assoc. reflexivity.
Qed.

(** ** Well-formed structures *)

Definition wf_name (s : string) : Prop :=
  (String.length s <= MAX_FNAME_LENGTH)%nat /\ Forall (fun c => c <> Ascii.zero) (String.list_ascii_of_string s).
Definition wf_function (f : lbr_function) : Prop := is_u64 (fptr f) /\ wf_name (fname f).
Definition wf_state (s : lbr_valid_state) : Prop :=
  length (vs_from s) = 16%nat /\ Forall is_u64 (vs_from s) /\
  length (vs_to s) = 16%nat /\ Forall is_u64 (vs_to s) /\ length (vs_hash s) = 16%nat.
Definition wf_count (n : nat) : Prop := Z.of_nat n < 2 ^ 31.
Definition wf_map (sm : lbr_valid_state_map) : Prop :=
  is_u64 (sm_to sm) /\ wf_count (length (sm_state sm)) /\ Forall wf_state (sm_state sm).

(** The counts stay in the range of the [int] loop variables, the names fit
    their field, and the arrays of a state have their fixed lengths. *)
Record wf_paths (p : lbr_paths) : Prop := {
  wf_funcs : wf_count (length (p_func p)) /\ Forall wf_function (p_func p);
  wf_ats : wf_count (length (p_address_taken p)) /\ Forall is_u64 (p_address_taken p);
  wf_maps : wf_count (length (p_state_map p)) /\ Forall wf_map (p_state_map p)
}.

Definition wf_pointer (q : pointer) : Prop := length (ptr_pad q) = 4%nat.
Record wf_layout (p : lbr_paths) (y : layout) : Prop := {
  wf_lay_func : wf_pointer (lay_func y);
  wf_lay_at : wf_pointer (lay_at y);
  wf_lay_map : wf_pointer (lay_map y);
  wf_lay_state : length (lay_state y) = length (p_state_map p) /\ Forall wf_pointer (lay_state y)
}.

(** *** Sizes *)

Lemma length_concat_const {A} (f : A -> list Z) (n : nat) l :
  Forall (fun x => length (f x) = n) l -> length (concat (f <$> l)) = (length l * n)%nat.
Proof. induction 1 as [|x l Hx _ IH]; [done|]. cbn. rewrite length_app, IH, Hx. lia. Qed.

Lemma length_enc_words l : length (concat (le_bytes 8 <$> l)) = (length l * 8)%nat.
Proof. apply length_concat_const, Forall_true. intros. apply length_le_bytes. Qed.

Lemma length_list_ascii s : length (String.list_ascii_of_string s) = String.length s.
Proof. induction s; cbn; congruence. Qed.

Lemma length_enc_name s : wf_name s -> length (enc_name s) = 16%nat.
Proof.
  intros [Hl _]. unfold enc_name. rewrite length_app, length_replicate, length_fmap, length_list_ascii.
  unfold MAX_FNAME_LENGTH in *. lia.
Qed.

Lemma length_enc_function f : wf_function f -> length (enc_function f) = 24%nat.
Proof. intros [_ H]. unfold enc_function. by rewrite length_app, length_le_bytes, length_enc_name. Qed.

Lemma length_enc_state s : wf_state s -> length (enc_state s) = 272%nat.
Proof.
  intros (Hf & _ & Ht & _ & Hh). unfold enc_state.
  by rewrite !length_app, !length_enc_words, Hf, Ht, Hh.
Qed.

Lemma length_enc_counted n q : wf_pointer q -> length (enc_counted n q) = 16%nat.
Proof. intros H. unfold enc_counted. by rewrite !length_app, !length_le_bytes, H. Qed.

Lemma length_enc_map sm q : wf_pointer q -> length (enc_map sm q) = 24%nat.
Proof. intros H. unfold enc_map. by rewrite length_app, length_le_bytes, length_enc_counted. Qed.

Lemma length_zip_maps sms qs : length qs = length sms -> Forall wf_pointer qs ->
  length (concat (zip_with enc_map sms qs)) = (length sms * 24)%nat.
Proof.
  intros Hl H. revert sms Hl. induction H as [|q qs Hq _ IH]; intros [|sm sms] Hl; try done.
  cbn [zip_with concat length]. rewrite length_app, length_enc_map, IH by (done || (cbn in Hl; lia)). lia.
Qed.

Definition states_size (sms : list lbr_valid_state_map) : Z :=
  foldr (fun sm n => Z.of_nat (length (sm_state sm)) * sizeof_state + n) 0 sms.

Lemma states_size_cons sm sms :
  states_size (sm :: sms) = Z.of_nat (length (sm_state sm)) * sizeof_state + states_size sms.
Proof. reflexivity. Qed.

Lemma states_size_nonneg sms : 0 <= states_size sms.
Proof. induction sms as [|sm sms IH]; [done|]. rewrite states_size_cons; unfold sizeof_state; lia. Qed.

Lemma length_enc_states sm : wf_map sm -> Z.of_nat (length (enc_states sm)) = Z.of_nat (length (sm_state sm)) * sizeof_state.
Proof.
  intros (_ & _ & Hs). unfold enc_states, sizeof_state. rewrite (length_concat_const _ 272); [lia|].
  eapply Forall_impl; [exact Hs|]. apply length_enc_state.
Qed.

Lemma length_enc_all_states sms : Forall wf_map sms ->
  Z.of_nat (length (concat (enc_states <$> sms))) = states_size sms.
Proof.
  induction 1 as [|sm sms Hsm _ IH]; [done|]. cbn [fmap list_fmap concat].
  rewrite length_app, Nat2Z.inj_add, states_size_cons, IH, length_enc_states; done.
Qed.

(** The addresses of the five parts, relative to the buffer. *)
Definition off_ats (p : lbr_paths) : Z := 48 + Z.of_nat (length (p_func p)) * 24.
Definition off_maps (p : lbr_paths) : Z := off_ats p + Z.of_nat (length (p_address_taken p)) * 8.
Definition off_states (p : lbr_paths) : Z := off_maps p + Z.of_nat (length (p_state_map p)) * 24.
Definition total (p : lbr_paths) : Z := off_states p + states_size (p_state_map p).

(** The packed bytes with the pointers [y]. *)
Definition packed_bytes (p : lbr_paths) (y : layout) : list Z :=
  enc_header p y ++ enc_funcs p ++ enc_ats p ++ enc_maps p (lay_state y) ++ concat (enc_states <$> p_state_map p).

Section lengths.
Context (p : lbr_paths) (y : layout) (Hp : wf_paths p) (Hy : wf_layout p y).

Lemma length_header : length (enc_header p y) = 48%nat.
Proof. destruct Hy. unfold enc_header. by rewrite !length_app, !length_enc_counted. Qed.

Lemma length_funcs : length (enc_funcs p) = (length (p_func p) * 24)%nat.
Proof.
  apply length_concat_const. destruct (wf_funcs p Hp) as [_ H].
  eapply Forall_impl; [exact H|]. apply length_enc_function.
Qed.

Lemma length_ats : length (enc_ats p) = (length (p_address_taken p) * 8)%nat.
Proof. apply length_enc_words. Qed.

Lemma length_maps : length (enc_maps p (lay_state y)) = (length (p_state_map p) * 24)%nat.
Proof. destruct (wf_lay_state p y Hy). by apply length_zip_maps. Qed.

Lemma length_states : Z.of_nat (length (concat (enc_states <$> p_state_map p))) = states_size (p_state_map p).
Proof. apply length_enc_all_states, (wf_maps p Hp). Qed.

Lemma length_packed : Z.of_nat (length (packed_bytes p y)) = total p.
Proof.
  unfold packed_bytes. rewrite !length_app, length_header, length_funcs, length_ats, length_maps.
  unfold total, off_states, off_maps, off_ats. pose proof length_states. lia.
Qed.
End lengths.

(** ** The size, the copies and the links *)

Lemma foldl_sizes sms size : 0 <= size -> size + states_size sms < 2 ^ 64 ->
  foldl (fun size sm => u64 (size + Z.of_nat (length (sm_state sm)) * sizeof_state)) size sms = size + states_size sms.
Proof.
  revert size. induction sms as [|sm sms IH]; intros size H0 H; [cbn; lia|].
  cbn [foldl]. rewrite states_size_cons in *.
  pose proof (states_size_nonneg sms). unfold sizeof_state in *.
  rewrite u64_small, IH; unfold is_u64; lia.
Qed.

Lemma sizeof_of_total p : total p < 2 ^ 64 -> sizeof_of p = total p.
Proof.
  intros H. unfold sizeof_of, total, off_states, off_maps, off_ats, sizeof_paths, sizeof_function, sizeof_map in *.
  pose proof (states_size_nonneg (p_state_map p)).
  rewrite u64_small, foldl_sizes; unfold is_u64; lia.
Qed.

Lemma pack_states_app sms done' rest : Forall wf_map sms ->
  Z.of_nat (length done') + states_size sms < 2 ^ 64 -> states_size sms <= Z.of_nat (length rest) ->
  pack_states (done' ++ rest) (Z.of_nat (length done')) sms =
    Some ((done' ++ concat (enc_states <$> sms)) ++ drop (Z.to_nat (states_size sms)) rest).
Proof.
  intros Hw. revert done' rest. induction Hw as [|sm sms Hsm _ IH]; intros done' rest Hlt Hle.
  { cbn. by rewrite app_nil_r. }
  cbn [pack_states]. rewrite states_size_cons in *.
  pose proof (length_enc_states sm Hsm) as Hl. pose proof (states_size_nonneg sms).
  unfold sizeof_state in *.
  erewrite memcpy_app by (reflexivity || lia). cbn [mbind option_bind].
  rewrite u64_small by (unfold is_u64; lia).
  replace (Z.of_nat (length done') + _) with (Z.of_nat (length (done' ++ enc_states sm)))
    by (rewrite length_app; lia).
  rewrite IH by (rewrite ?length_app, ?length_drop; lia).
  rewrite drop_drop. cbn. rewrite <- !app_assoc. do 5 f_equal. lia.
Qed.

Section pack.
Context (p : lbr_paths) (y : layout) (Hp : wf_paths p) (Hy : wf_layout p y) (Hsize : total p < 2 ^ 64).

(** The copies fill the block of [lbr_sizeof_paths] bytes exactly. *)
Lemma lbr_pack_paths_link base packed : length packed = Z.to_nat (sizeof_of p) ->
  lbr_pack_paths base packed p y = lbr_link_paths base (packed_bytes p y).
Proof.
  rewrite sizeof_of_total by done. intros Hlen.
  pose proof (length_header p y Hy) as H1. pose proof (length_funcs p Hp) as H2.
  pose proof (length_ats p) as H3. pose proof (length_maps p y Hy) as H4.
  pose proof (states_size_nonneg (p_state_map p)).
  unfold total, off_states, off_maps, off_ats in *.
  unfold lbr_pack_paths, sizeof_paths, sizeof_function, sizeof_map. cbv zeta.
  rewrite (u64_small (48 + _)) by (unfold is_u64; lia).
  rewrite (u64_small (48 + _ + _)) by (unfold is_u64; lia).
  rewrite (u64_small (48 + _ + _ + _)) by (unfold is_u64; lia).
  rewrite (memcpy_app packed [] packed) by (done || lia). cbn [mbind option_bind].
  erewrite memcpy_app by (reflexivity || (rewrite ?length_app, ?length_drop; cbn [length]; lia)). cbn [mbind option_bind].
  erewrite memcpy_app by (reflexivity || (rewrite ?length_app, ?length_drop; cbn [length]; lia)). cbn [mbind option_bind].
  erewrite memcpy_app by (reflexivity || (rewrite ?length_app, ?length_drop; cbn [length]; lia)). cbn [mbind option_bind].
  match goal with |- context [pack_states (?d ++ ?r) ?o _] => set (dn := d); set (rest := r);
    replace o with (Z.of_nat (length dn)) by (subst dn; rewrite ?length_app; cbn [length]; lia) end.
  assert (length dn = Z.to_nat (off_states p)) as Hdn
    by (subst dn; rewrite ?length_app; unfold off_states, off_maps, off_ats; cbn [length]; lia).
  unfold off_states, off_maps, off_ats in Hdn.
  assert (length rest = Z.to_nat (states_size (p_state_map p))) as Hrest
    by (subst rest; rewrite !length_drop; lia).
  rewrite pack_states_app by (apply (wf_maps p Hp) || lia). cbn [mbind option_bind].
  rewrite drop_ge, app_nil_r by lia. f_equal. subst dn. unfold packed_bytes. by rewrite <- !app_assoc.
Qed.
End pack.

(** The pointers after linking: those of the parts, the padding as it was. *)
Fixpoint link_ptrs (a : Z) (sms : list lbr_valid_state_map) (qs : list pointer) : list pointer :=
  match sms, qs with
  | sm :: sms, q :: qs =>
      Pointer (ptr_pad q) a :: link_ptrs (u64 (a + Z.of_nat (length (sm_state sm)) * sizeof_state)) sms qs
  | _, _ => []
  end.

Definition relink (base : Z) (p : lbr_paths) (y : layout) : layout :=
  Layout (Pointer (ptr_pad (lay_func y)) (base + 48)) (Pointer (ptr_pad (lay_at y)) (base + off_ats p))
    (Pointer (ptr_pad (lay_map y)) (base + off_maps p)) (link_ptrs (base + off_states p) (p_state_map p) (lay_state y)).

Lemma link_ptrs_wf a sms qs : length qs = length sms -> Forall wf_pointer qs ->
  length (link_ptrs a sms qs) = length sms /\ Forall wf_pointer (link_ptrs a sms qs).
Proof.
  revert a qs. induction sms as [|sm sms IH]; intros a [|q qs] Hl Hq; try done. cbn [link_ptrs].
  apply Forall_cons in Hq as [Hq Hqs]. cbn in Hl.
  destruct (IH (u64 (a + Z.of_nat (length (sm_state sm)) * sizeof_state)) qs) as [H1 H2]; [lia|done|].
  cbn. split; [lia|]. by constructor.
Qed.

Lemma relink_wf base p y : wf_layout p y -> wf_layout p (relink base p y).
Proof. intros [H1 H2 H3 [H4 H5]]. split; try done. by apply link_ptrs_wf. Qed.

Section link.
Context (base m : Z) (hd tl : list Z).
Hypothesis (Hm : m = base + Z.of_nat (length hd))
  (Hhd : forall rest, rd 8 base (hd ++ rest) (state_map_at base) = Some m).

Lemma link_maps_spec sms2 : forall sms1 qs1 qs2 a,
  length qs1 = length sms1 -> Forall wf_pointer qs1 -> length qs2 = length sms2 -> Forall wf_pointer qs2 ->
  Forall wf_map sms2 ->
  link_maps (length sms2) (Z.of_nat (length sms1)) base
    (hd ++ concat (zip_with enc_map sms1 qs1) ++ concat (zip_with enc_map sms2 qs2) ++ tl) a =
  Some (hd ++ concat (zip_with enc_map sms1 qs1) ++ concat (zip_with enc_map sms2 (link_ptrs a sms2 qs2)) ++ tl).
Proof.
  induction sms2 as [|sm sms2 IH]; intros sms1 qs1 [|q qs2] a Hl1 Hq1 Hl2 Hq2 Hw; try done.
  apply Forall_cons in Hq2 as [Hq Hq2]. apply Forall_cons in Hw as [Hsm Hw]. cbn in Hl2.
  pose proof (length_zip_maps sms1 qs1 Hl1 Hq1) as Hz. unfold wf_pointer in Hq.
  cbn [length link_maps link_ptrs]. rewrite Hhd. cbn [mbind option_bind].
  set (q' := Pointer (ptr_pad q) a).
  rewrite (wr_eq (hd ++ concat (zip_with enc_map sms1 qs1) ++ le_bytes 8 (sm_to sm) ++
      le_bytes 4 (Z.of_nat (length (sm_state sm))) ++ ptr_pad q) (le_bytes 8 (ptr_val q))
      (concat (zip_with enc_map sms2 qs2) ++ tl)
      (hd ++ concat (zip_with enc_map sms1 qs1) ++ enc_map sm q' ++ concat (zip_with enc_map sms2 qs2) ++ tl)).
  2,3: cbn [zip_with concat]; unfold enc_map, enc_counted; cbn [ptr_pad ptr_val q']; rewrite <- !app_assoc; reflexivity.
  2: apply length_le_bytes.
  2: rewrite !length_app, !length_le_bytes, Hz, Hq; unfold map_state_at, sizeof_map; lia.
  cbn [mbind option_bind].
  rewrite (has_rd _ base (length hd + length sms1 * 24 + 8) 4 (Z.of_nat (length (sm_state sm)))).
  2: { exists (hd ++ concat (zip_with enc_map sms1 qs1) ++ le_bytes 8 (sm_to sm)). eexists.
    split; [unfold enc_map, enc_counted; rewrite <- !app_assoc; reflexivity|].
    rewrite !length_app, Hz, length_le_bytes; lia. }
  2: { destruct Hsm as (_ & Hc & _). unfold wf_count in Hc. cbn; lia. }
  2: { unfold map_states_at, sizeof_map; lia. }
  cbn [mbind option_bind].
  replace (Z.of_nat (length sms1) + 1) with (Z.of_nat (length (sms1 ++ [sm]))) by (rewrite length_app; cbn; lia).
  specialize (IH (sms1 ++ [sm]) (qs1 ++ [q']) qs2 (u64 (a + Z.of_nat (length (sm_state sm)) * sizeof_state))).
  rewrite zip_with_app, concat_app in IH by done.
  cbn [zip_with concat] in IH. rewrite app_nil_r, <- !app_assoc in IH. rewrite IH.
  - cbn [zip_with concat]. by rewrite <- !app_assoc.
  - rewrite !length_app; cbn; lia.
  - apply Forall_app; split; [done|]. by repeat constructor.
  - lia.
  - done.
  - done.
Qed.
End link.

Section header.
Context (base : Z) (p : lbr_paths) (Hp : wf_paths p).

(** What the header of a packed structure says, field by field. *)
Lemma header_has y : wf_layout p y ->
  let bs := packed_bytes p y in
  (has bs 0 (le_bytes 4 (Z.of_nat (length (p_func p)))) /\ has bs 8 (le_bytes 8 (ptr_val (lay_func y)))) /\
  (has bs 16 (le_bytes 4 (Z.of_nat (length (p_address_taken p)))) /\ has bs 24 (le_bytes 8 (ptr_val (lay_at y)))) /\
  (has bs 32 (le_bytes 4 (Z.of_nat (length (p_state_map p)))) /\ has bs 40 (le_bytes 8 (ptr_val (lay_map y)))).
Proof.
  intros [H1 H2 H3 _] bs. pose proof (has_self bs) as H. subst bs. unfold packed_bytes in H at 2.
  apply has_app in H as [H _]. unfold enc_header in H.
  apply has_app in H as [Ha H]. apply has_app in H as [Hb Hc].
  rewrite !length_enc_counted in Hc by done. rewrite !length_enc_counted in Hb by done. unfold enc_counted in *.
  apply has_app in Ha as [Ha1 Ha]. apply has_app in Ha as [_ Ha2].
  apply has_app in Hb as [Hb1 Hb]. apply has_app in Hb as [_ Hb2].
  apply has_app in Hc as [Hc1 Hc]. apply has_app in Hc as [_ Hc2].
  unfold wf_pointer in *. rewrite !length_le_bytes, ?H1, ?H2, ?H3 in *. done.
Qed.

Lemma rd_counts y : wf_layout p y ->
  rd 4 base (packed_bytes p y) (funcs_at base) = Some (Z.of_nat (length (p_func p))) /\
  rd 4 base (packed_bytes p y) (ats_at base) = Some (Z.of_nat (length (p_address_taken p))) /\
  rd 4 base (packed_bytes p y) (state_maps_at base) = Some (Z.of_nat (length (p_state_map p))).
Proof.
  intros Hy. destruct (header_has y Hy) as ((H1 & _) & (H2 & _) & (H3 & _)).
  destruct Hp as [[Hf _] [Ha _] [Hm _]]. unfold wf_count in *.
  split; [|split]; (eapply has_rd; [eassumption|cbn; lia|unfold funcs_at, ats_at, state_maps_at; lia]).
Qed.

Let body (y : layout) : list Z :=
  enc_funcs p ++ enc_ats p ++ enc_maps p (lay_state y) ++ concat (enc_states <$> p_state_map p).

Lemma wr_func y v : wf_layout p y ->
  wr 8 base (packed_bytes p y) (func_at base) v =
  Some (packed_bytes p (Layout (Pointer (ptr_pad (lay_func y)) v) (lay_at y) (lay_map y) (lay_state y))).
Proof.
  intros [H1 _ _ _]. unfold wf_pointer in *.
  eapply (wr_eq (le_bytes 4 (Z.of_nat (length (p_func p))) ++ ptr_pad (lay_func y))
      (le_bytes 8 (ptr_val (lay_func y)))
      (enc_counted (Z.of_nat (length (p_address_taken p))) (lay_at y) ++
       enc_counted (Z.of_nat (length (p_state_map p))) (lay_map y) ++ body y));
    [unfold packed_bytes, body, enc_header, enc_counted; cbn [lay_func lay_at lay_map lay_state ptr_pad ptr_val];
      rewrite <- !app_assoc; reflexivity..|apply length_le_bytes|].
  rewrite !length_app, !length_le_bytes, H1. unfold func_at. lia.
Qed.

Lemma wr_at y v : wf_layout p y ->
  wr 8 base (packed_bytes p y) (address_taken_at base) v =
  Some (packed_bytes p (Layout (lay_func y) (Pointer (ptr_pad (lay_at y)) v) (lay_map y) (lay_state y))).
Proof.
  intros [H1 H2 _ _]. unfold wf_pointer in H2.
  eapply (wr_eq (enc_counted (Z.of_nat (length (p_func p))) (lay_func y) ++
      le_bytes 4 (Z.of_nat (length (p_address_taken p))) ++ ptr_pad (lay_at y))
      (le_bytes 8 (ptr_val (lay_at y)))
      (enc_counted (Z.of_nat (length (p_state_map p))) (lay_map y) ++ body y));
    [unfold packed_bytes, body, enc_header, enc_counted; cbn [lay_func lay_at lay_map lay_state ptr_pad ptr_val];
      rewrite <- !app_assoc; reflexivity..|apply length_le_bytes|].
  rewrite !length_app, length_enc_counted, !length_le_bytes, H2 by done. unfold address_taken_at. lia.
Qed.

Lemma wr_map y v : wf_layout p y ->
  wr 8 base (packed_bytes p y) (state_map_at base) v =
  Some (packed_bytes p (Layout (lay_func y) (lay_at y) (Pointer (ptr_pad (lay_map y)) v) (lay_state y))).
Proof.
  intros [H1 H2 H3 _]. unfold wf_pointer in H3.
  eapply (wr_eq (enc_counted (Z.of_nat (length (p_func p))) (lay_func y) ++
      enc_counted (Z.of_nat (length (p_address_taken p))) (lay_at y) ++
      le_bytes 4 (Z.of_nat (length (p_state_map p))) ++ ptr_pad (lay_map y))
      (le_bytes 8 (ptr_val (lay_map y))) (body y));
    [unfold packed_bytes, body, enc_header, enc_counted; cbn [lay_func lay_at lay_map lay_state ptr_pad ptr_val];
      rewrite <- !app_assoc; reflexivity..|apply length_le_bytes|].
  rewrite !length_app, !length_enc_counted, !length_le_bytes, H3 by done. unfold state_map_at. lia.
Qed.

Context (Hbase : 0 <= base) (Hsize : base + total p < 2 ^ 64).

Lemma offs_range : 0 <= off_ats p <= off_maps p /\ off_maps p <= off_states p <= total p.
Proof.
  unfold total, off_states, off_maps, off_ats. pose proof (states_size_nonneg (p_state_map p)). lia.
Qed.

Lemma link_maps_packed y : wf_layout p y -> ptr_val (lay_map y) = base + off_maps p ->
  link_maps (length (p_state_map p)) 0 base (packed_bytes p y) (base + off_states p) =
  Some (packed_bytes p (Layout (lay_func y) (lay_at y) (lay_map y)
    (link_ptrs (base + off_states p) (p_state_map p) (lay_state y)))).
Proof.
  intros Hy Hv. destruct (wf_lay_state p y Hy) as [Hl Hq]. destruct offs_range as [Ho1 Ho2].
  set (hd := enc_header p y ++ enc_funcs p ++ enc_ats p).
  assert (Z.of_nat (length hd) = off_maps p) as Hhd.
  { subst hd. rewrite !length_app, length_header, length_funcs, length_ats by done. unfold off_maps, off_ats. lia. }
  assert (forall rest, rd 8 base (hd ++ rest) (state_map_at base) = Some (base + off_maps p)) as Hrd.
  { intros rest. rewrite <- Hv. apply (has_rd _ _ 40); [|rewrite Hv; cbn; lia|unfold state_map_at; lia].
    destruct Hy as [H1 H2 H3 _]. unfold wf_pointer in H3.
    exists (enc_counted (Z.of_nat (length (p_func p))) (lay_func y) ++
      enc_counted (Z.of_nat (length (p_address_taken p))) (lay_at y) ++
      le_bytes 4 (Z.of_nat (length (p_state_map p))) ++ ptr_pad (lay_map y)). eexists.
    split; [unfold hd, enc_header, enc_counted; rewrite <- !app_assoc; reflexivity|].
    by rewrite !length_app, !length_enc_counted, !length_le_bytes, H3. }
  pose proof (link_maps_spec base (base + off_maps p) hd (concat (enc_states <$> p_state_map p))
    (f_equal (Z.add base) (eq_sym Hhd)) Hrd (p_state_map p) [] [] (lay_state y) (base + off_states p)) as HL.
  specialize (HL eq_refl (Forall_nil_2 _) Hl Hq (proj2 (wf_maps p Hp))).
  cbn [zip_with concat length app] in HL. unfold hd in HL. rewrite <- !app_assoc in HL. exact HL.
Qed.

Lemma lbr_link_paths_packed y : wf_layout p y ->
  lbr_link_paths base (packed_bytes p y) = Some (packed_bytes p (relink base p y)).
Proof.
  intros Hy. destruct offs_range as [Ho1 Ho2]. unfold lbr_link_paths.
  pose proof (states_size_nonneg (p_state_map p)) as Hs.
  unfold sizeof_paths, sizeof_function, sizeof_map. cbv zeta.
  rewrite (u64_small (base + 48)) by (unfold total, off_states, off_maps, off_ats, is_u64 in *; lia).
  rewrite wr_func by done. cbn [mbind option_bind].
  set (y1 := Layout _ _ _ _). assert (wf_layout p y1) as Hy1 by (destruct Hy; by split).
  rewrite (proj1 (rd_counts y1 Hy1)). cbn [mbind option_bind].
  replace (base + 48 + _) with (base + off_ats p) by (unfold off_ats; lia).
  rewrite (u64_small (base + off_ats p)) by (unfold is_u64; lia).
  rewrite wr_at by done. cbn [mbind option_bind].
  set (y2 := Layout _ _ _ _). assert (wf_layout p y2) as Hy2 by (destruct Hy; by split).
  rewrite (proj1 (proj2 (rd_counts y2 Hy2))). cbn [mbind option_bind].
  replace (base + off_ats p + _) with (base + off_maps p) by (unfold off_maps; lia).
  rewrite (u64_small (base + off_maps p)) by (unfold is_u64; lia).
  rewrite wr_map by done. cbn [mbind option_bind].
  set (y3 := Layout _ _ _ _). assert (wf_layout p y3) as Hy3 by (destruct Hy; by split).
  rewrite (proj2 (proj2 (rd_counts y3 Hy3))). cbn [mbind option_bind].
  replace (base + off_maps p + _) with (base + off_states p) by (unfold off_states; lia).
  rewrite (u64_small (base + off_states p)) by (unfold is_u64; lia).
  rewrite Nat2Z.id. by rewrite link_maps_packed.
Qed.
End header.

(** ** Reading back *)

Lemma has_take_drop bs o x : has bs o x -> take (length x) (drop o bs) = x.
Proof. intros (a & c & -> & <-). by rewrite drop_app_length, take_app_length. Qed.

Lemma has_concat {A} (f : A -> list Z) (n : nat) l bs o i x :
  has bs o (concat (f <$> l)) -> Forall (fun x => length (f x) = n) l -> l !! i = Some x ->
  has bs (o + i * n) (f x).
Proof.
  intros H Hl. revert o i H. induction Hl as [|z l Hz _ IH]; intros o i H Hi; [done|].
  cbn in H. apply has_app in H as [H1 H2]. destruct i as [|i].
  - injection Hi as <-. by rewrite Nat.add_0_r.
  - replace (o + S i * n)%nat with (o + length (f z) + i * n)%nat by lia. by apply IH.
Qed.

Lemma mapM_seq_lookup {A} (f : nat -> option A) l k :
  (forall i x, l !! i = Some x -> f (k + i)%nat = Some x) -> mapM f (seq k (length l)) = Some l.
Proof.
  revert k. induction l as [|x l IH]; intros k H; [done|]. cbn.
  rewrite <- (Nat.add_0_r k) at 1. rewrite (H 0%nat x eq_refl). cbn [mbind option_bind].
  rewrite IH; [done|]. intros i z Hi. rewrite <- (H (S i) z Hi). f_equal. lia.
Qed.

Lemma rd_array_spec {A} (f : A -> list Z) (dec : list Z -> A) (n : nat) l base bs o addr :
  has bs o (concat (f <$> l)) -> Forall (fun x => length (f x) = n /\ dec (f x) = x) l ->
  addr = base + Z.of_nat o -> rd_array n dec base bs addr (length l) = Some l.
Proof.
  intros H Hl ->. unfold rd_array. apply mapM_seq_lookup. intros i x Hi.
  destruct (proj1 (Forall_lookup _ _) Hl i x Hi) as [Hn Hd].
  rewrite (has_rd_bytes bs base (o + i * n) n (f x)); [cbn; by rewrite Hd| |done|lia].
  eapply has_concat; [exact H| |exact Hi]. eapply Forall_impl; [exact Hl|]. by intros ? [].
Qed.

(** *** The decoders undo the encoders *)

Lemma until_nul_app b n : Forall (fun z => z <> 0) b -> until_nul (b ++ replicate n 0) = b.
Proof.
  induction 1 as [|z b Hz _ IH]; [by destruct n|]. cbn. rewrite decide_False by done. by rewrite IH.
Qed.

Lemma dec_enc_name s : wf_name s -> dec_name (enc_name s) = s.
Proof.
  intros [_ Hn]. unfold dec_name, enc_name. cbv zeta. rewrite until_nul_app.
  - rewrite <- list_fmap_compose. rewrite (list_fmap_ext _ id).
    + rewrite list_fmap_id. apply String.string_of_list_ascii_of_string.
    + intros i c _. cbn. by rewrite N2Z.id, ascii_N_embedding.
  - apply Forall_fmap. eapply Forall_impl; [exact Hn|]. intros c Hc H. apply Hc. cbn in H.
    rewrite <- (ascii_N_embedding c). by replace (N_of_ascii c) with 0%N by lia.
Qed.

Lemma dec_enc_function f : wf_function f -> dec_function (enc_function f) = f.
Proof.
  intros [Hf Hn]. unfold dec_function, enc_function.
  rewrite <- (length_le_bytes 8 (fptr f)) at 1 3.
  rewrite take_app_length, drop_app_length, dec_enc_name by done.
  unfold is_u64 in Hf. rewrite le_word_bytes by (cbn; lia). by destruct f.
Qed.

Lemma dec_enc_words l : Forall is_u64 l -> dec_words (length l) (concat (le_bytes 8 <$> l)) = l.
Proof.
  intros Hl. apply (fmap_seq_lookup (fun k => le_word _)). intros i Hi.
  destruct (lookup_lt_is_Some_2 l i Hi) as [x Hx]. rewrite (list_lookup_total_correct _ _ _ Hx).
  pose proof (has_concat (le_bytes 8) 8 l _ 0 i x (has_self _)
    (Forall_true _ _ (length_le_bytes 8)) Hx) as H.
  apply has_take_drop in H. rewrite length_le_bytes in H. cbn [Nat.add] in H.
  rewrite (Nat.mul_comm 8 i), H. apply le_word_bytes.
  destruct (proj1 (Forall_lookup _ _) Hl i x Hx). cbn. lia.
Qed.

Lemma dec_enc_state s : wf_state s -> dec_state (enc_state s) = s.
Proof.
  intros (Hf & Hfu & Ht & Htu & Hh). unfold dec_state, enc_state.
  pose proof (length_enc_words (vs_from s)) as H1. pose proof (length_enc_words (vs_to s)) as H2.
  rewrite Hf in H1. rewrite Ht in H2. cbn in H1, H2.
  replace 256%nat with (128 + 128)%nat by done. rewrite <- drop_drop.
  rewrite !take_app_length', !drop_app_length', take_app_length' by done.
  rewrite <- Hf at 1. rewrite dec_enc_words by done. rewrite <- Ht at 1. rewrite dec_enc_words by done.
  by destruct s.
Qed.

Lemma states_size_app l k : states_size (l ++ k) = states_size l + states_size k.
Proof. induction l as [|sm l IH]; [done|]. cbn [app]. rewrite !states_size_cons, IH. lia. Qed.

Lemma states_size_take i sms : states_size (take i sms) <= states_size sms.
Proof.
  rewrite <- (take_drop i sms) at 2. rewrite states_size_app. pose proof (states_size_nonneg (drop i sms)). lia.
Qed.

Lemma link_ptrs_lookup sms : forall a qs i q, 0 <= a -> a + states_size sms < 2 ^ 64 ->
  link_ptrs a sms qs !! i = Some q -> ptr_val q = a + states_size (take i sms).
Proof.
  induction sms as [|sm sms IH]; intros a [|q' qs] i q H0 H Hi; try done.
  rewrite states_size_cons in H. pose proof (states_size_nonneg sms). unfold sizeof_state in H.
  destruct i as [|i]; cbn [link_ptrs lookup list_lookup] in Hi.
  - injection Hi as <-. cbn. lia.
  - rewrite u64_small in Hi by (unfold is_u64, sizeof_state; lia).
    apply IH in Hi; [|unfold sizeof_state; lia..]. rewrite Hi. cbn [take]. rewrite states_size_cons. lia.
Qed.

Lemma has_states sms : forall bs o i sm, has bs o (concat (enc_states <$> sms)) -> Forall wf_map sms ->
  sms !! i = Some sm -> has bs (o + Z.to_nat (states_size (take i sms))) (enc_states sm).
Proof.
  induction sms as [|sm' sms IH]; intros bs o i sm H Hw Hi; [done|].
  apply Forall_cons in Hw as [Hsm Hw]. cbn in H. apply has_app in H as [H1 H2]. destruct i as [|i].
  - injection Hi as <-. cbn. by rewrite Nat.add_0_r.
  - specialize (IH _ _ i sm H2 Hw Hi). cbn [take]. rewrite states_size_cons, <- (length_enc_states sm') by done.
    pose proof (states_size_nonneg (take i sms)).
    replace (o + _)%nat with (o + length (enc_states sm') + Z.to_nat (states_size (take i sms)))%nat by lia. done.
Qed.

Section view.
Context (base : Z) (p : lbr_paths) (y : layout).
Context (Hp : wf_paths p) (Hy : wf_layout p y) (Hbase : 0 <= base) (Hsize : base + total p < 2 ^ 64).

Let y' := relink base p y.
Let bs := packed_bytes p y'.

Lemma rd_pointers :
  rd 8 base bs (func_at base) = Some (base + 48) /\
  rd 8 base bs (address_taken_at base) = Some (base + off_ats p) /\
  rd 8 base bs (state_map_at base) = Some (base + off_maps p).
Proof.
  destruct (header_has p y' (relink_wf base p y Hy)) as ((_ & H1) & (_ & H2) & (_ & H3)).
  pose proof (offs_range p). pose proof (states_size_nonneg (p_state_map p)).
  unfold y', relink in H1, H2, H3. cbn [lay_func lay_at lay_map ptr_val] in H1, H2, H3.
  split; [|split]; (eapply has_rd; [eassumption| |unfold func_at, address_taken_at, state_map_at; lia]);
    cbn; unfold total, off_states, off_maps, off_ats in *; lia.
Qed.

Lemma parts_has :
  has bs 48 (enc_funcs p) /\ has bs (Z.to_nat (off_ats p)) (enc_ats p) /\
  has bs (Z.to_nat (off_maps p)) (enc_maps p (lay_state y')) /\
  has bs (Z.to_nat (off_states p)) (concat (enc_states <$> p_state_map p)).
Proof.
  pose proof (relink_wf base p y Hy) as Hy'. fold y' in Hy'.
  pose proof (has_self bs) as H. unfold bs at 2, packed_bytes in H.
  apply has_app in H as [_ H]. apply has_app in H as [H1 H]. apply has_app in H as [H2 H].
  apply has_app in H as [H3 H4].
  rewrite length_header, ?length_funcs, ?length_ats, ?length_maps in * by done.
  cbn [Nat.add] in *. unfold off_states, off_maps, off_ats.
  split; [exact H1|split; [|split]]; [revert H2|revert H3|revert H4]; (match goal with |- has _ ?a _ -> has _ ?b _ => replace b with a by lia end); done.
Qed.

(** State map [i] of the buffer. *)
Lemma map_has i sm : p_state_map p !! i = Some sm ->
  exists q, lay_state y' !! i = Some q /\ has bs (Z.to_nat (off_maps p) + i * 24) (enc_map sm q).
Proof.
  intros Hi. destruct (wf_lay_state p y' (relink_wf base p y Hy)) as [Hl Hq].
  destruct (lookup_lt_is_Some_2 (lay_state y') i) as [q Hqi].
  { rewrite Hl. by apply lookup_lt_Some in Hi. }
  exists q. split; [done|]. destruct parts_has as (_ & _ & H & _).
  unfold enc_maps in H.
  rewrite zip_with_zip in H. apply (has_concat (uncurry enc_map) 24 _ _ _ i (sm, q) H).
  - apply Forall_forall. intros [sm' q''] Hin. apply (length_enc_map sm' q'').
    apply elem_of_zip_r in Hin. by apply (proj1 (Forall_forall _ _) Hq).
  - apply lookup_zip_with_Some. by exists sm, q.
Qed.

Lemma rd_map_fields i sm : p_state_map p !! i = Some sm ->
  rd 8 base bs (map_to_at (base + off_maps p) (Z.of_nat i)) = Some (sm_to sm) /\
  rd 4 base bs (map_states_at (base + off_maps p) (Z.of_nat i)) = Some (Z.of_nat (length (sm_state sm))) /\
  rd 8 base bs (map_state_at (base + off_maps p) (Z.of_nat i)) =
    Some (base + off_states p + states_size (take i (p_state_map p))).
Proof.
  intros Hi. destruct (map_has i sm Hi) as (q & Hq & H). pose proof (offs_range p) as [Ho1 Ho2].
  destruct (proj1 (Forall_lookup _ _) (proj2 (wf_maps p Hp)) i sm Hi) as (Hto & Hc & _).
  pose proof Hq as Hv. unfold y', relink in Hv. cbn [lay_state] in Hv.
  apply link_ptrs_lookup in Hv; [|unfold total in *; lia..].
  unfold enc_map, enc_counted in H. apply has_app in H as [H1 H]. apply has_app in H as [H2 H].
  apply has_app in H as [_ H3].
  assert (wf_pointer q) as Hpad.
  { exact (proj1 (Forall_lookup _ _) (proj2 (wf_lay_state p y' (relink_wf base p y Hy))) i q Hq). }
  unfold wf_pointer in Hpad. rewrite !length_le_bytes in *. rewrite Hpad, Hv in H3.
  pose proof (states_size_nonneg (take i (p_state_map p))).
  pose proof (states_size_take i (p_state_map p)).
  unfold is_u64, wf_count in *. unfold map_to_at, map_states_at, map_state_at, sizeof_map.
  split; [|split]; (eapply has_rd; [eassumption|cbn; unfold total in *; lia|lia]).
Qed.
Lemma rd_map_packed i sm : p_state_map p !! i = Some sm -> rd_map base bs (base + off_maps p) i = Some sm.
Proof.
  intros Hi. destruct (rd_map_fields i sm Hi) as (H1 & H2 & H3). unfold rd_map. rewrite H1, H2, H3.
  destruct (proj1 (Forall_lookup _ _) (proj2 (wf_maps p Hp)) i sm Hi) as (_ & _ & Hs).
  cbn [mbind option_bind]. rewrite Nat2Z.id. destruct parts_has as (_ & _ & _ & H).
  apply (has_states _ _ _ i sm) in H; [|apply (wf_maps p Hp)|exact Hi].
  pose proof (offs_range p). pose proof (states_size_nonneg (take i (p_state_map p))).
  rewrite (rd_array_spec enc_state dec_state 272 (sm_state sm) base bs _ _ H); [by destruct sm| |lia].
  eapply Forall_impl; [exact Hs|]. intros s Hst. by rewrite length_enc_state, dec_enc_state.
Qed.

(** A linked buffer, read through its pointers, is the structure packed. *)
Lemma view_paths_packed : view_paths base bs = Some p.
Proof.
  destruct (rd_counts base p Hp y' (relink_wf base p y Hy)) as (C1 & C2 & C3).
  destruct rd_pointers as (P1 & P2 & P3). destruct parts_has as (H1 & H2 & _ & _).
  fold bs in C1, C2, C3. pose proof (offs_range p).
  unfold view_paths. rewrite C1, C2, C3, P1, P2, P3. cbn [mbind option_bind]. rewrite !Nat2Z.id.
  rewrite (rd_array_spec enc_function dec_function 24 (p_func p) base bs 48 _ H1); [| |lia].
  2: { eapply Forall_impl; [apply (wf_funcs p Hp)|]. intros f Hf. by rewrite length_enc_function, dec_enc_function. }
  cbn [mbind option_bind].
  rewrite (rd_array_spec (le_bytes 8) le_word 8 (p_address_taken p) base bs _ _ H2); [| |lia].
  2: { eapply Forall_impl; [apply (wf_ats p Hp)|]. intros a Ha. unfold is_u64 in Ha.
    rewrite length_le_bytes, le_word_bytes by (cbn; lia). done. }
  cbn [mbind option_bind].
  rewrite (mapM_seq_lookup _ (p_state_map p) 0) by (exact rd_map_packed). by destruct p.
Qed.

Lemma sizeof_states_packed n : forall i size, (i + n = length (p_state_map p))%nat ->
  0 <= size -> size + states_size (drop i (p_state_map p)) < 2 ^ 64 ->
  sizeof_states n (Z.of_nat i) base bs size = Some (size + states_size (drop i (p_state_map p))).
Proof.
  induction n as [|n IH]; intros i size Hn H0 Hs; cbn [sizeof_states].
  { rewrite drop_ge by lia. cbn. f_equal. lia. }
  destruct (lookup_lt_is_Some_2 (p_state_map p) i) as [sm Hi]; [lia|].
  rewrite (drop_S _ _ _ Hi), states_size_cons in *.
  pose proof (states_size_nonneg (drop (S i) (p_state_map p))). unfold sizeof_state in *.
  destruct rd_pointers as (_ & _ & ->). cbn [mbind option_bind].
  destruct (rd_map_fields i sm Hi) as (_ & -> & _). cbn [mbind option_bind].
  rewrite u64_small by (unfold is_u64; lia). replace (Z.of_nat i + 1) with (Z.of_nat (S i)) by lia.
  rewrite IH by lia. f_equal. lia.
Qed.

Lemma lbr_sizeof_paths_packed : lbr_sizeof_paths base bs = Some (total p).
Proof.
  destruct (rd_counts base p Hp y' (relink_wf base p y Hy)) as (C1 & C2 & C3). fold bs in C1, C2, C3.
  unfold lbr_sizeof_paths. rewrite C1, C2, C3. cbn [mbind option_bind]. rewrite Nat2Z.id.
  pose proof (states_size_nonneg (p_state_map p)).
  unfold sizeof_paths, sizeof_function, sizeof_map, total, off_states, off_maps, off_ats in *.
  rewrite u64_small by (unfold is_u64; lia).
  rewrite (sizeof_states_packed _ 0) by (rewrite ?drop_0; lia). by rewrite drop_0.
Qed.

(** The file holds the whole buffer. *)
Lemma write_paths_packed : write_paths base bs = Some bs.
Proof.
  unfold write_paths. rewrite lbr_sizeof_paths_packed. cbn [mbind option_bind].
  apply (has_rd_bytes bs base 0); [apply has_self| |lia].
  rewrite <- (length_packed p y' Hp (relink_wf base p y Hy)). by rewrite Nat2Z.id.
Qed.
End view.

(** C25. A state file loads as it was saved.  The structure [p], with whatever
    pointers it had, is packed into a block of [lbr_sizeof_paths] bytes at
    [base] with stale contents, written to a file, and read into a block at
    another address [base']: every copy and every access to a field is inside
    its block, the file has exactly [lbr_sizeof_paths] bytes, and both the
    buffer saved and the buffer loaded, read through their own pointers, give
    [p] back: every function, address, state map and state. *)
Theorem state_file_roundtrip (p : lbr_paths) (y : layout) (packed : list Z) (base base' : Z) :
  wf_paths p -> wf_layout p y -> length packed = Z.to_nat (sizeof_of p) ->
  0 <= base -> base + total p < 2 ^ 64 -> 0 <= base' -> base' + total p < 2 ^ 64 ->
  exists saved file loaded,
    lbr_pack_paths base packed p y = Some saved /\ view_paths base saved = Some p /\
    write_paths base saved = Some file /\ Z.of_nat (length file) = sizeof_of p /\
    read_paths base' file = Some loaded /\ view_paths base' loaded = Some p.
Proof.
  intros Hp Hy Hlen Hb Hs Hb' Hs'. pose proof (relink_wf base p y Hy) as Hy'.
  exists (packed_bytes p (relink base p y)), (packed_bytes p (relink base p y)),
    (packed_bytes p (relink base' p (relink base p y))).
  rewrite lbr_pack_paths_link, lbr_link_paths_packed by (done || lia).
  rewrite sizeof_of_total, length_packed by (done || lia). unfold read_paths.
  rewrite (lbr_link_paths_packed base') by done.
  rewrite !view_paths_packed, write_paths_packed by done. done.
Qed.

(** One blacklisted function, two address-taken functions, and two state maps,
    the first with one state and the second with none. *)
Definition demo_paths : lbr_paths :=
  LbrPaths [LbrFunction 0x400500 "system"] [0x400600; 0x400700]
    [VMap 0x400500 [VState (replicate 16 0x400510) (replicate 16 0x400520) (replicate 16 171)]; VMap 0x400800 []].
Definition stale_pointer : pointer := Pointer [1; 2; 3; 4] 0xdeadbeef.
Definition stale_layout : layout := Layout stale_pointer stale_pointer stale_pointer [stale_pointer; stale_pointer].

Lemma state_file_roundtrip_witness :
  exists saved file loaded,
    lbr_pack_paths 0x602000 (replicate 408 204) demo_paths stale_layout = Some saved /\
    view_paths 0x602000 saved = Some demo_paths /\
    write_paths 0x602000 saved = Some file /\ Z.of_nat (length file) = sizeof_of demo_paths /\
    read_paths 0x7f0000001000 file = Some loaded /\ view_paths 0x7f0000001000 loaded = Some demo_paths.
Proof.
  apply (state_file_roundtrip demo_paths stale_layout (replicate 408 204) 0x602000 0x7f0000001000).
  - split; (split; [reflexivity|]); repeat constructor; vm_compute; intuition discriminate.
  - split; try reflexivity. split; [reflexivity|]. repeat constructor.
  - reflexivity.
  - lia.
  - reflexivity.
  - lia.
  - reflexivity.
Defined.
