(* ===== verification/Wrappers.v ===== *)
(** Library, callback and signal tables of the kernel module: the first part of
    lkm/armor.c ([find_cache_entry_init] to [sig_exit]).

    Each table gives a task a slot with a stack of return addresses and a stack
    of LBR states.  [Lib] and [Cbk] relate the tables to their contracts: a
    finite map from tasks to stacks. *)

From S2P Require Import Prelude Slots Lbr.
Import Stack.

(** [struct wrapper_lib_t]. *)
Record wrapper_lib_t := Wrapper {
  w_task : Z;
  w_rets : stack Z;
  w_lbrs : stack lbr_t
}.

#[global] Instance wrapper_keyed : Keyed wrapper_lib_t := w_task.

Definition wrapper_zero : wrapper_lib_t := Wrapper NULL (stack_zero 0) (stack_zero lbr_zero).
#[global] Instance wrapper_inhabited : Inhabited wrapper_lib_t := populate wrapper_zero.

Definition set_w_task (t : Z) (d : wrapper_lib_t) : wrapper_lib_t := Wrapper t (w_rets d) (w_lbrs d).
Definition set_w_rets (s : stack Z) (d : wrapper_lib_t) : wrapper_lib_t := Wrapper (w_task d) s (w_lbrs d).
Definition set_w_lbrs (s : stack lbr_t) (d : wrapper_lib_t) : wrapper_lib_t := Wrapper (w_task d) (w_rets d) s.

Definition LIB_CACHE_SIZE : nat := 1024.
Definition CBK_CACHE_SIZE : nat := 64.
Definition SIG_CACHE_SIZE : nat := 64.

(** ** Operations

    The tables are arrays of exactly their [CACHE_SIZE]; each scan runs over
    the whole array.  A boolean result says whether [kill_pid] sent [SIGKILL]
    to the current task. *)

(** The scan of [find_cache_entry_init]: the slot of the task ends it ([inl]);
    otherwise it remembers the first empty slot in [tmp]. *)
Fixpoint find_scan (task : Z) (data : list wrapper_lib_t) (i : nat) (tmp : option nat) : nat + option nat :=
  match data with
  | [] => inr tmp
  | d :: data =>
      if decide (w_task d = task) then inl i
      else find_scan task data (S i)
             (match tmp with
              | None => if decide (w_task d = NULL) then Some i else None
              | Some _ => tmp
              end)
  end.

Definition find_cache_entry_init (data : list wrapper_lib_t) (task : Z) : nat * list wrapper_lib_t * bool :=
  match find_scan task data 0 None with
  | inl i => (i, data, false)
  | inr None => (0%nat, data, true)
  | inr (Some tmp) => (tmp, <[tmp := set_w_task task (data !!! tmp)]> data, false)
  end.

Definition lib_init (current ret : Z) (lib_data : list wrapper_lib_t) : list wrapper_lib_t * bool :=
  let '(i, lib_data, kill1) := find_cache_entry_init lib_data current in
  let '(s, kill2) := stack_push (w_rets (lib_data !!! i)) ret in
  (<[i := set_w_rets s (lib_data !!! i)]> lib_data, kill1 || kill2).

Definition cbk_init (current ret : Z) (cbk_data : list wrapper_lib_t) (m : gmap Z Z)
  : list wrapper_lib_t * gmap Z Z * bool :=
  let '(i, cbk_data, kill1) := find_cache_entry_init cbk_data current in
  let '(s, kill2) := stack_push (w_rets (cbk_data !!! i)) ret in
  let cbk_data := <[i := set_w_rets s (cbk_data !!! i)]> cbk_data in
  let '(ls, kill3) := lbr_stack_push m (w_lbrs (cbk_data !!! i)) in
  let cbk_data := <[i := set_w_lbrs ls (cbk_data !!! i)]> cbk_data in
  (cbk_data, Hw.flush_lbr true m, kill1 || kill2 || kill3).

(** [sig_init]; [start_code] and [end_code] delimit the target's code and
    [indirect_call_source] is the address the loader announced. *)
Definition sig_init (current sighandler start_code end_code indirect_call_source : Z)
    (sig_data : list wrapper_lib_t) (m : gmap Z Z) : list wrapper_lib_t * gmap Z Z * bool :=
  let '(i, sig_data, kill1) := find_cache_entry_init sig_data current in
  let '(ls, kill2) := lbr_stack_push m (w_lbrs (sig_data !!! i)) in
  let sig_data := <[i := set_w_lbrs ls (sig_data !!! i)]> sig_data in
  let m := if decide (start_code < sighandler /\ sighandler < end_code)
           then Hw.flush_lbr true m else Hw.flush_lbr false m in
  let m := Hw.wrmsrl Hw.MSR_LBR_NHM_FROM indirect_call_source m in
  let m := Hw.wrmsrl Hw.MSR_LBR_NHM_TO sighandler m in
  let m := Hw.wrmsrl Hw.MSR_LBR_TOS 0 m in
  (sig_data, m, kill1 || kill2).

Definition lib_exit (current : Z) (lib_data : list wrapper_lib_t) : Z * list wrapper_lib_t * bool :=
  match slot_find current lib_data with
  | Some (i, d) =>
      let d := if decide (s_size (w_rets d) = 1%nat) then set_w_task NULL d else d in
      let '(v, s, kill) := stack_pop (w_rets d) in
      (v, <[i := set_w_rets s d]> lib_data, kill)
  | None => (0, lib_data, true)
  end.

Definition cbk_exit (current : Z) (cbk_data : list wrapper_lib_t) (m : gmap Z Z)
  : Z * list wrapper_lib_t * gmap Z Z * bool :=
  match slot_find current cbk_data with
  | Some (i, d) =>
      let d := if decide (s_size (w_rets d) = 1%nat) then set_w_task NULL d else d in
      let '(m, ls, kill1) := lbr_stack_pop m (w_lbrs d) in
      let d := set_w_lbrs ls d in
      let '(v, s, kill2) := stack_pop (w_rets d) in
      (v, <[i := set_w_rets s d]> cbk_data, m, kill1 || kill2)
  | None => (0, cbk_data, m, true)
  end.

Definition sig_exit (current : Z) (sig_data : list wrapper_lib_t) (m : gmap Z Z)
  : list wrapper_lib_t * gmap Z Z * bool :=
  match slot_find current sig_data with
  | Some (i, d) =>
      let d := if decide (s_size (w_lbrs d) = 1%nat) then set_w_task NULL d else d in
      let '(m, ls, kill) := lbr_stack_pop m (w_lbrs d) in
      (<[i := set_w_lbrs ls d]> sig_data, m, kill)
  | None => (sig_data, m, true)
  end.

(** The three removal loops of [do_deferred_exit]: the first slot of [old] is
    zeroed. *)
Definition remove_task (old : Z) (data : list wrapper_lib_t) : list wrapper_lib_t :=
  match slot_find old data with
  | Some (i, _) => <[i := wrapper_zero]> data
  | None => data
  end.

(** The copying loops of [new_wake_up_new_task]: the index of the last slot of
    the task among the first [n]. *)
Definition our_index (current : Z) (n : nat) (data : list wrapper_lib_t) : option nat :=
  foldl (fun acc '(i, d) => if decide (w_task d = current) then Some i else acc)
        None (imap pair (take n data)).

(** A slot for the new task [p] receives the stacks [copy] selects. *)
Definition copy_entry (copy : wrapper_lib_t -> wrapper_lib_t -> wrapper_lib_t)
    (n : nat) (current p : Z) (data : list wrapper_lib_t) : list wrapper_lib_t * bool :=
  match our_index current n data with
  | None => (data, false)
  | Some ours =>
      let '(new, data, kill) := find_cache_entry_init data p in
      (<[new := copy (data !!! ours) (data !!! new)]> data, kill)
  end.

Definition copy_rets (src dst : wrapper_lib_t) : wrapper_lib_t := set_w_rets (w_rets src) dst.
Definition copy_lbrs (src dst : wrapper_lib_t) : wrapper_lib_t := set_w_lbrs (w_lbrs src) dst.
Definition copy_both (src dst : wrapper_lib_t) : wrapper_lib_t := copy_lbrs src (copy_rets src dst).

(** ** The scan *)

Lemma find_scan_spec task data i tmp :
  task <> NULL ->
  find_scan task data i tmp =
    match slot_find task data with
    | Some (j, _) => inl (i + j)%nat
    | None => inr (match tmp with
                   | Some t => Some t
                   | None => match slot_find NULL data with Some (j, _) => Some (i + j)%nat | None => None end
                   end)
    end.
Proof.
  intros Ht. revert i tmp. induction data as [|d data IH]; intros i tmp.
  - simpl. by destruct tmp.
  - unfold slot_find in *; cbn [find_scan list_find]. unfold slot_key, wrapper_keyed.
    destruct (decide (w_task d = task)) as [Hd|Hd].
    + f_equal. simpl. lia.
    + rewrite IH. unfold slot_key, wrapper_keyed.
      destruct (list_find (fun x => w_task x = task) data) as [[j x]|]; simpl; [f_equal; lia|].
      destruct tmp as [t|]; [done|].
      destruct (decide (w_task d = NULL)); simpl; [do 2 f_equal; lia|].
      destruct (list_find (fun x => w_task x = NULL) data) as [[j x]|]; simpl; [do 2 f_equal; lia|done].
Qed.

(** [find_cache_entry_init] by cases: the task's slot, else a free slot made
    its own, else slot 0 and a kill. *)
Lemma find_cache_entry_init_spec data task :
  task <> NULL ->
  find_cache_entry_init data task =
    match slot_find task data with
    | Some (i, _) => (i, data, false)
    | None => match slot_find NULL data with
              | Some (j, d) => (j, <[j := set_w_task task d]> data, false)
              | None => (0%nat, data, true)
              end
    end.
Proof.
  intros Ht. unfold find_cache_entry_init. rewrite find_scan_spec by done.
  destruct (slot_find task data) as [[i d]|]; [done|].
  destruct (slot_find NULL data) as [[j d]|] eqn:Hf; [|done].
  apply slot_find_Some in Hf as [Hj _]. simpl. by rewrite (list_lookup_total_correct _ _ _ Hj).
Qed.

(** ** Type invariants of the three tables

    A slot is free exactly when the stack its table counts on is empty: the
    return addresses for libraries and callbacks, the LBR states for signals;
    a callback keeps both stacks equally deep. *)

Definition slot_ok (d : wrapper_lib_t) : Prop := stack_wf (w_rets d) /\ stack_wf (w_lbrs d).

Definition lib_ok (d : wrapper_lib_t) : Prop :=
  slot_ok d /\ (w_task d = NULL <-> s_size (w_rets d) = 0%nat).
Definition cbk_ok (d : wrapper_lib_t) : Prop :=
  lib_ok d /\ s_size (w_lbrs d) = s_size (w_rets d).
Definition sig_ok (d : wrapper_lib_t) : Prop :=
  slot_ok d /\ (w_task d = NULL <-> s_size (w_lbrs d) = 0%nat).

Definition table_wf (n : nat) (P : wrapper_lib_t -> Prop) (data : list wrapper_lib_t) : Prop :=
  length data = n /\ slots_uniq data /\ Forall P data.

Definition lib_table := table_wf LIB_CACHE_SIZE lib_ok.
Definition cbk_table := table_wf CBK_CACHE_SIZE cbk_ok.
Definition sig_table := table_wf SIG_CACHE_SIZE sig_ok.

Lemma wrapper_zero_ok : lib_ok wrapper_zero /\ cbk_ok wrapper_zero /\ sig_ok wrapper_zero.
Proof. repeat split; try done; simpl; unfold STACKSIZE; lia. Qed.

Lemma table_wf_init n (P : wrapper_lib_t -> Prop) : P wrapper_zero -> table_wf n P (replicate n wrapper_zero).
Proof.
  intros. split; [apply length_replicate|]. split; [by apply slots_uniq_free|]. by apply Forall_replicate.
Qed.

Section table.
Context (n : nat) (P : wrapper_lib_t -> Prop).
Implicit Types (data : list wrapper_lib_t) (d old x : wrapper_lib_t).

Lemma table_wf_insert data i old x :
  table_wf n P data -> data !! i = Some old -> P x ->
  (w_task x = NULL \/ w_task x = w_task old \/ slot_get (w_task x) data = None) ->
  table_wf n P (<[i := x]> data).
Proof.
  intros (Hl & Hu & HP) Hi Hx Hown. split; [by rewrite length_insert|].
  split; [by eapply slots_uniq_insert|]. by apply Forall_insert.
Qed.

Lemma table_wf_lookup data i d : table_wf n P data -> data !! i = Some d -> P d.
Proof. intros (_ & _ & HP) Hi. by eapply Forall_lookup_1. Qed.

(** Every branch of [find_cache_entry_init] returns a slot of the table with
    its owner field set: to the task, or, in a full table, to who owned it. *)
Lemma find_entry data t :
  table_wf n P data -> (0 < n)%nat -> t <> NULL ->
  exists i old k kill,
    find_cache_entry_init data t = (i, <[i := set_w_task k old]> data, kill) /\
    data !! i = Some old /\ k <> NULL /\
    (kill = false /\ k = t /\ (w_task old = t \/ w_task old = NULL /\ slot_get t data = None) \/
     kill = true /\ k = w_task old /\ slot_get t data = None /\ slot_find NULL data = None).
Proof.
  intros (Hl & Hu & HP) Hn Ht. rewrite find_cache_entry_init_spec by done.
  destruct (slot_find t data) as [[i d]|] eqn:Hf.
  - apply slot_find_Some in Hf as [Hi Hk]. exists i, d, t, false. split; [|naive_solver].
    rewrite list_insert_id; [done|]. rewrite Hi. f_equal. rewrite <- Hk. by destruct d.
  - assert (slot_get t data = None) as Hg by by apply slot_get_None.
    destruct (slot_find NULL data) as [[j d]|] eqn:Hf'.
    + apply slot_find_Some in Hf' as [Hi Hk]. exists j, d, t, false. naive_solver.
    + destruct data as [|d data]; [simpl in *; lia|].
      assert (w_task d <> NULL) by (by eapply (slot_find_None _ _ 0%nat)).
      exists 0%nat, d, (w_task d), true. simpl. destruct d; naive_solver.
Qed.

(** Writing the slot [find_cache_entry_init] returned. *)
Lemma find_entry_insert data t i old k kill x :
  table_wf n P data -> data !! i = Some old ->
  (kill = false /\ k = t /\ (w_task old = t \/ w_task old = NULL /\ slot_get t data = None) \/
   kill = true /\ k = w_task old /\ slot_get t data = None /\ slot_find NULL data = None) ->
  w_task x = k -> P x ->
  table_wf n P (<[i := x]> data).
Proof.
  intros ? ? [(_ & -> & [Ho|[_ Ho]])|(_ & -> & _)] Hx ?; (eapply table_wf_insert; [done..|]); rewrite Hx; auto.
Qed.

Lemma slot_find_wf data t i d :
  table_wf n P data -> slot_find t data = Some (i, d) -> data !! i = Some d /\ w_task d = t /\ P d.
Proof.
  intros Hwf Hf. apply slot_find_Some in Hf as [Hi Hk].
  split; [done|]. split; [done|]. by eapply table_wf_lookup.
Qed.

Lemma remove_task_wf data t : P wrapper_zero -> table_wf n P data -> table_wf n P (remove_task t data).
Proof.
  intros HP Hwf. unfold remove_task. destruct (slot_find t data) as [[i d]|] eqn:Hf; [|done].
  apply slot_find_Some in Hf as [Hi _]. eapply table_wf_insert; [done..|by left].
Qed.

Lemma our_index_Some t m data i : our_index t m data = Some i -> exists d, data !! i = Some d /\ w_task d = t.
Proof.
  unfold our_index. intros Hf.
  enough (forall (l : list (nat * wrapper_lib_t)) acc,
    (forall j d, (j, d) ∈ l -> data !! j = Some d) ->
    (forall j, acc = Some j -> exists d, data !! j = Some d /\ w_task d = t) ->
    forall j, foldl (fun acc '(i, d) => if decide (w_task d = t) then Some i else acc) acc l = Some j ->
    exists d, data !! j = Some d /\ w_task d = t) as H.
  { eapply H; [| |exact Hf]; [|done]. intros j d (k & y & [= -> ->] & Hk)%elem_of_lookup_imap.
    apply lookup_take_Some in Hk as [Hk _]. done. }
  clear. induction l as [|[j d] l IH]; intros acc Hl Hacc i; simpl; [apply Hacc|].
  apply IH; [intros; apply Hl; by right|]. intros k. case_decide; [|apply Hacc].
  intros [= <-]. exists d. split; [|done]. apply Hl. by left.
Qed.

Lemma our_index_None t m data : (length data <= m)%nat -> our_index t m data = None -> slot_get t data = None.
Proof.
  unfold our_index. intros Hm Hf. apply slot_get_None, list_find_None.
  rewrite take_ge in Hf by done.
  enough (forall (l : list (nat * wrapper_lib_t)) acc,
    foldl (fun acc '(i, d) => if decide (w_task d = t) then Some i else acc) acc l = None ->
    acc = None /\ Forall (fun p => w_task p.2 <> t) l) as H.
  { apply H in Hf as [_ Hf]. apply Forall_lookup. intros i d Hi.
    rewrite Forall_lookup in Hf. apply (Hf i (i, d)). by rewrite list_lookup_imap, Hi. }
  clear. induction l as [|[j d] l IH]; intros acc; simpl; [done|].
  intros [Hacc Hl]%IH. case_decide; [done|]. split; [done|]. by constructor.
Qed.

(** The copy made for a new task keeps the invariant if the copied slot
    satisfies it under the new owner. *)
Lemma copy_entry_wf copy m t p data :
  (forall src dst, P src -> P dst -> w_task src <> NULL -> forall k, k <> NULL ->
     P (copy src (set_w_task k dst)) /\ w_task (copy src (set_w_task k dst)) = k) ->
  (forall d k, copy (set_w_task k d) (set_w_task k d) = set_w_task k d) ->
  table_wf n P data -> (0 < n)%nat -> t <> NULL -> p <> NULL -> t <> p ->
  table_wf n P (copy_entry copy m t p data).1.
Proof.
  intros Hcopy Hself Hwf Hn Ht Hp Htp. unfold copy_entry.
  destruct (our_index t m data) as [ours|] eqn:Ho; [|done].
  apply our_index_Some in Ho as (src & Hsrc & Hsk).
  destruct (find_entry data p Hwf Hn Hp) as (i & old & k & kill & -> & Hi & Hk & Hcase). cbn [fst].
  pose proof (lookup_lt_Some _ _ _ Hi) as Hlt.
  rewrite (list_lookup_total_correct (<[i:=_]> data) i _ (list_lookup_insert_eq _ _ _ Hlt)).
  rewrite list_insert_insert_eq. destruct (decide (i = ours)) as [->|Hne].
  - rewrite (list_lookup_total_correct (<[ours:=_]> data) ours _ (list_lookup_insert_eq _ _ _ Hlt)), Hself.
    assert (old = src) as -> by congruence.
    assert (k = w_task src) as -> by (destruct Hcase as [(_ & -> & [?|[? _]])|(_ & -> & _)]; congruence).
    replace (set_w_task (w_task src) src) with src by (by destruct src). by rewrite list_insert_id.
  - rewrite (list_lookup_total_correct (<[i:=_]> data) ours src) by (by rewrite list_lookup_insert_ne).
    destruct (Hcopy src old (table_wf_lookup _ _ _ Hwf Hsrc) (table_wf_lookup _ _ _ Hwf Hi) ltac:(congruence) k Hk).
    by eapply find_entry_insert.
Qed.

End table.

(** ** Every operation keeps its table well-formed

    On every branch: a full table, a full stack, a task without a slot. *)

(** Read back the slot just written, and merge successive writes to it. *)
Ltac at_slot Hi :=
  let Hlt := fresh in pose proof (lookup_lt_Some _ _ _ Hi) as Hlt;
  repeat (rewrite (list_lookup_total_correct (<[_:=_]> _) _ _ (list_lookup_insert_eq _ _ _ Hlt))
          || rewrite list_insert_insert_eq);
  clear Hlt.

Lemma s_size_push s u :
  s_size (stack_push s u).1 = if decide (s_size s = STACKSIZE) then s_size s else S (s_size s).
Proof. unfold stack_push. case_decide; simpl; lia. Qed.

Lemma s_size_lbr_push m s :
  s_size (lbr_stack_push m s).1 = if decide (s_size s = STACKSIZE) then s_size s else S (s_size s).
Proof. unfold lbr_stack_push. case_decide; simpl; lia. Qed.

Lemma s_size_pop s : s_size (stack_pop s).1.2 = (s_size s - 1)%nat.
Proof. unfold stack_pop. case_decide; simpl; lia. Qed.

Lemma s_size_lbr_pop m s : s_size (lbr_stack_pop m s).1.2 = (s_size s - 1)%nat.
Proof. unfold lbr_stack_pop. case_decide; simpl; lia. Qed.

(** A push under a non-null owner, a pop that frees the slot with its last
    element. *)
Lemma lib_ok_push k old u : lib_ok old -> k <> NULL ->
  lib_ok (set_w_rets (stack_push (w_rets old) u).1 (set_w_task k old)).
Proof.
  intros [[Hr Hl] Ho] Hk. split; [split; [by apply stack_push_wf|done]|]. simpl.
  rewrite s_size_push. unfold STACKSIZE. case_decide; split; try done; lia.
Qed.

Definition free_last (n : nat) (d : wrapper_lib_t) : wrapper_lib_t :=
  if decide (n = 1%nat) then set_w_task NULL d else d.

Lemma free_last_fields n d :
  w_rets (free_last n d) = w_rets d /\ w_lbrs (free_last n d) = w_lbrs d /\
  w_task (free_last n d) = if decide (n = 1%nat) then NULL else w_task d.
Proof. unfold free_last. by case_decide. Qed.

Lemma lib_ok_pop d : lib_ok d -> w_task d <> NULL ->
  lib_ok (set_w_rets (stack_pop (w_rets d)).1.2 (free_last (s_size (w_rets d)) d)).
Proof.
  intros [[Hr Hl] Ho] Hk. destruct (free_last_fields (s_size (w_rets d)) d) as (_ & Hl' & Ht').
  split; [split; simpl; [by apply stack_pop_wf|by rewrite Hl']|]. simpl. rewrite Ht', s_size_pop.
  case_decide; [split; [lia|done]|]. split; [done|]. intros. tauto || (exfalso; apply Hk, Ho; lia).
Qed.

Lemma cbk_ok_push k old u m : cbk_ok old -> k <> NULL ->
  cbk_ok (set_w_lbrs (lbr_stack_push m (w_lbrs old)).1
           (set_w_rets (stack_push (w_rets old) u).1 (set_w_task k old))).
Proof.
  intros [Hlib Heq] Hk. pose proof (lib_ok_push k old u Hlib Hk) as [[Hr' _] Ho'].
  destruct Hlib as [[Hr Hl] _]. split; [split; [split|]|]; simpl in *.
  - done.
  - by apply lbr_stack_push_wf.
  - done.
  - by rewrite s_size_push, s_size_lbr_push, Heq.
Qed.

Lemma cbk_ok_pop d m : cbk_ok d -> w_task d <> NULL ->
  let d' := set_w_lbrs (lbr_stack_pop m (w_lbrs d)).1.2 (free_last (s_size (w_rets d)) d) in
  cbk_ok (set_w_rets (stack_pop (w_rets d)).1.2 d').
Proof.
  intros [Hlib Heq] Hk. pose proof (lib_ok_pop d Hlib Hk) as [[Hr' _] Ho'].
  destruct Hlib as [[Hr Hl] _]. split; [split; [split|]|]; simpl in *; try done.
  - by apply lbr_stack_pop_wf.
  - rewrite s_size_pop, s_size_lbr_pop. lia.
Qed.

Lemma sig_ok_push k old m : sig_ok old -> k <> NULL ->
  sig_ok (set_w_lbrs (lbr_stack_push m (w_lbrs old)).1 (set_w_task k old)).
Proof.
  intros [[Hr Hl] Ho] Hk. split; [split; [done|by apply lbr_stack_push_wf]|]. simpl.
  rewrite s_size_lbr_push. unfold STACKSIZE. case_decide; split; try done; lia.
Qed.

Lemma sig_ok_pop d m : sig_ok d -> w_task d <> NULL ->
  sig_ok (set_w_lbrs (lbr_stack_pop m (w_lbrs d)).1.2 (free_last (s_size (w_lbrs d)) d)).
Proof.
  intros [[Hr Hl] Ho] Hk. destruct (free_last_fields (s_size (w_lbrs d)) d) as (Hr' & _ & Ht').
  split; [split; simpl; [by rewrite Hr'|by apply lbr_stack_pop_wf]|]. simpl. rewrite Ht', s_size_lbr_pop.
  case_decide; [split; [lia|done]|]. split; [done|]. intros. exfalso; apply Hk, Ho; lia.
Qed.

Lemma lib_init_wf t ret data : t <> NULL -> lib_table data -> lib_table (lib_init t ret data).1.
Proof.
  intros Ht Hwf. unfold lib_init.
  destruct (find_entry _ _ data t Hwf ltac:(unfold LIB_CACHE_SIZE; lia) Ht) as (i & old & k & kill & -> & Hi & Hk & Hc).
  at_slot Hi. simpl w_rets. pose proof (lib_ok_push k old ret (table_wf_lookup _ _ _ _ _ Hwf Hi) Hk) as Hok.
  destruct (stack_push (w_rets old) ret) as [s kill2]. at_slot Hi. by eapply find_entry_insert.
Qed.

Lemma cbk_init_wf t ret data m : t <> NULL -> cbk_table data -> cbk_table (cbk_init t ret data m).1.1.
Proof.
  intros Ht Hwf. unfold cbk_init.
  destruct (find_entry _ _ data t Hwf ltac:(unfold CBK_CACHE_SIZE; lia) Ht) as (i & old & k & kill & -> & Hi & Hk & Hc).
  at_slot Hi. simpl w_rets. pose proof (cbk_ok_push k old ret m (table_wf_lookup _ _ _ _ _ Hwf Hi) Hk) as Hok.
  destruct (stack_push (w_rets old) ret) as [s kill2]. at_slot Hi. simpl w_lbrs.
  destruct (lbr_stack_push m (w_lbrs old)) as [ls kill3]. at_slot Hi. by eapply find_entry_insert.
Qed.

Lemma sig_init_wf t h a b c data m : t <> NULL -> sig_table data -> sig_table (sig_init t h a b c data m).1.1.
Proof.
  intros Ht Hwf. unfold sig_init.
  destruct (find_entry _ _ data t Hwf ltac:(unfold SIG_CACHE_SIZE; lia) Ht) as (i & old & k & kill & -> & Hi & Hk & Hc).
  at_slot Hi. simpl w_lbrs. pose proof (sig_ok_push k old m (table_wf_lookup _ _ _ _ _ Hwf Hi) Hk) as Hok.
  destruct (lbr_stack_push m (w_lbrs old)) as [ls kill3]. at_slot Hi. by eapply find_entry_insert.
Qed.

Lemma lib_exit_wf t data : t <> NULL -> lib_table data -> lib_table (lib_exit t data).1.2.
Proof.
  intros Ht Hwf. unfold lib_exit. destruct (slot_find t data) as [[i d]|] eqn:Hf; [|done].
  destruct (slot_find_wf _ _ _ _ _ _ Hwf Hf) as (Hi & Hk & Hok).
  pose proof (lib_ok_pop d Hok ltac:(congruence)) as Hok'. fold (free_last (s_size (w_rets d)) d).
  destruct (free_last_fields (s_size (w_rets d)) d) as (-> & _ & Htk).
  destruct (stack_pop (w_rets d)) as [[v s] kill]. eapply table_wf_insert; [done..|].
  simpl in *. rewrite Htk. case_decide; auto.
Qed.

Lemma cbk_exit_wf t data m : t <> NULL -> cbk_table data -> cbk_table (cbk_exit t data m).1.1.2.
Proof.
  intros Ht Hwf. unfold cbk_exit. destruct (slot_find t data) as [[i d]|] eqn:Hf; [|done].
  destruct (slot_find_wf _ _ _ _ _ _ Hwf Hf) as (Hi & Hk & Hok).
  pose proof (cbk_ok_pop d m Hok ltac:(congruence)) as Hok'. fold (free_last (s_size (w_rets d)) d).
  destruct (free_last_fields (s_size (w_rets d)) d) as (Hr & -> & Htk).
  destruct (lbr_stack_pop m (w_lbrs d)) as [[m' ls] kill1]. simpl w_rets in *. rewrite Hr.
  destruct (stack_pop (w_rets d)) as [[v s] kill]. eapply table_wf_insert; [done..|].
  simpl in *. rewrite Htk. case_decide; auto.
Qed.

Lemma sig_exit_wf t data m : t <> NULL -> sig_table data -> sig_table (sig_exit t data m).1.1.
Proof.
  intros Ht Hwf. unfold sig_exit. destruct (slot_find t data) as [[i d]|] eqn:Hf; [|done].
  destruct (slot_find_wf _ _ _ _ _ _ Hwf Hf) as (Hi & Hk & Hok).
  pose proof (sig_ok_pop d m Hok ltac:(congruence)) as Hok'. fold (free_last (s_size (w_lbrs d)) d).
  destruct (free_last_fields (s_size (w_lbrs d)) d) as (_ & -> & Htk).
  destruct (lbr_stack_pop m (w_lbrs d)) as [[m' ls] kill1]. eapply table_wf_insert; [done..|].
  simpl in *. rewrite Htk. case_decide; auto.
Qed.

Lemma copy_rets_wf m t p data : t <> NULL -> p <> NULL -> t <> p ->
  lib_table data -> lib_table (copy_entry copy_rets m t p data).1.
Proof.
  intros. apply copy_entry_wf; [|by intros []|done|unfold LIB_CACHE_SIZE; lia|done..].
  intros src dst [[Hs _] Hos] [[_ Hd] _] Hn k Hk. split; [|done]. split; [done|]. simpl. tauto.
Qed.

Lemma copy_both_wf m t p data : t <> NULL -> p <> NULL -> t <> p ->
  cbk_table data -> cbk_table (copy_entry copy_both m t p data).1.
Proof.
  intros. apply copy_entry_wf; [|by intros []|done|unfold CBK_CACHE_SIZE; lia|done..].
  intros src dst [[Hs Hos] Heq] _ Hn k Hk. split; [|done]. split; [|done]. split; [done|]. simpl. tauto.
Qed.

Lemma copy_lbrs_wf m t p data : t <> NULL -> p <> NULL -> t <> p ->
  sig_table data -> sig_table (copy_entry copy_lbrs m t p data).1.
Proof.
  intros. apply copy_entry_wf; [|by intros []|done|unfold SIG_CACHE_SIZE; lia|done..].
  intros src dst [[_ Hs] Hos] [[Hd _] _] Hn k Hk. split; [|done]. split; [done|]. simpl. tauto.
Qed.

#[export] Hint Resolve lib_init_wf cbk_init_wf sig_init_wf lib_exit_wf cbk_exit_wf sig_exit_wf
  copy_rets_wf copy_both_wf copy_lbrs_wf remove_task_wf : pa.

(** ** Contracts

    A table, seen from outside, is a finite map from tasks to what [view]
    shows of their slots. *)

Section rel.
Context (n : nat) (P : wrapper_lib_t -> Prop) {V : Type} (view : wrapper_lib_t -> V).
Implicit Types (data : list wrapper_lib_t) (M : gmap Z V).

Definition table_rel data M : Prop :=
  table_wf n P data /\ M !! NULL = None /\ forall t, t <> NULL -> M !! t = view <$> slot_get t data.

Definition set_owner (k : Z) (v : V) M : gmap Z V := if decide (k = NULL) then M else <[k := v]> M.

Lemma table_rel_insert data M i old x :
  table_rel data M -> data !! i = Some old -> P x ->
  (w_task x = NULL \/ w_task x = w_task old \/ slot_get (w_task x) data = None) ->
  table_rel (<[i := x]> data) (set_owner (w_task x) (view x) (delete (w_task old) M)).
Proof.
  intros (Hwf & Hn & HM) Hi Hx Hown. split; [by eapply table_wf_insert|]. unfold set_owner. split.
  - case_decide; [|rewrite lookup_insert_ne by done]; by rewrite lookup_delete_None; right.
  - intros t Ht. destruct Hwf as (_ & Hu & _). rewrite (slot_get_insert data i old x) by done.
    unfold slot_key, wrapper_keyed. destruct (decide (w_task x = NULL)) as [Hxn|Hxn].
    + rewrite (decide_False (P := t = w_task x)) by congruence. case_decide.
      * subst. by rewrite lookup_delete_eq.
      * by rewrite lookup_delete_ne, HM by done.
    + case_decide; [subst; by rewrite lookup_insert_eq|]. rewrite lookup_insert_ne by done.
      case_decide; [subst; by rewrite lookup_delete_eq|]. by rewrite lookup_delete_ne, HM by done.
Qed.

(** In a table with room the scan finds the task's slot or a free one. *)
Lemma find_entry_rel data M t :
  table_rel data M -> t <> NULL -> is_Some (M !! t) \/ (size M < n)%nat ->
  exists i old,
    find_cache_entry_init data t = (i, <[i := set_w_task t old]> data, false) /\
    data !! i = Some old /\ P old /\
    (w_task old = t /\ M !! t = Some (view old) \/
     w_task old = NULL /\ M !! t = None /\ slot_get t data = None).
Proof.
  intros (Hwf & Hn & HM) Ht Hroom. pose proof Hwf as (Hl & Hu & HP).
  assert (0 < n)%nat as Hpos.
  { destruct Hroom as [[v Hv]|?]; [|lia]. rewrite HM in Hv by done. apply fmap_Some in Hv as (d & Hd & _).
    apply slot_get_Some_1 in Hd as (i & Hi & _). apply lookup_lt_Some in Hi. lia. }
  destruct (find_entry n P data t Hwf Hpos Ht) as (i & old & k & kill & Hf & Hi & Hk & Hcase).
  pose proof (table_wf_lookup _ _ _ _ _ Hwf Hi) as HPo.
  destruct Hcase as [(-> & -> & [Ho|[Ho Hg]])|(_ & _ & Hg & Hfree)].
  - exists i, old. split_and!; try done. left. split; [done|]. rewrite HM by done.
    replace (slot_get t data) with (Some old); [done|]. symmetry. apply slot_get_Some; eauto.
  - exists i, old. split_and!; try done. right. by rewrite HM, Hg.
  - exfalso. destruct Hroom as [Hs|Hs]; [rewrite HM, Hg in Hs by done; by destruct Hs|].
    destruct (slots_free_exists data (dom M)) as [? Hx]; eauto; [|by rewrite size_dom, Hl|congruence].
    intros j x Hj Hkx. apply elem_of_dom. rewrite HM by done. exists (view x).
    replace (slot_get (slot_key x) data) with (Some x); [done|]. symmetry. apply slot_get_Some; eauto.
Qed.

Lemma slot_find_rel data M t v :
  table_rel data M -> t <> NULL -> M !! t = Some v ->
  exists i d, slot_find t data = Some (i, d) /\ data !! i = Some d /\ w_task d = t /\ P d /\ v = view d.
Proof.
  intros (Hwf & Hn & HM) Ht Hv. rewrite HM in Hv by done. unfold slot_get in Hv.
  apply fmap_Some in Hv as (d & Hd & ->). apply fmap_Some in Hd as ([i d'] & Hd & ->).
  exists i, d'. destruct (slot_find_wf _ _ _ _ _ _ Hwf Hd) as (? & ? & ?). done.
Qed.

Lemma remove_task_rel data M t :
  P wrapper_zero -> t <> NULL -> table_rel data M -> table_rel (remove_task t data) (delete t M).
Proof.
  intros HP Ht HR. unfold remove_task. destruct (slot_find t data) as [[i d]|] eqn:Hf.
  - destruct (slot_find_wf _ _ _ _ _ _ (proj1 HR) Hf) as (Hi & <- & _).
    apply (table_rel_insert data M i d wrapper_zero HR Hi HP). by left.
  - destruct HR as (Hwf & Hn & HM). split; [done|].
    split; [by rewrite lookup_delete_ne by congruence|]. intros u Hu.
    destruct (decide (u = t)) as [->|]; [|by rewrite lookup_delete_ne, HM by done].
    apply slot_get_None in Hf. by rewrite lookup_delete_eq, Hf.
Qed.

(** The copy for a new task: it owns what the parent owns. *)
Lemma copy_entry_rel copy m data M t p v :
  (forall src dst k, P src -> P dst -> w_task src <> NULL -> k <> NULL ->
     P (copy src (set_w_task k dst)) /\ w_task (copy src (set_w_task k dst)) = k /\
     view (copy src (set_w_task k dst)) = view src) ->
  table_rel data M -> (n <= m)%nat -> t <> NULL -> p <> NULL -> t <> p ->
  M !! t = Some v -> M !! p = None -> (size M < n)%nat ->
  exists data', copy_entry copy m t p data = (data', false) /\ table_rel data' (<[p := v]> M).
Proof.
  intros Hcopy HR Hm Ht Hp Htp Hv Hfresh Hroom. pose proof HR as (Hwf & Hnull & HM). unfold copy_entry.
  destruct (our_index t m data) as [ours|] eqn:Ho.
  2:{ apply our_index_None in Ho; [|destruct Hwf as [-> _]; done]. by rewrite HM, Ho in Hv. }
  apply our_index_Some in Ho as (src & Hsrc & Hsk).
  destruct (find_entry_rel data M p HR Hp (or_intror Hroom)) as (i & old & -> & Hi & HPo & Hc).
  destruct Hc as [[_ Hc]|(Hold & _ & Hg)]; [congruence|].
  assert (i <> ours) as Hne by (intros ->; congruence).
  pose proof (lookup_lt_Some _ _ _ Hi) as Hlt.
  rewrite (list_lookup_total_correct (<[i:=_]> data) i _ (list_lookup_insert_eq _ _ _ Hlt)).
  rewrite (list_lookup_total_correct (<[i:=_]> data) ours src) by (by rewrite list_lookup_insert_ne).
  rewrite list_insert_insert_eq. eexists; split; [done|].
  destruct (Hcopy src old p (table_wf_lookup _ _ _ _ _ Hwf Hsrc) HPo ltac:(congruence) Hp) as (HPx & Hkx & Hvx).
  replace (<[p := v]> M) with (set_owner p (view (copy src (set_w_task p old))) (delete (w_task old) M)).
  - rewrite <- Hkx at 2. apply table_rel_insert; [done..|]. right; right. by rewrite Hkx.
  - unfold set_owner. rewrite decide_False, Hvx, Hold, delete_id by done. f_equal.
    rewrite HM in Hv by done. replace (slot_get t data) with (Some src) in Hv; [by injection Hv|].
    symmetry. apply slot_get_Some; [apply Hwf|done|eauto].
Qed.

Lemma copy_entry_none copy m data M t p :
  table_rel data M -> t <> NULL -> M !! t = None -> copy_entry copy m t p data = (data, false).
Proof.
  intros (Hwf & _ & HM) Ht Hn. unfold copy_entry. destruct (our_index t m data) as [i|] eqn:Ho; [|done].
  apply our_index_Some in Ho as (d & Hd & Hk). rewrite HM in Hn by done. apply fmap_None in Hn.
  exfalso. apply slot_get_None in Hn. by eapply slot_find_None.
Qed.

Lemma table_rel_init : P wrapper_zero -> table_rel (replicate n wrapper_zero) ∅.
Proof.
  intros. split; [by apply table_wf_init|]. split; [apply lookup_empty|].
  intros t Ht. by rewrite lookup_empty, (slot_get_free n wrapper_zero).
Qed.

End rel.

(** What a fork does to a map of tasks. *)
Definition inherit {V} (t p : Z) (M : gmap Z V) : gmap Z V :=
  match M !! t with Some v => <[p := v]> M | None => M end.

(** *** Library calls

    What the module promises to the wrappers: per task, a stack of return
    addresses. *)

Module Lib.

Inductive ev :=
| Enter (t ret : Z)
| Exit (t : Z)
| Gone (t : Z).

(** An output is the return address handed to the wrapper and whether the
    task was killed. *)
Definition impl (e : ev) (data : list wrapper_lib_t) : list wrapper_lib_t * (Z * bool) :=
  match e with
  | Enter t ret => let '(data, kill) := lib_init t ret data in (data, (0, kill))
  | Exit t => let '(v, data, kill) := lib_exit t data in (data, (v, kill))
  | Gone t => (remove_task t data, (0, false))
  end.

(** [None]: more than eight calls deep, more than 1024 tasks inside library
    code, or a return without a call. *)
Definition spec (e : ev) (M : gmap Z (list Z)) : option (gmap Z (list Z) * (Z * bool)) :=
  match e with
  | Enter t ret =>
      let st := default [] (M !! t) in
      if decide (t <> NULL /\ (length st < STACKSIZE)%nat /\ (is_Some (M !! t) \/ (size M < LIB_CACHE_SIZE)%nat))
      then Some (<[t := ret :: st]> M, (0, false)) else None
  | Exit t =>
      match M !! t with
      | Some (u :: []) => Some (delete t M, (u, false))
      | Some (u :: r) => Some (<[t := r]> M, (u, false))
      | _ => None
      end
  | Gone t => if decide (t <> NULL) then Some (delete t M, (0, false)) else None
  end.

Definition rel := table_rel LIB_CACHE_SIZE lib_ok (fun d => stack_elems (w_rets d)).

Lemma lib_ok_empty d : lib_ok d -> w_task d = NULL -> stack_elems (w_rets d) = [].
Proof. intros [[Hr _] Ho] Hk. apply nil_length_inv. rewrite stack_elems_length by done. by apply Ho. Qed.

Lemma lib_step_refines e i s s' o : rel i s -> spec e s = Some (s', o) -> exists i', impl e i = (i', o) /\ rel i' s'.
Proof.
  intros HR. destruct e as [t ret|t|t]; cbn [spec impl].
  - case_decide as Hd; [|done]. destruct Hd as (Ht & Hlen & Hroom). intros [= <- <-].
    destruct (find_entry_rel _ _ _ _ _ _ HR Ht Hroom) as (k & old & Hf & Hi & Hok & Hc).
    assert (stack_elems (w_rets old) = default [] (s !! t)) as Hel.
    { destruct Hc as [[_ ->]|(Hn & -> & _)]; [done|]. by apply lib_ok_empty. }
    unfold lib_init. rewrite Hf. at_slot Hi. simpl w_rets.
    pose proof (proj1 (proj1 Hok)) as Hwf.
    destruct (stack_push_spec (w_rets old) ret Hwf) as (st & Hp & _ & Hst);
      [rewrite <- stack_elems_length, Hel by done; done|].
    pose proof (lib_ok_push t old ret Hok Ht) as Hok'. rewrite Hp in *. at_slot Hi. eexists; split; [done|].
    replace (<[t := ret :: default [] (s !! t)]> s) with
      (set_owner t (stack_elems st) (delete (w_task old) s)).
    + apply (table_rel_insert _ _ _ _ _ _ _ _ HR Hi Hok'). destruct Hc as [[? _]|(_ & _ & ?)]; auto.
    + unfold set_owner. rewrite decide_False, Hst, Hel by done.
      destruct Hc as [[-> _]|(-> & _)]; [by rewrite insert_delete_eq|]. by rewrite delete_id by apply HR.
  - destruct (s !! t) as [st|] eqn:Hs; [|done].
    assert (t <> NULL) as Ht by (intros ->; by rewrite (proj1 (proj2 HR)) in Hs).
    destruct (slot_find_rel _ _ _ _ _ _ _ HR Ht Hs) as (i' & d & Hf & Hi & Hk & Hok & ->).
    pose proof (lib_ok_pop d Hok ltac:(congruence)) as Hok'.
    unfold lib_exit. rewrite Hf. fold (free_last (s_size (w_rets d)) d).
    destruct (free_last_fields (s_size (w_rets d)) d) as (-> & _ & Htk).
    destruct (stack_elems (w_rets d)) as [|u r] eqn:He; [done|].
    pose proof (stack_elems_length _ (proj1 (proj1 Hok))) as Hlen. rewrite He in Hlen. simpl in Hlen.
    destruct (stack_pop_spec _ _ _ (proj1 (proj1 Hok)) He) as (st & Hp & _ & Hst & _).
    rewrite Hp in *. cbn [fst snd] in *. set (x := set_w_rets st _) in *.
    assert (rel (<[i' := x]> i) (set_owner (w_task x) (stack_elems st) (delete (w_task d) s))) as HR'.
    { apply (table_rel_insert _ _ _ _ _ _ _ _ HR Hi Hok'). simpl. rewrite Htk. case_decide; auto. }
    change (w_task x) with (w_task (free_last (s_size (w_rets d)) d)) in HR'. rewrite Htk, Hk, Hst, <- Hlen in HR'.
    unfold set_owner in HR'. destruct r as [|v r]; intros [= <- <-]; cbn [length] in HR'; eexists; (split; [done|]).
    + by rewrite decide_True in HR'.
    + rewrite (decide_False (P := S (S _) = 1%nat)), decide_False, insert_delete_eq in HR' by (done || lia). done.
  - case_decide as Hd; [|done]. intros [= <- <-]. eexists; split; [done|].
    apply remove_task_rel; [apply wrapper_zero_ok|done|done].
Qed.

#[global] Instance refines : Refinement impl spec := {| ref_rel := rel; ref_step := lib_step_refines |}.

End Lib.

(** *** Callbacks

    Entering a callback from library code suspends the LBR state under the
    task's name and starts a fresh one; leaving it brings the suspended state
    back.  Per task: a stack of return addresses and LBR states. *)

Module Cbk.

Inductive ev :=
| Enter (t ret : Z)
| Exit (t : Z)
| Gone (t : Z)
| Run (f : gmap Z Z -> gmap Z Z).

Definition impl (e : ev) (s : list wrapper_lib_t * gmap Z Z) : (list wrapper_lib_t * gmap Z Z) * (Z * bool) :=
  match e with
  | Enter t ret => let '(data, m, kill) := cbk_init t ret s.1 s.2 in ((data, m), (0, kill))
  | Exit t => let '(v, data, m, kill) := cbk_exit t s.1 s.2 in ((data, m), (v, kill))
  | Gone t => ((remove_task t s.1, s.2), (0, false))
  | Run f => ((s.1, f s.2), (0, false))
  end.

Definition spec (e : ev) (s : gmap Z (list (Z * lbr_t)) * gmap Z Z)
  : option ((gmap Z (list (Z * lbr_t)) * gmap Z Z) * (Z * bool)) :=
  let '(M, m) := s in
  match e with
  | Enter t ret =>
      let st := default [] (M !! t) in
      if decide (t <> NULL /\ (length st < STACKSIZE)%nat /\ (is_Some (M !! t) \/ (size M < CBK_CACHE_SIZE)%nat))
      then Some ((<[t := (ret, Hw.get_lbr m lbr_zero) :: st]> M, Hw.flush_lbr true m), (0, false)) else None
  | Exit t =>
      match M !! t with
      | Some ((u, l) :: []) => Some ((delete t M, Hw.put_lbr l m), (u, false))
      | Some ((u, l) :: r) => Some ((<[t := r]> M, Hw.put_lbr l m), (u, false))
      | _ => None
      end
  | Gone t => if decide (t <> NULL) then Some ((delete t M, m), (0, false)) else None
  | Run f => Some ((M, f m), (0, false))
  end.

(** The saved states carry no owner of their own. *)
Definition frames (d : wrapper_lib_t) : list (Z * lbr_t) :=
  zip (stack_elems (w_rets d)) (set_l_task NULL <$> stack_elems (w_lbrs d)).

Definition rel (i : list wrapper_lib_t * gmap Z Z) (s : gmap Z (list (Z * lbr_t)) * gmap Z Z) : Prop :=
  table_rel CBK_CACHE_SIZE cbk_ok frames i.1 s.1 /\ i.2 = s.2.

Lemma frames_length d : cbk_ok d -> length (frames d) = s_size (w_rets d).
Proof.
  intros [[[Hr Hl] _] Heq]. unfold frames.
  rewrite length_zip, length_fmap, !stack_elems_length by done. lia.
Qed.

Lemma frames_empty d : cbk_ok d -> w_task d = NULL -> frames d = [].
Proof. intros Hok Hk. apply nil_length_inv. rewrite frames_length by done. by apply (proj1 Hok). Qed.

Lemma frames_cons d u l r : cbk_ok d -> frames d = (u, l) :: r ->
  exists l' rr ll, stack_elems (w_rets d) = u :: rr /\ stack_elems (w_lbrs d) = l' :: ll /\
    l = set_l_task NULL l' /\ r = zip rr (set_l_task NULL <$> ll).
Proof.
  intros Hok. unfold frames. destruct (stack_elems (w_rets d)) as [|u' rr], (stack_elems (w_lbrs d)) as [|l' ll];
    try done. rewrite fmap_cons. cbn [zip zip_with]. intros Hc. apply cons_inj in Hc as [Hp <-].
  apply pair_equal_spec in Hp as [-> <-]. eauto 10.
Qed.

Lemma enter_refines t ret data m M :
  t <> NULL -> (length (default [] (M !! t)) < STACKSIZE)%nat ->
  is_Some (M !! t) \/ (size M < CBK_CACHE_SIZE)%nat ->
  table_rel CBK_CACHE_SIZE cbk_ok frames data M ->
  exists data', cbk_init t ret data m = (data', Hw.flush_lbr true m, false) /\
    table_rel CBK_CACHE_SIZE cbk_ok frames data'
      (<[t := (ret, Hw.get_lbr m lbr_zero) :: default [] (M !! t)]> M).
Proof.
  intros Ht Hlen Hroom HR.
  destruct (find_entry_rel _ _ _ _ _ _ HR Ht Hroom) as (k & old & Hf & Hi & Hok & Hc).
  assert (frames old = default [] (M !! t)) as Hel.
  { destruct Hc as [[_ ->]|(Hn & -> & _)]; [done|]. by apply frames_empty. }
  rewrite <- Hel, frames_length in Hlen by done.
  pose proof Hok as [[[Hwr Hwl] _] Heq].
  unfold cbk_init. rewrite Hf. at_slot Hi. simpl w_rets.
  pose proof (cbk_ok_push t old ret m Hok Ht) as Hok'.
  destruct (stack_push_spec (w_rets old) ret Hwr Hlen) as (st & Hp & _ & Hst). rewrite Hp in *.
  at_slot Hi. simpl w_lbrs.
  destruct (lbr_stack_push_spec m (w_lbrs old) Hwl) as (ls & l & Hp' & _ & Hl & Hls); [lia|]. rewrite Hp' in *.
  at_slot Hi. eexists; split; [done|]. cbn [fst] in Hok'. set (x := set_w_lbrs ls _) in *.
  assert (frames x = (ret, Hw.get_lbr m lbr_zero) :: default [] (M !! t)) as Hx.
  { unfold frames. cbn [w_rets w_lbrs x set_w_lbrs set_w_rets]. rewrite Hst, Hls, fmap_cons, Hl, <- Hel. reflexivity. }
  replace (<[t := _]> M) with (set_owner t (frames x) (delete (w_task old) M)).
  - apply (table_rel_insert _ _ _ _ _ _ _ _ HR Hi Hok'). destruct Hc as [[? _]|(_ & _ & ?)]; auto.
  - unfold set_owner. rewrite decide_False, Hx by done.
    destruct Hc as [[-> _]|(-> & _)]; [by rewrite insert_delete_eq|]. by rewrite delete_id by apply HR.
Qed.

Lemma exit_refines t data m M u l r :
  M !! t = Some ((u, l) :: r) -> table_rel CBK_CACHE_SIZE cbk_ok frames data M ->
  exists data', cbk_exit t data m = (u, data', Hw.put_lbr l m, false) /\
    table_rel CBK_CACHE_SIZE cbk_ok frames data' (if decide (r = []) then delete t M else <[t := r]> M).
Proof.
  intros Hs HR. assert (t <> NULL) as Ht by (intros ->; by rewrite (proj1 (proj2 HR)) in Hs).
  destruct (slot_find_rel _ _ _ _ _ _ _ HR Ht Hs) as (i & d & Hf & Hi & Hk & Hok & He). symmetry in He.
  pose proof (cbk_ok_pop d m Hok ltac:(congruence)) as Hok'. pose proof (frames_length d Hok) as Hlen.
  rewrite He in Hlen. destruct (frames_cons _ _ _ _ Hok He) as (l' & rr & ll & Her & Hel & -> & Hr).
  unfold cbk_exit. rewrite Hf. fold (free_last (s_size (w_rets d)) d).
  destruct (free_last_fields (s_size (w_rets d)) d) as (Hfr & -> & Htk).
  pose proof Hok as [[[Hwr Hwl] _] _].
  destruct (lbr_stack_pop_spec m _ _ _ Hwl Hel) as (ls & Hp' & _ & Hls & _). rewrite Hp' in *.
  simpl w_rets. rewrite Hfr. destruct (stack_pop_spec _ _ _ Hwr Her) as (st & Hp & _ & Hst & _). rewrite Hp in *.
  cbv zeta in Hok'. cbn [fst snd] in Hok'. set (x := set_w_rets st _) in *. eexists; split; [done|].
  assert (frames x = r) as Hx.
  { unfold frames. cbn [w_rets w_lbrs x set_w_lbrs set_w_rets]. rewrite Hst, Hls. symmetry. exact Hr. }
  assert (table_rel CBK_CACHE_SIZE cbk_ok frames (<[i := x]> data)
            (set_owner (w_task x) (frames x) (delete (w_task d) M))) as HR'.
  { apply (table_rel_insert _ _ _ _ _ _ _ _ HR Hi Hok'). simpl. rewrite Htk. case_decide; auto. }
  change (w_task x) with (w_task (free_last (s_size (w_rets d)) d)) in HR'. rewrite Htk, Hk, Hx, <- Hlen in HR'.
  unfold set_owner in HR'. destruct r as [|v r']; cbn [length] in HR'.
  - by rewrite decide_True in HR'.
  - rewrite (decide_False (P := S (S _) = 1%nat)), decide_False, insert_delete_eq in HR' by (done || lia). done.
Qed.

Lemma cbk_step_refines e i s s' o : rel i s -> spec e s = Some (s', o) -> exists i', impl e i = (i', o) /\ rel i' s'.
Proof.
  destruct i as [data m], s as [M m0]. intros [HR Hm]. cbn [fst snd] in HR, Hm. subst m0.
  destruct e as [t ret|t|t|f]; cbn [spec impl fst snd].
  - case_decide as Hd; [|done]. destruct Hd as (Ht & Hlen & Hroom). intros [<- <-]%Some_pair_inj.
    destruct (enter_refines t ret data m M Ht Hlen Hroom HR) as (data' & -> & HR'). by eexists.
  - destruct (M !! t) as [[|[u l] r]|] eqn:Hs; [done| |done]. intros Hsp.
    destruct (exit_refines t data m M u l r Hs HR) as (data' & -> & HR').
    destruct r as [|v r]; apply Some_pair_inj in Hsp as [<- <-]; [rewrite decide_True in HR' by done|rewrite decide_False in HR' by done];
      by eexists.
  - case_decide as Hd; [|done]. intros [<- <-]%Some_pair_inj. eexists; split; [done|]. split; [|done].
    apply remove_task_rel; [apply wrapper_zero_ok|done|done].
  - intros [<- <-]%Some_pair_inj. by eexists.
Qed.

#[global] Instance refines : Refinement impl spec := {| ref_rel := rel; ref_step := cbk_step_refines |}.

End Cbk.

(** ** Properties *)

(** C7. Library return addresses.  From the empty table, along every supported
    interleaving of library entries, library exits and task exits, each exit
    hands back the address its own task pushed last, and nobody is killed: the
    outputs are those of a stack per task. *)
Theorem lib_traces evs M os :
  spec_run Lib.spec evs ∅ = Some (M, os) ->
  (impl_run Lib.impl evs (replicate LIB_CACHE_SIZE wrapper_zero)).2 = os.
Proof.
  intros Hrun.
  assert (ref_rel (Refinement := Lib.refines) (replicate LIB_CACHE_SIZE wrapper_zero) ∅) as HR
    by (apply table_rel_init, wrapper_zero_ok).
  by destruct (run_simulates Lib.impl Lib.spec _ _ _ _ _ HR Hrun) as (i' & -> & _).
Qed.

Lemma lib_traces_witness :
  (impl_run Lib.impl [Lib.Enter 1 0x400100; Lib.Enter 2 0x400200; Lib.Enter 1 0x400300; Lib.Exit 1; Lib.Exit 2; Lib.Exit 1]
     (replicate LIB_CACHE_SIZE wrapper_zero)).2 =
  [(0, false); (0, false); (0, false); (0x400300, false); (0x400200, false); (0x400100, false)].
Proof. eapply lib_traces. vm_compute. reflexivity. Defined.

(** A callback is transparent for the code that was interrupted: the LBR
    registers after the callback's exit read as before its entry, whatever
    other tasks and the callback itself did in between, and the task gets its
    own return address. *)
Theorem cbk_roundtrip data M m t ret evs s' os :
  Cbk.rel (data, m) (M, m) ->
  Forall (fun e => match e with Cbk.Enter u _ | Cbk.Exit u | Cbk.Gone u => u <> t | Cbk.Run _ => True end) evs ->
  spec_run Cbk.spec (Cbk.Enter t ret :: evs ++ [Cbk.Exit t]) (M, m) = Some (s', os) ->
  let r := impl_run Cbk.impl (Cbk.Enter t ret :: evs ++ [Cbk.Exit t]) (data, m) in
  (forall l, Hw.get_lbr r.1.2 l = Hw.get_lbr m l) /\ last r.2 = Some (ret, false).
Proof.
  intros HR Hevs Hrun r. subst r.
  change (ref_rel (Refinement := Cbk.refines) (data, m) (M, m)) in HR.
  destruct (run_simulates Cbk.impl Cbk.spec _ _ _ _ _ HR Hrun) as (i' & -> & [_ Hm]).
  cbn [fst snd]. rewrite Hm. clear i' HR Hm. cbn [spec_run] in Hrun.
  destruct (Cbk.spec (Cbk.Enter t ret) (M, m)) as [[s1 o]|] eqn:Ho; [|done].
  rewrite spec_run_app in Hrun.
  destruct (spec_run Cbk.spec evs s1) as [[s2 os2]|] eqn:Hr; [|done].
  assert (s2.1 !! t = s1.1 !! t) as Hframe.
  { eapply (spec_run_frame _ (fun s => s.1 !! t)); [|exact Hr]. eapply Forall_impl; [exact Hevs|].
    intros e He [N n] s3 o3. destruct e as [u x|u|u|f]; cbn [Cbk.spec].
    - case_decide; [|done]. intros [<- _]%Some_pair_inj. by apply lookup_insert_ne.
    - destruct (N !! u) as [[|[v l] [|? ?]]|]; try done; intros [<- _]%Some_pair_inj;
        [by apply lookup_delete_ne|by apply lookup_insert_ne].
    - case_decide; [|done]. intros [<- _]%Some_pair_inj. by apply lookup_delete_ne.
    - by intros [<- _]%Some_pair_inj. }
  clear Hr. cbn [Cbk.spec] in Ho. case_decide as Hd; [|done].
  apply Some_pair_inj in Ho as [<- _]. cbn [fst] in Hframe. rewrite lookup_insert_eq in Hframe.
  destruct s2 as [M2 m2]. cbn [fst spec_run mbind option_bind] in *. unfold Cbk.spec in Hrun.
  rewrite Hframe in Hrun.
  destruct (default [] (M !! t)); cbn [mbind option_bind] in Hrun; apply Some_pair_inj in Hrun as [<- <-];
    cbn [snd]; (split; [intros l'; by rewrite Hw.get_put_lbr by apply Hw.get_lbr_wf|]);
    rewrite app_comm_cons; apply last_snoc.
Qed.

Lemma cbk_roundtrip_witness :
  let r := impl_run Cbk.impl
    (Cbk.Enter 1 0x400100 :: [Cbk.Run (Hw.wrmsrl Hw.MSR_LBR_TOS 5); Cbk.Enter 2 0x400200] ++ [Cbk.Exit 1])
    (replicate CBK_CACHE_SIZE wrapper_zero, {[ Hw.MSR_LBR_TOS := 3 ]}) in
  (forall l, Hw.get_lbr r.1.2 l = Hw.get_lbr {[ Hw.MSR_LBR_TOS := 3 ]} l) /\ last r.2 = Some (0x400100, false).
Proof.
  eapply (cbk_roundtrip _ ∅).
  - split; [apply table_rel_init, wrapper_zero_ok|reflexivity].
  - repeat constructor; discriminate.
  - vm_compute. reflexivity.
Defined.

(** When the module kills on a library call.  Entering kills exactly when
    the task is eight calls deep, or owns no slot of a full table; leaving
    kills exactly when the task owns no slot, and then nothing changes and the
    address handed back is null. *)
Theorem lib_kills t ret data :
  t <> NULL -> lib_table data ->
  ((lib_init t ret data).2 = true <->
    match slot_get t data with
    | Some d => s_size (w_rets d) = STACKSIZE
    | None => slot_find NULL data = None
    end) /\
  ((lib_exit t data).2 = true <-> slot_get t data = None) /\
  (slot_get t data = None -> lib_exit t data = (0, data, true)).
Proof.
  intros Ht Hwf. split_and!.
  - destruct (find_entry _ _ data t Hwf ltac:(unfold LIB_CACHE_SIZE; lia) Ht) as (i & old & k & kill & Hf & Hi & _ & Hc).
    unfold lib_init. rewrite Hf. at_slot Hi. simpl w_rets.
    pose proof (table_wf_lookup _ _ _ _ _ Hwf Hi) as [_ Hok].
    unfold stack_push. destruct Hc as [(-> & _ & [Ho|[Ho Hg]])|(-> & _ & -> & ->)].
    + replace (slot_get t data) with (Some old); [|symmetry; apply slot_get_Some; [apply Hwf|done|eauto]].
      case_decide; cbn [orb snd]; by split.
    + rewrite Hg, decide_False by (rewrite (proj1 Hok Ho); done). cbn [orb snd]. split; [done|]. intros Hn.
      by pose proof (slot_find_None _ _ _ _ Hn Hi).
    + by destruct (decide _).
  - unfold lib_exit. unfold slot_get. destruct (slot_find t data) as [[i d]|] eqn:Hf; [|done]. simpl.
    destruct (slot_find_wf _ _ _ _ _ _ Hwf Hf) as (_ & Hk & _ & Hok).
    fold (free_last (s_size (w_rets d)) d). rewrite (proj1 (free_last_fields _ _)).
    unfold stack_pop. rewrite decide_False by (rewrite <- Hok; congruence). done.
  - intros Hn%slot_get_None. unfold lib_exit. by rewrite Hn.
Qed.

Lemma lib_kills_witness :
  let data := (lib_init 7 0x400100 (replicate LIB_CACHE_SIZE wrapper_zero)).1 in
  ((lib_init 7 0x400200 data).2 = true <->
    match slot_get 7 data with
    | Some d => s_size (w_rets d) = STACKSIZE
    | None => slot_find NULL data = None
    end) /\
  ((lib_exit 7 data).2 = true <-> slot_get 7 data = None) /\
  (slot_get 7 data = None -> lib_exit 7 data = (0, data, true)).
Proof.
  apply lib_kills; [discriminate|]. apply lib_init_wf; [discriminate|]. apply table_wf_init, wrapper_zero_ok.
Defined.

(** ** Two tasks inside [lib_exit] and [lib_init]

    [lib_exit] holds no lock and frees the slot before it pops the stack.  Its
    two writes, in the order of the code: *)

Definition lib_exit_free (i : nat) (lib_data : list wrapper_lib_t) : list wrapper_lib_t :=
  let d := lib_data !!! i in
  <[i := if decide (s_size (w_rets d) = 1%nat) then set_w_task NULL d else d]> lib_data.

Definition lib_exit_pop (i : nat) (lib_data : list wrapper_lib_t) : Z * list wrapper_lib_t * bool :=
  let d := lib_data !!! i in
  let '(v, s, kill) := stack_pop (w_rets d) in
  (v, <[i := set_w_rets s d]> lib_data, kill).

Lemma slot_find_insert_first k data i d x :
  slot_find k data = Some (i, d) -> w_task x = k -> slot_find k (<[i := x]> data) = Some (i, x).
Proof.
  unfold slot_find. intros (Hi & Hk & Hbefore)%list_find_Some Hx. apply list_find_Some.
  split; [apply list_lookup_insert_eq; by eapply lookup_lt_Some|]. split; [done|].
  intros j y Hj Hlt. rewrite list_lookup_insert_ne in Hj by lia. by eapply Hbefore.
Qed.

Lemma slot_find_insert_none k data i x :
  slot_find k data = None -> w_task x <> k -> slot_find k (<[i := x]> data) = None.
Proof. unfold slot_find. rewrite !list_find_None. intros. by apply Forall_insert. Qed.

Lemma lib_init_fresh u ret data i d :
  u <> NULL -> slot_find u data = None -> slot_find NULL data = Some (i, d) ->
  lib_init u ret data =
    (<[i := set_w_rets (stack_push (w_rets d) ret).1 (set_w_task u d)]> data, (stack_push (w_rets d) ret).2).
Proof.
  intros Hu Hn Hf. unfold lib_init. rewrite find_cache_entry_init_spec, Hn, Hf by done.
  apply slot_find_Some in Hf as [Hi _]. at_slot Hi. simpl w_rets.
  destruct (stack_push (w_rets d) ret). by at_slot Hi.
Qed.

(** C35. The two writes make up [lib_exit], but they are not one step.  Task
    [t] enters and leaves its only library call; left alone it gets its own
    return address.  When another task [u] enters its first library call
    between the two writes, [t] is handed [u]'s return address, and [u] is
    later handed [t]'s. *)
Theorem lib_exit_race data t u ret_t ret_u i d :
  lib_table data -> t <> NULL -> u <> NULL -> u <> t ->
  slot_find t data = None -> slot_find u data = None -> slot_find NULL data = Some (i, d) ->
  let data1 := (lib_init t ret_t data).1 in
  lib_exit t data1 = lib_exit_pop i (lib_exit_free i data1) /\
  (lib_exit t data1).1.1 = ret_t /\
  let data2 := (lib_init u ret_u (lib_exit_free i data1)).1 in
  (lib_exit_pop i data2).1.1 = ret_u /\
  (lib_exit u (lib_exit_pop i data2).1.2).1.1 = ret_t.
Proof.
  intros Hwf Ht Hu Hut Hft Hfu Hfn. destruct (slot_find_wf _ _ _ _ _ _ Hwf Hfn) as (Hi & Hk & [[Hs Hl] _] & Ho).
  cbv zeta. rewrite (lib_init_fresh t ret_t data i d) by done.
  unfold stack_push. rewrite (proj1 Ho Hk). cbn [decide_rel].
  rewrite (decide_False (P := 0%nat = STACKSIZE)) by done. cbn [fst Nat.add].
  set (s1 := Stk 1 (<[0%nat := ret_t]> (s_items (w_rets d)))).
  set (x1 := set_w_rets s1 (set_w_task t d)).
  assert (slot_find t (<[i := x1]> data) = Some (i, x1)) as Hf1.
  { change t with (slot_key x1). apply slot_find_uniq; [|done|apply list_lookup_insert_eq; by eapply lookup_lt_Some].
    eapply slots_uniq_insert; [apply Hwf|done|]. right; right. by apply slot_get_None. }
  assert (lib_exit_free i (<[i := x1]> data) = <[i := set_w_task NULL x1]> data) as Hfree.
  { unfold lib_exit_free. at_slot Hi. by rewrite decide_True. }
  assert (forall n z, (n < 8)%nat -> <[n := z]> (s_items (w_rets d)) !!! n = z) as Hrd.
  { intros n z Hn. apply list_lookup_total_correct, list_lookup_insert_eq. by rewrite Hl. }
  rewrite Hfree.
  assert (lib_exit t (<[i := x1]> data) = lib_exit_pop i (<[i := set_w_task NULL x1]> data) /\
          (lib_exit t (<[i := x1]> data)).1.1 = ret_t) as [-> Hret].
  { unfold lib_exit, lib_exit_pop. rewrite Hf1. at_slot Hi. rewrite decide_True by done.
    unfold stack_pop. rewrite decide_False by done. cbn. at_slot Hi. split; [done|]. apply Hrd. lia. }
  split; [done|]. split; [done|].
  rewrite (lib_init_fresh u ret_u _ i (set_w_task NULL x1));
    [|done|by apply slot_find_insert_none|by eapply slot_find_insert_first].
  at_slot Hi. cbn [w_rets set_w_task set_w_rets x1].
  unfold stack_push. rewrite decide_False by done. cbn [fst s_size s_items Nat.add s1].
  set (x2 := set_w_rets (Stk 2 _) _).
  assert (lib_exit_pop i (<[i := x2]> data) = (ret_u, <[i := set_w_rets (Stk 1 (s_items (w_rets x2))) x2]> data, false)) as ->.
  { unfold lib_exit_pop. at_slot Hi. unfold stack_pop. rewrite decide_False by done.
    at_slot Hi. f_equal. f_equal. apply list_lookup_total_correct, list_lookup_insert_eq.
    cbn. rewrite length_insert, Hl. unfold STACKSIZE. lia. }
  cbn [fst snd]. set (x3 := set_w_rets _ x2).
  assert (slot_find u (<[i := x3]> data) = Some (i, x3)) as Hf3.
  { change u with (slot_key x3). apply slot_find_uniq; [|done|apply list_lookup_insert_eq; by eapply lookup_lt_Some].
    eapply slots_uniq_insert; [apply Hwf|done|]. right; right. by apply slot_get_None. }
  unfold lib_exit. rewrite Hf3, decide_True by done. unfold stack_pop. rewrite decide_False by done.
  cbn. split; [done|]. apply list_lookup_total_correct.
  rewrite list_lookup_insert_ne by done. apply list_lookup_insert_eq. rewrite Hl. unfold STACKSIZE. lia.
Qed.

Lemma lib_exit_race_witness :
  let data1 := (lib_init 1 0x400100 (replicate LIB_CACHE_SIZE wrapper_zero)).1 in
  lib_exit 1 data1 = lib_exit_pop 0 (lib_exit_free 0 data1) /\
  (lib_exit 1 data1).1.1 = 0x400100 /\
  let data2 := (lib_init 2 0x400200 (lib_exit_free 0 data1)).1 in
  (lib_exit_pop 0 data2).1.1 = 0x400200 /\
  (lib_exit 2 (lib_exit_pop 0 data2).1.2).1.1 = 0x400100.
Proof.
  eapply (lib_exit_race (replicate LIB_CACHE_SIZE wrapper_zero) 1 2 0x400100 0x400200 0);
    [apply table_wf_init, wrapper_zero_ok|discriminate|discriminate|discriminate
    |vm_compute; reflexivity|vm_compute; reflexivity|vm_compute; reflexivity].
Defined.
