(* ===== verification/Kernel.v ===== *)
(** The kernel around the module: the state its handlers share and the monad
    they are written in.

    A handler runs on one CPU for one task ([current]) and may sleep: on the
    validation mutex and on the five semaphores of lkm/armor.c.  A computation
    is therefore a resumption: [Done] with a result, [Wait] on a queue with a
    continuation, or [Oops], a kernel fault (an out-of-bounds access or a
    [BUG()]).  Between two waits a handler is one atomic step; what other tasks
    do meanwhile is the choice of the scheduler (Module [Sys] of ArmorInv.v). *)

From S2P Require Import Prelude Slots Lbr LbrState Wrappers.

(** ** State *)

(** A mapping of a process: [vm_file] is what [d_path] gives for its file, a
    path or an error code. *)
Record vm_area := Vma { vm_exec : bool; vm_start : Z; vm_end : Z; vm_file : option (string + Z) }.

(** The fields of [task_struct] the module reads or writes.  [t_hooked]: its
    list of preempt notifiers holds the module's. *)
Record task_t := Task {
  t_personality : Z;
  t_start_code : Z;
  t_end_code : Z;
  t_hooked : bool;
  t_mmap : option (list vm_area)
}.

#[global] Instance task_inhabited : Inhabited task_t := populate (Task 0 0 0 false None).

Definition set_personality (p : Z) (t : task_t) : task_t :=
  Task p (t_start_code t) (t_end_code t) (t_hooked t) (t_mmap t).
Definition set_hooked (h : bool) (t : task_t) : task_t :=
  Task (t_personality t) (t_start_code t) (t_end_code t) h (t_mmap t).

(** The four per-task tables. *)
Record tables := Tables {
  tb_cache : list lbr_t;
  tb_lib : list wrapper_lib_t;
  tb_cbk : list wrapper_lib_t;
  tb_sig : list wrapper_lib_t
}.

Definition set_cache (c : list lbr_t) (t : tables) : tables := Tables c (tb_lib t) (tb_cbk t) (tb_sig t).
Definition set_lib (d : list wrapper_lib_t) (t : tables) : tables := Tables (tb_cache t) d (tb_cbk t) (tb_sig t).
Definition set_cbk (d : list wrapper_lib_t) (t : tables) : tables := Tables (tb_cache t) (tb_lib t) d (tb_sig t).
Definition set_sig (d : list wrapper_lib_t) (t : tables) : tables := Tables (tb_cache t) (tb_lib t) (tb_cbk t) d.

(** [disable_jit], [validation_lock], the two semaphores of the handshake with
    the analyzer, [jit_work] (the LBR state it points to), [jit_result] and
    [struct jit_cache_t]. *)
Record jit_state := Jit {
  j_disable : bool;
  j_lock : bool;
  j_work_cond : Z;
  j_result_cond : Z;
  j_work : option lbr_t;
  j_result : Z;
  j_hash : list (list Z);
  j_hashes : Z
}.

Definition set_disable (b : bool) (j : jit_state) : jit_state :=
  Jit b (j_lock j) (j_work_cond j) (j_result_cond j) (j_work j) (j_result j) (j_hash j) (j_hashes j).
Definition set_lock (b : bool) (j : jit_state) : jit_state :=
  Jit (j_disable j) b (j_work_cond j) (j_result_cond j) (j_work j) (j_result j) (j_hash j) (j_hashes j).
Definition set_work_cond (n : Z) (j : jit_state) : jit_state :=
  Jit (j_disable j) (j_lock j) n (j_result_cond j) (j_work j) (j_result j) (j_hash j) (j_hashes j).
Definition set_result_cond (n : Z) (j : jit_state) : jit_state :=
  Jit (j_disable j) (j_lock j) (j_work_cond j) n (j_work j) (j_result j) (j_hash j) (j_hashes j).
Definition set_work (w : option lbr_t) (j : jit_state) : jit_state :=
  Jit (j_disable j) (j_lock j) (j_work_cond j) (j_result_cond j) w (j_result j) (j_hash j) (j_hashes j).
Definition set_result (r : Z) (j : jit_state) : jit_state :=
  Jit (j_disable j) (j_lock j) (j_work_cond j) (j_result_cond j) (j_work j) r (j_hash j) (j_hashes j).
Definition set_jit_cache (h : list (list Z)) (n : Z) (j : jit_state) : jit_state :=
  Jit (j_disable j) (j_lock j) (j_work_cond j) (j_result_cond j) (j_work j) (j_result j) h n.

(** A buffer the device hands around: still the user's pointer, or a kernel
    copy of the bytes. *)
Inductive buffer :=
| UserPtr (p : Z)
| KernelBuf (bytes : list Z).

(** [struct lbr_paths_kernel_copy]. *)
Record kernel_copy := KernelCopy {
  kc_paths : Z;
  kc_size : Z;
  kc_indirect_call_source : Z;
  kc_load_from : Z;
  kc_armor_lib_enter : Z;
  kc_armor_lib_return : Z;
  kc_pthread_create : Z;
  kc_pthread_create_return : Z
}.

(** [struct plt_got_copy_t] and [struct simples_t]. *)
Record plt_got_copy_t := PltGot { pg_size : Z; pg_items : Z; pg_plts : buffer; pg_gots : buffer }.
Record simples_t := Simples { sp_size : Z; sp_items : Z; sp_exitpoints : buffer }.

(** The device: [armor_opens], [armor_initialized], [paths] (allocated, and
    filled or not), [tocopy], [main_task], three semaphores and two tables. *)
Record device := Device {
  d_opens : Z;
  d_initialized : bool;
  d_paths : option (option (list Z));
  d_tocopy : kernel_copy;
  d_main_task : Z;
  d_target_started : Z;
  d_plt_available : Z;
  d_exitpoints_available : Z;
  d_plt_got : plt_got_copy_t;
  d_simples : simples_t
}.

Definition set_opens (n : Z) (d : device) : device :=
  Device n (d_initialized d) (d_paths d) (d_tocopy d) (d_main_task d) (d_target_started d)
    (d_plt_available d) (d_exitpoints_available d) (d_plt_got d) (d_simples d).
Definition set_initialized (b : bool) (d : device) : device :=
  Device (d_opens d) b (d_paths d) (d_tocopy d) (d_main_task d) (d_target_started d)
    (d_plt_available d) (d_exitpoints_available d) (d_plt_got d) (d_simples d).
Definition set_paths (p : option (option (list Z))) (d : device) : device :=
  Device (d_opens d) (d_initialized d) p (d_tocopy d) (d_main_task d) (d_target_started d)
    (d_plt_available d) (d_exitpoints_available d) (d_plt_got d) (d_simples d).
Definition set_tocopy (c : kernel_copy) (d : device) : device :=
  Device (d_opens d) (d_initialized d) (d_paths d) c (d_main_task d) (d_target_started d)
    (d_plt_available d) (d_exitpoints_available d) (d_plt_got d) (d_simples d).
Definition set_main_task (t : Z) (d : device) : device :=
  Device (d_opens d) (d_initialized d) (d_paths d) (d_tocopy d) t (d_target_started d)
    (d_plt_available d) (d_exitpoints_available d) (d_plt_got d) (d_simples d).
Definition set_sems (started plt exits : Z) (d : device) : device :=
  Device (d_opens d) (d_initialized d) (d_paths d) (d_tocopy d) (d_main_task d) started
    plt exits (d_plt_got d) (d_simples d).
Definition set_plt_got (p : plt_got_copy_t) (d : device) : device :=
  Device (d_opens d) (d_initialized d) (d_paths d) (d_tocopy d) (d_main_task d) (d_target_started d)
    (d_plt_available d) (d_exitpoints_available d) p (d_simples d).
Definition set_simples (s : simples_t) (d : device) : device :=
  Device (d_opens d) (d_initialized d) (d_paths d) (d_tocopy d) (d_main_task d) (d_target_started d)
    (d_plt_available d) (d_exitpoints_available d) (d_plt_got d) s.

(** Everything together: the registers of every CPU, the CPU the running
    handler is on, the tasks, the tasks sent [SIGKILL], the words written to
    user memory (by task and address) and the work items of [exit_queue]. *)
Record kstate := KState {
  k_msr : list (gmap Z Z);
  k_cpu : nat;
  k_tasks : gmap Z task_t;
  k_killed : gset Z;
  k_user : gmap (Z * Z) Z;
  k_exitq : list Z;
  k_stats : armor_stats;
  k_tb : tables;
  k_jit : jit_state;
  k_dev : device
}.

Definition on_msr (m : list (gmap Z Z)) (s : kstate) : kstate :=
  KState m (k_cpu s) (k_tasks s) (k_killed s) (k_user s) (k_exitq s) (k_stats s) (k_tb s) (k_jit s) (k_dev s).
Definition on_cpu (c : nat) (s : kstate) : kstate :=
  KState (k_msr s) c (k_tasks s) (k_killed s) (k_user s) (k_exitq s) (k_stats s) (k_tb s) (k_jit s) (k_dev s).
Definition on_tasks (f : gmap Z task_t -> gmap Z task_t) (s : kstate) : kstate :=
  KState (k_msr s) (k_cpu s) (f (k_tasks s)) (k_killed s) (k_user s) (k_exitq s) (k_stats s) (k_tb s) (k_jit s) (k_dev s).
Definition on_killed (f : gset Z -> gset Z) (s : kstate) : kstate :=
  KState (k_msr s) (k_cpu s) (k_tasks s) (f (k_killed s)) (k_user s) (k_exitq s) (k_stats s) (k_tb s) (k_jit s) (k_dev s).
Definition on_user (f : gmap (Z * Z) Z -> gmap (Z * Z) Z) (s : kstate) : kstate :=
  KState (k_msr s) (k_cpu s) (k_tasks s) (k_killed s) (f (k_user s)) (k_exitq s) (k_stats s) (k_tb s) (k_jit s) (k_dev s).
Definition on_exitq (f : list Z -> list Z) (s : kstate) : kstate :=
  KState (k_msr s) (k_cpu s) (k_tasks s) (k_killed s) (k_user s) (f (k_exitq s)) (k_stats s) (k_tb s) (k_jit s) (k_dev s).
Definition on_stats (f : armor_stats -> armor_stats) (s : kstate) : kstate :=
  KState (k_msr s) (k_cpu s) (k_tasks s) (k_killed s) (k_user s) (k_exitq s) (f (k_stats s)) (k_tb s) (k_jit s) (k_dev s).
Definition on_tb (f : tables -> tables) (s : kstate) : kstate :=
  KState (k_msr s) (k_cpu s) (k_tasks s) (k_killed s) (k_user s) (k_exitq s) (k_stats s) (f (k_tb s)) (k_jit s) (k_dev s).
Definition on_jit (f : jit_state -> jit_state) (s : kstate) : kstate :=
  KState (k_msr s) (k_cpu s) (k_tasks s) (k_killed s) (k_user s) (k_exitq s) (k_stats s) (k_tb s) (f (k_jit s)) (k_dev s).
Definition on_dev (f : device -> device) (s : kstate) : kstate :=
  KState (k_msr s) (k_cpu s) (k_tasks s) (k_killed s) (k_user s) (k_exitq s) (k_stats s) (k_tb s) (k_jit s) (f (k_dev s)).

(** ** Computations *)

(** What a handler can sleep on: the validation mutex, and the semaphores
    [jit_result_cond], [jit_work_cond], [target_started], [plt_available],
    [exitpoints_available]. *)
Inductive waitq := WLock | WResult | WWork | WStarted | WPlt | WExits.

#[global] Instance waitq_eq_dec : EqDecision waitq.
Proof. solve_decision. Defined.

(** How a sleep ends: the resource was granted, after so many jiffies, or the
    sleep was interrupted or timed out. *)
Inductive wake := Granted (jiffies : Z) | Expired.

Inductive proc (A : Type) :=
| Done (a : A) (s : kstate)
| Wait (w : waitq) (s : kstate) (k : wake -> kstate -> proc A)
| Oops.
Arguments Done {A}.
Arguments Wait {A}.
Arguments Oops {A}.

Definition K (A : Type) : Type := kstate -> proc A.

Fixpoint proc_bind {A B} (p : proc A) (f : A -> K B) : proc B :=
  match p with
  | Done a s => f a s
  | Wait w s k => Wait w s (fun o s' => proc_bind (k o s') f)
  | Oops => Oops
  end.

#[global] Instance K_ret : MRet K := fun A a s => Done a s.
#[global] Instance K_bind : MBind K := fun A B f m s => proc_bind (m s) f.

Definition gets {A} (f : kstate -> A) : K A := fun s => Done (f s) s.
Definition modify (f : kstate -> kstate) : K unit := fun s => Done tt (f s).
Definition sleep (w : waitq) : K wake := fun s => Wait w s (fun o s' => Done o s').
Definition oops {A} : K A := fun _ => Oops.
Definition when_ (b : bool) (m : K unit) : K unit := if b then m else mret tt.

(** The registers of the current CPU. *)
Definition cpu_msr (s : kstate) : gmap Z Z := k_msr s !!! k_cpu s.
Definition set_msr (m : gmap Z Z) (s : kstate) : kstate := on_msr (<[k_cpu s := m]> (k_msr s)) s.

Definition wrmsrl (a v : Z) : K unit := modify (fun s => set_msr (Hw.wrmsrl a v (cpu_msr s)) s).

Definition ARMOR_STAT (f : armor_stat) : K unit := modify (on_stats (ARMOR_STAT_INC f)).

Definition kill_pid (current : Z) : K unit := modify (on_killed (fun s => {[current]} ∪ s)).

Definition task_of (t : Z) (s : kstate) : task_t := default inhabitant (k_tasks s !! t).
Definition on_task (t : Z) (f : task_t -> task_t) (s : kstate) : kstate :=
  on_tasks (<[t := f (task_of t s)]>) s.

Definition tst_task (t : Z) (s : kstate) : bool := TaskBits.tst_task_lbr (t_personality (task_of t s)).

Lemma task_of_on_task t u f s :
  task_of u (on_task t f s) = if decide (u = t) then f (task_of t s) else task_of u s.
Proof.
  unfold task_of, on_task, on_tasks; cbn [k_tasks]. case_decide as Hd.
  - subst. by rewrite lookup_insert_eq.
  - by rewrite lookup_insert_ne.
Qed.
