(* ===== verification/Armor.v ===== *)
(** The handlers of the kernel module: lkm/armor.c from [sched_in] to
    [armor_ioctl], and [validate_lbr] of lkm/lbr.c.

    Every handler takes the task it runs for as [current] and is written in
    the monad of Kernel.v in the order of the code.  [printk] and [printd] are
    left out: they have no effect on the state. *)

From S2P Require Import Prelude Slots Lbr LbrState Wrappers Kernel.

Section armor.
(** The kernel's digest and its conversion of jiffies to seconds and
    microseconds. *)
Context (md4 : list Z -> list Z) (jiffies_to_timeval : Z -> Z * Z).

(** ** Validation *)

Definition JIT_CACHE_SIZE : nat := 512.

(** The search of the JIT cache: the first [hashes] digests. *)
Definition jit_cached (hash : list Z) (j : jit_state) : bool :=
  bool_decide (hash ∈ take (Z.to_nat (j_hashes j)) (j_hash j)).

(** Adding a digest; outside the array it is a fault. *)
Definition jit_insert (hash : list Z) (j : jit_state) : option jit_state :=
  if decide (0 <= j_hashes j < Z.of_nat JIT_CACHE_SIZE) then
    Some (set_jit_cache (<[Z.to_nat (j_hashes j) := hash]> (j_hash j))
            ((j_hashes j + 1) mod Z.of_nat JIT_CACHE_SIZE) j)
  else None.

(** The time spent, in statistics: a request too fast to measure counts half a
    jiffy, that is one every second lookup. *)
Definition jit_account (delta : Z) (st : armor_stats) : armor_stats :=
  let delta := if decide (delta = 0) then st St_jit_lookups mod 2 else delta in
  let '(sec, usec) := jiffies_to_timeval delta in
  ARMOR_STAT_ADD St_jit_usec usec (ARMOR_STAT_ADD St_jit_sec sec st).

(** The part of [validate_lbr] after the analyzer answered; [assume_valid]. *)
Definition validate_result (hash : list Z) : K unit :=
  r ← gets (fun s => j_result (k_jit s));
  let add :=
    j ← gets (fun s => jit_insert hash (k_jit s));
    match j with
    | Some j => modify (on_jit (fun _ => j))
    | None => oops
    end in
  if decide (r = 0) then ARMOR_STAT St_jit_misses;; add
  else if decide (r = 2) then ARMOR_STAT St_jit_unsupported;; add
  else if decide (r = 1) then ARMOR_STAT St_jit_hits;; add
  else mret tt.

(** After the sleep for the answer: a timeout switches validation off for
    good; either way the mutex is released. *)
Definition validate_reply (hash : list Z) (o : wake) : K unit :=
  match o with
  | Expired =>
      ARMOR_STAT St_jit_timeouts;;
      modify (on_jit (set_disable true));;
      modify (on_jit (set_lock false))
  | Granted delta =>
      modify (on_stats (jit_account delta));;
      validate_result hash;;
      modify (on_jit (set_lock false))
  end.

(** With the mutex held: look the state up, or pass it to the analyzer. *)
Definition validate_locked (lbr : lbr_t) : K unit :=
  ARMOR_STAT St_jit_lookups;;
  hash ← (fun s => let '(hash, st) := Digest.hash_lbr md4 lbr (k_stats s) in Done hash (on_stats (fun _ => st) s));
  hit ← gets (fun s => jit_cached hash (k_jit s));
  if hit : bool then
    ARMOR_STAT St_jit_cache_hits;;
    modify (on_jit (set_lock false))
  else
  ARMOR_STAT St_jit_requests;;
  modify (on_jit (set_work (Some lbr)));;
  modify (on_jit (fun j => set_work_cond (j_work_cond j + 1) j));;
  o ← sleep WResult;
  validate_reply hash o.

Definition validate_lbr : K unit :=
  lbr ← gets (fun s => Hw.get_lbr (cpu_msr s) lbr_zero);
  disabled ← gets (fun s => j_disable (k_jit s));
  if disabled : bool then mret tt else
  _ ← sleep WLock;
  validate_locked lbr.

(** ** Context switches *)

Definition sched_in (current : Z) : K unit :=
  ARMOR_STAT St_sched_in;;
  modify (fun s =>
    let '(c, m, _) := Cache.restore_lbr current (tb_cache (k_tb s)) (cpu_msr s) in
    set_msr m (on_tb (set_cache c) s)).

Definition sched_out (current : Z) : K unit :=
  ARMOR_STAT St_sched_out;;
  modify (fun s =>
    let '(c, m, _) := Cache.save_lbr current (tb_cache (k_tb s)) (cpu_msr s) in
    set_msr m (on_tb (set_cache c) s)).

(** ** Entry and exit of libraries, callbacks and signal handlers

    The operations of Wrappers.v on the shared state; a kill goes to the
    current task. *)

Definition do_lib_init (current ret : Z) : K unit :=
  kill ← (fun s =>
    let '(d, kill) := lib_init current ret (tb_lib (k_tb s)) in
    Done kill (on_tb (set_lib d) s));
  when_ kill (kill_pid current).

Definition do_cbk_init (current ret : Z) : K unit :=
  kill ← (fun s =>
    let '(d, m, kill) := cbk_init current ret (tb_cbk (k_tb s)) (cpu_msr s) in
    Done kill (set_msr m (on_tb (set_cbk d) s)));
  when_ kill (kill_pid current).

Definition do_sig_init (current sighandler : Z) : K unit :=
  kill ← (fun s =>
    let t := task_of current s in
    let '(d, m, kill) := sig_init current sighandler (t_start_code t) (t_end_code t)
                           (kc_indirect_call_source (d_tocopy (k_dev s))) (tb_sig (k_tb s)) (cpu_msr s) in
    Done kill (set_msr m (on_tb (set_sig d) s)));
  when_ kill (kill_pid current).

Definition do_lib_exit (current : Z) : K Z :=
  '(v, kill) ← (fun s =>
    let '(v, d, kill) := lib_exit current (tb_lib (k_tb s)) in
    Done (v, kill) (on_tb (set_lib d) s));
  when_ kill (kill_pid current);;
  mret v.

Definition do_cbk_exit (current : Z) : K Z :=
  '(v, kill) ← (fun s =>
    let '(v, d, m, kill) := cbk_exit current (tb_cbk (k_tb s)) (cpu_msr s) in
    Done (v, kill) (set_msr m (on_tb (set_cbk d) s)));
  when_ kill (kill_pid current);;
  mret v.

Definition do_sig_exit (current : Z) : K unit :=
  kill ← (fun s =>
    let '(d, m, kill) := sig_exit current (tb_sig (k_tb s)) (cpu_msr s) in
    Done kill (set_msr m (on_tb (set_sig d) s)));
  when_ kill (kill_pid current).

(** ** Signals *)

Definition new_signal_delivered (current sa_handler : Z) : K unit :=
  lbr ← gets (tst_task current);
  when_ lbr (
    when_ (bool_decide (sa_handler <> NULL)) (
      ARMOR_STAT St_sig_enter;;
      validate_lbr;;
      do_sig_init current sa_handler)).

Definition new_sys_rt_sigreturn (current : Z) : K unit :=
  lbr ← gets (tst_task current);
  when_ lbr (
    ARMOR_STAT St_sig_return;;
    do_sig_exit current).

(** ** Task creation and removal *)

(** The three copies of the parent's slots, then a slot of the LBR cache with
    the parent's registers. *)
Definition copy_tables (current p : Z) : K unit :=
  kill ← (fun s =>
    let '(d, kill) := copy_entry copy_rets LIB_CACHE_SIZE current p (tb_lib (k_tb s)) in
    Done kill (on_tb (set_lib d) s));
  when_ kill (kill_pid current);;
  kill ← (fun s =>
    let '(d, kill) := copy_entry copy_both CBK_CACHE_SIZE current p (tb_cbk (k_tb s)) in
    Done kill (on_tb (set_cbk d) s));
  when_ kill (kill_pid current);;
  kill ← (fun s =>
    let '(d, kill) := copy_entry copy_lbrs CBK_CACHE_SIZE current p (tb_sig (k_tb s)) in
    Done kill (on_tb (set_sig d) s));
  when_ kill (kill_pid current).

Definition copy_lbr (current p : Z) : K unit :=
  c ← gets (fun s => tb_cache (k_tb s));
  match slot_find NULL c with
  | None => kill_pid current
  | Some (i, e) => modify (fun s => on_tb (set_cache (<[i := set_l_task p (Hw.get_lbr (cpu_msr s) e)]> c)) s)
  end.

Definition new_wake_up_new_task (current p : Z) : K unit :=
  lbr ← gets (tst_task p);
  when_ lbr (
    ARMOR_STAT St_new_tasks;;
    modify (on_task p (set_hooked true));;
    copy_tables current p;;
    copy_lbr current p).

Definition do_deferred_exit (old : Z) : K unit :=
  modify (fun s => on_tb (set_lib (remove_task old (tb_lib (k_tb s)))) s);;
  modify (fun s => on_tb (set_cbk (remove_task old (tb_cbk (k_tb s)))) s);;
  modify (fun s => on_tb (set_sig (remove_task old (tb_sig (k_tb s)))) s).

(** [kmalloc] of the work item may fail, which is a [BUG()]. *)
Definition new_do_exit (current : Z) (kmalloc : bool) : K unit :=
  lbr ← gets (tst_task current);
  when_ lbr (
    ARMOR_STAT St_tasks_exit;;
    modify (on_task current (set_hooked false));;
    if kmalloc then modify (on_exitq (fun q => q ++ [current])) else oops).

(** ** Dangerous system calls *)

Definition new_sys_execve (current : Z) : K unit :=
  lbr ← gets (tst_task current);
  when_ lbr (
    ARMOR_STAT St_execve;;
    validate_lbr;;
    modify (fun s => on_task current (fun t => set_personality (TaskBits.susp_task_lbr (t_personality t)) t) s)).

Definition new_sys_execve_ret (current retval : Z) : K unit :=
  susp ← gets (fun s => TaskBits.issusp_task_lbr (t_personality (task_of current s)));
  when_ susp (
    when_ (bool_decide (retval <> 0)) (
      modify (fun s => on_task current (fun t => set_personality (TaskBits.wakeup_task_lbr (t_personality t)) t) s))).

Definition PROT_EXEC : Z := 4.

Definition new_sys_mmap_pgoff (current prot : Z) : K unit :=
  lbr ← gets (tst_task current);
  when_ lbr (
    ARMOR_STAT St_mmap;;
    when_ (c_true (Z.land prot PROT_EXEC)) (
      ARMOR_STAT St_mmap_exec;;
      validate_lbr)).

Definition new_sys_mprotect (current prot : Z) : K unit :=
  lbr ← gets (tst_task current);
  when_ lbr (
    ARMOR_STAT St_mprotect;;
    when_ (c_true (Z.land prot PROT_EXEC)) (
      ARMOR_STAT St_mprotect_exec;;
      validate_lbr)).

Definition new_sys_read (current : Z) : K unit :=
  lbr ← gets (tst_task current);
  when_ lbr (ARMOR_STAT St_read;; validate_lbr).

Definition new_sys_write (current : Z) : K unit :=
  lbr ← gets (tst_task current);
  when_ lbr (ARMOR_STAT St_write;; validate_lbr).

Definition new_sys_rt_sigaction (current : Z) : K unit :=
  lbr ← gets (tst_task current);
  when_ lbr (ARMOR_STAT St_sigaction;; validate_lbr).

(** ** The device *)

Definition ENOMEM : Z := 12.
Definition EINVAL : Z := 22.
Definition EINTR : Z := 4.
Definition ENOTTY : Z := 25.
Definition ERESTARTSYS : Z := 512.

(** What an ioctl finds outside the module: whether each [kmalloc] and
    [__get_free_page] succeeds, what [copy_from_user] stores for each structure
    and whether it succeeded, and how many bytes [copy_to_user] fails to copy. *)
Record env := Env {
  e_kmalloc : nat -> bool;
  e_free_page : nat -> bool;
  e_read_copy : kernel_copy * bool;
  e_read_plt_got : plt_got_copy_t * bool;
  e_read_simples : simples_t * bool;
  e_read_bytes : Z -> Z -> list Z * bool;
  e_copy_to_user : Z
}.

(** [struct offsets_t]. *)
Record offsets_t := Offsets {
  of_libs : list (string * Z * Z);
  of_indirect_call_source : Z;
  of_load_from : Z;
  of_armor_lib_enter : Z;
  of_armor_lib_return : Z;
  of_pthread_create : Z;
  of_pthread_create_return : Z
}.

(** What is copied to user space. *)
Inductive output :=
| OutNone
| OutCode (start_code end_code : Z)
| OutLbr (l : lbr_t)
| OutOffsets (o : offsets_t)
| OutPltGot (p : plt_got_copy_t)
| OutSimples (s : simples_t)
| OutBuffer (b : buffer) (size : Z).

Definition reply : Type := Z * output.

Definition armor_open (crypto_ok : bool) : K reply :=
  modify (on_dev (fun d => set_opens (d_opens d + 1) d));;
  init ← gets (fun s => d_initialized (k_dev s));
  if init : bool then mret (0, OutNone) else
  if negb crypto_ok then mret (-1, OutNone) else
  modify (on_jit (set_lock false));;
  modify (on_jit (set_work_cond 0));;
  modify (on_jit (set_result_cond 0));;
  modify (on_dev (set_sems 0 0 0));;
  modify (on_dev (set_main_task NULL));;
  modify (on_dev (set_initialized true));;
  mret (0, OutNone).

Definition armor_close : K reply :=
  modify (on_dev (fun d => set_opens (d_opens d - 1) d));;
  opens ← gets (fun s => d_opens (k_dev s));
  if decide (opens <> 0) then mret (0, OutNone) else
  modify (on_dev (set_paths None));;
  modify (on_dev (set_initialized false));;
  mret (0, OutNone).

Definition MAX_LIBNAME_LENGTH : nat := 128.

(** The loop over the mappings.  [inl] is the error code returned; [None] a
    write past the end of the arrays of [struct offsets_t]. *)
Fixpoint get_offsets_loop (free_page : nat -> bool) (mmap : list vm_area) (libs : list (string * Z * Z))
  : option (Z + list (string * Z * Z)) :=
  match mmap with
  | [] => Some (inr libs)
  | v :: mmap =>
      if vm_exec v then
        if decide (length libs < Paths.MAX_LIBS)%nat then
          match vm_file v with
          | Some file =>
              if negb (free_page (length libs)) then Some (inl (- ENOMEM)) else
              match file with
              | inr err => Some (inl err)
              | inl pathname =>
                  get_offsets_loop free_page mmap
                    (libs ++ [(String.substring 0 (MAX_LIBNAME_LENGTH - 1) pathname, vm_start v, vm_end v)])
              end
          | None => get_offsets_loop free_page mmap (libs ++ [("<unknown>"%string, vm_start v, vm_end v)])
          end
        else None
      else get_offsets_loop free_page mmap libs
  end.

Definition armor_ioctl_get_offsets (e : env) : K reply :=
  o ← sleep WStarted;
  match o with
  | Expired => mret (- ERESTARTSYS, OutNone)
  | Granted _ =>
      if negb (e_kmalloc e 0) then mret (- ENOMEM, OutNone) else
      d ← gets k_dev;
      if decide (d_main_task d = NULL) then mret (- EINVAL, OutNone) else
      mm ← gets (fun s => t_mmap (task_of (d_main_task d) s));
      match mm with
      | None | Some [] => mret (- EINVAL, OutNone)
      | Some mmap =>
          match get_offsets_loop (e_free_page e) mmap [] with
          | None => oops
          | Some (inl err) => mret (err, OutNone)
          | Some (inr libs) =>
              let c := d_tocopy d in
              if decide (e_copy_to_user e <> 0) then mret (1, OutNone) else
              mret (0, OutOffsets (Offsets libs (kc_indirect_call_source c) (kc_load_from c)
                (kc_armor_lib_enter c) (kc_armor_lib_return c) (kc_pthread_create c)
                (kc_pthread_create_return c)))
          end
      end
  end.

(** [_IO('l', nr)]. *)
Definition ARMOR_IOC (nr : Z) : Z := Z.lor (Z.shiftl 0x6c 8) nr.

Definition ARMOR_IOC_INIT : Z := ARMOR_IOC 1.
Definition ARMOR_IOC_DUMP : Z := ARMOR_IOC 2.
Definition ARMOR_IOC_NOTHING : Z := ARMOR_IOC 3.
Definition ARMOR_IOC_VALIDATE : Z := ARMOR_IOC 4.
Definition ARMOR_IOC_COPY_PATHS : Z := ARMOR_IOC 5.
Definition ARMOR_IOC_ENABLE_LBR : Z := ARMOR_IOC 6.
Definition ARMOR_IOC_DISABLE_LBR : Z := ARMOR_IOC 7.
Definition ARMOR_IOC_LIB_ENTER : Z := 0x6c08.
Definition ARMOR_IOC_LIB_EXIT : Z := 0x6c09.
Definition ARMOR_IOC_CALLBACK_ENTER : Z := ARMOR_IOC 10.
Definition ARMOR_IOC_CALLBACK_EXIT : Z := ARMOR_IOC 11.
Definition ARMOR_IOC_GET_JIT_WORK : Z := ARMOR_IOC 12.
Definition ARMOR_IOC_PUT_JIT_WORK : Z := ARMOR_IOC 13.
Definition ARMOR_IOC_GET_OFFSETS : Z := ARMOR_IOC 14.
Definition ARMOR_IOC_PUSH_PLTS : Z := ARMOR_IOC 15.
Definition ARMOR_IOC_PULL_PLT_COPY : Z := ARMOR_IOC 16.
Definition ARMOR_IOC_PULL_PLTS : Z := ARMOR_IOC 17.
Definition ARMOR_IOC_PULL_GOTS : Z := ARMOR_IOC 18.
Definition ARMOR_IOC_PUSH_EXITS : Z := ARMOR_IOC 19.
Definition ARMOR_IOC_PULL_EXITS : Z := ARMOR_IOC 20.
Definition ARMOR_IOC_PULL_EXITS_DATA : Z := ARMOR_IOC 21.

Definition ok : reply := (0, OutNone).

(** A write through a user pointer from kernel mode. *)
Definition put_user (current p v : Z) : K unit := modify (on_user (<[(current, p) := v]>)).

Definition ioctl_lib_enter (current arg1 : Z) : K reply :=
  ARMOR_STAT St_lib_enter;;
  when_ (c_true arg1) (do_lib_init current arg1);;
  wrmsrl Hw.MSR_IA32_DEBUGCTLMSR 0;;
  mret ok.

Definition ioctl_lib_exit (current arg1 : Z) : K reply :=
  ARMOR_STAT St_lib_return;;
  when_ (c_true arg1) (v ← do_lib_exit current; put_user current arg1 v);;
  wrmsrl Hw.MSR_IA32_DEBUGCTLMSR Hw.IA32_DEBUGCTL;;
  mret ok.

Definition ioctl_copy_paths (current : Z) (e : env) : K reply :=
  let '(c, copied) := e_read_copy e in
  modify (on_dev (set_tocopy c));;
  if negb copied then mret (1, OutNone) else
  modify (on_dev (set_paths (if e_kmalloc e 0 then Some None else None)));;
  if negb (e_kmalloc e 0) then mret (1, OutNone) else
  let '(bytes, copied) := e_read_bytes e (kc_paths c) (kc_size c) in
  when_ (bool_decide (kc_paths c <> NULL)) (modify (on_dev (set_paths (Some (Some bytes)))));;
  if bool_decide (kc_paths c <> NULL) && negb copied then mret (1, OutNone) else
  modify (on_dev (set_main_task current));;
  modify (on_dev (fun d => set_sems (d_target_started d + 1) (d_plt_available d) (d_exitpoints_available d) d));;
  mret ok.

Definition ioctl_init (current arg1 : Z) (e : env) : K reply :=
  if decide (arg1 = 42) then mret ok else
  modify (on_tb (set_lib (replicate LIB_CACHE_SIZE wrapper_zero)));;
  modify (on_tb (set_cbk (replicate CBK_CACHE_SIZE wrapper_zero)));;
  modify (on_tb (set_sig (replicate SIG_CACHE_SIZE wrapper_zero)));;
  modify (on_tb (set_cache Cache.init_lbr_cache));;
  modify (on_stats (fun _ _ => 0));;
  modify (on_jit (set_jit_cache (replicate JIT_CACHE_SIZE (replicate Digest.DIGEST_LENGTH 0)) 0));;
  modify (on_jit (set_disable false));;
  modify (on_task current (set_hooked true));;
  modify (fun s => on_msr (Hw.enable_lbr <$> k_msr s) s);;
  modify (on_task current (fun t => set_personality (TaskBits.set_task_lbr (t_personality t)) t));;
  t ← gets (task_of current);
  mret (e_copy_to_user e, OutCode (t_start_code t) (t_end_code t)).

Definition ioctl_callback_enter (current arg1 : Z) : K reply :=
  ARMOR_STAT St_cbk_enter;;
  validate_lbr;;
  do_cbk_init current arg1;;
  mret ok.

Definition ioctl_callback_exit (current arg1 : Z) : K reply :=
  ARMOR_STAT St_cbk_return;;
  v ← do_cbk_exit current;
  when_ (c_true arg1) (put_user current arg1 v);;
  mret ok.

Definition ioctl_get_jit_work (e : env) : K reply :=
  o ← sleep WWork;
  match o with
  | Expired => mret (- EINTR, OutNone)
  | Granted _ =>
      w ← gets (fun s => j_work (k_jit s));
      match w with
      | None => oops
      | Some l => mret (e_copy_to_user e, OutLbr l)
      end
  end.

Definition ioctl_put_jit_work (arg1 : Z) : K reply :=
  modify (on_jit (set_result arg1));;
  modify (on_jit (fun j => set_result_cond (j_result_cond j + 1) j));;
  mret ok.

Definition ioctl_push_plts (e : env) : K reply :=
  let '(p, copied) := e_read_plt_got e in
  modify (on_dev (set_plt_got p));;
  if negb copied then mret (1, OutNone) else
  if negb (e_kmalloc e 0) then mret (1, OutNone) else
  let user b := match b with UserPtr a => a | KernelBuf _ => 0 end in
  let '(plts, copied) := e_read_bytes e (user (pg_plts p)) (pg_size p) in
  if negb copied then mret (1, OutNone) else
  if negb (e_kmalloc e 1) then mret (1, OutNone) else
  let '(gots, copied) := e_read_bytes e (user (pg_gots p)) (pg_size p) in
  if negb copied then mret (1, OutNone) else
  modify (on_dev (set_plt_got (PltGot (pg_size p) (pg_items p) (KernelBuf plts) (KernelBuf gots))));;
  modify (on_dev (fun d => set_sems (d_target_started d) (d_plt_available d + 1) (d_exitpoints_available d) d));;
  mret ok.

Definition ioctl_push_exits (e : env) : K reply :=
  let '(p, copied) := e_read_simples e in
  modify (on_dev (set_simples p));;
  if negb copied then mret (1, OutNone) else
  if negb (e_kmalloc e 0) then mret (1, OutNone) else
  let user b := match b with UserPtr a => a | KernelBuf _ => 0 end in
  let '(exits, copied) := e_read_bytes e (user (sp_exitpoints p)) (sp_size p) in
  if negb copied then mret (1, OutNone) else
  modify (on_dev (set_simples (Simples (sp_size p) (sp_items p) (KernelBuf exits))));;
  modify (on_dev (fun d => set_sems (d_target_started d) (d_plt_available d) (d_exitpoints_available d + 1) d));;
  mret ok.

Definition ioctl_pull_plt_copy (e : env) : K reply :=
  o ← sleep WPlt;
  match o with
  | Expired => mret (- ERESTARTSYS, OutNone)
  | Granted _ => p ← gets (fun s => d_plt_got (k_dev s)); mret (e_copy_to_user e, OutPltGot p)
  end.

Definition ioctl_pull_exits (e : env) : K reply :=
  o ← sleep WExits;
  match o with
  | Expired => mret (- ERESTARTSYS, OutNone)
  | Granted _ => p ← gets (fun s => d_simples (k_dev s)); mret (e_copy_to_user e, OutSimples p)
  end.

Definition armor_ioctl (current cmd arg1 : Z) (e : env) : K reply :=
  if decide (cmd = ARMOR_IOC_LIB_ENTER) then ioctl_lib_enter current arg1 else
  if decide (cmd = ARMOR_IOC_LIB_EXIT) then ioctl_lib_exit current arg1 else
  if decide (cmd = ARMOR_IOC_COPY_PATHS) then ioctl_copy_paths current e else
  if decide (cmd = ARMOR_IOC_INIT) then ioctl_init current arg1 e else
  if decide (cmd = ARMOR_IOC_NOTHING) then mret ok else
  if decide (cmd = ARMOR_IOC_VALIDATE) then validate_lbr;; mret ok else
  if decide (cmd = ARMOR_IOC_DISABLE_LBR) then wrmsrl Hw.MSR_IA32_DEBUGCTLMSR 0;; mret ok else
  if decide (cmd = ARMOR_IOC_ENABLE_LBR) then wrmsrl Hw.MSR_IA32_DEBUGCTLMSR Hw.IA32_DEBUGCTL;; mret ok else
  if decide (cmd = ARMOR_IOC_DUMP) then mret ok else
  if decide (cmd = ARMOR_IOC_CALLBACK_ENTER) then ioctl_callback_enter current arg1 else
  if decide (cmd = ARMOR_IOC_CALLBACK_EXIT) then ioctl_callback_exit current arg1 else
  if decide (cmd = ARMOR_IOC_GET_JIT_WORK) then ioctl_get_jit_work e else
  if decide (cmd = ARMOR_IOC_PUT_JIT_WORK) then ioctl_put_jit_work arg1 else
  if decide (cmd = ARMOR_IOC_GET_OFFSETS) then armor_ioctl_get_offsets e else
  if decide (cmd = ARMOR_IOC_PUSH_PLTS) then ioctl_push_plts e else
  if decide (cmd = ARMOR_IOC_PUSH_EXITS) then ioctl_push_exits e else
  if decide (cmd = ARMOR_IOC_PULL_PLT_COPY) then ioctl_pull_plt_copy e else
  if decide (cmd = ARMOR_IOC_PULL_PLTS) then
    p ← gets (fun s => d_plt_got (k_dev s)); mret (e_copy_to_user e, OutBuffer (pg_plts p) (pg_size p)) else
  if decide (cmd = ARMOR_IOC_PULL_GOTS) then
    p ← gets (fun s => d_plt_got (k_dev s)); mret (e_copy_to_user e, OutBuffer (pg_gots p) (pg_size p)) else
  if decide (cmd = ARMOR_IOC_PULL_EXITS) then ioctl_pull_exits e else
  if decide (cmd = ARMOR_IOC_PULL_EXITS_DATA) then
    p ← gets (fun s => d_simples (k_dev s)); mret (e_copy_to_user e, OutBuffer (sp_exitpoints p) (sp_size p)) else
  mret (- ENOTTY, OutNone).

End armor.

(** ** Properties *)

(** The JIT state: the cache array, its index, the semaphore counts; work is
    published before it is announced. *)
Definition jit_wf (j : jit_state) : Prop :=
  length (j_hash j) = JIT_CACHE_SIZE /\ 0 <= j_hashes j < Z.of_nat JIT_CACHE_SIZE /\
  0 <= j_work_cond j /\ 0 <= j_result_cond j /\ (0 < j_work_cond j -> j_work j <> None).

(** Run the monad: the steps of a handler on a given state. *)
Ltac krun := unfold when_, ARMOR_STAT, kill_pid in *; unfold mbind, K_bind, mret, K_ret, gets, modify, sleep in *;
  cbn [proc_bind].

(** Project the components of an updated state. *)
Ltac kproj := cbn [on_stats on_task on_tasks on_tb on_killed on_exitq on_user set_msr on_msr on_jit on_dev
  set_lib set_cbk set_sig set_cache tb_lib tb_cbk tb_sig tb_cache k_tb k_jit k_dev k_tasks k_killed k_user k_msr k_cpu k_stats].

Lemma jit_insert_wf hash j : jit_wf j -> exists j', jit_insert hash j = Some j' /\ jit_wf j' /\ j_lock j' = j_lock j.
Proof.
  intros (Hl & Hh & Hw). unfold jit_insert. rewrite decide_True by done. eexists; split; [done|].
  split; [|done]. split; [by rewrite <- Hl; apply length_insert|]. split; [|done].
  apply Z.mod_pos_bound. unfold JIT_CACHE_SIZE. lia.
Qed.

(** ** The JIT cache *)

(** An accepted LBR state is remembered: as long as the cache has not
    wrapped around, a state answered by the analyzer is found by the next
    lookup, and so is every state remembered before. *)
Theorem jit_cache_remembers h j j' :
  jit_wf j -> j_hashes j + 1 < Z.of_nat JIT_CACHE_SIZE -> jit_insert h j = Some j' ->
  forall g, jit_cached g j' = true <-> g = h \/ jit_cached g j = true.
Proof.
  intros (Hlen & Hh & _) Hroom Hins g. unfold jit_insert in Hins. rewrite decide_True in Hins by done.
  injection Hins as <-. unfold jit_cached; cbn [j_hashes j_hash set_jit_cache].
  rewrite !bool_decide_eq_true, Z.mod_small by (unfold JIT_CACHE_SIZE in *; lia).
  replace (Z.to_nat (j_hashes j + 1)) with (S (Z.to_nat (j_hashes j))) by lia.
  assert (Z.to_nat (j_hashes j) < length (j_hash j))%nat as Hlt by (unfold JIT_CACHE_SIZE in *; lia).
  rewrite (take_S_r _ _ h) by (by apply list_lookup_insert_eq).
  rewrite take_insert_ge, elem_of_app, list_elem_of_singleton by lia. tauto.
Qed.

(** C37. The 512th accepted state empties the cache.  The index wraps to zero,
    and since a lookup scans only the entries below the index, no state at all
    is found afterwards: the cache is not circular as its comment says. *)
Theorem jit_cache_wraps h j j' :
  j_hashes j = 511 -> jit_insert h j = Some j' -> forall g, jit_cached g j' = false.
Proof.
  intros Hh Hins g. unfold jit_insert in Hins. rewrite Hh, decide_True in Hins by (unfold JIT_CACHE_SIZE; lia).
  injection Hins as <-. reflexivity.
Qed.

Lemma get_offsets_loop_fits free_page mmap libs :
  (length libs + length (filter (fun v => vm_exec v = true) mmap) <= Paths.MAX_LIBS)%nat ->
  get_offsets_loop free_page mmap libs <> None.
Proof.
  revert libs. induction mmap as [|v mmap IH]; intros libs Hl; simpl; [done|].
  rewrite filter_cons in Hl. destruct (vm_exec v); simpl in Hl; [|apply IH; lia].
  rewrite decide_True by lia.
  assert (forall x, get_offsets_loop free_page mmap (libs ++ [x]) <> None) as Hx
    by (intros x; apply IH; rewrite length_app; simpl; lia).
  destruct (vm_file v) as [[p|err]|]; [..|apply Hx]; destruct (negb _); done || apply Hx.
Qed.

(** ** The device *)

Lemma get_offsets_loop_overflows free_page mmap libs :
  (forall i, free_page i = true) -> Forall (fun v => forall err, vm_file v <> Some (inr err)) mmap ->
  (length libs <= Paths.MAX_LIBS)%nat ->
  (Paths.MAX_LIBS < length libs + length (filter (fun v => vm_exec v = true) mmap))%nat ->
  get_offsets_loop free_page mmap libs = None.
Proof.
  intros Hfree Hv. revert libs. induction Hv as [|v mmap Hv _ IH]; intros libs Hle Hl; simpl; [simpl in Hl; lia|].
  rewrite filter_cons in Hl. destruct (vm_exec v); simpl in Hl; [|apply IH; lia].
  case_decide as Hd; [|done]. rewrite Hfree. cbn [negb].
  destruct (vm_file v) as [[p|err]|]; [|by destruct (Hv err)|]; apply IH; rewrite length_app; simpl; lia.
Qed.

(** C39. [GET_OFFSETS] has room for 32 executable mappings.  With at most 32 in
    the main task it never faults; with more, and every path readable, it
    writes past the arrays it fills. *)
Theorem get_offsets_bound e s mmap d :
  e_kmalloc e 0 = true -> (forall i, e_free_page e i = true) ->
  d_main_task (k_dev s) <> NULL -> t_mmap (task_of (d_main_task (k_dev s)) s) = Some mmap -> mmap <> [] ->
  Forall (fun v => forall err, vm_file v <> Some (inr err)) mmap ->
  exists k, armor_ioctl_get_offsets e s = Wait WStarted s k /\
    (k (Granted d) s = Oops <->
     (Paths.MAX_LIBS < length (filter (fun v => vm_exec v = true) mmap))%nat).
Proof.
  intros Hm Hf Hmain Hmm Hne Hv. unfold armor_ioctl_get_offsets; krun. eexists; split; [done|]. cbn [proc_bind].
  rewrite Hm. cbn [negb]. krun. rewrite decide_False by done. krun. rewrite Hmm.
  destruct mmap as [|v mmap]; [done|]. set (l := v :: mmap) in *.
  destruct (decide (Paths.MAX_LIBS < length (filter (fun v => vm_exec v = true) l))%nat) as [Hlt|Hge].
  - rewrite (get_offsets_loop_overflows _ l []) by (done || simpl; unfold Paths.MAX_LIBS; lia). done.
  - pose proof (get_offsets_loop_fits (e_free_page e) l []) as Hfit.
    destruct (get_offsets_loop _ l []) as [[err|libs]|].
    + done.
    + case_decide; done.
    + exfalso. apply Hfit; [simpl in *; lia|done].
Qed.

Section calls.
Context (md4 : list Z -> list Z) (jiffies_to_timeval : Z -> Z * Z).

(** An ioctl number the module does not define is refused with [-ENOTTY]
    and changes nothing. *)
Theorem unknown_ioctl t cmd arg e s :
  (forall nr, 1 <= nr <= 21 -> cmd <> ARMOR_IOC nr) ->
  armor_ioctl md4 jiffies_to_timeval t cmd arg e s = Done (- ENOTTY, OutNone) s.
Proof.
  intros Hn. unfold armor_ioctl.
  assert (forall A (x y : A) nr, 1 <= nr <= 21 -> (if decide (cmd = ARMOR_IOC nr) then x else y) = y) as Hd
    by (intros; by rewrite decide_False by auto).
  change ARMOR_IOC_LIB_ENTER with (ARMOR_IOC 8). change ARMOR_IOC_LIB_EXIT with (ARMOR_IOC 9).
  unfold ARMOR_IOC_COPY_PATHS, ARMOR_IOC_INIT, ARMOR_IOC_NOTHING, ARMOR_IOC_VALIDATE, ARMOR_IOC_DISABLE_LBR,
    ARMOR_IOC_ENABLE_LBR, ARMOR_IOC_DUMP, ARMOR_IOC_CALLBACK_ENTER, ARMOR_IOC_CALLBACK_EXIT, ARMOR_IOC_GET_JIT_WORK,
    ARMOR_IOC_PUT_JIT_WORK, ARMOR_IOC_GET_OFFSETS, ARMOR_IOC_PUSH_PLTS, ARMOR_IOC_PUSH_EXITS,
    ARMOR_IOC_PULL_PLT_COPY, ARMOR_IOC_PULL_PLTS, ARMOR_IOC_PULL_GOTS, ARMOR_IOC_PULL_EXITS, ARMOR_IOC_PULL_EXITS_DATA.
  rewrite !Hd by lia. done.
Qed.

(** ** [execve] *)

(** C38. A suspended program can come back under supervision.  [execve]
    suspends the task, and its success (return value zero) leaves the
    suspension mark; when the new program, which is not supervised, later makes
    an [execve] that fails, the return hook takes the mark for its own and
    turns supervision on. *)
Theorem execve_resurrects t s rv :
  tst_task t s = false -> TaskBits.issusp_task_lbr (t_personality (task_of t s)) = true -> rv <> 0 ->
  exists s',
    (new_sys_execve_ret t 0;; new_sys_execve md4 jiffies_to_timeval t;; new_sys_execve_ret t rv) s = Done tt s' /\
    tst_task t s' = true /\ k_tb s' = k_tb s.
Proof.
  intros Hn Hs Hrv. unfold new_sys_execve, new_sys_execve_ret; krun.
  rewrite Hs. cbn [proc_bind bool_decide]. rewrite bool_decide_false by (intros []; done).
  cbn [proc_bind]. rewrite Hn. cbn [proc_bind]. rewrite Hs, bool_decide_true by done. cbn [proc_bind].
  eexists. split; [done|]. split; [|done]. unfold tst_task. rewrite task_of_on_task, decide_True by done.
  cbn [t_personality set_personality].
  rewrite TaskBits.tst_task_lbr_bit. unfold TaskBits.wakeup_task_lbr. rewrite Z.lor_spec. apply orb_true_r.
Qed.

(** A library call of a supervised task.  [LIB_ENTER] with the return
    address switches recording off on the CPU; the matching [LIB_EXIT] writes
    that address back to the task's memory and switches recording on, and the
    task's pending calls are what they were.  No one is killed. *)
Theorem lib_call_roundtrip t ret p s M e1 e2 :
  t <> NULL -> ret <> 0 -> p <> 0 -> (k_cpu s < length (k_msr s))%nat ->
  Lib.rel (tb_lib (k_tb s)) M -> M !! t <> Some [] ->
  (length (default [] (M !! t)) < Stack.STACKSIZE)%nat -> is_Some (M !! t) \/ (size M < LIB_CACHE_SIZE)%nat ->
  exists s1 s2,
    armor_ioctl md4 jiffies_to_timeval t ARMOR_IOC_LIB_ENTER ret e1 s = Done ok s1 /\
    Hw.rdmsrl Hw.MSR_IA32_DEBUGCTLMSR (cpu_msr s1) = 0 /\
    armor_ioctl md4 jiffies_to_timeval t ARMOR_IOC_LIB_EXIT p e2 s1 = Done ok s2 /\
    Hw.rdmsrl Hw.MSR_IA32_DEBUGCTLMSR (cpu_msr s2) = Hw.IA32_DEBUGCTL /\
    k_user s2 !! (t, p) = Some ret /\ Lib.rel (tb_lib (k_tb s2)) M /\ k_killed s2 = k_killed s.
Proof.
  intros Ht Hret Hp Hcpu HR Hne Hlen Hroom.
  assert (Lib.spec (Lib.Enter t ret) M = Some (<[t := ret :: default [] (M !! t)]> M, (0, false))) as Hent
    by (cbn [Lib.spec]; by rewrite decide_True).
  destruct (Lib.lib_step_refines _ _ _ _ _ HR Hent) as (d1 & Hd1 & HR1). cbn [Lib.impl] in Hd1.
  destruct (lib_init t ret (tb_lib (k_tb s))) as [d1' kill1] eqn:Hli. apply pair_equal_spec in Hd1 as [-> Hk1].
  apply pair_equal_spec in Hk1 as [_ ->].
  assert (Lib.spec (Lib.Exit t) (<[t := ret :: default [] (M !! t)]> M) = Some (M, (ret, false))) as Hex.
  { cbn [Lib.spec]. rewrite lookup_insert_eq. destruct (M !! t) as [[|u r]|] eqn:Hm; simpl; [done| |].
    - do 3 f_equal. rewrite insert_insert_eq. by apply insert_id.
    - do 3 f_equal. rewrite delete_insert_eq. by apply delete_id. }
  destruct (Lib.lib_step_refines _ _ _ _ _ HR1 Hex) as (d2 & Hd2 & HR2). cbn [Lib.impl] in Hd2.
  destruct (lib_exit t d1) as [[v d2'] kill2] eqn:Hlx. apply pair_equal_spec in Hd2 as [-> Hk2].
  apply pair_equal_spec in Hk2 as [-> ->].
  assert (forall x m s0, (k_cpu s0 < length (k_msr s0))%nat ->
    Hw.rdmsrl Hw.MSR_IA32_DEBUGCTLMSR (cpu_msr (set_msr (Hw.wrmsrl Hw.MSR_IA32_DEBUGCTLMSR x m) s0)) = x) as Hrd.
  { intros x m s0 Hc. unfold cpu_msr, set_msr, on_msr; cbn [k_msr k_cpu].
    rewrite (list_lookup_total_correct (<[k_cpu s0:=_]> _) _ _ (list_lookup_insert_eq _ _ _ Hc)). Hw.msr. }
  unfold armor_ioctl.
  rewrite (decide_True (P := ARMOR_IOC_LIB_ENTER = ARMOR_IOC_LIB_ENTER)) by done.
  rewrite (decide_False (P := ARMOR_IOC_LIB_EXIT = ARMOR_IOC_LIB_ENTER)) by done.
  rewrite (decide_True (P := ARMOR_IOC_LIB_EXIT = ARMOR_IOC_LIB_EXIT)) by done.
  assert (forall z, z <> 0 -> c_true z = true) as Htrue
    by (intros z Hz; unfold c_true; by apply negb_true_iff, Z.eqb_neq).
  unfold ioctl_lib_enter, ioctl_lib_exit, do_lib_init, do_lib_exit, Kernel.wrmsrl, put_user.
  rewrite (Htrue ret Hret), (Htrue p Hp). krun. kproj. rewrite Hli. krun.
  eexists _, _. split; [done|]. split; [by apply Hrd|]. kproj. rewrite Hlx. krun. split; [done|].
  split; [apply Hrd; cbn; by rewrite length_insert|]. split; [apply lookup_insert_eq|]. done.
Qed.

End calls.

(** The module just loaded: its static data is zero. *)
Definition loaded (msr : list (gmap Z Z)) (tasks : gmap Z task_t) : kstate :=
  KState msr 0 tasks ∅ ∅ [] (fun _ => 0)
    (Tables Cache.init_lbr_cache (replicate LIB_CACHE_SIZE wrapper_zero) (replicate CBK_CACHE_SIZE wrapper_zero)
       (replicate SIG_CACHE_SIZE wrapper_zero))
    (Jit false false 0 0 None 0 (replicate JIT_CACHE_SIZE (replicate Digest.DIGEST_LENGTH 0)) 0)
    (Device 0 false None (KernelCopy 0 0 0 0 0 0 0 0) NULL 0 0 0
       (PltGot 0 0 (UserPtr 0) (UserPtr 0)) (Simples 0 0 (UserPtr 0))).

(** ** Instances *)

(** A machine with one CPU and two tasks: 7 is supervised, 8 is not; 9 is a
    supervised child of 7, and 5 a suspended program. *)
Definition demo_tasks : gmap Z task_t :=
  {[ 7 := Task 0x80000000 0x400000 0x500000 true (Some [Vma true 0x400000 0x500000 (Some (inl "/bin/target"%string))]);
     8 := Task 0 0x400000 0x500000 false None;
     9 := Task 0x80000000 0x400000 0x500000 false None;
     5 := Task 0x40000000 0x400000 0x500000 true None ]}.
Definition demo : kstate := loaded [∅] demo_tasks.
Definition demo_env : env :=
  Env (fun _ => true) (fun _ => true) (KernelCopy 0 0 0 0 0 0 0 0, true)
    (PltGot 0 0 (UserPtr 0) (UserPtr 0), true) (Simples 0 0 (UserPtr 0), true) (fun _ _ => ([], true)) 0.
Definition demo_md4 (bs : list Z) : list Z := [foldr Z.add 0 bs].
Definition demo_time (j : Z) : Z * Z := (j / 250, (j mod 250) * 4000).

Lemma unknown_ioctl_witness :
  armor_ioctl demo_md4 demo_time 7 0x5401 0 demo_env demo = Done (- ENOTTY, OutNone) demo.
Proof.
  apply unknown_ioctl. intros nr Hnr Heq. unfold ARMOR_IOC in Heq.
  apply (f_equal (fun z => Z.testbit z 13)) in Heq. rewrite Z.lor_spec in Heq. vm_compute in Heq. discriminate.
Defined.

Lemma execve_resurrects_witness :
  exists s', (new_sys_execve_ret 5 0;; new_sys_execve demo_md4 demo_time 5;; new_sys_execve_ret 5 (-2)) demo = Done tt s' /\
    tst_task 5 s' = true /\ k_tb s' = k_tb demo.
Proof. apply execve_resurrects; [reflexivity|reflexivity|discriminate]. Defined.

Lemma jit_cache_remembers_witness :
  exists j', jit_insert [1] (k_jit demo) = Some j' /\
  forall g, jit_cached g j' = true <-> g = [1] \/ jit_cached g (k_jit demo) = true.
Proof.
  eexists. split; [reflexivity|]. eapply (jit_cache_remembers [1] (k_jit demo)).
  - split_and!; done.
  - reflexivity.
  - reflexivity.
Defined.

Lemma jit_cache_wraps_witness :
  exists j', jit_insert [1] (set_jit_cache (replicate 512 [7]) 511 (k_jit demo)) = Some j' /\
  forall g, jit_cached g j' = false.
Proof.
  eexists. split; [reflexivity|].
  eapply (jit_cache_wraps [1] (set_jit_cache (replicate 512 [7]) 511 (k_jit demo))); reflexivity.
Defined.

Lemma lib_call_roundtrip_witness :
  exists s1 s2,
    armor_ioctl demo_md4 demo_time 7 ARMOR_IOC_LIB_ENTER 0x400123 demo_env demo = Done ok s1 /\
    Hw.rdmsrl Hw.MSR_IA32_DEBUGCTLMSR (cpu_msr s1) = 0 /\
    armor_ioctl demo_md4 demo_time 7 ARMOR_IOC_LIB_EXIT 0x7ffd1000 demo_env s1 = Done ok s2 /\
    Hw.rdmsrl Hw.MSR_IA32_DEBUGCTLMSR (cpu_msr s2) = Hw.IA32_DEBUGCTL /\
    k_user s2 !! (7, 0x7ffd1000) = Some 0x400123 /\ Lib.rel (tb_lib (k_tb s2)) ∅ /\ k_killed s2 = k_killed demo.
Proof.
  apply lib_call_roundtrip; try discriminate.
  - vm_compute. lia.
  - apply table_rel_init, wrapper_zero_ok.
  - vm_compute. lia.
  - right. vm_compute. lia.
Defined.

Lemma get_offsets_bound_witness :
  let s := on_dev (set_main_task 7) demo in
  exists k, armor_ioctl_get_offsets demo_env s = Wait WStarted s k /\
    (k (Granted 0) s = Oops <->
     (Paths.MAX_LIBS < length (filter (fun v => vm_exec v = true)
        [Vma true 0x400000 0x500000 (Some (inl "/bin/target"%string))]))%nat).
Proof.
  apply get_offsets_bound; try reflexivity; try discriminate.
  repeat constructor. discriminate.
Defined.
