(* ===== verification/ArmorInv.v ===== *)
(** The module under every schedule.

    [Sys] runs the handlers of Armor.v for any number of tasks on any number of
    CPUs: calls are interleaved at the points where handlers sleep.  The main
    result is the global invariant: the per-task tables stay well-formed, no
    handler faults, and at most one task at a time is inside the exchange with
    the analyzer. *)

From stdpp Require Import relations.
From S2P Require Import Prelude Slots Lbr LbrState Wrappers Kernel Armor.

(** ** The invariant of the shared state *)

(** Every mapping list fits the arrays of [struct offsets_t]. *)
Definition mmaps_small (s : kstate) : Prop :=
  forall t, (length (filter (fun v => vm_exec v = true) (default [] (t_mmap (task_of t s)))) <= Paths.MAX_LIBS)%nat.

Definition tables_wf (t : tables) : Prop :=
  length (tb_cache t) = Cache.LBR_CACHE_SIZE /\ lib_table (tb_lib t) /\ cbk_table (tb_cbk t) /\ sig_table (tb_sig t).

Definition dev_wf (d : device) : Prop :=
  0 <= d_target_started d /\ 0 <= d_plt_available d /\ 0 <= d_exitpoints_available d.

Definition kinv (s : kstate) : Prop :=
  tables_wf (k_tb s) /\ jit_wf (k_jit s) /\ dev_wf (k_dev s) /\ mmaps_small s.

Definition locked (s : kstate) : bool := j_lock (k_jit s).

(** What the end of a sleep tells the sleeper: the work semaphore is only
    granted when there is work. *)
Definition granted (w : waitq) (o : wake) (s : kstate) : Prop :=
  match w, o with
  | WWork, Granted _ => j_work (k_jit s) <> None
  | WLock, Expired => False
  | WLock, _ | WResult, _ => locked s = true
  | _, _ => True
  end.

(** [runs h L p]: the computation [p], whose current segment started with the
    validation lock in state [L] (held by [p]'s own task if [h]), never faults,
    keeps the invariant at every point where another task can run, sleeps for
    the analyzer's answer only while it holds the lock, and ends without it. *)
Inductive runs {A} : bool -> bool -> proc A -> Prop :=
| runs_done (h L : bool) a s :
    kinv s -> locked s = (if h then false else L) -> runs h L (Done a s)
| runs_wait (h L : bool) w s k :
    kinv s -> (w = WResult -> h = true) ->
    locked s = (if decide (w = WResult) then true else if h then false else L) ->
    (forall o s', kinv s' -> granted w o s' ->
       runs (bool_decide (w = WLock \/ w = WResult)) (locked s') (k o s')) ->
    runs h L (Wait w s k).

Definition safe {A} (m : K A) : Prop := forall s, kinv s -> runs false (locked s) (m s).

(** ** Rules *)

Lemma runs_released {A} L (p : proc A) : runs false false p -> runs true L p.
Proof.
  inversion 1 as [|? ? w s k Hs Hw Hl Hk]; subst; constructor; auto.
Qed.

Lemma runs_bind {A B} h L (p : proc A) (f : A -> K B) :
  runs h L p -> (forall a, safe (f a)) -> runs h L (proc_bind p f).
Proof.
  intros Hp Hf. induction Hp as [h L a s Hs Hl|h L w s k Hs Hw Hl Hk IH]; simpl.
  - specialize (Hf a s Hs). rewrite Hl in Hf. destruct h; [by apply runs_released|done].
  - by constructor.
Qed.

Lemma safe_bind {A B} (m : K A) (f : A -> K B) : safe m -> (forall a, safe (f a)) -> safe (m ≫= f).
Proof. intros Hm Hf s Hs. apply runs_bind; auto. Qed.

Lemma safe_ret {A} (a : A) : safe (mret a).
Proof. intros s Hs. by constructor. Qed.

Lemma safe_atomic {A} (m : K A) :
  (forall s, kinv s -> exists a s', m s = Done a s' /\ kinv s' /\ locked s' = locked s) -> safe m.
Proof. intros Hm s Hs. destruct (Hm s Hs) as (a & s' & -> & ? & ?). by constructor. Qed.

Lemma safe_gets {A} (f : kstate -> A) : safe (gets f).
Proof. apply safe_atomic. intros s Hs. by eexists _, _. Qed.

Lemma safe_modify f : (forall s, kinv s -> kinv (f s) /\ locked (f s) = locked s) -> safe (modify f).
Proof. intros Hf. apply safe_atomic. intros s Hs. eexists _, _; split; [done|auto]. Qed.

Lemma safe_when b m : safe m -> safe (when_ b m).
Proof. intros. destruct b; [done|apply safe_ret]. Qed.

Lemma safe_if {A} (b : bool) (m n : K A) : safe m -> safe n -> safe (if b then m else n).
Proof. by destruct b. Qed.

Lemma safe_decide {A} P `{Decision P} (m n : K A) : safe m -> safe n -> safe (if decide P then m else n).
Proof. by case_decide. Qed.

(** A sleep on one of the device's semaphores. *)
Lemma safe_sleep w : w <> WLock -> w <> WResult -> safe (sleep w).
Proof.
  intros H1 H2 s Hs. constructor; [done|done|by rewrite decide_False|].
  intros o s' Hs' _. rewrite bool_decide_false by tauto. by constructor.
Qed.

(** Updates that touch one component each. *)
Lemma safe_tb f : (forall t, tables_wf t -> tables_wf (f t)) -> safe (modify (on_tb f)).
Proof. intros Hf. apply safe_modify. intros s (? & ? & ? & ?). split; [|done]. split; [by apply Hf|done]. Qed.

Lemma safe_jit f : (forall j, jit_wf j -> jit_wf (f j) /\ j_lock (f j) = j_lock j) -> safe (modify (on_jit f)).
Proof.
  intros Hf. apply safe_modify. intros s (? & Hj & ? & ?). destruct (Hf _ Hj) as [? ?]. done.
Qed.

Lemma safe_dev f : (forall d, dev_wf d -> dev_wf (f d)) -> safe (modify (on_dev f)).
Proof. intros Hf. apply safe_modify. intros s (? & ? & Hd & ?). apply Hf in Hd. done. Qed.

Lemma safe_task t f : (forall x, t_mmap (f x) = t_mmap x) -> safe (modify (on_task t f)).
Proof.
  intros Hf. apply safe_modify. intros s (? & ? & ? & Hm). split; [|done]. split_and!; [done..|].
  intros u. unfold task_of, on_task, on_tasks; cbn [k_tasks].
  destruct (decide (u = t)) as [->|Hne].
  - rewrite lookup_insert_eq. simpl. rewrite Hf. apply Hm.
  - rewrite lookup_insert_ne by done. apply Hm.
Qed.

Lemma safe_stat f : safe (ARMOR_STAT f).
Proof. apply safe_modify. intros s Hs. done. Qed.

Lemma safe_wrmsrl a v : safe (wrmsrl a v).
Proof. apply safe_modify. intros s Hs. done. Qed.

Lemma safe_kill t : safe (kill_pid t).
Proof. apply safe_modify. intros s Hs. done. Qed.

Lemma safe_put_user t p v : safe (put_user t p v).
Proof. apply safe_modify. intros s Hs. done. Qed.

Create HintDb safe.
#[global] Hint Resolve safe_ret safe_gets safe_when safe_if safe_stat safe_wrmsrl safe_kill safe_put_user : safe.
#[global] Hint Extern 1 (safe (_ ≫= _)) => apply safe_bind; [|intros ?] : safe.
#[global] Hint Extern 1 (safe (if decide _ then _ else _)) => apply safe_decide : safe.
#[global] Hint Extern 1 (safe (let '(_, _) := ?x in _)) => destruct x : safe.

Ltac safe_auto := auto 50 with safe.

(** ** Every handler is safe *)

Section handlers.
Context (md4 : list Z -> list Z) (jiffies_to_timeval : Z -> Z * Z).

(** After the analyzer's answer, up to the release of the lock. *)
Lemma validate_result_done hash s :
  kinv s -> exists s', validate_result hash s = Done tt s' /\ kinv s' /\ locked s' = locked s.
Proof.
  intros (Ht & Hj & Hd & Hm). destruct (jit_insert_wf hash _ Hj) as (j' & Hins & Hj' & Hl).
  unfold validate_result, mbind, K_bind, gets, ARMOR_STAT, modify; cbn [proc_bind].
  repeat case_decide; cbn [proc_bind on_stats k_jit]; rewrite ?Hins; eexists; (split; [reflexivity|]); done.
Qed.

Lemma safe_validate_lbr : safe (validate_lbr md4 jiffies_to_timeval).
Proof.
  unfold validate_lbr. apply safe_bind; [apply safe_gets|]. intros lbr.
  apply safe_bind; [apply safe_gets|]. intros [|]; [apply safe_ret|].
  intros s Hs. unfold mbind, K_bind, sleep; cbn [proc_bind].
  apply runs_wait; [done|done|done|]. intros o s1 (Ht & Hj & Hd & Hm) Hg.
  assert (locked s1 = true) as Hl1 by (destruct o; [exact Hg|done]). clear Hg.
  rewrite bool_decide_true by auto. rewrite Hl1.
  unfold validate_locked, mbind, K_bind, ARMOR_STAT, modify, gets, sleep; cbn [proc_bind].
  destruct (Digest.hash_lbr md4 lbr _) as [hash st]. cbn [proc_bind].
  destruct (jit_cached hash _); cbn [proc_bind].
  - apply runs_done; [|done]. split_and!; done.
  - apply runs_wait; [|done|done|].
    + split_and!; try done. destruct Hj as (? & ? & ? & ? & ?). split_and!; simpl; try done; lia.
    + intros o2 s2 Hs2 Hg2. rewrite bool_decide_true by auto.
      assert (locked s2 = true) as Hl2 by (destruct o2; exact Hg2). rewrite Hl2. unfold validate_reply, mbind, K_bind, ARMOR_STAT, modify.
      destruct o2 as [delta|]; cbn [proc_bind]; [|by apply runs_done].
      destruct (validate_result_done hash (on_stats (jit_account jiffies_to_timeval delta) s2)) as (s3 & -> & Hs3 & _);
        [done|]. cbn [proc_bind]. apply runs_done; [|done]. done.
Qed.
Hint Resolve safe_validate_lbr : safe.

Lemma safe_sched_in t : safe (sched_in t).
Proof.
  unfold sched_in. apply safe_bind; [apply safe_stat|]. intros _. apply safe_modify. intros s Hs.
  unfold Cache.restore_lbr. destruct (slot_find t (tb_cache (k_tb s))) as [[i e]|]; [|done].
  split; [|done]. destruct Hs as ((? & ?) & ?). split; [|done]. split; [|done]. simpl. by rewrite length_insert.
Qed.

Lemma safe_sched_out t : safe (sched_out t).
Proof.
  unfold sched_out. apply safe_bind; [apply safe_stat|]. intros _. apply safe_modify. intros s Hs.
  unfold Cache.save_lbr. destruct (slot_find NULL (tb_cache (k_tb s))) as [[i e]|]; [|done].
  split; [|done]. destruct Hs as ((? & ?) & ?). split; [|done]. split; [|done]. simpl. by rewrite length_insert.
Qed.

(** A table operation: replace one table by a well-formed one. *)
Lemma kinv_lib d s : kinv s -> lib_table d -> kinv (on_tb (set_lib d) s).
Proof. intros ((? & ? & ? & ?) & ?) ?. done. Qed.
Lemma kinv_cbk d m s : kinv s -> cbk_table d -> kinv (set_msr m (on_tb (set_cbk d) s)).
Proof. intros ((? & ? & ? & ?) & ?) ?. done. Qed.
Lemma kinv_sig d m s : kinv s -> sig_table d -> kinv (set_msr m (on_tb (set_sig d) s)).
Proof. intros ((? & ? & ? & ?) & ?) ?. done. Qed.

Section current.
Context (t : Z) (Ht : t <> NULL).

Lemma safe_lib_init ret : safe (do_lib_init t ret).
Proof.
  unfold do_lib_init. apply safe_bind; [|safe_auto]. apply safe_atomic. intros s Hs.
  pose proof (lib_init_wf t ret (tb_lib (k_tb s)) Ht (proj1 (proj2 (proj1 Hs)))) as Hwf.
  destruct (lib_init _ _ _). eexists _, _; split; [done|]. split; [by apply kinv_lib|done].
Qed.

Lemma safe_cbk_init ret : safe (do_cbk_init t ret).
Proof.
  unfold do_cbk_init. apply safe_bind; [|safe_auto]. apply safe_atomic. intros s Hs.
  pose proof (cbk_init_wf t ret (tb_cbk (k_tb s)) (cpu_msr s) Ht (proj1 (proj2 (proj2 (proj1 Hs))))) as Hwf.
  destruct (cbk_init _ _ _ _) as [[d m] kill]. eexists _, _; split; [done|]. split; [by apply kinv_cbk|done].
Qed.

Lemma safe_sig_init h : safe (do_sig_init t h).
Proof.
  unfold do_sig_init. apply safe_bind; [|safe_auto]. apply safe_atomic. intros s Hs.
  pose proof (sig_init_wf t h (t_start_code (task_of t s)) (t_end_code (task_of t s))
    (kc_indirect_call_source (d_tocopy (k_dev s))) (tb_sig (k_tb s)) (cpu_msr s) Ht
    (proj2 (proj2 (proj2 (proj1 Hs))))) as Hwf.
  destruct (sig_init _ _ _ _ _ _ _) as [[d m] kill]. eexists _, _; split; [done|]. split; [by apply kinv_sig|done].
Qed.

Lemma safe_lib_exit : safe (do_lib_exit t).
Proof.
  unfold do_lib_exit. apply safe_bind; [|intros []; safe_auto]. apply safe_atomic. intros s Hs.
  pose proof (lib_exit_wf t (tb_lib (k_tb s)) Ht (proj1 (proj2 (proj1 Hs)))) as Hwf.
  destruct (lib_exit _ _) as [[v d] kill]. eexists _, _; split; [done|]. split; [by apply kinv_lib|done].
Qed.

Lemma safe_cbk_exit : safe (do_cbk_exit t).
Proof.
  unfold do_cbk_exit. apply safe_bind; [|intros []; safe_auto]. apply safe_atomic. intros s Hs.
  pose proof (cbk_exit_wf t (tb_cbk (k_tb s)) (cpu_msr s) Ht (proj1 (proj2 (proj2 (proj1 Hs))))) as Hwf.
  destruct (cbk_exit _ _ _) as [[[v d] m] kill]. eexists _, _; split; [done|]. split; [by apply kinv_cbk|done].
Qed.

Lemma safe_sig_exit : safe (do_sig_exit t).
Proof.
  unfold do_sig_exit. apply safe_bind; [|safe_auto]. apply safe_atomic. intros s Hs.
  pose proof (sig_exit_wf t (tb_sig (k_tb s)) (cpu_msr s) Ht (proj2 (proj2 (proj2 (proj1 Hs))))) as Hwf.
  destruct (sig_exit _ _ _) as [[d m] kill]. eexists _, _; split; [done|]. split; [by apply kinv_sig|done].
Qed.

Lemma safe_copy_tables p : p <> NULL -> t <> p -> safe (copy_tables t p).
Proof.
  intros Hp Htp. unfold copy_tables.
  repeat (apply safe_bind; [|intros ?]); try (apply safe_when, safe_kill); apply safe_atomic; intros s Hs.
  - pose proof (copy_rets_wf LIB_CACHE_SIZE t p _ Ht Hp Htp (proj1 (proj2 (proj1 Hs)))) as Hwf.
    destruct (copy_entry _ _ _ _ _). eexists _, _; split; [done|]. split; [by apply kinv_lib|done].
  - pose proof (copy_both_wf CBK_CACHE_SIZE t p _ Ht Hp Htp (proj1 (proj2 (proj2 (proj1 Hs))))) as Hwf.
    destruct (copy_entry _ _ _ _ _). eexists _, _; split; [done|].
    split; [exact (kinv_cbk _ (cpu_msr s) s Hs Hwf)|done].
  - pose proof (copy_lbrs_wf CBK_CACHE_SIZE t p _ Ht Hp Htp (proj2 (proj2 (proj2 (proj1 Hs))))) as Hwf.
    destruct (copy_entry _ _ _ _ _). eexists _, _; split; [done|].
    split; [exact (kinv_sig _ (cpu_msr s) s Hs Hwf)|done].
Qed.

Lemma safe_copy_lbr p : safe (copy_lbr t p).
Proof.
  intros s Hs. unfold copy_lbr, mbind, K_bind, gets; cbn [proc_bind].
  destruct (slot_find NULL (tb_cache (k_tb s))) as [[i e]|]; [|by apply safe_kill].
  constructor; [|done]. destruct Hs as ((? & ?) & ?). split; [|done]. split; [|done]. simpl. by rewrite length_insert.
Qed.

End current.
Hint Resolve safe_lib_init safe_cbk_init safe_sig_init safe_lib_exit safe_cbk_exit safe_sig_exit
  safe_copy_tables safe_copy_lbr : safe.

Lemma safe_deferred_exit old : safe (do_deferred_exit old).
Proof.
  unfold do_deferred_exit. repeat (apply safe_bind; [|intros ?]); apply safe_modify; intros s Hs; (split; [|done]).
  - apply kinv_lib; [done|]. apply remove_task_wf; [apply wrapper_zero_ok|apply Hs].
  - apply (kinv_cbk _ (cpu_msr s)); [done|]. apply remove_task_wf; [apply wrapper_zero_ok|apply Hs].
  - apply (kinv_sig _ (cpu_msr s)); [done|]. apply remove_task_wf; [apply wrapper_zero_ok|apply Hs].
Qed.

Lemma safe_exitq f : safe (modify (on_exitq f)).
Proof. apply safe_modify. intros s Hs. done. Qed.

Lemma safe_personality t f : safe (modify (on_task t (fun x => set_personality (f x) x))).
Proof. by apply safe_task. Qed.

Lemma safe_hooked t b : safe (modify (on_task t (set_hooked b))).
Proof. by apply safe_task. Qed.
Hint Resolve safe_exitq safe_personality safe_hooked : safe.

Lemma safe_get_offsets e : safe (armor_ioctl_get_offsets e).
Proof.
  unfold armor_ioctl_get_offsets. apply safe_bind; [by apply safe_sleep|]. intros [j|]; [|apply safe_ret].
  apply safe_if; [apply safe_ret|]. intros s Hs. unfold mbind, K_bind, gets; cbn [proc_bind].
  case_decide; [by apply safe_ret|]. cbn [proc_bind].
  pose proof (proj2 (proj2 (proj2 Hs)) (d_main_task (k_dev s))) as Hsmall.
  destruct (t_mmap _) as [[|v mmap]|]; [by apply safe_ret| |by apply safe_ret].
  pose proof (get_offsets_loop_fits (e_free_page e) (v :: mmap) [] Hsmall) as Hfit.
  destruct (get_offsets_loop _ _ _) as [[err|libs]|]; [by apply safe_ret| |done].
  case_decide; by apply safe_ret.
Qed.

Lemma safe_sems a b c :
  (forall d, dev_wf d -> 0 <= a d /\ 0 <= b d /\ 0 <= c d) ->
  safe (modify (on_dev (fun d => set_sems (a d) (b d) (c d) d))).
Proof. intros Hf. apply safe_dev. intros d Hd. apply Hf in Hd. done. Qed.

Lemma safe_copy_paths t e : safe (ioctl_copy_paths t e).
Proof.
  unfold ioctl_copy_paths. destruct (e_read_copy e) as [c ok1].
  repeat (apply safe_bind; [|intros ?] || apply safe_if || apply safe_ret); try by apply safe_dev.
  destruct (e_read_bytes e _ _) as [bytes ok2].
  repeat (apply safe_bind; [|intros ?] || apply safe_if || apply safe_ret || apply safe_when);
    try by apply safe_dev.
  apply safe_sems. unfold dev_wf. lia.
Qed.

Lemma safe_push_plts e : safe (ioctl_push_plts e).
Proof.
  unfold ioctl_push_plts. destruct (e_read_plt_got e) as [p ok1].
  repeat (apply safe_bind; [|intros ?] || apply safe_if || apply safe_ret); try by apply safe_dev.
  destruct (e_read_bytes e _ _) as [plts ok2]. repeat (apply safe_if || apply safe_ret).
  destruct (e_read_bytes e _ _) as [gots ok3].
  repeat (apply safe_bind; [|intros ?] || apply safe_if || apply safe_ret); try by apply safe_dev.
  apply safe_sems. unfold dev_wf. lia.
Qed.

Lemma safe_push_exits e : safe (ioctl_push_exits e).
Proof.
  unfold ioctl_push_exits. destruct (e_read_simples e) as [p ok1].
  repeat (apply safe_bind; [|intros ?] || apply safe_if || apply safe_ret); try by apply safe_dev.
  destruct (e_read_bytes e _ _) as [exits ok2].
  repeat (apply safe_bind; [|intros ?] || apply safe_if || apply safe_ret); try by apply safe_dev.
  apply safe_sems. unfold dev_wf. lia.
Qed.

Lemma safe_init t arg e : safe (ioctl_init t arg e).
Proof.
  unfold ioctl_init. apply safe_decide; [apply safe_ret|].
  apply safe_bind; [|intros _].
  { apply safe_tb. intros tb (? & ? & ? & ?). split_and!; try done. apply table_wf_init, wrapper_zero_ok. }
  apply safe_bind; [|intros _].
  { apply safe_tb. intros tb (? & ? & ? & ?). split_and!; try done. apply table_wf_init, wrapper_zero_ok. }
  apply safe_bind; [|intros _].
  { apply safe_tb. intros tb (? & ? & ? & ?). split_and!; try done. apply table_wf_init, wrapper_zero_ok. }
  apply safe_bind; [|intros _].
  { apply safe_tb. intros tb (? & ? & ? & ?). split_and!; done. }
  apply safe_bind; [apply safe_modify; intros s Hs; done|intros _].
  apply safe_bind; [|intros _].
  { apply safe_jit. intros j (? & ? & ? & ? & ?). split; [|done]. split_and!; done. }
  apply safe_bind; [by apply safe_jit|intros _].
  apply safe_bind; [by apply safe_task|intros _].
  apply safe_bind; [apply safe_modify; intros s Hs; done|intros _].
  apply safe_bind; [by apply safe_task|intros _].
  apply safe_bind; [apply safe_gets|intros ?]. apply safe_ret.
Qed.

Lemma safe_get_jit_work e : safe (ioctl_get_jit_work e).
Proof.
  intros s Hs. unfold ioctl_get_jit_work, mbind, K_bind, sleep, gets; cbn [proc_bind].
  apply runs_wait; [done|done|done|]. intros o s' Hs' Hg. rewrite bool_decide_false by (by intros [?|?]).
  destruct o as [d|]; cbn [proc_bind]; [|by constructor].
  simpl in Hg. destruct (j_work (k_jit s')) as [l|]; [|done]. by constructor.
Qed.

Lemma safe_put_jit_work arg : safe (ioctl_put_jit_work arg).
Proof.
  unfold ioctl_put_jit_work. apply safe_bind; [by apply safe_jit|intros _].
  apply safe_bind; [|intros _; apply safe_ret].
  apply safe_jit. intros j (? & ? & ? & ? & ?). split; [|done]. split_and!; try done; simpl; lia.
Qed.

Lemma safe_pull_plt_copy e : safe (ioctl_pull_plt_copy e).
Proof. apply safe_bind; [by apply safe_sleep|]. intros []; safe_auto. Qed.

Lemma safe_pull_exits e : safe (ioctl_pull_exits e).
Proof. apply safe_bind; [by apply safe_sleep|]. intros []; safe_auto. Qed.

Hint Resolve safe_get_offsets safe_copy_paths safe_push_plts safe_push_exits safe_init safe_get_jit_work
  safe_put_jit_work safe_pull_plt_copy safe_pull_exits : safe.

Lemma safe_ioctl t cmd arg e : t <> NULL -> safe (armor_ioctl md4 jiffies_to_timeval t cmd arg e).
Proof.
  intros Ht. unfold armor_ioctl.
  repeat (apply safe_decide; [unfold ioctl_lib_enter, ioctl_lib_exit, ioctl_callback_enter, ioctl_callback_exit;
                              safe_auto|]). apply safe_ret.
Qed.

(** Re-opening the device re-initialises the mutex: safe only while nobody
    holds it. *)
Lemma runs_open b s : kinv s -> d_initialized (k_dev s) = true \/ locked s = false ->
  runs false (locked s) (armor_open b s).
Proof.
  intros Hs Hq. pose proof Hs as (Ht & Hj & Hd & Hm).
  unfold armor_open, mbind, K_bind, modify, gets; cbn [proc_bind on_dev k_dev set_opens d_initialized].
  destruct (d_initialized (k_dev s)) eqn:Hi; [by apply runs_done|]. destruct Hq as [Hq|Hq]; [done|].
  destruct b; cbn [negb]; [|by apply runs_done].
  cbn [proc_bind]. apply runs_done; [|by rewrite Hq].
  split_and!; try done. destruct Hj as (? & ? & ? & ? & ?). split_and!; simpl; try done; lia.
Qed.

Lemma safe_close : safe armor_close.
Proof.
  unfold armor_close. apply safe_bind; [by apply safe_dev|intros _]. apply safe_bind; [apply safe_gets|intros ?].
  apply safe_decide; [apply safe_ret|].
  repeat (apply safe_bind; [by apply safe_dev|intros _]). apply safe_ret.
Qed.

End handlers.

(** ** The system *)

Module Sys.

(** What can happen to a task: the hooked kernel functions and the operations
    of the device. *)
Inductive call :=
| CSignal (sa_handler : Z)
| CSigreturn
| CNewTask (p : Z)
| CExit
| CExecve
| CExecveRet (retval : Z)
| CMmap (prot : Z)
| CMprotect (prot : Z)
| CRead
| CWrite
| CSigaction
| COpen (crypto_ok : bool)
| CClose
| CIoctl (cmd arg1 : Z) (e : env).

(** A sleeping handler: what it sleeps on and how it goes on. *)
Definition thread : Type := waitq * (wake -> kstate -> proc reply).

(** The shared state and the sleeping handlers, by task. *)
Definition sys : Type := kstate * gmap Z thread.

(** The end of a segment; [None] is a kernel fault. *)
Definition settle (t : Z) (p : proc reply) (pool : gmap Z thread) : option sys :=
  match p with
  | Done _ s => Some (s, pool)
  | Wait w s k => Some (s, <[t := (w, k)]> pool)
  | Oops => None
  end.

(** Taking the resource a task sleeps on, if it is available. *)
Definition acquire (w : waitq) (s : kstate) : option kstate :=
  let j := k_jit s in
  let d := k_dev s in
  match w with
  | WLock => if j_lock j then None else Some (on_jit (set_lock true) s)
  | WResult => if decide (0 < j_result_cond j) then Some (on_jit (set_result_cond (j_result_cond j - 1)) s) else None
  | WWork => if decide (0 < j_work_cond j) then Some (on_jit (set_work_cond (j_work_cond j - 1)) s) else None
  | WStarted => if decide (0 < d_target_started d) then
      Some (on_dev (set_sems (d_target_started d - 1) (d_plt_available d) (d_exitpoints_available d)) s) else None
  | WPlt => if decide (0 < d_plt_available d) then
      Some (on_dev (set_sems (d_target_started d) (d_plt_available d - 1) (d_exitpoints_available d)) s) else None
  | WExits => if decide (0 < d_exitpoints_available d) then
      Some (on_dev (set_sems (d_target_started d) (d_plt_available d) (d_exitpoints_available d - 1)) s) else None
  end.

(** A forked task has its own pointer; the device is not re-opened from
    scratch while a validation is under way. *)
Definition call_ok (t : Z) (c : call) (s : kstate) : Prop :=
  match c with
  | CNewTask p => p <> NULL /\ p <> t
  | COpen _ => d_initialized (k_dev s) = true \/ locked s = false
  | _ => True
  end.

Section sys.
Context (md4 : list Z -> list Z) (jiffies_to_timeval : Z -> Z * Z).

Definition run_call (t : Z) (c : call) : K reply :=
  match c with
  | CSignal h => new_signal_delivered md4 jiffies_to_timeval t h;; mret ok
  | CSigreturn => new_sys_rt_sigreturn t;; mret ok
  | CNewTask p => new_wake_up_new_task t p;; mret ok
  | CExit => new_do_exit t true;; mret ok
  | CExecve => new_sys_execve md4 jiffies_to_timeval t;; mret ok
  | CExecveRet rv => new_sys_execve_ret t rv;; mret ok
  | CMmap prot => new_sys_mmap_pgoff md4 jiffies_to_timeval t prot;; mret ok
  | CMprotect prot => new_sys_mprotect md4 jiffies_to_timeval t prot;; mret ok
  | CRead => new_sys_read md4 jiffies_to_timeval t;; mret ok
  | CWrite => new_sys_write md4 jiffies_to_timeval t;; mret ok
  | CSigaction => new_sys_rt_sigaction md4 jiffies_to_timeval t;; mret ok
  | COpen b => armor_open b
  | CClose => armor_close
  | CIoctl cmd arg1 e => armor_ioctl md4 jiffies_to_timeval t cmd arg1 e
  end.

(** One step of the machine. *)
Inductive step : sys -> option sys -> Prop :=
| step_call s pool t cpu c :
    t <> NULL -> pool !! t = None -> call_ok t c s ->
    step (s, pool) (settle t (run_call t c (on_cpu cpu s)) pool)
| step_grant s pool t cpu w k s' d :
    pool !! t = Some (w, k) -> acquire w s = Some s' ->
    step (s, pool) (settle t (k (Granted d) (on_cpu cpu s')) (delete t pool))
| step_expire s pool t cpu w k :
    pool !! t = Some (w, k) -> w <> WLock ->
    step (s, pool) (settle t (k Expired (on_cpu cpu s)) (delete t pool))
| step_sched_out s pool t cpu s' :
    t_hooked (task_of t s) = true -> sched_out t (on_cpu cpu s) = Done tt s' -> step (s, pool) (Some (s', pool))
| step_sched_in s pool t cpu s' :
    t_hooked (task_of t s) = true -> sched_in t (on_cpu cpu s) = Done tt s' -> step (s, pool) (Some (s', pool))
| step_work s pool old q s' :
    k_exitq s = old :: q -> do_deferred_exit old (on_exitq (fun _ => q) s) = Done tt s' ->
    step (s, pool) (Some (s', pool))
| step_user s pool msr tasks :
    mmaps_small (on_tasks (fun _ => tasks) s) ->
    step (s, pool) (Some (on_msr msr (on_tasks (fun _ => tasks) s), pool)).

(** Reachable without a fault. *)
Definition next (S S' : sys) : Prop := step S (Some S').
Definition reachable (S0 S : sys) : Prop := rtc next S0 S.

Definition asks (pool : gmap Z thread) (t : Z) : Prop := exists k, pool !! t = Some (WResult, k).

Definition thread_ok (th : thread) : Prop :=
  forall o s, kinv s -> granted th.1 o s ->
    runs (bool_decide (th.1 = WLock \/ th.1 = WResult)) (locked s) (th.2 o s).

Definition sys_inv (S : sys) : Prop :=
  kinv S.1 /\ map_Forall (fun _ => thread_ok) S.2 /\
  (forall t u, asks S.2 t -> asks S.2 u -> t = u) /\
  (locked S.1 = true <-> exists t, asks S.2 t).

Lemma runs_call t c s : t <> NULL -> call_ok t c s -> kinv s -> runs false (locked s) (run_call t c s).
Proof.
  intros Ht Hc Hs.
  destruct c as [h| |p| | |rv|prot|prot| | | |b| |cmd arg e]; cbn [run_call];
    try (by apply runs_open); try (by apply safe_close); try (by apply safe_ioctl);
    (apply safe_bind; [|intros ?; apply safe_ret|done]).
  all: pose proof (safe_validate_lbr md4 jiffies_to_timeval) as Hv; cbn [call_ok] in Hc.
  all: unfold new_signal_delivered, new_sys_rt_sigreturn, new_wake_up_new_task, new_do_exit, new_sys_execve,
    new_sys_execve_ret, new_sys_mmap_pgoff, new_sys_mprotect, new_sys_read, new_sys_write, new_sys_rt_sigaction.
  all: repeat first [exact Hv | apply safe_stat | apply safe_gets | apply safe_when
    | match goal with |- safe (_ ≫= _) => apply safe_bind; [|intros ?] end].
  - by apply safe_sig_init.
  - by apply safe_sig_exit.
  - by apply safe_hooked.
  - destruct Hc. by apply safe_copy_tables.
  - apply safe_copy_lbr.
  - by apply safe_hooked.
  - apply safe_exitq.
  - apply (safe_personality t (fun x => TaskBits.susp_task_lbr (t_personality x))).
  - apply (safe_personality t (fun x => TaskBits.wakeup_task_lbr (t_personality x))).
Qed.

(** One segment: [pool] holds the other tasks. *)
Lemma settle_inv t p pool h L :
  runs h L p -> pool !! t = None -> map_Forall (fun _ => thread_ok) pool ->
  (forall u v, asks pool u -> asks pool v -> u = v) ->
  (if h : bool then forall u, ~ asks pool u else (L = true <-> exists u, asks pool u)) ->
  exists S', settle t p pool = Some S' /\ sys_inv S'.
Proof.
  intros Hr Hnew Hok Hu HL. destruct Hr as [h L a s Hs Hl|h L w s k Hs Hw Hl Hk]; eexists; (split; [done|]).
  - split_and!; simpl; try done. rewrite Hl. destruct h; [|done]. split; [done|]. by intros [u ?%HL].
  - assert (forall u, asks (<[t := (w, k)]> pool) u <-> asks pool u \/ u = t /\ w = WResult) as Hasks.
    { intros u. unfold asks. destruct (decide (u = t)) as [->|Hne].
      - rewrite lookup_insert_eq. split; [intros [k' [= -> _]]; by right|].
        intros [[k' Hk']|[_ Hw']]; [by pose proof (eq_trans (eq_sym Hnew) Hk')|]. subst. eauto.
      - rewrite lookup_insert_ne by done. split; [by left|]. by intros [?|[? _]]. }
    split_and!; simpl; [done| | |].
    + apply map_Forall_insert_2; [done|]. done.
    + intros u v. rewrite !Hasks. intros [?|[-> ->]] [?|[-> ?]]; auto; rewrite Hw in HL by done; exfalso; by eapply HL.
    + setoid_rewrite Hasks. rewrite Hl. case_decide as Hd.
      * subst. split; [intros _; exists t; auto|done].
      * destruct h; [|rewrite HL].
        -- split; [done|]. intros [u [Ha|[_ ?]]]; [by apply HL in Ha|done].
        -- split; [intros [u ?]; eauto|]. intros [u [?|[_ ?]]]; [eauto|done].
Qed.

Lemma acquire_inv w s s' : kinv s -> acquire w s = Some s' ->
  kinv s' /\ (forall d, (w = WResult -> locked s = true) -> granted w (Granted d) s') /\
  (if decide (w = WLock) then locked s = false else locked s' = locked s).
Proof.
  intros (Ht & Hj & Hd & Hm) Ha. destruct Hj as (? & ? & ? & ? & Hwork). destruct Hd as (? & ? & ?).
  destruct w; simpl in Ha; unfold locked; try (case_decide; [|done]);
    [destruct (j_lock (k_jit s)); [done|]|..]; injection Ha as <-; cbn [decide granted];
    (split; [split_and!; try done; repeat split; simpl; try done; try lia; intros; apply Hwork; lia|]); split; try done.
  - intros d Hr. by apply Hr.
  - intros d _. simpl. apply Hwork. lia.
Qed.

Lemma asks_delete pool t u : asks (delete t pool) u <-> u <> t /\ asks pool u.
Proof.
  unfold asks. destruct (decide (u = t)) as [->|Hne].
  - rewrite lookup_delete_eq. split; [by intros [? ?]|tauto].
  - rewrite lookup_delete_ne by done. tauto.
Qed.

(** A segment that is one atomic update. *)
Lemma safe_done (m : K unit) s s' :
  safe m -> kinv s -> m s = Done tt s' -> kinv s' /\ locked s' = locked s.
Proof. intros Hm Hs Hd. specialize (Hm s Hs). rewrite Hd in Hm. by inversion Hm. Qed.

Lemma step_inv S R : sys_inv S -> step S R -> exists S', R = Some S' /\ sys_inv S'.
Proof.
  intros HS Hstep. destruct Hstep as [s pool t cpu c Ht Hnew Hc|s pool t cpu w k s' d Hp Ha|s pool t cpu w k Hp Hw
    |s pool t cpu s' Hh Hd|s pool t cpu s' Hh Hd|s pool old q s' Hq Hd|s pool msr tasks Hm];
    destruct HS as (Hk & Hok & Hu & Hl); cbn [fst snd] in *.
  - apply (settle_inv _ _ _ false (locked s)); try done. by apply (runs_call t c (on_cpu cpu s)).
  - destruct (acquire_inv w s s' Hk Ha) as (Hk' & Hg & Hlock).
    assert (w = WResult -> locked s = true) as Hres by (intros ->; apply Hl; exists t; by exists k).
    apply (settle_inv _ _ _ (bool_decide (w = WLock \/ w = WResult)) (locked s')).
    + apply (Hok t (w, k) Hp (Granted d) (on_cpu cpu s')); [done|]. by apply Hg.
    + apply lookup_delete_eq.
    + intros u th. rewrite lookup_delete_Some. intros [_ ?]. by eapply Hok.
    + intros u v. rewrite !asks_delete. intros [_ ?] [_ ?]. auto.
    + case_bool_decide as Hb.
      * intros u [Hne Hau]%asks_delete. destruct Hb as [->| ->].
        -- rewrite decide_True in Hlock by done. assert (locked s = true) by (apply Hl; eauto). congruence.
        -- apply Hne. apply Hu; [done|]. by exists k.
      * rewrite decide_False in Hlock by tauto. rewrite Hlock, Hl. split; intros [u Hau]; exists u.
        -- apply asks_delete. split; [|done]. intros ->. destruct Hau as [k' Hk2].
           pose proof (eq_trans (eq_sym Hp) Hk2) as [= -> _]. apply Hb. by right.
        -- by apply asks_delete in Hau as [_ ?].
  - assert (w = WResult -> locked s = true) as Hres by (intros ->; apply Hl; exists t; by exists k).
    apply (settle_inv _ _ _ (bool_decide (w = WLock \/ w = WResult)) (locked s)).
    + apply (Hok t (w, k) Hp Expired (on_cpu cpu s)); [done|]. destruct w; simpl; auto.
    + apply lookup_delete_eq.
    + intros u th. rewrite lookup_delete_Some. intros [_ ?]. by eapply Hok.
    + intros u v. rewrite !asks_delete. intros [_ ?] [_ ?]. auto.
    + case_bool_decide as Hb.
      * intros u [Hne Hau]%asks_delete. destruct Hb as [->| ->]; [done|].
        apply Hne. apply Hu; [done|]. by exists k.
      * rewrite Hl. split; intros [u Hau]; exists u.
        -- apply asks_delete. split; [|done]. intros ->. destruct Hau as [k' Hk2].
           pose proof (eq_trans (eq_sym Hp) Hk2) as [= -> _]. apply Hb. by right.
        -- by apply asks_delete in Hau as [_ ?].
  - eexists; split; [done|]. destruct (safe_done _ _ _ (safe_sched_out t) (Hk : kinv (on_cpu cpu s)) Hd) as [? He].
    split_and!; try done. cbn [fst]. by rewrite He.
  - eexists; split; [done|]. destruct (safe_done _ _ _ (safe_sched_in t) (Hk : kinv (on_cpu cpu s)) Hd) as [? He].
    split_and!; try done. cbn [fst]. by rewrite He.
  - eexists; split; [done|].
    destruct (safe_done _ _ _ (safe_deferred_exit old) (Hk : kinv (on_exitq (fun _ => q) s)) Hd) as [? He].
    split_and!; try done. cbn [fst]. by rewrite He.
  - eexists; split; [done|]. destruct Hk as (? & ? & ? & _). by split_and!.
Qed.

Lemma loaded_inv msr tasks : mmaps_small (loaded msr tasks) -> sys_inv (loaded msr tasks, ∅).
Proof.
  intros Hm. split_and!; cbn [fst snd].
  - split_and!; [| | |done].
    + split_and!; [done|apply table_wf_init, wrapper_zero_ok..].
    + split_and!; done.
    + split_and!; done.
  - apply map_Forall_empty.
  - intros t u [k Hk]. by rewrite lookup_empty in Hk.
  - split; [done|]. intros [t [k Hk]]. by rewrite lookup_empty in Hk.
Qed.


End sys.


End Sys.
