(* ===== verification/ArmorProps.v ===== *)
(** What the handlers of the kernel module do, call by call: supervision,
    validation, forks, exits, library calls and the device. *)

From S2P Require Import Prelude Slots Lbr LbrState Wrappers Kernel Armor ArmorInv.

(** ** Forks, exits and library calls

    The four tables as the tasks see them: return addresses inside library
    calls, frames of callbacks, LBR states of interrupted code, LBR states of
    tasks that are switched out. *)

Definition sig_view (d : wrapper_lib_t) : list lbr_t := Stack.stack_elems (w_lbrs d).

Definition tables_rel (tb : tables) (Ml : gmap Z (list Z)) (Mc : gmap Z (list (Z * lbr_t)))
    (Ms : gmap Z (list lbr_t)) (Mb : gmap Z lbr_t) : Prop :=
  Lib.rel (tb_lib tb) Ml /\ table_rel CBK_CACHE_SIZE cbk_ok Cbk.frames (tb_cbk tb) Mc /\
  table_rel SIG_CACHE_SIZE sig_ok sig_view (tb_sig tb) Ms /\ Cache.cache_rel (tb_cache tb) Mb.

(** Room for one more task in every table. *)
Definition room (Ml : gmap Z (list Z)) (Mc : gmap Z (list (Z * lbr_t)))
    (Ms : gmap Z (list lbr_t)) (Mb : gmap Z lbr_t) : Prop :=
  (size Ml < LIB_CACHE_SIZE)%nat /\ (size Mc < CBK_CACHE_SIZE)%nat /\
  (size Ms < SIG_CACHE_SIZE)%nat /\ (size Mb < Cache.LBR_CACHE_SIZE)%nat.

Lemma copy_rel {V} n P (view : wrapper_lib_t -> V) copy m data M t p :
  (forall src dst k, P src -> P dst -> w_task src <> NULL -> k <> NULL ->
     P (copy src (set_w_task k dst)) /\ w_task (copy src (set_w_task k dst)) = k /\
     view (copy src (set_w_task k dst)) = view src) ->
  table_rel n P view data M -> (n <= m)%nat -> t <> NULL -> p <> NULL -> t <> p ->
  M !! p = None -> (size M < n)%nat ->
  exists data', copy_entry copy m t p data = (data', false) /\ table_rel n P view data' (inherit t p M).
Proof.
  intros Hcopy HR Hm Ht Hp Htp Hfresh Hroom. unfold inherit. destruct (M !! t) as [v|] eqn:Hv.
  - by eapply copy_entry_rel.
  - exists data. split; [|done]. by eapply copy_entry_none.
Qed.

Lemma copy_rets_keeps src dst k : lib_ok src -> lib_ok dst -> w_task src <> NULL -> k <> NULL ->
  lib_ok (copy_rets src (set_w_task k dst)) /\ w_task (copy_rets src (set_w_task k dst)) = k /\
  Stack.stack_elems (w_rets (copy_rets src (set_w_task k dst))) = Stack.stack_elems (w_rets src).
Proof. intros [[Hr ?] Hos] [[? Hl] ?] Hn Hk. split; [|done]. split; [done|]. simpl. tauto. Qed.

Lemma copy_both_keeps src dst k : cbk_ok src -> cbk_ok dst -> w_task src <> NULL -> k <> NULL ->
  cbk_ok (copy_both src (set_w_task k dst)) /\ w_task (copy_both src (set_w_task k dst)) = k /\
  Cbk.frames (copy_both src (set_w_task k dst)) = Cbk.frames src.
Proof. intros [[[Hr Hl] Hos] Heq] _ Hn Hk. split; [|done]. split; [|done]. split; [done|]. simpl. tauto. Qed.

Lemma copy_lbrs_keeps src dst k : sig_ok src -> sig_ok dst -> w_task src <> NULL -> k <> NULL ->
  sig_ok (copy_lbrs src (set_w_task k dst)) /\ w_task (copy_lbrs src (set_w_task k dst)) = k /\
  sig_view (copy_lbrs src (set_w_task k dst)) = sig_view src.
Proof. intros [[? Hl] Hos] [[Hr ?] ?] Hn Hk. split; [|done]. split; [done|]. simpl. tauto. Qed.

(** A task that died is forgotten: the deferred half of its exit empties
    its slots in the three tables, and only its slots. *)
Theorem deferred_exit_forgets old s Ml Mc Ms Mb :
  old <> NULL -> tables_rel (k_tb s) Ml Mc Ms Mb ->
  exists s', do_deferred_exit old s = Done tt s' /\
    tables_rel (k_tb s') (delete old Ml) (delete old Mc) (delete old Ms) Mb.
Proof.
  intros Ho (Hl & Hc & Hs & Hb). unfold do_deferred_exit; krun. eexists; split; [done|].
  destruct wrapper_zero_ok as (? & ? & ?).
  split_and!; simpl; [by apply remove_task_rel..|done].
Qed.

Section props.
Context (md4 : list Z -> list Z) (jiffies_to_timeval : Z -> Z * Z).
Notation run_call := (Sys.run_call md4 jiffies_to_timeval).
Notation validate_lbr := (validate_lbr md4 jiffies_to_timeval).

(** ** Supervision *)

(** The hooks of the kernel functions, as opposed to the device's own calls. *)
Definition is_hook (c : Sys.call) : bool :=
  match c with
  | Sys.CSignal _ | Sys.CSigreturn | Sys.CExit | Sys.CExecve | Sys.CMmap _ | Sys.CMprotect _
  | Sys.CRead | Sys.CWrite | Sys.CSigaction => true
  | _ => false
  end.


(** ** Validation *)

(** The digest [validate_lbr] looks up for an LBR state. *)
Definition digest (l : lbr_t) : list Z := (Digest.hash_lbr md4 l (fun _ => 0)).1.

(** The JIT state an answer leaves behind: the digest is added for each of the
    three answers the analyzer gives. *)
Definition answered (h : list Z) (j : jit_state) : jit_state :=
  set_lock false (if decide (j_result j = 0 \/ j_result j = 2 \/ j_result j = 1)
                  then default j (jit_insert h j) else j).

(** C26. [validate_lbr] on every path.  Switched off, it does nothing.
    Otherwise it waits for the mutex; a digest found in the cache ends it;
    else the LBR state is published for the analyzer, the work semaphore is
    raised, and the task sleeps until an answer or a timeout.  A timeout
    switches validation off.  Every answer, the verdict "invalid" (0) included,
    puts the digest into the cache of accepted states, and nobody is killed.
    Every path ends with the mutex released. *)
Theorem validate_lbr_paths s :
  let l := Hw.get_lbr (cpu_msr s) lbr_zero in
  (j_disable (k_jit s) = true -> validate_lbr s = Done tt s) /\
  (j_disable (k_jit s) = false -> exists k1, validate_lbr s = Wait WLock s k1 /\
    forall d s1, 
    (jit_cached (digest l) (k_jit s1) = true -> exists s2, k1 (Granted d) s1 = Done tt s2 /\
       k_jit s2 = set_lock false (k_jit s1) /\ k_killed s2 = k_killed s1 /\ k_tb s2 = k_tb s1) /\
    (jit_cached (digest l) (k_jit s1) = false -> exists s2 k2, k1 (Granted d) s1 = Wait WResult s2 k2 /\
       k_jit s2 = set_work_cond (j_work_cond (k_jit s1) + 1) (set_work (Some l) (k_jit s1)) /\
       k_killed s2 = k_killed s1 /\ k_tb s2 = k_tb s1 /\
       forall d' s3, jit_wf (k_jit s3) ->
       (exists s4, k2 (Granted d') s3 = Done tt s4 /\
          k_jit s4 = answered (digest l) (k_jit s3) /\ k_killed s4 = k_killed s3 /\ k_tb s4 = k_tb s3) /\
       (exists s4, k2 Expired s3 = Done tt s4 /\
          k_jit s4 = set_lock false (set_disable true (k_jit s3)) /\ k_killed s4 = k_killed s3 /\ k_tb s4 = k_tb s3))).
Proof.
  cbv zeta. set (l := Hw.get_lbr (cpu_msr s) lbr_zero).
  assert (forall st, Digest.hash_lbr md4 l st = (digest l, ARMOR_STAT_INC St_digests st)) as Hh by done.
  unfold Armor.validate_lbr, validate_locked; krun. fold l. split; [by intros ->|]. intros ->. krun.
  eexists; split; [done|]. intros d s1. cbn [proc_bind]. rewrite Hh. cbn [proc_bind k_jit on_stats].
  split; intros Hc; rewrite Hc; cbn [proc_bind].
  - eexists; split; [done|]. done.
  - eexists _, _; split; [done|]. split; [done|]. split; [done|]. split; [done|].
    intros d' s3 Hj. unfold validate_reply; krun. split; [|eexists; split; [done|]; done].
    destruct (jit_insert_wf (digest l) _ Hj) as (j' & Hins & _).
    unfold validate_result, answered; krun. rewrite Hins. cbn [k_jit on_stats proc_bind default]. rewrite ?Hins.
    repeat case_decide; cbn [proc_bind k_jit on_stats]; rewrite ?Hins; cbn [proc_bind]; try (exfalso; tauto);
      eexists; (split; [reflexivity|]); done.
Qed.

(** A forked task starts as a copy of its parent: the module hooks it, and
    gives it the parent's pending library returns, callback frames and
    interrupted states, and the parent's LBR registers, to be loaded when the
    task is first switched in.  Nobody else's entries change. *)
Theorem fork_inherits t p s Ml Mc Ms Mb :
  t <> NULL -> p <> NULL -> t <> p -> tst_task p s = true ->
  tables_rel (k_tb s) Ml Mc Ms Mb -> room Ml Mc Ms Mb ->
  Ml !! p = None -> Mc !! p = None -> Ms !! p = None -> Mb !! p = None ->
  exists s', run_call t (Sys.CNewTask p) s = Done ok s' /\
    tables_rel (k_tb s') (inherit t p Ml) (inherit t p Mc) (inherit t p Ms)
      (<[p := set_l_task p (Hw.get_lbr (cpu_msr s) lbr_zero)]> Mb) /\
    t_hooked (task_of p s') = true /\ k_killed s' = k_killed s.
Proof.
  intros Ht Hp Htp Hsup (Hl & Hc & Hs & Hb) (Rl & Rc & Rs & Rb) Fl Fc Fs Fb.
  destruct (copy_rel _ _ _ copy_rets LIB_CACHE_SIZE _ _ t p copy_rets_keeps Hl (le_n _) Ht Hp Htp Fl Rl) as (dl & Hdl & Hl').
  destruct (copy_rel _ _ _ copy_both CBK_CACHE_SIZE _ _ t p copy_both_keeps Hc (le_n _) Ht Hp Htp Fc Rc) as (dc & Hdc & Hc').
  destruct (copy_rel _ _ _ copy_lbrs CBK_CACHE_SIZE _ _ t p copy_lbrs_keeps Hs (le_n _) Ht Hp Htp Fs Rs) as (ds & Hds & Hs').
  destruct (Cache.cache_rel_free _ _ Hb Rb) as (i & e & Hf).
  destruct (Cache.save_lbr_refines p (tb_cache (k_tb s)) Mb (cpu_msr s) Hp Hb Fb Rb) as (c' & ? & Hsave & _ & Hb').
  unfold Cache.save_lbr in Hsave. rewrite Hf in Hsave. apply (f_equal (fun x => x.1.1)) in Hsave. cbn [fst] in Hsave.
  cbn [Sys.run_call]. unfold new_wake_up_new_task, copy_tables, copy_lbr; krun. rewrite Hsup. krun.
  kproj. rewrite Hdl. krun. kproj. rewrite Hdc. krun. kproj. rewrite Hds. krun. kproj. rewrite Hf. krun.
  eexists. split; [done|]. split_and!; try done.
  - change (tables_rel (Tables (<[i := set_l_task p (Hw.get_lbr (cpu_msr s) e)]> (tb_cache (k_tb s))) dl dc ds)
      (inherit t p Ml) (inherit t p Mc) (inherit t p Ms) (<[p := set_l_task p (Hw.get_lbr (cpu_msr s) lbr_zero)]> Mb)).
    by rewrite Hsave.
  - change (t_hooked (task_of p (on_task p (set_hooked true) s)) = true). by rewrite task_of_on_task, decide_True.
Qed.


End props.

(** ** Instances *)

Lemma demo_tables : tables_rel (k_tb demo) ∅ ∅ ∅ ∅.
Proof.
  split_and!; [apply table_rel_init, wrapper_zero_ok..|apply Cache.cache_rel_init].
Qed.


Lemma validate_lbr_paths_witness :
  j_disable (k_jit demo) = false /\
  let l := Hw.get_lbr (cpu_msr demo) lbr_zero in
  (j_disable (k_jit demo) = true -> validate_lbr demo_md4 demo_time demo = Done tt demo) /\
  (j_disable (k_jit demo) = false -> exists k1, validate_lbr demo_md4 demo_time demo = Wait WLock demo k1 /\
    forall d s1,
    (jit_cached (digest demo_md4 l) (k_jit s1) = true -> exists s2, k1 (Granted d) s1 = Done tt s2 /\
       k_jit s2 = set_lock false (k_jit s1) /\ k_killed s2 = k_killed s1 /\ k_tb s2 = k_tb s1) /\
    (jit_cached (digest demo_md4 l) (k_jit s1) = false -> exists s2 k2, k1 (Granted d) s1 = Wait WResult s2 k2 /\
       k_jit s2 = set_work_cond (j_work_cond (k_jit s1) + 1) (set_work (Some l) (k_jit s1)) /\
       k_killed s2 = k_killed s1 /\ k_tb s2 = k_tb s1 /\
       forall d' s3, jit_wf (k_jit s3) ->
       (exists s4, k2 (Granted d') s3 = Done tt s4 /\
          k_jit s4 = answered (digest demo_md4 l) (k_jit s3) /\ k_killed s4 = k_killed s3 /\ k_tb s4 = k_tb s3) /\
       (exists s4, k2 Expired s3 = Done tt s4 /\
          k_jit s4 = set_lock false (set_disable true (k_jit s3)) /\ k_killed s4 = k_killed s3 /\ k_tb s4 = k_tb s3))).
Proof. split; [reflexivity|]. apply (validate_lbr_paths demo_md4 demo_time demo). Defined.

Lemma fork_inherits_witness :
  exists s', Sys.run_call demo_md4 demo_time 7 (Sys.CNewTask 9) demo = Done ok s' /\
    tables_rel (k_tb s') (inherit 7 9 ∅) (inherit 7 9 ∅) (inherit 7 9 ∅)
      (<[9 := set_l_task 9 (Hw.get_lbr (cpu_msr demo) lbr_zero)]> ∅) /\
    t_hooked (task_of 9 s') = true /\ k_killed s' = k_killed demo.
Proof.
  apply fork_inherits; [discriminate|discriminate|discriminate|reflexivity|apply demo_tables| |reflexivity..].
  split_and!; vm_compute; lia.
Defined.

Lemma deferred_exit_forgets_witness :
  exists s', do_deferred_exit 7 demo = Done tt s' /\
    tables_rel (k_tb s') (delete 7 ∅) (delete 7 ∅) (delete 7 ∅) ∅.
Proof. apply deferred_exit_forgets; [discriminate|apply demo_tables]. Defined.

