(* ===== verification/Intercept.v ===== *)
(** Patching the running kernel, lkm/intercept.c, and loading and unloading the
    module, [armor_init] and [armor_exit] of lkm/armor.c.

    Kernel text is bytes on pages; a write needs a writable page, and [None]
    is a fault.  The module's registrations are resources that are held or
    not; releasing one that is not held is a fault as well. *)

From S2P Require Import Prelude.

(** ** Kernel text *)

(** [i_mem]: bytes by address; [i_pte]: page-table entries by page;
    [i_irq]: interrupts enabled. *)
Record text := Text { i_mem : gmap Z Z; i_pte : gmap Z Z; i_irq : bool }.

Definition PAGE_SIZE : Z := 4096.
Definition page (a : Z) : Z := a / PAGE_SIZE.
Definition _PAGE_RW : Z := 2.

Definition byte_at (s : text) (a : Z) : Z := default 0 (i_mem s !! a).
Definition pte_of (s : text) (a : Z) : Z := default 0 (i_pte s !! page a).
Definition writable (s : text) (a : Z) : bool := Z.testbit (pte_of s a) 1.

Definition set_pte (a v : Z) (s : text) : text := Text (i_mem s) (<[page a := v]> (i_pte s)) (i_irq s).
Definition set_irq (b : bool) (s : text) : text := Text (i_mem s) (i_pte s) b.

(** A byte store by the kernel. *)
Definition poke (a b : Z) (s : text) : option text :=
  if writable s a then Some (Text (<[a := b]> (i_mem s)) (i_pte s) (i_irq s)) else None.

Fixpoint pokes (a : Z) (bs : list Z) (s : text) : option text :=
  match bs with
  | [] => Some s
  | b :: bs => s ← poke a b s; pokes (a + 1) bs s
  end.

Definition make_rw (address : Z) (s : text) : text :=
  let pte := pte_of s address in
  if c_true (Z.land pte (Z.lnot _PAGE_RW)) then set_pte address (Z.lor pte _PAGE_RW) s else s.

Definition make_ro (address : Z) (s : text) : text :=
  set_pte address (Z.land (pte_of s address) (Z.lnot _PAGE_RW)) s.

(** A relative jump: the displacement is stored first, then the opcode. *)
Definition synthesize_reljump (from to : Z) (s : text) : option text :=
  s ← pokes (from + 1) (le_bytes 4 (u32 (to - (from + 5)))) s;
  poke from 0xe9 s.

Section symbols.
(** The kernel's symbol table; 0 for a name it does not have. *)
Context (kallsyms_lookup_name : string -> Z).

Definition intercept_symbol (symbol : string) (jmp_dst jmp_back_src : Z) (s : text) : option (Z * text) :=
  let jmp_src := kallsyms_lookup_name symbol in
  if decide (jmp_src = NULL) then Some (-1, s) else
  let jmp_back_dst := jmp_src + 5 in
  let s := set_irq false s in
  let s := make_rw jmp_back_src (make_rw jmp_dst (make_rw jmp_src s)) in
  s ← synthesize_reljump jmp_src jmp_dst s;
  s ← synthesize_reljump jmp_back_src jmp_back_dst s;
  let s := make_ro jmp_back_src (make_ro jmp_dst (make_ro jmp_src s)) in
  Some (0, set_irq true s).

Definition restore_symbol (symbol : string) (s : text) : option (Z * text) :=
  let jmp_src := kallsyms_lookup_name symbol in
  if decide (jmp_src = NULL) then Some (-1, s) else
  let s := make_rw jmp_src (set_irq false s) in
  s ← pokes jmp_src [0x90; 0x90; 0x90; 0x90; 0x90] s;
  Some (0, set_irq true (make_ro jmp_src s)).

End symbols.

(** What the processor executes at an address that holds a relative jump. *)
Definition jump_target (s : text) (a : Z) : option Z :=
  if decide (byte_at s a = 0xe9) then
    Some (a + 5 + s32 (le_word ((fun i : nat => byte_at s (a + 1 + Z.of_nat i)) <$> seq 0 4)))
  else None.

(** ** The system call entry point *)

(** [i_lstar]: [MSR_LSTAR] of each CPU; [i_orig]: [syscall_orig]. *)
Record entry := Entry { i_lstar : list Z; i_orig : Z }.

Definition update_lstar (a : Z) (l : list Z) : list Z := (fun _ => a) <$> l.

(** [cpu]: where the module is being loaded. *)
Definition intercept_syscalls_init (cpu : nat) (syscall_new : Z) (s : entry) : Z * entry :=
  let value := i_lstar s !!! cpu in
  (0, Entry (update_lstar syscall_new (i_lstar s)) value).

Definition intercept_syscalls_exit (s : entry) : entry :=
  if decide (i_orig s = NULL) then s else Entry (update_lstar (i_orig s) (i_lstar s)) NULL.

(** ** Loading and unloading *)

(** What [armor_init] registers, apart from the two interceptions. *)
Inductive resource := Sysctl | Workqueue | ProbeNewTask | ProbeDoExit | ProbeExecve | Miscdev.

#[global] Instance resource_eq_dec : EqDecision resource.
Proof. solve_decision. Defined.

Record modstate := Mod { m_held : list resource; m_entry : entry; m_text : text }.

Definition hold (r : resource) (s : modstate) : modstate := Mod (r :: m_held s) (m_entry s) (m_text s).
Definition release (r : resource) (s : modstate) : option modstate :=
  if decide (r ∈ m_held s) then Some (Mod (filter (fun x => x <> r) (m_held s)) (m_entry s) (m_text s)) else None.
Definition set_entry (e : entry) (s : modstate) : modstate := Mod (m_held s) e (m_text s).
Definition set_text (t : text) (s : modstate) : modstate := Mod (m_held s) (m_entry s) t.

(** What the kernel answers while the module loads. *)
Record init_env := InitEnv {
  ie_grant : resource -> bool;
  ie_symbol : string -> Z;
  ie_cpu : nat;
  ie_syscall_new : Z;
  ie_pre_signal_delivered : Z;
  ie_pre_signal_delivered_exit : Z
}.

Section init.
Context (e : init_env).

(** The labels at the end of [armor_init]; control falls through them. *)
Definition err_unroll_register_sysctl (s : modstate) : option (Z * modstate) :=
  s ← release Sysctl s; Some (-1, s).
Definition err_unroll_workqueue (s : modstate) : option (Z * modstate) :=
  s ← release Workqueue s; err_unroll_register_sysctl s.
Definition err_unroll_register_new_task (s : modstate) : option (Z * modstate) :=
  s ← release ProbeNewTask s; err_unroll_workqueue s.
Definition err_unroll_register_do_exit (s : modstate) : option (Z * modstate) :=
  s ← release ProbeDoExit s; err_unroll_register_new_task s.
Definition err_unroll_register_execve (s : modstate) : option (Z * modstate) :=
  s ← release ProbeExecve s; err_unroll_register_do_exit s.
Definition err_unroll_intercept_syscalls (s : modstate) : option (Z * modstate) :=
  err_unroll_register_execve (set_entry (intercept_syscalls_exit (m_entry s)) s).
Definition err_unroll_intercept_signal_delivered (s : modstate) : option (Z * modstate) :=
  '(_, t) ← restore_symbol (ie_symbol e) "signal_delivered" (m_text s);
  err_unroll_intercept_syscalls (set_text t s).

Definition armor_init (s : modstate) : option (Z * modstate) :=
  if negb (ie_grant e Sysctl) then Some (-1, s) else
  let s := hold Sysctl s in
  if negb (ie_grant e Workqueue) then err_unroll_register_sysctl s else
  let s := hold Workqueue s in
  if decide (ie_symbol e "wake_up_new_task" = NULL) then err_unroll_workqueue s else
  if decide (ie_symbol e "do_exit" = NULL) then err_unroll_workqueue s else
  if decide (ie_symbol e "sys_execve" = NULL) then err_unroll_workqueue s else
  if negb (ie_grant e ProbeNewTask) then err_unroll_workqueue s else
  let s := hold ProbeNewTask s in
  if negb (ie_grant e ProbeDoExit) then err_unroll_register_new_task s else
  let s := hold ProbeDoExit s in
  if negb (ie_grant e ProbeExecve) then err_unroll_register_do_exit s else
  let s := hold ProbeExecve s in
  let '(r, en) := intercept_syscalls_init (ie_cpu e) (ie_syscall_new e) (m_entry s) in
  let s := set_entry en s in
  if decide (r < 0) then err_unroll_register_execve s else
  '(r, t) ← intercept_symbol (ie_symbol e) "signal_delivered" (ie_pre_signal_delivered e)
              (ie_pre_signal_delivered_exit e) (m_text s);
  let s := set_text t s in
  if decide (r < 0) then err_unroll_intercept_syscalls s else
  if negb (ie_grant e Miscdev) then err_unroll_intercept_signal_delivered s else
  Some (0, hold Miscdev s).

Definition armor_exit (s : modstate) : option modstate :=
  '(_, t) ← restore_symbol (ie_symbol e) "signal_delivered" (m_text s);
  let s := set_text t s in
  let s := set_entry (intercept_syscalls_exit (m_entry s)) s in
  s ← release ProbeExecve s;
  s ← release ProbeDoExit s;
  s ← release ProbeNewTask s;
  s ← release Workqueue s;
  s ← release Sysctl s;
  release Miscdev s.

End init.

(** ** Stores *)

Definition present (s : text) (a : Z) : Prop := Z.testbit (pte_of s a) 0 = true.

(** Five bytes from [a] lie on one page. *)
Definition fits (a : Z) : Prop := page (a + 4) = page a.

Lemma fits_page a x : fits a -> a <= x < a + 5 -> page x = page a.
Proof. unfold fits, page, PAGE_SIZE. intros. Z.div_mod_to_equations. lia. Qed.

Lemma pte_of_set a b v s : pte_of (set_pte a v s) b = if decide (page b = page a) then v else pte_of s b.
Proof.
  unfold pte_of, set_pte; cbn [i_pte]. case_decide as Hd.
  - by rewrite Hd, lookup_insert_eq.
  - by rewrite lookup_insert_ne.
Qed.

Lemma make_rw_present a s : present s a -> make_rw a s = set_pte a (Z.lor (pte_of s a) _PAGE_RW) s.
Proof.
  unfold present, make_rw, c_true. intros Hp. destruct (Z.eqb_spec (Z.land (pte_of s a) (Z.lnot _PAGE_RW)) 0) as [Hz|]; [|done].
  exfalso. apply (f_equal (fun z => Z.testbit z 0)) in Hz. rewrite Z.land_spec, Hp in Hz. done.
Qed.

(** [make_rw] only adds permissions. *)
Lemma make_rw_spec a b s : present s a ->
  (present s b -> present (make_rw a s) b) /\ (page b = page a -> writable (make_rw a s) b = true) /\
  (writable s b = true -> writable (make_rw a s) b = true) /\
  i_mem (make_rw a s) = i_mem s /\ i_irq (make_rw a s) = i_irq s.
Proof.
  intros Hp. rewrite make_rw_present by done. unfold present, writable. rewrite !pte_of_set.
  split_and!; try done.
  - intros Hb. case_decide; [|done]. rewrite Z.lor_spec. unfold present in Hp. by rewrite Hp.
  - intros Hb. rewrite decide_True, Z.lor_spec by done. apply orb_true_r.
  - intros Hb. case_decide as Hd; [|done]. rewrite Z.lor_spec. apply orb_true_r.
Qed.

Lemma make_ro_spec a b s :
  writable (make_ro a s) b = (if decide (page b = page a) then false else writable s b) /\
  i_mem (make_ro a s) = i_mem s.
Proof.
  split; [|done]. unfold writable, make_ro. rewrite pte_of_set. case_decide; [|done].
  rewrite Z.land_spec. apply andb_false_r.
Qed.

Lemma make_ro_present a b s : present s b -> present (make_ro a s) b.
Proof.
  unfold present, make_ro. rewrite pte_of_set. intros Hp. case_decide as Hd; [|done].
  rewrite Z.land_spec. unfold pte_of in *. rewrite Hd in Hp. by rewrite Hp.
Qed.

Lemma pokes_spec bs : forall a s,
  (forall x, a <= x < a + Z.of_nat (length bs) -> writable s x = true) ->
  exists s', pokes a bs s = Some s' /\ i_pte s' = i_pte s /\ i_irq s' = i_irq s /\
    forall x, byte_at s' x = if decide (a <= x < a + Z.of_nat (length bs)) then bs !!! Z.to_nat (x - a) else byte_at s x.
Proof.
  induction bs as [|b bs IH]; intros a s Hw; cbn [pokes].
  - exists s. split_and!; try done. intros x. rewrite decide_False by (simpl; lia). done.
  - unfold poke. rewrite Hw by (simpl; lia). cbn [mbind option_bind].
    destruct (IH (a + 1) (Text (<[a := b]> (i_mem s)) (i_pte s) (i_irq s))) as (s' & -> & Hp & Hi & Hb).
    { intros x Hx. apply (Hw x). simpl in *. lia. }
    exists s'. split_and!; try done. intros x. rewrite Hb. cbn [length].
    destruct (decide (x = a)) as [->|Hne].
    + rewrite decide_False, decide_True by lia. rewrite Z.sub_diag. unfold byte_at; cbn [i_mem].
      by rewrite lookup_insert_eq.
    + repeat case_decide; try lia.
      * replace (Z.to_nat (x - a)) with (S (Z.to_nat (x - (a + 1)))) by lia. done.
      * unfold byte_at; cbn [i_mem]. by rewrite lookup_insert_ne.
Qed.

Lemma pokes_poke a b bs s : pokes a (b :: bs) s = (s ← pokes a [b] s; pokes (a + 1) bs s).
Proof. cbn [pokes]. by destruct (poke a b s). Qed.

(** The jump as five bytes. *)
Definition jump_bytes (from to : Z) : list Z := 0xe9 :: le_bytes 4 (u32 (to - (from + 5))).

Lemma synthesize_spec from to s :
  (forall x, from <= x < from + 5 -> writable s x = true) ->
  exists s', synthesize_reljump from to s = Some s' /\ i_pte s' = i_pte s /\ i_irq s' = i_irq s /\
    forall x, byte_at s' x = if decide (from <= x < from + 5) then jump_bytes from to !!! Z.to_nat (x - from) else byte_at s x.
Proof.
  intros Hw. unfold synthesize_reljump.
  destruct (pokes_spec (le_bytes 4 (u32 (to - (from + 5)))) (from + 1) s) as (s1 & -> & Hp1 & Hi1 & Hb1).
  { rewrite length_le_bytes. intros x Hx. apply Hw. lia. }
  cbn [mbind option_bind]. rewrite length_le_bytes in Hb1. change (Z.of_nat 4) with 4 in Hb1.
  destruct (pokes_spec [0xe9] from s1) as (s2 & Hs2 & Hp2 & Hi2 & Hb2).
  { intros x Hx. unfold writable, pte_of. rewrite Hp1. apply (Hw x). simpl in *. lia. }
  cbn [pokes] in Hs2. destruct (poke from 0xe9 s1) as [s2'|]; [|done]. injection Hs2 as ->.
  exists s2. split_and!; try congruence. intros x. rewrite Hb2, Hb1. simpl length.
  repeat case_decide; try lia; try done.
  - by replace x with from by lia; rewrite Z.sub_diag.
  - by replace (Z.to_nat (x - from)) with (S (Z.to_nat (x - (from + 1)))) by lia.
Qed.

Lemma jump_bytes_target s from to :
  (forall x, from <= x < from + 5 -> byte_at s x = jump_bytes from to !!! Z.to_nat (x - from)) ->
  jump_target s from = Some (from + 5 + s32 (to - (from + 5))).
Proof.
  intros Hb. unfold jump_target. rewrite decide_True by (rewrite Hb, Z.sub_diag by lia; done).
  do 2 f_equal.
  assert ((fun i : nat => byte_at s (from + 1 + Z.of_nat i)) <$> seq 0 4 = le_bytes 4 (u32 (to - (from + 5)))) as ->.
  { rewrite <- (length_le_bytes 4 (u32 (to - (from + 5)))) at 1. apply fmap_seq_lookup. rewrite length_le_bytes.
    intros i Hi. rewrite Hb by lia.
    replace (Z.to_nat (from + 1 + Z.of_nat i - from)) with (S i) by lia. done. }
  rewrite le_word_bytes by (unfold u32; apply Z.mod_pos_bound; lia).
  unfold s32, u32. by rewrite Z.mod_mod by lia.
Qed.

Lemma s32_small z : - 2 ^ 31 <= z < 2 ^ 31 -> s32 z = z.
Proof.
  intros Hz. unfold s32, u32. destruct (decide (0 <= z)) as [Hp|Hn].
  - rewrite Z.mod_small by lia. by rewrite decide_True by lia.
  - rewrite <- (Z_mod_plus_full z 1), Z.mod_small by lia. rewrite decide_False by lia. lia.
Qed.

(** ** Properties *)

(** A synthesized jump goes where it should, when the target is within
    reach of a signed 32-bit displacement; beyond, the displacement is
    truncated and the jump lands elsewhere.  No other byte changes. *)
Theorem reljump_target from to s :
  (forall x, from <= x < from + 5 -> writable s x = true) ->
  exists s', synthesize_reljump from to s = Some s' /\
    jump_target s' from = Some (from + 5 + s32 (to - (from + 5))) /\
    (jump_target s' from = Some to <-> - 2 ^ 31 <= to - (from + 5) < 2 ^ 31) /\
    forall x, ~ (from <= x < from + 5) -> byte_at s' x = byte_at s x.
Proof.
  intros Hw. destruct (synthesize_spec from to s Hw) as (s' & Hs & _ & _ & Hb).
  assert (jump_target s' from = Some (from + 5 + s32 (to - (from + 5)))) as Hj.
  { apply jump_bytes_target. intros x Hx. by rewrite Hb, decide_True. }
  exists s'. split_and!; [done|done| |intros x Hx; by rewrite Hb, decide_False].
  rewrite Hj. split.
  - intros [= He]. assert (- 2 ^ 31 <= s32 (to - (from + 5)) < 2 ^ 31); [|lia].
    unfold s32. pose proof (Z.mod_pos_bound (to - (from + 5)) (2 ^ 32)). unfold u32. case_decide; lia.
  - intros Hr. rewrite s32_small by done. f_equal. lia.
Qed.

Lemma reljump_target_witness :
  let s := Text ∅ {[ 1 := 3 ]} true in
  exists s', synthesize_reljump 4096 5000 s = Some s' /\
    jump_target s' 4096 = Some (4096 + 5 + s32 (5000 - (4096 + 5))) /\
    (jump_target s' 4096 = Some 5000 <-> - 2 ^ 31 <= 5000 - (4096 + 5) < 2 ^ 31) /\
    forall x, ~ (4096 <= x < 4096 + 5) -> byte_at s' x = byte_at s x.
Proof.
  apply reljump_target. intros x Hx. unfold writable, pte_of, page, PAGE_SIZE.
  replace (x / 4096) with 1 by (apply (Z.div_unique x 4096 1 (x - 4096)); lia). reflexivity.
Defined.

(** Where a symbol's interception patches: present pages, no instruction
    across a page boundary, two disjoint places. *)
Record patchable (src dst back : Z) (s : text) : Prop := {
  pa_present : present s src /\ present s dst /\ present s back;
  pa_fits : fits src /\ fits back;
  pa_disjoint : src + 5 <= back \/ back + 5 <= src;
  pa_reach : - 2 ^ 31 <= dst - (src + 5) < 2 ^ 31 /\ - 2 ^ 31 <= src - back < 2 ^ 31
}.

Lemma intercept_symbol_spec kallsyms sym dst back s :
  let src := kallsyms sym in
  src <> NULL -> patchable src dst back s ->
  exists s', intercept_symbol kallsyms sym dst back s = Some (0, s') /\
    (forall x, byte_at s' x =
      if decide (src <= x < src + 5) then jump_bytes src dst !!! Z.to_nat (x - src)
      else if decide (back <= x < back + 5) then jump_bytes back (src + 5) !!! Z.to_nat (x - back)
      else byte_at s x) /\
    present s' src /\
    writable s' src = false /\ writable s' dst = false /\ writable s' back = false /\ i_irq s' = true.
Proof.
  intros src Hsrc [(Ps & Pd & Pb) [Fs Fb] Hdis _]. unfold intercept_symbol. fold src. rewrite decide_False by done.
  set (s0 := set_irq false s). set (s1 := make_rw src s0). set (s2 := make_rw dst s1). set (s3 := make_rw back s2).
  assert (present s0 src /\ present s0 dst /\ present s0 back) as (P0s & P0d & P0b) by done.
  destruct (make_rw_spec src dst s0 P0s) as (P1d & _ & _ & M1 & _).
  destruct (make_rw_spec src back s0 P0s) as (P1b & _). specialize (P1d P0d). specialize (P1b P0b).
  destruct (make_rw_spec dst back s1 P1d) as (P2b & _ & _ & M2 & _). specialize (P2b P1b).
  assert (i_mem s3 = i_mem s) as M3.
  { destruct (make_rw_spec back src s2 P2b) as (_ & _ & _ & M & _). unfold s3. rewrite M. unfold s2. rewrite M2. exact M1. }
  assert (forall x, src <= x < src + 5 -> writable s3 x = true) as Ws.
  { intros x Hx. destruct (make_rw_spec src x s0 P0s) as (_ & W & _). apply make_rw_spec; [done|].
    apply make_rw_spec; [done|]. by apply W, fits_page. }
  assert (forall x, back <= x < back + 5 -> writable s3 x = true) as Wb.
  { intros x Hx. destruct (make_rw_spec back x s2 P2b) as (_ & W & _). by apply W, fits_page. }
  destruct (synthesize_spec src dst s3 Ws) as (s4 & -> & Hp4 & _ & Hb4). cbn [mbind option_bind].
  destruct (synthesize_spec back (src + 5) s4) as (s5 & -> & Hp5 & _ & Hb5).
  { intros x Hx. unfold writable, pte_of. rewrite Hp4. by apply Wb. }
  cbn [mbind option_bind]. eexists. split; [done|]. split_and!; try done.
  - intros x. transitivity (byte_at s5 x); [done|]. rewrite Hb5, Hb4.
    assert (byte_at s3 x = byte_at s x) as -> by (unfold byte_at; by rewrite M3).
    repeat case_decide; try lia; done.
  - change (present (make_ro back (make_ro dst (make_ro src s5))) src). do 3 apply make_ro_present.
    unfold present, pte_of. rewrite Hp5, Hp4. apply make_rw_spec; [done|]. apply make_rw_spec; [done|].
    by apply make_rw_spec.
  - change (writable (make_ro back (make_ro dst (make_ro src s5))) src = false).
    rewrite !(proj1 (make_ro_spec _ _ _)). repeat case_decide; try done; lia.
  - change (writable (make_ro back (make_ro dst (make_ro src s5))) dst = false).
    rewrite !(proj1 (make_ro_spec _ _ _)). repeat case_decide; try done; lia.
  - change (writable (make_ro back (make_ro dst (make_ro src s5))) back = false).
    rewrite (proj1 (make_ro_spec _ _ _)). by rewrite decide_True.
Qed.

Lemma restore_symbol_spec kallsyms sym s :
  let src := kallsyms sym in
  src <> NULL -> present s src -> fits src ->
  exists s', restore_symbol kallsyms sym s = Some (0, s') /\
    (forall x, byte_at s' x = if decide (src <= x < src + 5) then 0x90 else byte_at s x) /\
    i_irq s' = true.
Proof.
  intros src Hsrc Hp Hf. unfold restore_symbol. fold src. rewrite decide_False by done.
  set (s0 := set_irq false s). assert (present s0 src) as Hp0 by done.
  destruct (pokes_spec [0x90; 0x90; 0x90; 0x90; 0x90] src (make_rw src s0)) as (s1 & -> & _ & _ & Hb).
  { intros x Hx. destruct (make_rw_spec src x s0 Hp0) as (_ & W & _). apply W, fits_page; [done|]. simpl in Hx. lia. }
  cbn [mbind option_bind]. eexists. split; [done|]. split; [|done]. intros x.
  transitivity (byte_at s1 x); [done|]. rewrite Hb. simpl length. change (Z.of_nat 5) with 5.
  case_decide as Hd.
  - change [0x90; 0x90; 0x90; 0x90; 0x90] with (replicate 5 0x90). by rewrite lookup_total_replicate_2 by lia.
  - unfold byte_at. by rewrite (proj1 (proj2 (proj2 (proj2 (make_rw_spec src src s0 Hp0))))).
Qed.

(** An intercepted kernel function first runs the interceptor and then
    continues behind the five patched bytes; nothing else is patched, and all
    three pages end up write-protected with interrupts enabled. *)
Theorem intercept_symbol_jumps kallsyms sym dst back s :
  let src := kallsyms sym in
  src <> NULL -> patchable src dst back s ->
  exists s', intercept_symbol kallsyms sym dst back s = Some (0, s') /\
    jump_target s' src = Some dst /\ jump_target s' back = Some (src + 5) /\
    (forall x, ~ (src <= x < src + 5) -> ~ (back <= x < back + 5) -> byte_at s' x = byte_at s x) /\
    writable s' src = false /\ writable s' dst = false /\ writable s' back = false /\ i_irq s' = true.
Proof.
  intros src Hsrc Hp. destruct (intercept_symbol_spec kallsyms sym dst back s Hsrc Hp) as (s' & Hs & Hb & _ & Hrest).
  fold src in Hb. destruct Hp as [_ _ Hdis [R1 R2]]. exists s'. split_and!; try apply Hrest; [done| | |].
  - rewrite (jump_bytes_target s' src dst); [|intros x Hx; by rewrite Hb, decide_True].
    rewrite s32_small by done. f_equal. lia.
  - rewrite (jump_bytes_target s' back (src + 5)); [|intros x Hx; rewrite Hb, decide_False, decide_True by lia; done].
    rewrite s32_small by lia. f_equal. lia.
  - intros x H1 H2. by rewrite Hb, !decide_False.
Qed.

Definition demo_text : text := Text ∅ {[ 1 := 1; 2 := 1 ]} true.
Definition demo_syms (s : string) : Z := if decide (s = "signal_delivered"%string) then 4096 else 12345.

Lemma demo_patchable : patchable 4096 8192 8300 demo_text.
Proof.
  split.
  - repeat split; reflexivity.
  - split; reflexivity.
  - left. lia.
  - lia.
Qed.

Lemma intercept_symbol_jumps_witness :
  exists s', intercept_symbol demo_syms "signal_delivered" 8192 8300 demo_text = Some (0, s') /\
    jump_target s' 4096 = Some 8192 /\ jump_target s' 8300 = Some (4096 + 5) /\
    (forall x, ~ (4096 <= x < 4096 + 5) -> ~ (8300 <= x < 8300 + 5) -> byte_at s' x = byte_at demo_text x) /\
    writable s' 4096 = false /\ writable s' 8192 = false /\ writable s' 8300 = false /\ i_irq s' = true.
Proof. apply (intercept_symbol_jumps demo_syms); [discriminate|apply demo_patchable]. Defined.

Lemma update_lstar_same a l : Forall (fun x => x = a) l -> update_lstar a l = l.
Proof. unfold update_lstar. induction 1 as [|x l -> _ IH]; [done|]. by rewrite fmap_cons, IH. Qed.

Lemma update_lstar_twice a b l : update_lstar a (update_lstar b l) = update_lstar a l.
Proof. unfold update_lstar. by rewrite <- list_fmap_compose. Qed.

(** Intercepting the system call entry point and giving it back.  While the
    module is loaded every CPU enters at the module's handler; when all CPUs
    had the same entry point before (and it was not null), unloading restores
    it everywhere, and doing so twice changes nothing. *)
Theorem syscall_entry_roundtrip cpu new s a :
  (cpu < length (i_lstar s))%nat -> a <> NULL -> Forall (fun x => x = a) (i_lstar s) ->
  let s1 := (intercept_syscalls_init cpu new s).2 in
  Forall (fun x => x = new) (i_lstar s1) /\
  i_lstar (intercept_syscalls_exit s1) = i_lstar s /\
  intercept_syscalls_exit (intercept_syscalls_exit s1) = intercept_syscalls_exit s1.
Proof.
  intros Hc Ha Hall. unfold intercept_syscalls_init. cbn [snd].
  assert (i_lstar s !!! cpu = a) as Hv.
  { destruct (lookup_lt_is_Some_2 _ _ Hc) as [x Hx]. rewrite (list_lookup_total_correct _ _ _ Hx).
    by eapply Forall_lookup_1 in Hall. }
  split_and!; cbn [i_lstar].
  - apply Forall_fmap, Forall_true. done.
  - unfold intercept_syscalls_exit; cbn [i_orig i_lstar]. rewrite Hv, decide_False by done. cbn [i_lstar].
    rewrite update_lstar_twice. by apply update_lstar_same.
  - assert (forall l, intercept_syscalls_exit (Entry l NULL) = Entry l NULL) as Hid
      by (intros; unfold intercept_syscalls_exit; by rewrite decide_True).
    unfold intercept_syscalls_exit at 2 3; cbn [i_orig i_lstar]. rewrite Hv, decide_False by done. apply Hid.
Qed.

Lemma syscall_entry_roundtrip_witness :
  let s := Entry [0x81400000; 0x81400000] NULL in
  let s1 := (intercept_syscalls_init 1 0xa0001000 s).2 in
  Forall (fun x => x = 0xa0001000) (i_lstar s1) /\
  i_lstar (intercept_syscalls_exit s1) = i_lstar s /\
  intercept_syscalls_exit (intercept_syscalls_exit s1) = intercept_syscalls_exit s1.
Proof. apply (syscall_entry_roundtrip 1 0xa0001000 _ 0x81400000); [simpl; lia|discriminate|repeat constructor]. Defined.

(** *** Loading *)

Definition quiet (s : modstate) (a : Z) (cpu : nat) : Prop :=
  m_held s = [] /\ i_orig (m_entry s) = NULL /\ a <> NULL /\ Forall (fun x => x = a) (i_lstar (m_entry s)) /\
  (cpu < length (i_lstar (m_entry s)))%nat.

Definition loadable (e : init_env) (s : modstate) : Prop :=
  ie_symbol e "signal_delivered" <> NULL ->
  patchable (ie_symbol e "signal_delivered") (ie_pre_signal_delivered e) (ie_pre_signal_delivered_exit e) (m_text s).

Definition all_held : list resource := [Miscdev; ProbeExecve; ProbeDoExit; ProbeNewTask; Workqueue; Sysctl].

Lemma syscalls_undo cpu new en a :
  i_orig en = NULL -> a <> NULL -> Forall (fun x => x = a) (i_lstar en) -> (cpu < length (i_lstar en))%nat ->
  intercept_syscalls_exit (intercept_syscalls_init cpu new en).2 = en.
Proof.
  intros Ho Ha Hall Hc. destruct en as [l o]; simpl in *. subst o.
  destruct (lookup_lt_is_Some_2 _ _ Hc) as [x Hx]. unfold intercept_syscalls_init, intercept_syscalls_exit. cbn [snd i_orig i_lstar].
  rewrite (list_lookup_total_correct _ _ _ Hx).
  assert (x = a) as -> by (by eapply Forall_lookup_1 in Hall). rewrite decide_False by done. f_equal.
  rewrite update_lstar_twice. by apply update_lstar_same.
Qed.

(** The text after a failed load: untouched, or the symbol's first five bytes
    are single-byte NOPs and the interceptor's tail holds a jump. *)
Definition text_undone (e : init_env) (t t' : text) : Prop :=
  forall x, byte_at t' x = byte_at t x \/
    (ie_symbol e "signal_delivered" <= x < ie_symbol e "signal_delivered" + 5 /\ byte_at t' x = 0x90) \/
    ie_pre_signal_delivered_exit e <= x < ie_pre_signal_delivered_exit e + 5.

(** Releasing from a list of held resources known outright. *)
Ltac rel := unfold err_unroll_intercept_syscalls, err_unroll_register_execve, err_unroll_register_do_exit,
    err_unroll_register_new_task, err_unroll_workqueue, err_unroll_register_sysctl, release, hold, set_entry, set_text;
  repeat (cbn [m_held m_entry m_text mbind option_bind];
          first [rewrite decide_True by set_solver
                |match goal with |- context [filter ?P ?l] =>
                   let l' := eval vm_compute in (filter P l) in change (filter P l) with l' end]);
  cbn [m_held m_entry m_text mbind option_bind].

(** The requests before the first interception. *)
Definition early_ok (e : init_env) : bool :=
  ie_grant e Sysctl && ie_grant e Workqueue &&
  bool_decide (ie_symbol e "wake_up_new_task" <> NULL) && bool_decide (ie_symbol e "do_exit" <> NULL) &&
  bool_decide (ie_symbol e "sys_execve" <> NULL) &&
  ie_grant e ProbeNewTask && ie_grant e ProbeDoExit && ie_grant e ProbeExecve.

(** [armor_init] from a state that holds nothing, with the unwinding done. *)
Lemma armor_init_alt e en t :
  armor_init e (Mod [] en t) =
    if early_ok e then
      let en1 := (intercept_syscalls_init (ie_cpu e) (ie_syscall_new e) en).2 in
      '(r, t1) ← intercept_symbol (ie_symbol e) "signal_delivered" (ie_pre_signal_delivered e)
                   (ie_pre_signal_delivered_exit e) t;
      if decide (r < 0) then Some (-1, Mod [] (intercept_syscalls_exit en1) t1)
      else if ie_grant e Miscdev then Some (0, Mod all_held en1 t1)
      else '(_, t2) ← restore_symbol (ie_symbol e) "signal_delivered" t1;
           Some (-1, Mod [] (intercept_syscalls_exit en1) t2)
    else Some (-1, Mod [] en t).
Proof.
  unfold armor_init, early_ok.
  destruct (ie_grant e Sysctl); cbn [negb andb]; [|done].
  destruct (ie_grant e Workqueue); cbn [negb andb]; [|by rel].
  destruct (decide (ie_symbol e "wake_up_new_task" = NULL)) as [E|E];
    [rewrite bool_decide_false by (by intros []); cbn [andb]; by rel|rewrite bool_decide_true by done; cbn [andb]; clear E].
  destruct (decide (ie_symbol e "do_exit" = NULL)) as [E|E];
    [rewrite bool_decide_false by (by intros []); cbn [andb]; by rel|rewrite bool_decide_true by done; cbn [andb]; clear E].
  destruct (decide (ie_symbol e "sys_execve" = NULL)) as [E|E];
    [rewrite bool_decide_false by (by intros []); cbn [andb]; by rel|rewrite bool_decide_true by done; cbn [andb]; clear E].
  destruct (ie_grant e ProbeNewTask); cbn [negb andb]; [|by rel].
  destruct (ie_grant e ProbeDoExit); cbn [negb andb]; [|by rel].
  destruct (ie_grant e ProbeExecve); cbn [negb andb]; [|by rel].
  unfold intercept_syscalls_init; cbn [fst snd]. rewrite (decide_False (P := 0 < 0)) by lia.
  cbn [m_text set_entry hold].
  destruct (intercept_symbol _ _ _ _ t) as [[r t1]|]; cbn [mbind option_bind]; [|done].
  case_decide; [by rel|]. destruct (ie_grant e Miscdev); cbn [negb]; [done|].
  unfold err_unroll_intercept_signal_delivered; cbn [m_text set_text].
  destruct (restore_symbol _ _ t1) as [[r2 t2]|]; cbn [mbind option_bind]; [|done]. by rel.
Qed.

(** Unloading from the fully loaded state. *)
Lemma armor_exit_alt e en t :
  armor_exit e (Mod all_held en t) =
    '(_, t1) ← restore_symbol (ie_symbol e) "signal_delivered" t; Some (Mod [] (intercept_syscalls_exit en) t1).
Proof.
  unfold armor_exit; cbn [m_text]. destruct (restore_symbol _ _ t) as [[r t1]|]; cbn [mbind option_bind]; [|done].
  unfold all_held. by rel.
Qed.

(** Patching and then restoring the symbol. *)
Lemma patch_undone e t t1 :
  let sym := ie_symbol e "signal_delivered" in
  sym <> NULL -> patchable sym (ie_pre_signal_delivered e) (ie_pre_signal_delivered_exit e) t ->
  intercept_symbol (ie_symbol e) "signal_delivered" (ie_pre_signal_delivered e) (ie_pre_signal_delivered_exit e) t = Some (0, t1) ->
  exists t2, restore_symbol (ie_symbol e) "signal_delivered" t1 = Some (0, t2) /\ text_undone e t t2.
Proof.
  intros sym Hs Hp Hi. destruct (intercept_symbol_spec _ _ _ _ _ Hs Hp) as (t1' & Hi' & Hb & Hpr & _).
  rewrite Hi in Hi'. injection Hi' as <-.
  destruct (restore_symbol_spec (ie_symbol e) "signal_delivered" t1 Hs Hpr (proj1 (pa_fits _ _ _ _ Hp))) as (t2 & Hr & Hb2 & _).
  exists t2. split; [done|]. intros x. rewrite Hb2, Hb. fold sym. repeat case_decide; auto.
Qed.

(** C29. Loading the module is all or nothing.  Whatever the kernel refuses,
    [armor_init] either succeeds with every hook in place (the six
    registrations, the system call entry of every CPU, the patched
    [signal_delivered]), or returns -1 having released exactly what it had
    acquired and restored the system call entries; it never releases what it
    does not hold.  Unloading after success releases everything. *)
Theorem armor_init_all_or_nothing e s a :
  quiet s a (ie_cpu e) -> loadable e s ->
  exists r s', armor_init e s = Some (r, s') /\
   ((r = 0 /\ m_held s' = all_held /\ Forall (fun x => x = ie_syscall_new e) (i_lstar (m_entry s')) /\
     jump_target (m_text s') (ie_symbol e "signal_delivered") = Some (ie_pre_signal_delivered e) /\
     exists s'', armor_exit e s' = Some s'' /\ m_held s'' = [] /\ m_entry s'' = m_entry s /\
       text_undone e (m_text s) (m_text s'')) \/
    (r = -1 /\ m_held s' = [] /\ m_entry s' = m_entry s /\ text_undone e (m_text s) (m_text s'))).
Proof.
  intros (Hh & Ho & Ha & Hall & Hc) Hl. destruct s as [held en t]; cbn [m_held m_entry m_text] in *. subst held.
  pose proof (syscalls_undo (ie_cpu e) (ie_syscall_new e) en a Ho Ha Hall Hc) as Hundo.
  rewrite armor_init_alt. destruct (early_ok e); [|eexists _, _; split; [done|]; right; split_and!; try done; by left].
  cbv zeta. destruct (decide (ie_symbol e "signal_delivered" = NULL)) as [Hn|Hn].
  - unfold intercept_symbol. rewrite decide_True by done. cbn [mbind option_bind]. rewrite decide_True by lia.
    eexists _, _; split; [done|]. right. split_and!; try done. by left.
  - specialize (Hl Hn). cbn [m_text] in Hl. destruct (intercept_symbol_spec _ _ _ _ _ Hn Hl) as (t1 & Hi & Hb & _).
    destruct (patch_undone e t t1 Hn Hl Hi) as (t2 & Hr & Hu). rewrite Hi. cbn [mbind option_bind].
    rewrite (decide_False (P := 0 < 0)) by lia. destruct (ie_grant e Miscdev).
    + eexists _, _; split; [done|]. left. cbn [m_held m_entry m_text]. split_and!; try done.
      * apply Forall_fmap, Forall_true. done.
      * rewrite (jump_bytes_target _ _ (ie_pre_signal_delivered e)); [|intros x Hx; by rewrite Hb, decide_True].
        rewrite s32_small by apply Hl. f_equal. lia.
      * rewrite armor_exit_alt, Hr. cbn [mbind option_bind]. eexists; split; [done|]. done.
    + rewrite Hr. cbn [mbind option_bind]. eexists _, _; split; [done|]. right. done.
Qed.

Definition demo_init_env : init_env := InitEnv (fun r => bool_decide (r <> Miscdev)) demo_syms 0 0xa0001000 8192 8300.

Lemma armor_init_all_or_nothing_witness :
  let s := Mod [] (Entry [0x81400000] NULL) demo_text in
  exists r s', armor_init demo_init_env s = Some (r, s') /\
   ((r = 0 /\ m_held s' = all_held /\ Forall (fun x => x = ie_syscall_new demo_init_env) (i_lstar (m_entry s')) /\
     jump_target (m_text s') (ie_symbol demo_init_env "signal_delivered") = Some (ie_pre_signal_delivered demo_init_env) /\
     exists s'', armor_exit demo_init_env s' = Some s'' /\ m_held s'' = [] /\ m_entry s'' = m_entry s /\
       text_undone demo_init_env (m_text s) (m_text s'')) \/
    (r = -1 /\ m_held s' = [] /\ m_entry s' = m_entry s /\ text_undone demo_init_env (m_text s) (m_text s'))).
Proof.
  apply (armor_init_all_or_nothing demo_init_env _ 0x81400000).
  - repeat split; try discriminate; [repeat constructor|simpl; lia].
  - intros _. apply demo_patchable.
Defined.
