(* ===== verification/Cfg.v ===== *)
(** The control-flow graph of the analyzer: dyninst-static/arms_edge.c,
    arms_bb.c, arms_function.c and arms_cfg.c.

    The three classes point at each other, so the objects live in a heap: a
    pointer is an address and an object is found in the map of its class.  A
    [std::set] of pointers is a [gset] walked in ascending address order, a
    [std::map] is a [gmap] walked in ascending key order.  A method is a
    computation on the graph that gives [None] where the program dereferences
    a bad pointer, reads an uninitialised field or fails an [assert]. *)

From stdpp Require Import sorting.
From S2P Require Import Prelude LbrState.

(** ** Data *)

(** arms_edge.h: [arms_edge_type_t]. *)
Inductive arms_edge_type :=
| arms_direct_call
| arms_indirect_call
| arms_inter_direct_jmp
| arms_inter_indirect_jmp
| arms_cond_taken
| arms_cond_not_taken
| arms_direct_jmp
| arms_indirect_jmp
| arms_fallthrough
| arms_catch
| arms_call_ft
| arms_ret
| arms_no_edge
| arms_fastpath
| arms_unknown.

#[global] Instance arms_edge_type_eq_dec : EqDecision arms_edge_type.
Proof. solve_decision. Defined.

(** [e_intra] is [None] while [intra_procedural] is uninitialised. *)
Record ArmsEdge := Edge {
  e_id : Z;
  e_hidden : bool;
  e_source : Z;
  e_target : Z;
  e_type : arms_edge_type;
  e_replaced : list Z;
  e_intra : option bool
}.

(** [start_address, end_address) and the address of the last instruction. *)
Record ArmsBasicBlock := BB {
  b_id : Z;
  b_in : gset Z;
  b_out : gset Z;
  b_start : Z;
  b_end : Z;
  b_last : Z;
  b_entry : bool;
  b_exit : bool;
  b_dummy : bool;
  b_funcs : list Z
}.

Record ArmsFunction := Fn {
  f_base : Z;
  f_at : bool;
  f_plt : bool;
  f_lib_dummy : bool;
  f_main : bool;
  f_name : string;
  f_bbs : gset Z;
  f_entries : gset Z;
  f_exits : gset Z;
  f_ext : gset Z;
  f_callees : gset Z;
  f_callers : gset Z
}.

(** class [CFG], the heap its objects live in, and the three static
    counters [ArmsEdge::id_seq_], [ArmsBasicBlock::global_id] and
    [ArmsBasicBlock::num_dummy_blocks]. *)
Record CFG := Cfg {
  c_start_addr : Z;
  c_end_addr : Z;
  c_functions : gmap Z Z;
  c_start2bb : gmap Z Z;
  c_last2bb : gmap Z Z;
  c_num_bb : Z;
  c_edges : gmap Z ArmsEdge;
  c_bbs : gmap Z ArmsBasicBlock;
  c_fns : gmap Z ArmsFunction;
  c_id_seq : Z;
  c_global_id : Z;
  c_num_dummy : Z
}.

(** A graph with no function and no block. *)
Definition cfg_empty : CFG := Cfg 0 0 ∅ ∅ ∅ 0 ∅ ∅ ∅ 0 0 0.

(** ** Effects *)

Definition M (A : Type) : Type := CFG -> option (A * CFG).

#[global] Instance M_ret : MRet M := fun A a s => Some (a, s).
#[global] Instance M_bind : MBind M := fun A B f m s =>
  match m s with Some (a, s') => f a s' | None => None end.

Definition gets {A} (f : CFG -> A) : M A := fun s => Some (f s, s).
Definition modify (f : CFG -> CFG) : M unit := fun s => Some (tt, f s).
Definition undefined {A} : M A := fun _ => None.
Definition assert (b : bool) : M unit := if b then mret tt else undefined.

(** Dereferencing. *)
Definition edge_at (e : Z) : M ArmsEdge := fun s => x ← c_edges s !! e; Some (x, s).
Definition bb_at (p : Z) : M ArmsBasicBlock := fun s => x ← c_bbs s !! p; Some (x, s).
Definition fn_at (f : Z) : M ArmsFunction := fun s => x ← c_fns s !! f; Some (x, s).

(** Assigning to the fields of an object. *)
Definition set_edges (h : gmap Z ArmsEdge) (s : CFG) : CFG :=
  Cfg (c_start_addr s) (c_end_addr s) (c_functions s) (c_start2bb s) (c_last2bb s) (c_num_bb s)
      h (c_bbs s) (c_fns s) (c_id_seq s) (c_global_id s) (c_num_dummy s).
Definition set_bbs (h : gmap Z ArmsBasicBlock) (s : CFG) : CFG :=
  Cfg (c_start_addr s) (c_end_addr s) (c_functions s) (c_start2bb s) (c_last2bb s) (c_num_bb s)
      (c_edges s) h (c_fns s) (c_id_seq s) (c_global_id s) (c_num_dummy s).
Definition set_fns (h : gmap Z ArmsFunction) (s : CFG) : CFG :=
  Cfg (c_start_addr s) (c_end_addr s) (c_functions s) (c_start2bb s) (c_last2bb s) (c_num_bb s)
      (c_edges s) (c_bbs s) h (c_id_seq s) (c_global_id s) (c_num_dummy s).
Definition set_index (fs sb lb : gmap Z Z) (n : Z) (s : CFG) : CFG :=
  Cfg (c_start_addr s) (c_end_addr s) fs sb lb n
      (c_edges s) (c_bbs s) (c_fns s) (c_id_seq s) (c_global_id s) (c_num_dummy s).
Definition set_seqs (i g d : Z) (s : CFG) : CFG :=
  Cfg (c_start_addr s) (c_end_addr s) (c_functions s) (c_start2bb s) (c_last2bb s) (c_num_bb s)
      (c_edges s) (c_bbs s) (c_fns s) i g d.

(** [set_start_addr] and [set_end_addr]. *)
Definition set_addrs (lo hi : Z) (s : CFG) : CFG :=
  Cfg lo hi (c_functions s) (c_start2bb s) (c_last2bb s) (c_num_bb s)
      (c_edges s) (c_bbs s) (c_fns s) (c_id_seq s) (c_global_id s) (c_num_dummy s).

Definition on_edge (e : Z) (f : ArmsEdge -> ArmsEdge) : M unit :=
  x ← edge_at e; modify (fun s => set_edges (<[e := f x]> (c_edges s)) s).
Definition on_bb (p : Z) (f : ArmsBasicBlock -> ArmsBasicBlock) : M unit :=
  x ← bb_at p; modify (fun s => set_bbs (<[p := f x]> (c_bbs s)) s).
Definition on_fn (p : Z) (f : ArmsFunction -> ArmsFunction) : M unit :=
  x ← fn_at p; modify (fun s => set_fns (<[p := f x]> (c_fns s)) s).

(** The allocator: [operator new] gives an address no live object has. *)
Class Malloc := {
  malloc : gset Z -> Z;
  malloc_fresh : forall X, malloc X ∉ X;
  malloc_valid : forall X, malloc X <> NULL
}.

(** The addresses in use. *)
Definition allocated (s : CFG) : gset Z := dom (c_edges s) ∪ dom (c_bbs s) ∪ dom (c_fns s).

(** Iteration order of the containers. *)
Definition in_order (X : gset Z) : list Z := merge_sort Z.le (elements X).
Definition map_in_order (m : gmap Z Z) : list Z := omap (fun k => m !! k) (in_order (dom m)).

(** The loop over a container: stop at the first element that satisfies the
    test and give it, NULL at the end. *)
Fixpoint find_m (test : Z -> M bool) (l : list Z) : M Z :=
  match l with
  | [] => mret NULL
  | x :: l => b ← test x; if b : bool then mret x else find_m test l
  end.

Fixpoint for_each (body : Z -> M unit) (l : list Z) : M unit :=
  match l with
  | [] => mret tt
  | x :: l => body x;; for_each body l
  end.

(** A read-only test of every element, [true] as soon as one passes. *)
Fixpoint exists_m (test : Z -> M bool) (l : list Z) : M bool :=
  match l with
  | [] => mret false
  | x :: l => b ← test x; if b : bool then mret true else exists_m test l
  end.

(** ** ArmsEdge *)

Definition edge_type_is_call (t : arms_edge_type) : bool :=
  bool_decide (t = arms_direct_call) || bool_decide (t = arms_indirect_jmp).
Definition edge_type_is_direct_call (t : arms_edge_type) : bool := bool_decide (t = arms_direct_call).
Definition edge_type_is_indirect_call (t : arms_edge_type) : bool := bool_decide (t = arms_indirect_call).
Definition edge_type_is_return (t : arms_edge_type) : bool := bool_decide (t = arms_ret).
Definition edge_type_is_inter_direct_jmp (t : arms_edge_type) : bool := bool_decide (t = arms_inter_direct_jmp).
Definition edge_type_is_inter_indirect_jmp (t : arms_edge_type) : bool := false.
Definition edge_type_is_indirect (t : arms_edge_type) : bool :=
  bool_decide (t = arms_indirect_jmp) || (bool_decide (t = arms_indirect_call) || bool_decide (t = arms_inter_indirect_jmp)).

(** The types that [ArmsEdge::set_type] takes for interprocedural. *)
Definition inter_type (t : arms_edge_type) : bool :=
  bool_decide (t ∈ [arms_direct_call; arms_indirect_call; arms_ret; arms_inter_indirect_jmp; arms_inter_direct_jmp]).

Definition set_type_of (t : arms_edge_type) (x : ArmsEdge) : ArmsEdge :=
  Edge (e_id x) (e_hidden x) (e_source x) (e_target x) t (e_replaced x)
       (if inter_type t then Some false else e_intra x).
Definition set_type (e : Z) (t : arms_edge_type) : M unit := on_edge e (set_type_of t).

Definition set_intra (b : bool) (x : ArmsEdge) : ArmsEdge :=
  Edge (e_id x) (e_hidden x) (e_source x) (e_target x) (e_type x) (e_replaced x) (Some b).
Definition set_intraprocedural (e : Z) : M unit := on_edge e (set_intra true).
Definition set_interprocedural (e : Z) : M unit := on_edge e (set_intra false).
Definition set_hidden (e : Z) (h : bool) : M unit :=
  on_edge e (fun x => Edge (e_id x) h (e_source x) (e_target x) (e_type x) (e_replaced x) (e_intra x)).

Definition is_intraprocedural (x : ArmsEdge) : M bool := fun s => b ← e_intra x; Some (b, s).
Definition is_indirect (x : ArmsEdge) : bool := edge_type_is_indirect (e_type x).
Definition is_return (x : ArmsEdge) : bool := bool_decide (e_type x = arms_ret).
Definition is_indirect_jump (x : ArmsEdge) : bool :=
  bool_decide (e_type x = arms_inter_indirect_jmp) || bool_decide (e_type x = arms_indirect_jmp).
Definition is_fastpath (x : ArmsEdge) : bool := bool_decide (e_type x = arms_fastpath).
Definition is_no_call_ft (x : ArmsEdge) : bool := negb (bool_decide (e_type x = arms_call_ft)).

(** ** ArmsBasicBlock *)

Definition on_in (f : gset Z -> gset Z) (b : ArmsBasicBlock) : ArmsBasicBlock :=
  BB (b_id b) (f (b_in b)) (b_out b) (b_start b) (b_end b) (b_last b) (b_entry b) (b_exit b) (b_dummy b) (b_funcs b).
Definition on_out (f : gset Z -> gset Z) (b : ArmsBasicBlock) : ArmsBasicBlock :=
  BB (b_id b) (b_in b) (f (b_out b)) (b_start b) (b_end b) (b_last b) (b_entry b) (b_exit b) (b_dummy b) (b_funcs b).

Definition add_incoming_edge (p e : Z) : M unit := on_bb p (on_in (fun X => {[e]} ∪ X)).
Definition add_outgoing_edge (p e : Z) : M unit := on_bb p (on_out (fun X => {[e]} ∪ X)).
Definition delete_incoming_edge (p e : Z) : M unit := on_bb p (on_in (fun X => X ∖ {[e]})).
Definition delete_outgoing_edge (p e : Z) : M unit := on_bb p (on_out (fun X => X ∖ {[e]})).

Definition incoming_edges (p : Z) : M (list Z) := b ← bb_at p; mret (in_order (b_in b)).
Definition outgoing_edges (p : Z) : M (list Z) := b ← bb_at p; mret (in_order (b_out b)).
Definition incoming_edge_count (p : Z) : M nat := b ← bb_at p; mret (size (b_in b)).
Definition outgoing_edge_count (p : Z) : M nat := b ← bb_at p; mret (size (b_out b)).
Definition get_incoming_edge (p : Z) (i : nat) : M Z := l ← incoming_edges p; mret (default NULL (l !! i)).
Definition get_outgoing_edge (p : Z) (i : nat) : M Z := l ← outgoing_edges p; mret (default NULL (l !! i)).

Definition unlink (e : Z) : M unit :=
  x ← edge_at e; delete_outgoing_edge (e_source x) e;; delete_incoming_edge (e_target x) e.

Definition has_outbound_fastpath (p q : Z) : M bool :=
  l ← outgoing_edges p;
  exists_m (fun e => x ← edge_at e; mret (bool_decide (e_target x = q) && is_fastpath x)) l.

Definition has_no_call_ft_outgoing_edge (p : Z) : M bool :=
  l ← outgoing_edges p; exists_m (fun e => x ← edge_at e; mret (is_no_call_ft x)) l.

Definition find_call_ft (l : list Z) : M Z :=
  find_m (fun e => x ← edge_at e; mret (bool_decide (e_type x = arms_call_ft))) l.

Definition drop_incoming_call_ft_edge (p : Z) : M unit :=
  l ← incoming_edges p; e ← find_call_ft l;
  if decide (e = NULL) then mret tt else delete_incoming_edge p e.

Definition drop_call_ft_edge (p : Z) : M unit :=
  l ← outgoing_edges p; e ← find_call_ft l;
  if decide (e = NULL) then mret tt else
  x ← edge_at e; drop_incoming_call_ft_edge (e_target x);; delete_outgoing_edge p e.

Definition all_single_ft (l : list Z) : M bool :=
  if decide (length l = 1%nat) then exists_m (fun e => x ← edge_at e; mret (bool_decide (e_type x = arms_fallthrough))) l
  else mret false.
Definition is_ft (p : Z) : M bool := l ← incoming_edges p; all_single_ft l.
Definition outgoing_is_ft (p : Z) : M bool := l ← outgoing_edges p; all_single_ft l.

(** Provided there is exactly one. *)
Definition get_preceding_bb (p : Z) : M Z :=
  l ← incoming_edges p; match l with [e] => x ← edge_at e; mret (e_source x) | _ => mret NULL end.
Definition get_following_bb (p : Z) : M Z :=
  l ← outgoing_edges p; match l with [e] => x ← edge_at e; mret (e_target x) | _ => mret NULL end.
Definition get_function (b : ArmsBasicBlock) : Z := match b_funcs b with [f] => f | _ => NULL end.

Definition forward_connected_with (p q : Z) : M bool :=
  l ← outgoing_edges p; exists_m (fun e => x ← edge_at e; mret (bool_decide (e_target x = q))) l.

Definition intra_procedural_indirect_jump_targets_only (p : Z) : M bool :=
  l ← outgoing_edges p;
  if decide (length l = 0%nat) then mret false else
  bad ← exists_m (fun e =>
    x ← edge_at e; b ← bb_at (e_target x); i ← is_intraprocedural x;
    mret (negb i || negb (is_indirect_jump x))) l;
  mret (negb bad).

Definition equals_bb (p q : Z) : M bool := b ← bb_at p; c ← bb_at q; mret (bool_decide (b_id b = b_id c)).

(** ** CFG: lookups *)

Definition find_function (a : Z) : M Z := gets (fun s => default NULL (c_functions s !! a)).
Definition find_bb (a : Z) : M Z := gets (fun s => default NULL (c_start2bb s !! a)).
Definition find_bb_by_last_insn_address (a : Z) : M Z := gets (fun s => default NULL (c_last2bb s !! a)).

Definition addr_in_cfg (addr : Z) : M bool :=
  lo ← gets c_start_addr; hi ← gets c_end_addr;
  if decide (lo <= addr < hi) then mret true else
  f ← find_function addr;
  if negb (bool_decide (f = NULL)) then x ← fn_at f; mret (f_plt x) else
  p ← find_bb addr;
  if negb (bool_decide (p = NULL)) then b ← bb_at p; mret (negb (b_dummy b)) else
  mret false.

Definition find_edge (src dst : Z) : M Z :=
  p ← find_bb_by_last_insn_address src;
  if decide (p = NULL) then mret NULL else
  l ← outgoing_edges p;
  find_m (fun e => x ← edge_at e; b ← bb_at (e_target x); mret (bool_decide (b_start b = dst))) l.

(** Equal, or two library addresses that differ in their index bits only. *)
Definition same_mask_lib (a b : Z) : bool :=
  bool_decide (a = b) ||
  (Tag.has Tag.LIB_FLAG a && Tag.has Tag.LIB_FLAG b && bool_decide (Tag.TO_ADDR a = Tag.TO_ADDR b)).

Definition find_edge_mask_lib (src dst : Z) : M Z :=
  p ← find_bb_by_last_insn_address src;
  if negb (bool_decide (p = NULL)) then
    l ← outgoing_edges p;
    find_m (fun e => x ← edge_at e; b ← bb_at (e_target x); mret (same_mask_lib (b_start b) dst)) l
  else
  q ← find_bb dst;
  if negb (bool_decide (q = NULL)) then
    l ← incoming_edges q;
    find_m (fun e => x ← edge_at e; b ← bb_at (e_source x); mret (same_mask_lib (b_last b) src)) l
  else mret NULL.

Definition find_lib_dummy_by_name (name : string) : M Z :=
  l ← gets (fun s => map_in_order (c_functions s));
  find_m (fun f => x ← fn_at f; mret (f_lib_dummy x && bool_decide (f_name x = name))) l.

(** The closest block that starts within 15 bytes behind the last
    instruction. *)
Definition get_fallthrough_bb (p : Z) : M Z :=
  b ← bb_at p;
  (fix scan (offs : list nat) : M Z :=
     match offs with
     | [] => mret NULL
     | i :: offs => q ← find_bb (u64 (b_last b + Z.of_nat i)); if decide (q = NULL) then scan offs else mret q
     end) (seq 1 15).

(** ** CFG: construction *)

Section Construction.
Context `{Malloc}.

Definition DUMMY_ADDR : Z := 0x2910.

(** [new ArmsBasicBlock(start, end, last, fun, cfg)]; [fun] may be NULL. *)
Definition new_bb (start end_ last fun_ : Z) : M Z := fun s =>
  let p := malloc (allocated s) in
  let g := u64 (c_global_id s + 1) in
  let b := BB g ∅ ∅ start end_ last false false false (if decide (fun_ = NULL) then [] else [fun_]) in
  Some (p, set_bbs (<[p := b]> (c_bbs s)) (set_seqs (c_id_seq s) g (c_num_dummy s) s)).

Definition set_dummy (b : ArmsBasicBlock) : ArmsBasicBlock :=
  BB (b_id b) (b_in b) (b_out b) (b_start b) (b_end b) (b_last b) (b_entry b) (b_exit b) true (b_funcs b).

Definition count_dummy : M Z := fun s =>
  let d := u64 (c_num_dummy s + 1) in Some (d, set_seqs (c_id_seq s) (c_global_id s) d s).

(** The three overloads of [create_dummy_basic_block]. *)
Definition create_dummy_basic_block (fun_ : Z) : M Z :=
  d ← count_dummy;
  let dummy_addr := u64 (DUMMY_ADDR + d) in
  p ← new_bb dummy_addr dummy_addr dummy_addr fun_;
  on_bb p set_dummy;; mret p.
Definition create_dummy_basic_block_at (dummy_addr fun_ : Z) : M Z :=
  count_dummy;;
  p ← new_bb dummy_addr (u64 (dummy_addr + 1)) dummy_addr fun_;
  on_bb p set_dummy;; mret p.
Definition create_dummy_basic_block_range (dummy_start dummy_end fun_ : Z) : M Z :=
  count_dummy;;
  p ← new_bb dummy_start dummy_end dummy_start fun_;
  on_bb p set_dummy;; mret p.

Definition store_bb (p : Z) : M unit :=
  b ← bb_at p;
  modify (fun s => set_index (c_functions s) (<[b_start b := p]> (c_start2bb s)) (<[b_last b := p]> (c_last2bb s))
                             (u32 (c_num_bb s + 1)) s).

Definition new_fn (base : Z) (name : string) : M Z := fun s =>
  let p := malloc (allocated s) in
  Some (p, set_fns (<[p := Fn base false false false false name ∅ ∅ ∅ ∅ ∅ ∅]> (c_fns s)) s).

Definition store_function (f : Z) : M unit :=
  x ← fn_at f;
  modify (fun s => set_index (<[f_base x := f]> (c_functions s)) (c_start2bb s) (c_last2bb s) (c_num_bb s) s).

(** [new ArmsEdge(from, to, cfg)] and [new ArmsEdge(from, to, type, cfg)]. *)
Definition new_edge (from to : Z) (t : arms_edge_type) (intra : option bool) : M Z := fun s =>
  let p := malloc (allocated s) in
  let e := Edge (c_id_seq s) false from to t [] intra in
  Some (p, set_edges (<[p := e]> (c_edges s)) (set_seqs (u32 (c_id_seq s + 1)) (c_global_id s) (c_num_dummy s) s)).
Definition new_ArmsEdge (from to : Z) : M Z := new_edge from to arms_unknown (Some true).
Definition new_ArmsEdge_typed (from to : Z) (t : arms_edge_type) : M Z :=
  e ← new_edge from to t None; set_type e t;; mret e.

(** *** ArmsFunction *)

Definition fn_sets (at_ plt lib main : bool) (bbs entries exits ext callees callers : gset Z) (x : ArmsFunction)
  : ArmsFunction := Fn (f_base x) at_ plt lib main (f_name x) bbs entries exits ext callees callers.
Definition set_addr_taken (f : Z) : M unit := on_fn f (fun x =>
  fn_sets true (f_plt x) (f_lib_dummy x) (f_main x) (f_bbs x) (f_entries x) (f_exits x) (f_ext x) (f_callees x) (f_callers x) x).
Definition set_is_plt (f : Z) : M unit := on_fn f (fun x =>
  fn_sets (f_at x) true (f_lib_dummy x) (f_main x) (f_bbs x) (f_entries x) (f_exits x) (f_ext x) (f_callees x) (f_callers x) x).
Definition set_is_lib_dummy (f : Z) : M unit := on_fn f (fun x =>
  fn_sets (f_at x) (f_plt x) true (f_main x) (f_bbs x) (f_entries x) (f_exits x) (f_ext x) (f_callees x) (f_callers x) x).
Definition set_is_main (f : Z) : M unit := on_fn f (fun x =>
  fn_sets (f_at x) (f_plt x) (f_lib_dummy x) true (f_bbs x) (f_entries x) (f_exits x) (f_ext x) (f_callees x) (f_callers x) x).
Definition add_bb (f p : Z) : M unit := on_fn f (fun x =>
  fn_sets (f_at x) (f_plt x) (f_lib_dummy x) (f_main x) ({[p]} ∪ f_bbs x) (f_entries x) (f_exits x) (f_ext x) (f_callees x) (f_callers x) x).
Definition add_entry_block (f p : Z) : M unit := on_fn f (fun x =>
  fn_sets (f_at x) (f_plt x) (f_lib_dummy x) (f_main x) (f_bbs x) ({[p]} ∪ f_entries x) (f_exits x) (f_ext x) (f_callees x) (f_callers x) x).
Definition add_exit_block (f p : Z) : M unit := on_fn f (fun x =>
  fn_sets (f_at x) (f_plt x) (f_lib_dummy x) (f_main x) (f_bbs x) (f_entries x) ({[p]} ∪ f_exits x) (f_ext x) (f_callees x) (f_callers x) x).
Definition add_external_call (f p : Z) : M unit := on_fn f (fun x =>
  fn_sets (f_at x) (f_plt x) (f_lib_dummy x) (f_main x) (f_bbs x) (f_entries x) (f_exits x) ({[p]} ∪ f_ext x) (f_callees x) (f_callers x) x).
Definition add_callee (f g : Z) : M unit := on_fn f (fun x =>
  fn_sets (f_at x) (f_plt x) (f_lib_dummy x) (f_main x) (f_bbs x) (f_entries x) (f_exits x) (f_ext x) ({[g]} ∪ f_callees x) (f_callers x) x).
Definition add_caller (f g : Z) : M unit := on_fn f (fun x =>
  fn_sets (f_at x) (f_plt x) (f_lib_dummy x) (f_main x) (f_bbs x) (f_entries x) (f_exits x) (f_ext x) (f_callees x) ({[g]} ∪ f_callers x) x).

(** The overloads that take an address. *)
Definition add_entry_block_at (f addr : Z) : M unit :=
  p ← find_bb addr; if decide (p = NULL) then mret tt else add_entry_block f p.
Definition add_exit_block_at (f addr : Z) : M unit :=
  p ← find_bb_by_last_insn_address addr; if decide (p = NULL) then mret tt else add_exit_block f p.

(** *** Functions of the graph *)

Definition mark_function_as_plt (base : Z) : M unit :=
  f ← find_function base; if decide (f = NULL) then mret tt else set_is_plt f.

Definition has_indirect_inbound (p : Z) : M bool :=
  l ← incoming_edges p; exists_m (fun e => x ← edge_at e; mret (is_indirect x)) l.

Fixpoint mark_entries (f : Z) (l : list Z) : M unit :=
  match l with
  | [] => mret tt
  | p :: l =>
      hit ← has_indirect_inbound p;
      (if hit : bool then set_addr_taken f else mret tt);;
      x ← fn_at f;
      if f_at x then mret tt else mark_entries f l
  end.

Definition mark_function_if_at (f : Z) : M unit :=
  x ← fn_at f;
  if f_lib_dummy x then mret tt else mark_entries f (in_order (f_entries x)).

(** [foreach_function] with a callback that always returns 0. *)
Definition foreach_function (callback : Z -> M unit) : M unit :=
  l ← gets (fun s => map_in_order (c_functions s)); for_each callback l.

Definition mark_at_functions : M unit := foreach_function mark_function_if_at.

Definition create_dummy_function (name : string) (base : Z) : M Z :=
  f ← find_function base;
  if negb (bool_decide (f = NULL)) then mret f else
  f ← new_fn base name;
  store_function f;;
  p ← create_dummy_basic_block_at base f;
  store_bb p;;
  add_entry_block f p;;
  add_exit_block f p;;
  mret f.

Definition create_plt_function (name : string) (base : Z) : M Z :=
  f ← create_dummy_function name base; set_is_plt f;; mret f.

(** *** Interprocedural edges *)

(** [new ArmsEdge], then the edge is entered at both ends. *)
Definition link_typed (p q : Z) (t : arms_edge_type) : M unit :=
  e ← new_ArmsEdge_typed p q t; add_outgoing_edge p e;; add_incoming_edge q e.

Definition create_call_edge (call_site target : Z) (t : arms_edge_type) : M unit :=
  q ← find_bb target;
  if decide (q = NULL) then mret tt else link_typed call_site q t.

Definition callback_create_ret_edges (ret_target f : Z) : M unit :=
  x ← fn_at f; for_each (fun p => link_typed p ret_target arms_ret) (in_order (f_exits x)).

Definition create_ret_edges (call_site target : Z) : M unit :=
  b ← bb_at call_site;
  r ← find_bb (b_end b);
  if decide (r = NULL) then mret tt else
  q ← find_bb target;
  if decide (q = NULL) then mret tt else
  c ← bb_at q;
  for_each (callback_create_ret_edges r) (b_funcs c).

Definition handle_interprocedural_call (call_site target : Z) (t : arms_edge_type) : M unit :=
  create_call_edge call_site target t;;
  f ← find_function target;
  plt ← (if decide (f = NULL) then mret false else x ← fn_at f; mret (f_plt x));
  (if plt : bool then b ← bb_at call_site; for_each (fun g => add_external_call g call_site) (b_funcs b) else mret tt);;
  if negb (edge_type_is_indirect t) then mret tt else
  b ← bb_at call_site;
  if b_exit b then mret tt else create_ret_edges call_site target.

Definition handle_interprocedural (call_site target : Z) (t : arms_edge_type) : M unit :=
  if edge_type_is_direct_call t then handle_interprocedural_call call_site target t else
  if edge_type_is_indirect_call t then handle_interprocedural_call call_site target t else
  if edge_type_is_inter_direct_jmp t then undefined else
  if edge_type_is_inter_indirect_jmp t then undefined else
  mret tt.

(** The overloads that name the calling function. *)
Definition store_caller_and_callee (fmt : Z -> string) (caller target : Z) : M Z :=
  f ← find_function target;
  g ← (if decide (f = NULL) then create_dummy_function (fmt target) target else mret f);
  add_callee caller g;; add_caller g caller;; mret g.

Definition create_call_edge_from (caller callee call_site target : Z) (t : arms_edge_type) : M Z :=
  p ← find_bb_by_last_insn_address call_site;
  q ← find_bb target;
  if decide (p = NULL) then mret p else
  b ← bb_at p;
  if negb (bool_decide (get_function b = caller)) then mret p else
  if decide (q = NULL) then mret p else
  c ← bb_at q;
  if negb (bool_decide (get_function c = callee)) then mret p else
  e ← new_ArmsEdge_typed p q t;
  add_outgoing_edge p e;;
  (if edge_type_is_call t then drop_call_ft_edge p else mret tt);;
  add_incoming_edge q e;;
  mret p.

Definition create_ret_edges_from (caller callee call_site : Z) : M unit :=
  x ← fn_at callee;
  b ← bb_at call_site;
  r ← find_bb (b_end b);
  if decide (r = NULL) then mret tt else
  c ← bb_at r;
  if negb (bool_decide (get_function c = caller)) then mret tt else
  for_each (fun p => link_typed p r arms_ret) (in_order (f_exits x)).

Definition handle_interprocedural_jmp (fmt : Z -> string) (caller call_site target : Z) (t : arms_edge_type) : M unit :=
  g ← store_caller_and_callee fmt caller target;
  p ← create_call_edge_from caller g call_site target t;
  x ← fn_at g;
  if f_plt x then add_external_call caller p else mret tt.

Definition handle_interprocedural_call_from (fmt : Z -> string) (caller call_site target : Z) : M unit :=
  g ← store_caller_and_callee fmt caller target;
  p ← create_call_edge_from caller g call_site target arms_direct_call;
  x ← fn_at g;
  (if f_plt x then add_external_call caller p else mret tt);;
  assert (negb (bool_decide (p = NULL)));;
  b ← bb_at p;
  if b_exit b then mret tt else create_ret_edges_from caller g p.

(** *** Plain edges *)

Definition find_or_new (find : M Z) (a : Z) : M Z :=
  p ← find;
  if negb (bool_decide (p = NULL)) then mret p else
  p ← new_bb a (u64 (a + 1)) a NULL; store_bb p;; mret p.

Definition link (p q : Z) : M Z :=
  e ← new_ArmsEdge p q; add_outgoing_edge p e;; add_incoming_edge q e;; mret e.

Definition create_and_add_edge_addr (source target : Z) : M Z :=
  p ← find_or_new (find_bb_by_last_insn_address source) source;
  q ← find_or_new (find_bb target) target;
  link p q.

Definition store_if_missing (p : Z) : M unit :=
  b ← bb_at p;
  q ← find_bb (b_start b);
  (if decide (q = NULL) then store_bb p else mret tt);;
  q ← find_bb (b_start b);
  same ← equals_bb q p;
  assert same.

Definition create_and_add_edge (p q : Z) : M Z :=
  if decide (p = NULL \/ q = NULL) then mret NULL else
  store_if_missing p;; store_if_missing q;; link p q.

End Construction.

(** ** CFG: statistics *)

Definition count_edges : M nat :=
  l ← gets (fun s => map_in_order (c_start2bb s));
  (fix go (l : list Z) : M nat :=
     match l with [] => mret 0%nat | p :: l => k ← outgoing_edge_count p; n ← go l; mret (k + n)%nat end) l.

(** Over all blocks, the outgoing edges that pass the test. *)
Fixpoint count_out (test : ArmsEdge -> bool) (l : list Z) : M nat :=
  match l with
  | [] => mret 0%nat
  | p :: l =>
      es ← outgoing_edges p;
      k ← (fix go (es : list Z) : M nat :=
             match es with
             | [] => mret 0%nat
             | e :: es => x ← edge_at e; n ← go es; mret ((if test x then 1 else 0) + n)%nat
             end) es;
      n ← count_out test l; mret (k + n)%nat
  end.

Definition count_edges_coarse_grained : M nat :=
  l ← gets (fun s => map_in_order (c_start2bb s));
  n ← count_out (fun x => negb (edge_type_is_return (e_type x))) l;
  m ← count_out (fun x => edge_type_is_return (e_type x)) l;
  mret (n + n * m)%nat.

(** [count_ats]: the number of call sites, targets and edges of indirect calls. *)
Definition ats_edges (p : Z) (acc : gset Z * gset Z * nat) : M (gset Z * gset Z * nat) :=
  es ← incoming_edges p;
  (fix go (es : list Z) (acc : gset Z * gset Z * nat) : M (gset Z * gset Z * nat) :=
     match es with
     | [] => mret acc
     | e :: es =>
         x ← edge_at e;
         if negb (is_indirect x) then go es acc else
         b ← bb_at (e_source x); c ← bb_at (e_target x);
         let '(src, dst, n) := acc in
         go es ({[b_id b]} ∪ src, {[b_id c]} ∪ dst, S n)
     end) es acc.

Fixpoint ats_blocks (l : list Z) (acc : gset Z * gset Z * nat) : M (gset Z * gset Z * nat) :=
  match l with [] => mret acc | p :: l => acc ← ats_edges p acc; ats_blocks l acc end.

Fixpoint ats_functions (l : list Z) (acc : gset Z * gset Z * nat) : M (gset Z * gset Z * nat) :=
  match l with
  | [] => mret acc
  | f :: l =>
      x ← fn_at f;
      acc ← (if f_lib_dummy x then mret acc else ats_blocks (in_order (f_entries x)) acc);
      ats_functions l acc
  end.

Definition count_ats : M (nat * nat * nat) :=
  l ← gets (fun s => map_in_order (c_functions s));
  acc ← ats_functions l (∅, ∅, 0%nat);
  let '(src, dst, n) := acc in mret (size src, size dst, n).
