(* ===== verification/CfgInv.v ===== *)
(** The control-flow graph is well-formed: every pointer of a live object leads
    to a live object of the right class, the indexes lead to the blocks and
    functions with the address they are asked for, and an edge is known at both
    ends or at none.  Every operation of Cfg.v runs without undefined behaviour
    on such a graph and keeps it well-formed. *)

From stdpp Require Import sorting.
From S2P Require Import Prelude LbrState Cfg.

(** ** Running a computation *)

(** [wp m Q s]: [m] succeeds from [s] and its result satisfies [Q]. *)
Definition wp {A} (m : M A) (Q : A -> CFG -> Prop) (s : CFG) : Prop :=
  match m s with Some (a, s') => Q a s' | None => False end.

Lemma wp_ret {A} (a : A) Q s : Q a s -> wp (mret a) Q s.
Proof. done. Qed.

Lemma wp_bind {A B} (m : M A) (f : A -> M B) Q s : wp m (fun a => wp (f a) Q) s -> wp (m ≫= f) Q s.
Proof. unfold wp, mbind, M_bind. destruct (m s) as [[a s']|]; done. Qed.

Lemma wp_mono {A} (m : M A) (P Q : A -> CFG -> Prop) s :
  wp m P s -> (forall a s', P a s' -> Q a s') -> wp m Q s.
Proof. unfold wp. destruct (m s) as [[a s']|]; [eauto|done]. Qed.

Lemma wp_eq {A} (m : M A) a s s' (Q : A -> CFG -> Prop) : m s = Some (a, s') -> Q a s' -> wp m Q s.
Proof. unfold wp. intros ->. done. Qed.

Lemma wp_gets {A} (f : CFG -> A) (Q : A -> CFG -> Prop) s : Q (f s) s -> wp (gets f) Q s.
Proof. done. Qed.

(** Every successful run satisfies [Q]. *)
Definition wlp {A} (m : M A) (Q : A -> CFG -> Prop) (s : CFG) : Prop := forall a s', m s = Some (a, s') -> Q a s'.

Lemma wlp_bind {A B} (m : M A) (f : A -> M B) Q s : wlp m (fun a => wlp (f a) Q) s -> wlp (m ≫= f) Q s.
Proof.
  intros Hm b s'. unfold mbind, M_bind. destruct (m s) as [[a s1]|] eqn:Hs; [|done]. by apply (Hm a s1).
Qed.

Lemma wp_wlp {A} (m : M A) Q s : wp m Q s -> wlp m Q s.
Proof. unfold wp, wlp. intros Hw a s' Hm. by rewrite Hm in Hw. Qed.

Lemma wlp_mono {A} (m : M A) (P Q : A -> CFG -> Prop) s : wlp m P s -> (forall a s', P a s' -> Q a s') -> wlp m Q s.
Proof. intros Hm HPQ a s' Hs. apply HPQ. by apply Hm. Qed.

Lemma wlp_ret {A} (a : A) (Q : A -> CFG -> Prop) s : Q a s -> wlp (mret a) Q s.
Proof. intros HQ b s' [= <- <-]. done. Qed.

Lemma wp_and_wlp {A} (m : M A) (P Q : A -> CFG -> Prop) s : wp m P s -> wlp m Q s -> wp m (fun a s' => P a s' /\ Q a s') s.
Proof. unfold wp, wlp. destruct (m s) as [[a s']|]; auto. Qed.

(** A computation that succeeds and leaves the graph alone. *)
Definition reads {A} (m : M A) (s : CFG) (a : A) : Prop := m s = Some (a, s).

Lemma reads_ret {A} (a : A) s : reads (mret a) s a.
Proof. done. Qed.

Lemma reads_bind {A B} (m : M A) (f : A -> M B) s a b :
  reads m s a -> reads (f a) s b -> reads (m ≫= f) s b.
Proof. unfold reads, mbind, M_bind. intros ->. done. Qed.

Lemma reads_bb_at s p b : c_bbs s !! p = Some b -> reads (bb_at p) s b.
Proof. unfold reads, bb_at. intros ->. done. Qed.

Lemma reads_edge_at s e x : c_edges s !! e = Some x -> reads (edge_at e) s x.
Proof. unfold reads, edge_at. intros ->. done. Qed.

Lemma reads_fn_at s f x : c_fns s !! f = Some x -> reads (fn_at f) s x.
Proof. unfold reads, fn_at. intros ->. done. Qed.

Lemma reads_gets {A} (f : CFG -> A) s : reads (gets f) s (f s).
Proof. done. Qed.

Create HintDb reads.
#[export] Hint Resolve reads_ret reads_bb_at reads_edge_at reads_fn_at reads_gets : reads.
#[export] Hint Extern 2 (reads (_ ≫= _) _ _) => eapply reads_bind : reads.

(** The first element that passes a pure test. *)
Definition first_such (t : Z -> bool) (l : list Z) : Z :=
  default NULL (head (filter (fun x => t x = true) l)).

Lemma reads_find_m test (t : Z -> bool) l s :
  (forall x, x ∈ l -> reads (test x) s (t x)) -> reads (find_m test l) s (first_such t l).
Proof.
  induction l as [|x l IH]; intros Ht; [done|]. cbn [find_m].
  eapply reads_bind; [apply Ht; set_solver|]. unfold first_such. rewrite filter_cons.
  destruct (t x) eqn:Htx.
  - rewrite decide_True by done. done.
  - rewrite decide_False by done. apply IH. intros y Hy. apply Ht. set_solver.
Qed.

Lemma reads_exists_m test (t : Z -> bool) l s :
  (forall x, x ∈ l -> reads (test x) s (t x)) -> reads (exists_m test l) s (existsb t l).
Proof.
  induction l as [|x l IH]; intros Ht; [done|]. cbn [exists_m existsb].
  eapply reads_bind; [apply Ht; set_solver|]. destruct (t x); [done|].
  apply IH. intros y Hy. apply Ht. set_solver.
Qed.

Lemma first_such_spec t l :
  NULL ∉ l ->
  (first_such t l <> NULL -> first_such t l ∈ l /\ t (first_such t l) = true) /\
  (first_such t l = NULL <-> forall x, x ∈ l -> t x = false).
Proof.
  intros Hn. unfold first_such. destruct (filter _ l) as [|x k] eqn:Hf; cbn [head default].
  - split; [done|]. split; [|done]. intros _ x Hx.
    destruct (t x) eqn:Htx; [|done].
    assert (x ∈ filter (fun x => t x = true) l) as Hin by (apply list_elem_of_filter; done).
    rewrite Hf in Hin. set_solver.
  - assert (x ∈ filter (fun x => t x = true) l) as Hin by (rewrite Hf; set_solver).
    apply list_elem_of_filter in Hin as [Htx Hx]. cbn. split; [done|]. split.
    + intros ->. done.
    + intros Hall. rewrite Hall in Htx; done.
Qed.

Lemma elem_of_in_order X x : x ∈ in_order X <-> x ∈ X.
Proof. unfold in_order. rewrite merge_sort_Permutation. apply elem_of_elements. Qed.

Lemma length_in_order X : length (in_order X) = size X.
Proof. unfold in_order. rewrite merge_sort_Permutation. done. Qed.

Lemma elem_of_map_in_order m x : x ∈ map_in_order m <-> exists k, m !! k = Some x.
Proof.
  unfold map_in_order. rewrite list_elem_of_omap. split.
  - intros (k & _ & Hk). eauto.
  - intros (k & Hk). exists k. split; [|done]. rewrite elem_of_in_order. by apply elem_of_dom_2 in Hk.
Qed.

(** ** Well-formedness *)

Definition bb_ok (s : CFG) (p : Z) : Prop := is_Some (c_bbs s !! p).
Definition fn_ok (s : CFG) (f : Z) : Prop := is_Some (c_fns s !! f).
Definition edge_ok (s : CFG) (e : Z) : Prop := is_Some (c_edges s !! e).

Record cfg_wf (s : CFG) : Prop := {
  wf_null : NULL ∉ allocated s;
  wf_out p b e : c_bbs s !! p = Some b -> e ∈ b_out b -> exists x, c_edges s !! e = Some x /\ e_source x = p;
  wf_in p b e : c_bbs s !! p = Some b -> e ∈ b_in b -> exists x, c_edges s !! e = Some x /\ e_target x = p;
  wf_ends e x : c_edges s !! e = Some x -> bb_ok s (e_source x) /\ bb_ok s (e_target x);
  wf_start2bb a p : c_start2bb s !! a = Some p -> exists b, c_bbs s !! p = Some b /\ b_start b = a;
  wf_last2bb a p : c_last2bb s !! a = Some p -> exists b, c_bbs s !! p = Some b /\ b_last b = a;
  wf_functions a f : c_functions s !! a = Some f -> exists x, c_fns s !! f = Some x /\ f_base x = a;
  wf_entries f x p : c_fns s !! f = Some x -> p ∈ f_entries x \/ p ∈ f_exits x \/ p ∈ f_bbs x -> bb_ok s p;
  wf_funcs p b f : c_bbs s !! p = Some b -> f ∈ b_funcs b -> fn_ok s f
}.

(** An edge is in the outgoing edges of its source exactly when it is in the
    incoming edges of its target. *)
Definition linked (s : CFG) : Prop :=
  forall e x b c, c_edges s !! e = Some x -> c_bbs s !! e_source x = Some b -> c_bbs s !! e_target x = Some c ->
    (e ∈ b_out b <-> e ∈ b_in c).

(** What no operation changes of an object that exists. *)
Definition same_bb (b b' : ArmsBasicBlock) : Prop :=
  b_id b' = b_id b /\ b_start b' = b_start b /\ b_end b' = b_end b /\ b_last b' = b_last b /\ b_funcs b' = b_funcs b.
Definition same_edge (x x' : ArmsEdge) : Prop :=
  e_id x' = e_id x /\ e_source x' = e_source x /\ e_target x' = e_target x.
Definition same_fn (x x' : ArmsFunction) : Prop := f_base x' = f_base x /\ f_name x' = f_name x.

Record extends (s s' : CFG) : Prop := {
  ext_bb p b : c_bbs s !! p = Some b -> exists b', c_bbs s' !! p = Some b' /\ same_bb b b';
  ext_edge e x : c_edges s !! e = Some x -> exists x', c_edges s' !! e = Some x' /\ same_edge x x';
  ext_fn f x : c_fns s !! f = Some x -> exists x', c_fns s' !! f = Some x' /\ same_fn x x'
}.

#[export] Instance extends_preorder : PreOrder extends.
Proof.
  split.
  - intros s. split; intros ? ? ->; eexists; (split; [done|]); repeat split.
  - intros s1 s2 s3 [Hb He Hf] [Hb' He' Hf']. split.
    + intros p b (b1 & H1 & S1)%Hb. apply Hb' in H1 as (b2 & H2 & S2).
      exists b2. split; [done|]. unfold same_bb in *. intuition congruence.
    + intros p b (b1 & H1 & S1)%He. apply He' in H1 as (b2 & H2 & S2).
      exists b2. split; [done|]. unfold same_edge in *. intuition congruence.
    + intros p b (b1 & H1 & S1)%Hf. apply Hf' in H1 as (b2 & H2 & S2).
      exists b2. split; [done|]. unfold same_fn in *. intuition congruence.
Qed.

Lemma extends_bb_ok s s' p : extends s s' -> bb_ok s p -> bb_ok s' p.
Proof. intros Hx [b Hb]. destruct (ext_bb _ _ Hx _ _ Hb) as (b' & Hb' & _). by exists b'. Qed.
Lemma extends_fn_ok s s' p : extends s s' -> fn_ok s p -> fn_ok s' p.
Proof. intros Hx [b Hb]. destruct (ext_fn _ _ Hx _ _ Hb) as (b' & Hb' & _). by exists b'. Qed.
Lemma extends_edge_ok s s' p : extends s s' -> edge_ok s p -> edge_ok s' p.
Proof. intros Hx [b Hb]. destruct (ext_edge _ _ Hx _ _ Hb) as (b' & Hb' & _). by exists b'. Qed.

#[export] Hint Resolve extends_bb_ok extends_fn_ok extends_edge_ok : pa.

(** What every step of the analyzer does to a graph. *)
Definition good (s s' : CFG) : Prop := cfg_wf s' /\ extends s s' /\ (linked s -> linked s').

Lemma good_refl s : cfg_wf s -> good s s.
Proof. done. Qed.

Lemma good_trans s1 s2 s3 : good s1 s2 -> good s2 s3 -> good s1 s3.
Proof. intros (_ & X1 & L1) (W2 & X2 & L2). split_and!; [done| |auto]. by transitivity s2. Qed.

Lemma ok_not_null s p : cfg_wf s -> bb_ok s p \/ edge_ok s p \/ fn_ok s p -> p <> NULL.
Proof.
  intros Hwf Hp ->. apply (wf_null _ Hwf). unfold allocated, bb_ok, edge_ok, fn_ok in *.
  rewrite !elem_of_union, !elem_of_dom. tauto.
Qed.

(** ** The primitive steps *)

Ltac same := first [done | split_and!; done | repeat split; done].

(** Changing the label of an edge. *)
Lemma good_on_edge s e x f :
  cfg_wf s -> c_edges s !! e = Some x -> same_edge x (f x) -> good s (set_edges (<[e := f x]> (c_edges s)) s).
Proof.
  intros Hwf He Hs.
  assert (forall d y, c_edges s !! d = Some y -> exists y', <[e := f x]> (c_edges s) !! d = Some y' /\ same_edge y y') as Hext.
  { intros d y Hd. destruct (decide (d = e)) as [->|Hne].
    - rewrite lookup_insert_eq. rewrite He in Hd. apply (inj Some) in Hd as <-. eauto.
    - rewrite lookup_insert_ne by done. exists y. split; [done|]. same. }
  assert (forall d y', <[e := f x]> (c_edges s) !! d = Some y' -> exists y, c_edges s !! d = Some y /\ same_edge y y') as Hback.
  { intros d y' Hd. destruct (decide (d = e)) as [->|Hne].
    - rewrite lookup_insert_eq in Hd. apply (inj Some) in Hd as <-. eauto.
    - rewrite lookup_insert_ne in Hd by done. exists y'. split; [done|]. same. }
  split_and!.
  - destruct Hwf as [H0 Ho Hi Hends Hsb Hlb Hf Hen Hfu]. split; try done.
    + revert H0. unfold allocated; cbn. rewrite dom_insert_lookup_L by (exists x; done). done.
    + intros p b d Hp Hd. destruct (Ho p b d Hp Hd) as (y & Hy & Hsrc).
      destruct (Hext _ _ Hy) as (y' & Hy' & Hid & Hs1 & Ht1). exists y'. split; [done|congruence].
    + intros p b d Hp Hd. destruct (Hi p b d Hp Hd) as (y & Hy & Hsrc).
      destruct (Hext _ _ Hy) as (y' & Hy' & Hid & Hs1 & Ht1). exists y'. split; [done|congruence].
    + intros d y' Hd. destruct (Hback _ _ Hd) as (y & Hy & _ & -> & ->). by apply (Hends d).
  - split; [|done|]; intros p b Hb; exists b; (split; [done|same]).
  - intros Hl d y' b c Hd Hb Hc. destruct (Hback _ _ Hd) as (y & Hy & _ & Hs1 & Ht1).
    cbn in Hb, Hc. rewrite Hs1 in Hb. rewrite Ht1 in Hc. by apply (Hl d y).
Qed.

Lemma wp_on_edge s e x f :
  cfg_wf s -> c_edges s !! e = Some x -> same_edge x (f x) ->
  wp (on_edge e f) (fun _ s' => good s s' /\ s' = set_edges (<[e := f x]> (c_edges s)) s) s.
Proof.
  intros Hwf He Hs. apply wp_bind. eapply wp_eq; [by apply reads_edge_at|]. split; [|done].
  by apply good_on_edge.
Qed.

(** Changing the fields of a function. *)
Lemma wp_on_fn s g x f :
  cfg_wf s -> c_fns s !! g = Some x -> same_fn x (f x) ->
  (forall p, p ∈ f_entries (f x) \/ p ∈ f_exits (f x) \/ p ∈ f_bbs (f x) -> bb_ok s p) ->
  wp (on_fn g f) (fun _ s' => good s s' /\ s' = set_fns (<[g := f x]> (c_fns s)) s) s.
Proof.
  intros Hwf Hg Hs Hp. apply wp_bind. eapply wp_eq; [by apply reads_fn_at|]. split; [|done].
  assert (forall d y, c_fns s !! d = Some y -> exists y', <[g := f x]> (c_fns s) !! d = Some y' /\ same_fn y y') as Hext.
  { intros d y Hd. destruct (decide (d = g)) as [->|Hne].
    - rewrite lookup_insert_eq. rewrite Hg in Hd. apply (inj Some) in Hd as <-. eauto.
    - rewrite lookup_insert_ne by done. exists y. split; [done|]. same. }
  split_and!; [|split; [| |done]|done].
  - destruct Hwf as [H0 Ho Hi Hends Hsb Hlb Hf Hen Hfu]. split; try done.
    + revert H0. unfold allocated; cbn. rewrite dom_insert_lookup_L by (exists x; done). done.
    + intros a h Hh. destruct (Hf a h Hh) as (y & Hy & Hb). destruct (Hext _ _ Hy) as (y' & Hy' & Hb' & _).
      exists y'. split; [done|congruence].
    + intros h y p Hy. cbn in Hy. destruct (decide (h = g)) as [->|Hne].
      * rewrite lookup_insert_eq in Hy. apply (inj Some) in Hy as <-. apply Hp.
      * rewrite lookup_insert_ne in Hy by done. by apply (Hen h y).
    + intros p b h Hb Hh. destruct (Hfu p b h Hb Hh) as [y Hy].
      destruct (Hext _ _ Hy) as (y' & Hy' & _). by exists y'.
  - intros p b Hb. exists b. split; [done|same].
  - intros p b Hb. exists b. split; [done|same].
Qed.

Section Alloc.
Context `{Malloc}.

Lemma fresh_lookup s :
  c_edges s !! malloc (allocated s) = None /\ c_bbs s !! malloc (allocated s) = None /\
  c_fns s !! malloc (allocated s) = None.
Proof.
  pose proof (malloc_fresh (allocated s)) as Hf. unfold allocated in Hf at 2.
  rewrite !not_elem_of_union, !not_elem_of_dom in Hf. tauto.
Qed.

Lemma null_alloc (X : gset Z) : NULL ∉ X -> NULL ∉ {[malloc X]} ∪ X.
Proof. intros HX [Hm%elem_of_singleton|]%elem_of_union; [|done]. by apply (malloc_valid X). Qed.

Lemma null_add_bb s p b :
  NULL ∉ {[p]} ∪ allocated s -> NULL ∉ dom (c_edges s) ∪ dom (<[p := b]> (c_bbs s)) ∪ dom (c_fns s).
Proof. rewrite dom_insert_L. unfold allocated. rewrite !not_elem_of_union. tauto. Qed.
Lemma null_add_fn s p x :
  NULL ∉ {[p]} ∪ allocated s -> NULL ∉ dom (c_edges s) ∪ dom (c_bbs s) ∪ dom (<[p := x]> (c_fns s)).
Proof. rewrite dom_insert_L. unfold allocated. rewrite !not_elem_of_union. tauto. Qed.

(** A new block: no edge, in no index. *)
Lemma wp_new_bb s start end_ last g :
  cfg_wf s -> g = NULL \/ fn_ok s g ->
  wp (new_bb start end_ last g) (fun p s' => good s s' /\ p <> NULL /\ c_bbs s !! p = None /\
    (exists i, c_bbs s' !! p = Some (BB i ∅ ∅ start end_ last false false false (if decide (g = NULL) then [] else [g]))) /\
    c_functions s' = c_functions s /\ c_start2bb s' = c_start2bb s /\ c_last2bb s' = c_last2bb s /\ c_fns s' = c_fns s) s.
Proof.
  intros Hwf Hg. unfold new_bb, wp. destruct (fresh_lookup s) as (Fe & Fb & Ff).
  set (p := malloc (allocated s)) in *.
  split_and!; [|apply malloc_valid|done|eexists; cbn; by rewrite lookup_insert_eq|done|done|done|done].
  assert (forall r b, c_bbs s !! r = Some b -> r <> p) as Hne by congruence.
  split_and!.
  - destruct Hwf as [H0 Ho Hi Hends Hsb Hlb Hf Hen Hfu]. split; try done.
    + by apply (null_add_bb s), null_alloc.
    + intros r b e Hr He. cbn in Hr. destruct (decide (r = p)) as [->|Hr'].
      * rewrite lookup_insert_eq in Hr. apply (inj Some) in Hr as <-. by apply elem_of_empty in He.
      * rewrite lookup_insert_ne in Hr by done. by apply (Ho r b).
    + intros r b e Hr He. cbn in Hr. destruct (decide (r = p)) as [->|Hr'].
      * rewrite lookup_insert_eq in Hr. apply (inj Some) in Hr as <-. by apply elem_of_empty in He.
      * rewrite lookup_insert_ne in Hr by done. by apply (Hi r b).
    + intros e x He. destruct (Hends e x He) as [[b Hb] [c Hc]]. unfold bb_ok; cbn.
      split; rewrite lookup_insert_is_Some; right; (split; [by apply not_eq_sym; eauto|]); eauto.
    + intros a r Hr. destruct (Hsb a r Hr) as (b & Hb & Hst). exists b. cbn.
      rewrite lookup_insert_ne; [done|]. by apply not_eq_sym; eauto.
    + intros a r Hr. destruct (Hlb a r Hr) as (b & Hb & Hst). exists b. cbn.
      rewrite lookup_insert_ne; [done|]. by apply not_eq_sym; eauto.
    + intros h x r Hx Hr. destruct (Hen h x r Hx Hr) as [b Hb]. exists b. cbn.
      rewrite lookup_insert_ne; [done|]. by apply not_eq_sym; eauto.
    + intros r b h Hr Hh. cbn in Hr. destruct (decide (r = p)) as [->|Hr'].
      * rewrite lookup_insert_eq in Hr. apply (inj Some) in Hr as <-. cbn in Hh.
        case_decide; [set_solver|]. apply list_elem_of_singleton in Hh as ->. by destruct Hg.
      * rewrite lookup_insert_ne in Hr by done. by apply (Hfu r b).
  - split.
    + intros r b Hr. exists b. cbn. rewrite lookup_insert_ne by (apply not_eq_sym; eauto). split; [done|same].
    + intros e x He. exists x. split; [done|same].
    + intros h x Hx. exists x. split; [done|same].
  - intros Hl e x b c He Hb Hc. cbn in He, Hb, Hc.
    destruct (wf_ends _ Hwf e x He) as [[b0 Hb0] [c0 Hc0]].
    rewrite lookup_insert_ne in Hb by (apply not_eq_sym; eauto).
    rewrite lookup_insert_ne in Hc by (apply not_eq_sym; eauto). by apply (Hl e x).
Qed.

Lemma wp_store_bb s p b :
  cfg_wf s -> c_bbs s !! p = Some b ->
  wp (store_bb p) (fun _ s' => good s s' /\ c_bbs s' = c_bbs s /\ c_fns s' = c_fns s /\ c_edges s' = c_edges s /\
    c_functions s' = c_functions s /\
    c_start2bb s' = <[b_start b := p]> (c_start2bb s) /\ c_last2bb s' = <[b_last b := p]> (c_last2bb s)) s.
Proof.
  intros Hwf Hp. apply wp_bind. eapply wp_eq; [by apply reads_bb_at|].
  split; [|done]. split_and!; [|split; intros ? y ?; exists y; (split; [done|same])|done].
  destruct Hwf as [H0 Ho Hi Hends Hsb Hlb Hf Hen Hfu]. split; try done.
  - intros a r Hr. cbn in Hr. apply lookup_insert_Some in Hr as [[<- <-]|[_ Hr]]; [by exists b|]. by apply Hsb.
  - intros a r Hr. cbn in Hr. apply lookup_insert_Some in Hr as [[<- <-]|[_ Hr]]; [by exists b|]. by apply Hlb.
Qed.

Lemma wp_new_fn s base name :
  cfg_wf s ->
  wp (new_fn base name) (fun f s' => good s s' /\ f <> NULL /\
    c_fns s' !! f = Some (Fn base false false false false name ∅ ∅ ∅ ∅ ∅ ∅) /\
    c_bbs s' = c_bbs s /\ c_functions s' = c_functions s /\ c_start2bb s' = c_start2bb s /\ c_last2bb s' = c_last2bb s) s.
Proof.
  intros Hwf. unfold new_fn, wp. destruct (fresh_lookup s) as (Fe & Fb & Ff).
  set (p := malloc (allocated s)) in *.
  split_and!; [|apply malloc_valid|cbn; by rewrite lookup_insert_eq|done|done|done|done].
  assert (forall r b, c_fns s !! r = Some b -> r <> p) as Hne by congruence.
  split_and!; [| |done].
  - destruct Hwf as [H0 Ho Hi Hends Hsb Hlb Hf Hen Hfu]. split; try done.
    + by apply (null_add_fn s), null_alloc.
    + intros a f Hf'. destruct (Hf a f Hf') as (x & Hx & Hb). exists x. cbn.
      rewrite lookup_insert_ne by (apply not_eq_sym; eauto). done.
    + intros f x r Hx Hr. cbn in Hx. apply lookup_insert_Some in Hx as [[<- <-]|[_ Hx]];
        [by destruct Hr as [[]%elem_of_empty|[[]%elem_of_empty|[]%elem_of_empty]]|].
      by apply (Hen f x).
    + intros r b f Hb Hh. destruct (Hfu r b f Hb Hh) as [x Hx]. exists x. cbn.
      rewrite lookup_insert_ne by (apply not_eq_sym; eauto). done.
  - split; try (intros ? y ?; exists y; (split; [done|same])).
    intros f x Hx. exists x. cbn. rewrite lookup_insert_ne by (apply not_eq_sym; eauto). split; [done|same].
Qed.

Lemma wp_store_function s f x :
  cfg_wf s -> c_fns s !! f = Some x ->
  wp (store_function f) (fun _ s' => good s s' /\ c_bbs s' = c_bbs s /\ c_fns s' = c_fns s /\
    c_functions s' = <[f_base x := f]> (c_functions s) /\ c_start2bb s' = c_start2bb s /\ c_last2bb s' = c_last2bb s) s.
Proof.
  intros Hwf Hf. apply wp_bind. eapply wp_eq; [by apply reads_fn_at|].
  split; [|done]. split_and!; [|split; intros ? y ?; exists y; (split; [done|same])|done].
  destruct Hwf as [H0 Ho Hi Hends Hsb Hlb Hfn Hen Hfu]. split; try done.
  intros a r Hr. cbn in Hr. apply lookup_insert_Some in Hr as [[<- <-]|[_ Hr]]; [by exists x|]. by apply Hfn.
Qed.

(** Changing the outgoing edges of [p] and the incoming edges of [q]. *)
Definition ends_bb (fo fi : gset Z -> gset Z) (p q r : Z) (b : ArmsBasicBlock) : ArmsBasicBlock :=
  BB (b_id b) (if decide (r = q) then fi (b_in b) else b_in b) (if decide (r = p) then fo (b_out b) else b_out b)
     (b_start b) (b_end b) (b_last b) (b_entry b) (b_exit b) (b_dummy b) (b_funcs b).

Lemma run_ends s fo fi p q :
  bb_ok s p -> bb_ok s q ->
  exists h, (on_bb p (on_out fo);; on_bb q (on_in fi)) s = Some (tt, set_bbs h s) /\
    forall r, h !! r = ends_bb fo fi p q r <$> c_bbs s !! r.
Proof.
  intros [b Hb] [c Hc]. unfold on_bb, mbind, M_bind, bb_at, modify.
  rewrite Hb. cbn. destruct (decide (q = p)) as [->|Hne].
  - rewrite lookup_insert_eq. eexists. split; [reflexivity|]. intros r. cbn. rewrite insert_insert_eq.
    destruct (decide (r = p)) as [->|Hr].
    + rewrite lookup_insert_eq, Hb. cbn. unfold ends_bb. by rewrite !decide_True by done.
    + rewrite lookup_insert_ne by done. destruct (c_bbs s !! r) as [d|]; [|done]. cbn. unfold ends_bb.
      rewrite !decide_False by done. by destruct d.
  - rewrite lookup_insert_ne, Hc by done. eexists. split; [reflexivity|]. intros r. cbn.
    destruct (decide (r = q)) as [->|Hrq]; [|destruct (decide (r = p)) as [->|Hrp]].
    + rewrite lookup_insert_eq, Hc. cbn. unfold ends_bb. by rewrite decide_True, decide_False by done.
    + rewrite lookup_insert_ne, lookup_insert_eq, Hb by done. cbn. unfold ends_bb.
      by rewrite decide_False, decide_True by done.
    + rewrite !lookup_insert_ne by done. destruct (c_bbs s !! r) as [d|]; [|done]. cbn. unfold ends_bb.
      rewrite !decide_False by done. by destruct d.
Qed.

(** A new edge, entered at both ends. *)
Definition link_bb (p q e : Z) : Z -> ArmsBasicBlock -> ArmsBasicBlock :=
  ends_bb (fun X => {[e]} ∪ X) (fun X => {[e]} ∪ X) p q.

Record linked_to (s s' : CFG) (p q e : Z) (x : ArmsEdge) : Prop := {
  lk_fresh : c_edges s !! e = None;
  lk_edges : c_edges s' = <[e := x]> (c_edges s);
  lk_bbs r : c_bbs s' !! r = link_bb p q e r <$> c_bbs s !! r;
  lk_fns : c_fns s' = c_fns s;
  lk_functions : c_functions s' = c_functions s;
  lk_start2bb : c_start2bb s' = c_start2bb s;
  lk_last2bb : c_last2bb s' = c_last2bb s;
  lk_source : e_source x = p;
  lk_target : e_target x = q;
  lk_valid : e <> NULL
}.

Lemma dom_linked_to s s' p q e x : linked_to s s' p q e x -> dom (c_bbs s') = dom (c_bbs s).
Proof. intros L. apply set_eq. intros r. rewrite !elem_of_dom, (lk_bbs _ _ _ _ _ _ L), fmap_is_Some. done. Qed.

Lemma good_linked_to s s' p q e x :
  cfg_wf s -> bb_ok s p -> bb_ok s q -> linked_to s s' p q e x -> good s s'.
Proof.
  intros Hwf Hp Hq L. pose proof (dom_linked_to _ _ _ _ _ _ L) as Hdom.
  destruct L as [Fe Ee Bb Ff FF Fs Fl Sx Tx Ve].
  assert (forall r b, c_bbs s !! r = Some b -> c_bbs s' !! r = Some (link_bb p q e r b)) as Hfwd.
  { intros r b Hr. by rewrite Bb, Hr. }
  assert (forall r b', c_bbs s' !! r = Some b' -> exists b, c_bbs s !! r = Some b /\ b' = link_bb p q e r b) as Hback.
  { intros r b'. rewrite Bb, fmap_Some. done. }
  assert (forall r, bb_ok s' r <-> bb_ok s r) as Hok.
  { intros r. unfold bb_ok. rewrite Bb. apply fmap_is_Some. }
  assert (forall d y, c_edges s !! d = Some y -> c_edges s' !! d = Some y) as Hed.
  { intros d y Hd. rewrite Ee, lookup_insert_ne; congruence. }
  split_and!.
  - destruct Hwf as [H0 Ho Hi Hends Hsb Hlb Hf Hen Hfu]. split.
    + unfold allocated. rewrite Hdom, Ff, Ee, dom_insert_L. unfold allocated in H0. clear -H0 Ve. set_solver.
    + intros r b' d Hr Hd. apply Hback in Hr as (b & Hb & ->). cbn in Hd. case_decide as Hrp.
      * apply elem_of_union in Hd as [->%elem_of_singleton|Hd].
        -- exists x. rewrite Ee, lookup_insert_eq. by subst.
        -- destruct (Ho r b d Hb Hd) as (y & Hy & Hs). eauto.
      * destruct (Ho r b d Hb Hd) as (y & Hy & Hs). eauto.
    + intros r b' d Hr Hd. apply Hback in Hr as (b & Hb & ->). cbn in Hd. case_decide as Hrp.
      * apply elem_of_union in Hd as [->%elem_of_singleton|Hd].
        -- exists x. rewrite Ee, lookup_insert_eq. by subst.
        -- destruct (Hi r b d Hb Hd) as (y & Hy & Hs). eauto.
      * destruct (Hi r b d Hb Hd) as (y & Hy & Hs). eauto.
    + intros d y Hd. rewrite !Hok. rewrite Ee in Hd. apply lookup_insert_Some in Hd as [[<- <-]|[_ Hd]].
      * by rewrite Sx, Tx.
      * by apply (Hends d).
    + intros a r Hr. rewrite Fs in Hr. destruct (Hsb a r Hr) as (b & Hb & Hst). eexists. by split; [apply Hfwd|].
    + intros a r Hr. rewrite Fl in Hr. destruct (Hlb a r Hr) as (b & Hb & Hst). eexists. by split; [apply Hfwd|].
    + intros a f Ha. rewrite FF in Ha. rewrite Ff. by apply Hf.
    + intros f y r Hy Hr. rewrite Ff in Hy. apply Hok. by apply (Hen f y).
    + intros r b' f Hr Hh. apply Hback in Hr as (b & Hb & ->). unfold fn_ok. rewrite Ff. by apply (Hfu r b).
  - split.
    + intros r b Hr. eexists. split; [by apply Hfwd|same].
    + intros d y Hd. exists y. split; [auto|same].
    + intros f y Hy. exists y. rewrite Ff. split; [done|same].
  - intros Hl d y b' c' Hd Hb Hc. apply Hback in Hb as (b & Hb & ->). apply Hback in Hc as (c & Hc & ->).
    rewrite Ee in Hd. apply lookup_insert_Some in Hd as [[<- <-]|[Hne Hd]]; cbn.
    + rewrite Sx, Tx, !decide_True by done. clear. set_solver.
    + specialize (Hl d y b c Hd Hb Hc). clear -Hl Hne. repeat case_decide; set_solver.
Qed.

Lemma wp_link_typed s p q t :
  cfg_wf s -> bb_ok s p -> bb_ok s q ->
  wp (link_typed p q t) (fun _ s' => good s s' /\ exists e i, linked_to s s' p q e i /\ e_type i = t /\ e_hidden i = false /\
    (inter_type t = true -> e_intra i = Some false)) s.
Proof.
  intros Hwf Hp Hq. unfold link_typed, new_ArmsEdge_typed, new_edge, set_type, on_edge, edge_at, modify.
  unfold wp, mbind, M_bind. cbn. rewrite lookup_insert_eq. cbn. rewrite insert_insert_eq.
  set (e := malloc (allocated s)). set (x := set_type_of t _).
  match goal with |- context [add_outgoing_edge p e ?st] => set (s1 := st) end.
  destruct (run_ends s1 (fun X => {[e]} ∪ X) (fun X => {[e]} ∪ X) p q) as (h & Hrun & Hh); [done|done|].
  unfold mbind, M_bind in Hrun. unfold add_outgoing_edge, add_incoming_edge. rewrite Hrun.
  assert (linked_to s (set_bbs h s1) p q e x) as L.
  { split; [exact (proj1 (fresh_lookup s))|reflexivity|done|done|done|done|done|done|done|apply malloc_valid]. }
  split; [by apply (good_linked_to s _ p q e x)|]. exists e, x. split_and!; [done..|]. intros Ht. subst x. cbn. by rewrite Ht.
Qed.

Lemma wp_link s p q :
  cfg_wf s -> bb_ok s p -> bb_ok s q ->
  wp (link p q) (fun e s' => good s s' /\ exists x, linked_to s s' p q e x /\
    e_hidden x = false /\ e_type x = arms_unknown /\ e_intra x = Some true /\ e_replaced x = []) s.
Proof.
  intros Hwf Hp Hq. unfold link, new_ArmsEdge, new_edge, wp, mbind, M_bind. cbn.
  set (e := malloc (allocated s)).
  match goal with |- context [add_outgoing_edge p e ?st] => set (s1 := st) end.
  destruct (run_ends s1 (fun X => {[e]} ∪ X) (fun X => {[e]} ∪ X) p q) as (h & Hrun & Hh); [done|done|].
  unfold mbind, M_bind in Hrun. unfold add_outgoing_edge, add_incoming_edge.
  destruct (on_bb p _ s1) as [[[] s2]|]; [|done]. rewrite Hrun. cbn.
  set (x := Edge (c_id_seq s) false p q arms_unknown [] (Some true)).
  assert (linked_to s (set_bbs h s1) p q e x) as L.
  { split; [exact (proj1 (fresh_lookup s))|reflexivity|done|done|done|done|done|done|done|apply malloc_valid]. }
  split; [by apply (good_linked_to s _ p q e x)|]. exists x. done.
Qed.

End Alloc.

Lemma set_addrs_wf lo hi s : cfg_wf s -> cfg_wf (set_addrs lo hi s).
Proof. intros [H0 Ho Hi Hends Hsb Hlb Hf Hen Hfu]. by split. Qed.

(** ** Composing steps *)

Lemma wp_good_bind {A B} (m : M A) (f : A -> M B) s (P : A -> CFG -> Prop) (Q : B -> CFG -> Prop) :
  wp m (fun a s' => good s s' /\ P a s') s ->
  (forall a s', good s s' -> P a s' -> wp (f a) (fun b s'' => good s' s'' /\ Q b s'') s') ->
  wp (m ≫= f) (fun b s'' => good s s'' /\ Q b s'') s.
Proof.
  intros Hm Hf. apply wp_bind. eapply wp_mono; [apply Hm|]. intros a s' [Hg HP].
  eapply wp_mono; [by apply Hf|]. intros b s'' [Hg' HQ]. split; [|done]. by eapply good_trans.
Qed.

(** A read costs nothing. *)
Lemma wp_reads {A B} (m : M A) (f : A -> M B) s a (Q : B -> CFG -> Prop) :
  reads m s a -> wp (f a) Q s -> wp (m ≫= f) Q s.
Proof. intros Hm Hf. apply wp_bind. by eapply wp_eq. Qed.

Lemma wp_good_ret {A} (a : A) s (Q : A -> CFG -> Prop) :
  cfg_wf s -> Q a s -> wp (mret a) (fun a s' => good s s' /\ Q a s') s.
Proof. intros Hwf HQ. split; [by apply good_refl|done]. Qed.

Lemma wp_for_each body l s (P : Z -> CFG -> Prop) :
  (forall x s s', extends s s' -> P x s -> P x s') ->
  (forall x s, cfg_wf s -> P x s -> wp (body x) (fun _ s' => good s s' /\ True) s) ->
  cfg_wf s -> Forall (fun x => P x s) l -> wp (for_each body l) (fun _ s' => good s s' /\ True) s.
Proof.
  intros Hstable Hbody. revert s. induction l as [|x l IH]; intros s Hwf Hl; [by apply wp_good_ret|].
  apply Forall_cons in Hl as [Hx Hl]. cbn [for_each].
  eapply wp_good_bind; [by apply Hbody|]. intros _ s' Hg _. apply IH; [apply Hg|].
  eapply Forall_impl; [apply Hl|]. intros y. apply Hstable. apply Hg.
Qed.

Lemma good_wf s s' : good s s' -> cfg_wf s'.
Proof. intros [? _]. done. Qed.
Lemma good_extends s s' : good s s' -> extends s s'.
Proof. intros (_ & ? & _). done. Qed.
#[export] Hint Resolve good_wf good_extends good_refl : pa.

(** Lookups in the indexes. *)
Lemma find_bb_spec s a :
  cfg_wf s ->
  exists p, reads (find_bb a) s p /\ (p = NULL /\ c_start2bb s !! a = None \/
    p <> NULL /\ c_start2bb s !! a = Some p /\ exists b, c_bbs s !! p = Some b /\ b_start b = a).
Proof.
  intros Hwf. eexists. split; [apply reads_gets|]. cbn.
  destruct (c_start2bb s !! a) as [p|] eqn:Ha; cbn; [right|by left].
  destruct (wf_start2bb _ Hwf _ _ Ha) as (b & Hb & Hs). split; [|eauto].
  apply (ok_not_null s); [done|]. left. by exists b.
Qed.

Lemma find_bb_by_last_spec s a :
  cfg_wf s ->
  exists p, reads (find_bb_by_last_insn_address a) s p /\ (p = NULL /\ c_last2bb s !! a = None \/
    p <> NULL /\ c_last2bb s !! a = Some p /\ exists b, c_bbs s !! p = Some b /\ b_last b = a).
Proof.
  intros Hwf. eexists. split; [apply reads_gets|]. cbn.
  destruct (c_last2bb s !! a) as [p|] eqn:Ha; cbn; [right|by left].
  destruct (wf_last2bb _ Hwf _ _ Ha) as (b & Hb & Hs). split; [|eauto].
  apply (ok_not_null s); [done|]. left. by exists b.
Qed.

Lemma find_function_spec s a :
  cfg_wf s ->
  exists f, reads (find_function a) s f /\ (f = NULL /\ c_functions s !! a = None \/
    f <> NULL /\ c_functions s !! a = Some f /\ exists x, c_fns s !! f = Some x /\ f_base x = a).
Proof.
  intros Hwf. eexists. split; [apply reads_gets|]. cbn.
  destruct (c_functions s !! a) as [p|] eqn:Ha; cbn; [right|by left].
  destruct (wf_functions _ Hwf _ _ Ha) as (b & Hb & Hs). split; [|eauto].
  apply (ok_not_null s); [done|]. right. right. by exists b.
Qed.

(** Changing the sets of edges or the flags of a block, so that the edges of
    the block still lie at it. *)
Lemma wp_on_bb s p b f :
  cfg_wf s -> c_bbs s !! p = Some b -> same_bb b (f b) ->
  (forall e, e ∈ b_out (f b) -> exists x, c_edges s !! e = Some x /\ e_source x = p) ->
  (forall e, e ∈ b_in (f b) -> exists x, c_edges s !! e = Some x /\ e_target x = p) ->
  wp (on_bb p f) (fun _ s' => cfg_wf s' /\ extends s s' /\ s' = set_bbs (<[p := f b]> (c_bbs s)) s) s.
Proof.
  intros Hwf Hp (Hid & Hst & Hen & Hla & Hfs) Hout Hin.
  apply wp_bind. eapply wp_eq; [by apply reads_bb_at|]. cbn. split_and!; [| |done].
  - destruct Hwf as [H0 Ho Hi Hends Hsb Hlb Hf Hent Hfu].
    assert (forall r, bb_ok s r -> bb_ok (set_bbs (<[p := f b]> (c_bbs s)) s) r) as Hok.
    { intros r Hr. unfold bb_ok. cbn. apply lookup_insert_is_Some'. by right. }
    split; cbn; try done.
    + unfold allocated; cbn. rewrite dom_insert_lookup_L by (exists b; done). done.
    + intros r c e Hr He. apply lookup_insert_Some in Hr as [[<- <-]|[_ Hr]]; [by apply Hout|by apply (Ho r c)].
    + intros r c e Hr He. apply lookup_insert_Some in Hr as [[<- <-]|[_ Hr]]; [by apply Hin|by apply (Hi r c)].
    + intros e x He. destruct (Hends e x He). auto.
    + intros a r Hr. destruct (Hsb a r Hr) as (c & Hc & Hs). destruct (decide (r = p)) as [->|Hne].
      * rewrite lookup_insert_eq. exists (f b). split; [done|congruence].
      * rewrite lookup_insert_ne by done. eauto.
    + intros a r Hr. destruct (Hlb a r Hr) as (c & Hc & Hs). destruct (decide (r = p)) as [->|Hne].
      * rewrite lookup_insert_eq. exists (f b). split; [done|congruence].
      * rewrite lookup_insert_ne by done. eauto.
    + intros g x r Hx Hr. apply Hok. by apply (Hent g x).
    + intros r c g Hr Hg. apply lookup_insert_Some in Hr as [[<- <-]|[_ Hr]].
      * rewrite Hfs in Hg. by apply (Hfu p b).
      * by apply (Hfu r c).
  - split; try (intros r y Hy; exists y; (split; [done|same])).
    intros r c Hr. cbn. destruct (decide (r = p)) as [->|Hne].
    + rewrite lookup_insert_eq. rewrite Hp in Hr. apply (inj Some) in Hr as <-. eexists. split; [done|]. split_and!; done.
    + rewrite lookup_insert_ne by done. exists c. split; [done|same].
Qed.

(** A change of flags only. *)
Lemma wp_on_bb_flags s p b f :
  cfg_wf s -> c_bbs s !! p = Some b -> same_bb b (f b) -> b_out (f b) = b_out b -> b_in (f b) = b_in b ->
  wp (on_bb p f) (fun _ s' => good s s' /\ s' = set_bbs (<[p := f b]> (c_bbs s)) s) s.
Proof.
  intros Hwf Hp Hs Ho Hi. eapply wp_mono.
  - apply (wp_on_bb _ _ b); [done|done|done| |].
    + rewrite Ho. intros e He. by apply (wf_out _ Hwf p b).
    + rewrite Hi. intros e He. by apply (wf_in _ Hwf p b).
  - intros _ s' (Hwf' & Hx & ->). split; [|done]. split_and!; [done|done|].
    intros Hl e x c d He Hc Hd. cbn in *.
    apply lookup_insert_Some in Hc as [[Hps <-]|[_ Hc]]; apply lookup_insert_Some in Hd as [[Hpt <-]|[_ Hd]];
      rewrite ?Ho, ?Hi; (eapply Hl; [exact He|congruence|congruence]).
Qed.

(** ** The operations *)

Section Operations.
Context `{Malloc}.

Lemma good_set_seqs s i g d : cfg_wf s -> good s (set_seqs i g d s).
Proof.
  intros [H0 Ho Hi Hends Hsb Hlb Hf Hen Hfu]. split_and!; [by split| |done].
  split; intros ? y ?; exists y; (split; [done|same]).
Qed.

Lemma wp_count_dummy s :
  cfg_wf s ->
  wp count_dummy (fun d s' => good s s' /\ s' = set_seqs (c_id_seq s) (c_global_id s) d s) s.
Proof. intros Hwf. split; [by apply good_set_seqs|done]. Qed.

(** A new dummy block of a function, not yet in the indexes. *)
Definition dummy_at (s s' : CFG) (p a f : Z) : Prop :=
  p <> NULL /\ (exists b, c_bbs s' !! p = Some b /\ b_start b = a /\ b_last b = a /\ b_dummy b = true) /\
  c_functions s' = c_functions s /\ c_start2bb s' = c_start2bb s /\ c_last2bb s' = c_last2bb s /\ c_fns s' = c_fns s.

Lemma wp_dummy_body s a en f :
  cfg_wf s -> f = NULL \/ fn_ok s f ->
  wp (count_dummy;; p ← new_bb a en a f; on_bb p set_dummy;; mret p)
     (fun p s' => good s s' /\ dummy_at s s' p a f) s.
Proof.
  intros Hwf Hf. eapply wp_good_bind; [by apply wp_count_dummy|].
  cbn beta. intros d s1 Hg1 Hs1. eapply wp_mono.
  - eapply wp_good_bind.
    + apply (wp_new_bb s1); [apply Hg1|]. destruct Hf as [->|Hf]; [by left|right; eauto with pa].
    + cbn beta. intros p s2 Hg2 (Hp & _ & [i Hb] & E1 & E2 & E3 & E4).
      eapply wp_good_bind; [apply (wp_on_bb_flags _ _ _ _ (good_wf _ _ Hg2) Hb); same|].
      intros _ s3 Hg3 ->. apply wp_good_ret with (Q := fun r s' => dummy_at s1 s' r a f); [by eapply good_wf|].
      split_and!; [done| |done|done|done|done]. eexists. cbn. by rewrite lookup_insert_eq.
  - cbn beta. intros p s2 [Hg2 HD]. split; [done|]. subst s1. exact HD.
Qed.

Lemma wp_create_dummy_function s name a :
  cfg_wf s ->
  wp (create_dummy_function name a) (fun f s' => good s s' /\ f <> NULL /\
    c_functions s' !! a = Some f /\ fn_ok s' f) s.
Proof.
  intros Hwf. destruct (find_function_spec s a Hwf) as (f & Hf & [[-> Hn]|(Hne & Ha & x & Hx & _)]).
  2: { eapply wp_reads; [done|]. rewrite bool_decide_eq_false_2 by done.
       apply wp_good_ret with (Q := fun f s' => f <> NULL /\ c_functions s' !! a = Some f /\ fn_ok s' f);
         [done|]. split_and!; [done|done|by exists x]. }
  eapply wp_reads; [done|]. cbn [negb bool_decide decide_rel].
  eapply wp_good_bind; [by apply wp_new_fn|]. cbn beta.
  intros g s1 Hg1 (Hg & Hx & _ & E1 & E2 & E3).
  eapply wp_good_bind; [apply (wp_store_function _ _ _ (good_wf _ _ Hg1) Hx)|]. cbn beta.
  intros _ s2 Hg2 (_ & F2 & E4 & E5 & E6).
  eapply wp_good_bind; [apply (wp_dummy_body _ a _ g); [eauto with pa|right; eexists; rewrite F2; exact Hx]|]. cbn beta.
  intros p s3 Hg3 (Hp & (b & Hb & Hst & Hla & _) & E7 & _ & _ & F3).
  eapply wp_good_bind; [apply (wp_store_bb _ _ _ (good_wf _ _ Hg3) Hb)|]. cbn beta.
  intros _ s4 Hg4 (B4 & F4 & _ & E8 & _ & _).
  assert (c_fns s4 !! g = Some (Fn a false false false false name ∅ ∅ ∅ ∅ ∅ ∅)) as Hx4 by (rewrite F4, F3, F2; done).
  assert (bb_ok s4 p) as Hp4 by (exists b; by rewrite B4).
  eapply wp_good_bind.
  { apply (wp_on_fn _ _ _ _ (good_wf _ _ Hg4) Hx4); [same|]. cbn. intros r Hr.
    assert (r = p) as -> by set_solver. exact Hp4. }
  cbn beta. intros _ s5 Hg5 Hs5. subst s5.
  eapply wp_good_bind.
  { apply (wp_on_fn _ g _ _ (good_wf _ _ Hg5) (lookup_insert_eq _ _ _)); [same|]. cbn. intros r Hr.
    assert (r = p) as -> by set_solver. exact Hp4. }
  cbn beta. intros _ s6 Hg6 Hs6. subst s6.
  apply wp_good_ret with (Q := fun f s' => f <> NULL /\ c_functions s' !! a = Some f /\ fn_ok s' f); [eauto with pa|].
  split_and!; [done| |].
  - cbn. rewrite E8, E7, E4. cbn. apply lookup_insert_eq.
  - eexists. cbn. apply lookup_insert_eq.
Qed.

(** The source (target) block of an edge between two addresses. *)
Lemma wp_find_or_new s find a (P : CFG -> Z -> Prop) :
  cfg_wf s ->
  (exists p, reads find s p /\ (p = NULL \/ p <> NULL /\ P s p)) ->
  (forall s' s'' p b, good s s' -> good s' s'' -> c_bbs s'' !! p = Some b -> b_start b = a -> b_last b = a ->
     c_start2bb s'' = <[a := p]> (c_start2bb s) -> c_last2bb s'' = <[a := p]> (c_last2bb s) -> P s'' p) ->
  wp (find_or_new find a) (fun p s' => good s s' /\ p <> NULL /\ P s' p /\
    (forall k, is_Some (c_last2bb s !! k) -> c_last2bb s' !! k = c_last2bb s !! k \/ k = a)) s.
Proof.
  intros Hwf (p & Hp & Hcase) Hnew. unfold find_or_new. eapply wp_reads; [done|].
  destruct Hcase as [->|[Hne HP]].
  2: { rewrite bool_decide_eq_false_2 by done. split; [by apply good_refl|]. split_and!; [done|done|auto]. }
  cbn [negb bool_decide decide_rel].
  eapply wp_good_bind; [by apply wp_new_bb; [|left]|]. cbn beta.
  intros p s1 Hg1 (Hp0 & _ & [i Hb] & _ & E2 & E3 & _).
  eapply wp_good_bind; [apply (wp_store_bb _ _ _ (good_wf _ _ Hg1) Hb)|]. cbn beta.
  intros _ s2 Hg2 (B2 & _ & _ & _ & E4 & E5). split; [apply good_refl; eauto with pa|].
  cbn in E4, E5. rewrite E2 in E4. rewrite E3 in E5. split_and!; [done| |].
  - apply (Hnew s1 s2 p _ Hg1 Hg2 ltac:(by rewrite B2)); done.
  - intros k Hk. rewrite E5. destruct (decide (k = a)) as [->|Hka]; [by right|].
    left. by rewrite lookup_insert_ne by done.
Qed.

(** An edge [e] from a block that ends at [a] to a block that starts at [b]. *)
Definition edge_between (s : CFG) (e a b : Z) : Prop :=
  exists x p q, c_edges s !! e = Some x /\ c_bbs s !! e_source x = Some p /\ c_bbs s !! e_target x = Some q /\
    b_last p = a /\ b_start q = b /\ e ∈ b_out p /\ e ∈ b_in q.

Definition ends_at (s : CFG) (a p : Z) : Prop := exists b, c_bbs s !! p = Some b /\ b_last b = a.
Definition starts_at (s : CFG) (a p : Z) : Prop := exists b, c_bbs s !! p = Some b /\ b_start b = a.

Lemma ends_at_extends s s' a p : extends s s' -> ends_at s a p -> ends_at s' a p.
Proof.
  intros Hx (b & Hb & Ha). destruct (ext_bb _ _ Hx _ _ Hb) as (b' & Hb' & _ & _ & _ & Hl & _).
  exists b'. split; [done|congruence].
Qed.

Lemma linked_edge_between s s' p q e x b c :
  linked_to s s' p q e x -> c_bbs s !! p = Some b -> c_bbs s !! q = Some c -> edge_between s' e (b_last b) (b_start c).
Proof.
  intros L Hb Hc. exists x, (link_bb p q e p b), (link_bb p q e q c).
  rewrite (lk_source _ _ _ _ _ _ L), (lk_target _ _ _ _ _ _ L), !(lk_bbs _ _ _ _ _ _ L), Hb, Hc, (lk_edges _ _ _ _ _ _ L). cbn.
  rewrite !decide_True by done. split_and!; try done; [apply lookup_insert_eq|apply elem_of_union_l, elem_of_singleton; done..].
Qed.

Lemma wp_create_and_add_edge_addr s a b :
  cfg_wf s ->
  wp (create_and_add_edge_addr a b) (fun e s' => good s s' /\ e <> NULL /\ edge_between s' e a b /\
    (exists x, c_edges s' !! e = Some x /\ e_hidden x = false /\
       (a <> b -> c_last2bb s' !! a = Some (e_source x)))) s.
Proof.
  intros Hwf. unfold create_and_add_edge_addr.
  eapply wp_good_bind.
  { apply (wp_find_or_new _ _ _ (fun s' p => ends_at s' a p /\ c_last2bb s' !! a = Some p)); [done| |].
    - destruct (find_bb_by_last_spec s a Hwf) as (p & Hp & [[-> _]|(Hne & Ha & Hb)]); eauto 6.
    - intros s1 s2 p c _ _ Hc _ Hl _ ->. split; [by exists c|]. apply lookup_insert_eq. }
  cbn beta. intros p s1 Hg1 (Hp & [Hpa Hla] & _).
  eapply wp_good_bind.
  { apply (wp_find_or_new _ _ _ (fun s' q => starts_at s' b q)); [eauto with pa| |].
    - destruct (find_bb_spec s1 b ltac:(eauto with pa)) as (q & Hq & [[-> _]|(Hne & Hb & Hc)]); eauto 6.
    - intros s2 s3 q c _ _ Hc Hs _ _ _. by exists c. }
  cbn beta. intros q s2 Hg2 (Hq & Hqb & Hframe).
  apply (ends_at_extends _ _ _ _ (good_extends _ _ Hg2)) in Hpa.
  destruct Hpa as (bp & Hbp & Hlp), Hqb as (bq & Hbq & Hsq).
  eapply wp_mono; [apply (wp_link s2 p q); [eauto with pa|by exists bp|by exists bq]|].
  intros e s3 [Hg3 (x & L & Hh & _ & _)]. split; [done|].
  pose proof (lk_source _ _ _ _ _ _ L) as Sx. pose proof (lk_target _ _ _ _ _ _ L) as Tx.
  assert (c_edges s3 !! e = Some x) as He by (rewrite (lk_edges _ _ _ _ _ _ L); apply lookup_insert_eq).
  split_and!; [apply (lk_valid _ _ _ _ _ _ L)| |].
  - rewrite <- Hlp, <- Hsq. by apply (linked_edge_between s2 s3 p q e x).
  - exists x. split_and!; [done|done|]. intros Hab. rewrite (lk_last2bb _ _ _ _ _ _ L), Sx.
    destruct (Hframe a) as [->|]; [by rewrite Hla|by rewrite Hla|done].
Qed.

(** The block is the one its start address leads to, or none is stored there. *)
Definition indexed_as (s : CFG) (p : Z) (b : ArmsBasicBlock) : Prop :=
  forall r c, c_start2bb s !! b_start b = Some r -> c_bbs s !! r = Some c -> b_id c = b_id b.

Lemma wp_store_if_missing s p b :
  cfg_wf s -> c_bbs s !! p = Some b -> indexed_as s p b ->
  wp (store_if_missing p) (fun _ s' => good s s' /\ c_bbs s' = c_bbs s /\
    (c_start2bb s' = c_start2bb s \/ c_start2bb s' = <[b_start b := p]> (c_start2bb s))) s.
Proof.
  intros Hwf Hp Hix. unfold store_if_missing. eapply wp_reads; [by apply reads_bb_at|].
  destruct (find_bb_spec s (b_start b) Hwf) as (q & Hq & [[-> Hn]|(Hne & Ha & c & Hc & Hs)]).
  - eapply wp_reads; [done|]. rewrite decide_True by done.
    eapply wp_good_bind; [by apply wp_store_bb|]. cbn beta. intros _ s1 Hg1 (B1 & _ & _ & _ & E1 & _).
    eapply wp_reads; [apply reads_gets|]. rewrite E1, lookup_insert_eq. cbn [default from_option].
    eapply wp_reads.
    { eapply reads_bind; [apply (reads_bb_at _ _ b); by rewrite B1|].
      eapply reads_bind; [apply (reads_bb_at _ _ b); by rewrite B1|]. apply reads_ret. }
    rewrite bool_decide_eq_true_2 by done. split; [apply good_refl; eauto with pa|]. rewrite B1, E1. auto.
  - eapply wp_reads; [done|]. rewrite decide_False by done.
    eapply wp_reads; [apply reads_ret|]. eapply wp_reads; [done|].
    eapply wp_reads.
    { eapply reads_bind; [by apply reads_bb_at|]. eapply reads_bind; [by apply reads_bb_at|]. apply reads_ret. }
    rewrite bool_decide_eq_true_2 by (by apply (Hix q)). split; [by apply good_refl|]. auto.
Qed.

Lemma wp_create_and_add_edge s p q b c :
  cfg_wf s -> c_bbs s !! p = Some b -> c_bbs s !! q = Some c ->
  indexed_as s p b -> indexed_as s q c -> (b_start b = b_start c -> b_id b = b_id c) ->
  wp (create_and_add_edge p q) (fun e s' => good s s' /\ edge_between s' e (b_last b) (b_start c) /\
    exists x, c_edges s' !! e = Some x /\ e_hidden x = false) s.
Proof.
  intros Hwf Hp Hq Hpi Hqi Hid. unfold create_and_add_edge. rewrite decide_False.
  2: { intros [->| ->]; [apply (ok_not_null s NULL)|apply (ok_not_null s NULL)]; try done; left; by eexists. }
  eapply wp_good_bind; [by apply wp_store_if_missing|]. cbn beta. intros _ s1 Hg1 (B1 & E1).
  eapply wp_good_bind.
  { apply (wp_store_if_missing _ _ c); [eauto with pa|by rewrite B1|].
    intros r d Hr Hd. rewrite B1 in Hd. destruct E1 as [E1|E1]; rewrite E1 in Hr; [by apply (Hqi r)|].
    apply lookup_insert_Some in Hr as [[Hbc <-]|[_ Hr]]; [|by apply (Hqi r)].
    rewrite Hp in Hd. apply (inj Some) in Hd as <-. auto. }
  cbn beta. intros _ s2 Hg2 (B2 & _).
  eapply wp_mono; [apply (wp_link s2 p q); [eauto with pa|exists b; by rewrite B2, B1|exists c; by rewrite B2, B1]|].
  intros e s3 [Hg3 (x & L & Hh & _)]. split; [done|].
  assert (c_edges s3 !! e = Some x) as He by (rewrite (lk_edges _ _ _ _ _ _ L); apply lookup_insert_eq).
  split; [|by exists x]. by apply (linked_edge_between s2 s3 p q e x b c L); rewrite ?B2, ?B1.
Qed.

(** Return edges and call edges. *)
Lemma wp_link_typed_all s r t l :
  cfg_wf s -> bb_ok s r -> Forall (bb_ok s) l ->
  wp (for_each (fun p => link_typed p r t) l) (fun _ s' => good s s' /\ True) s.
Proof.
  intros Hwf Hr Hl. apply (wp_for_each _ _ _ (fun p s => bb_ok s p /\ bb_ok s r)).
  - intros x s1 s2 Hx []. eauto with pa.
  - intros x s1 Hwf1 [Hx Hr1]. eapply wp_mono; [by apply wp_link_typed|]. cbn beta. tauto.
  - done.
  - eapply Forall_impl; [exact Hl|]. done.
Qed.

Lemma wp_create_ret_edges s p a :
  cfg_wf s -> bb_ok s p -> wp (create_ret_edges p a) (fun _ s' => good s s' /\ True) s.
Proof.
  intros Hwf [b Hb]. unfold create_ret_edges. eapply wp_reads; [by apply reads_bb_at|].
  destruct (find_bb_spec s (b_end b) Hwf) as (r & Hr & [[-> _]|(Hrn & _ & br & Hbr & _)]).
  { eapply wp_reads; [done|]. rewrite decide_True by done. by apply wp_good_ret. }
  eapply wp_reads; [done|]. rewrite decide_False by done.
  destruct (find_bb_spec s a Hwf) as (q & Hq & [[-> _]|(Hqn & _ & bq & Hbq & _)]).
  { eapply wp_reads; [done|]. rewrite decide_True by done. by apply wp_good_ret. }
  eapply wp_reads; [done|]. rewrite decide_False by done.
  eapply wp_reads; [by apply reads_bb_at|].
  apply (wp_for_each _ _ _ (fun f s => fn_ok s f /\ bb_ok s r)).
  - intros x s1 s2 Hx []. eauto with pa.
  - intros f s1 Hwf1 [[x Hx] Hr1]. unfold callback_create_ret_edges. eapply wp_reads; [by apply reads_fn_at|].
    apply wp_link_typed_all; [done|done|]. apply Forall_forall. intros e He%elem_of_in_order.
    apply (wf_entries _ Hwf1 f x e Hx). by right; left.
  - done.
  - apply Forall_forall. intros f Hf. split; [by apply (wf_funcs _ Hwf q bq)|by exists br].
Qed.

Lemma wp_handle_interprocedural_call s p a t :
  cfg_wf s -> bb_ok s p -> wp (handle_interprocedural_call p a t) (fun _ s' => good s s' /\ True) s.
Proof.
  intros Hwf Hp. unfold handle_interprocedural_call.
  eapply wp_good_bind with (P := fun _ _ => True).
  { unfold create_call_edge. destruct (find_bb_spec s a Hwf) as (q & Hq & [[-> _]|(Hqn & _ & bq & Hbq & _)]).
    - eapply wp_reads; [done|]. rewrite decide_True by done. by apply wp_good_ret.
    - eapply wp_reads; [done|]. rewrite decide_False by done.
      eapply wp_mono; [apply wp_link_typed; [done|done|by exists bq]|]. cbn beta. tauto. }
  intros _ s1 Hg1 _. assert (cfg_wf s1) as Hwf1 by eauto with pa.
  assert (bb_ok s1 p) as [b Hb] by eauto with pa.
  destruct (find_function_spec s1 a Hwf1) as (f & Hf & Hcase). eapply wp_reads; [done|].
  assert (exists plt : bool, reads (if decide (f = NULL) then mret false else x ← fn_at f; mret (f_plt x)) s1 plt) as [plt Hplt].
  { destruct Hcase as [[-> _]|(Hn & _ & x & Hx & _)].
    - exists false. by rewrite decide_True.
    - exists (f_plt x). rewrite decide_False by done. eapply reads_bind; [by apply reads_fn_at|apply reads_ret]. }
  eapply wp_reads; [exact Hplt|]. eapply wp_good_bind with (P := fun _ _ => True).
  { destruct plt; [|by apply wp_good_ret]. eapply wp_reads; [by apply reads_bb_at|].
    apply (wp_for_each _ _ _ (fun g s => fn_ok s g)).
    - eauto with pa.
    - intros g s2 Hwf2 [x Hx]. eapply wp_mono.
      + apply (wp_on_fn _ _ _ _ Hwf2 Hx); [same|]. intros r. apply (wf_entries _ Hwf2 _ _ _ Hx).
      + cbn beta. tauto.
    - done.
    - apply Forall_forall. intros g Hg. by apply (wf_funcs _ Hwf1 p b). }
  intros _ s2 Hg2 _. assert (cfg_wf s2) as Hwf2 by eauto with pa.
  assert (bb_ok s2 p) as Hp2 by (eapply extends_bb_ok; [apply Hg2|by exists b]). destruct (edge_type_is_indirect t); cbn [negb]; [|by apply wp_good_ret].
  pose proof Hp2 as [b2 Hb2]. eapply wp_reads; [by apply reads_bb_at|].
  destruct (b_exit b2); [by apply wp_good_ret|]. by apply wp_create_ret_edges.
Qed.

End Operations.

(** ** Functions whose address is taken *)

Section Mark.

Definition indirect_in (s : CFG) (p : Z) : bool :=
  match c_bbs s !! p with
  | Some b => existsb (fun e => from_option is_indirect false (c_edges s !! e)) (in_order (b_in b))
  | None => false
  end.

Definition at_or (b : bool) (x : ArmsFunction) : ArmsFunction :=
  Fn (f_base x) (f_at x || b) (f_plt x) (f_lib_dummy x) (f_main x) (f_name x) (f_bbs x) (f_entries x) (f_exits x)
     (f_ext x) (f_callees x) (f_callers x).

(** Some block the function is entered through has an indirect edge into it,
    and the function does not stand for a library function. *)
Definition taken (s : CFG) (x : ArmsFunction) : bool :=
  negb (f_lib_dummy x) && existsb (indirect_in s) (in_order (f_entries x)).

Lemma at_or_false x : at_or false x = x.
Proof. destruct x. unfold at_or. cbn. by rewrite orb_false_r. Qed.

Lemma at_or_or a b x : at_or b (at_or a x) = at_or (a || b) x.
Proof. unfold at_or. cbn. by rewrite orb_assoc. Qed.

(** [s] with the functions of [h]. *)
Lemma has_indirect_inbound_run s h p :
  cfg_wf s -> bb_ok s p -> reads (has_indirect_inbound p) (set_fns h s) (indirect_in s p).
Proof.
  intros Hwf [b Hb]. unfold has_indirect_inbound, incoming_edges, indirect_in. rewrite Hb.
  eapply reads_bind; [eapply reads_bind; [by apply reads_bb_at|apply reads_ret]|].
  apply reads_exists_m. intros e He%elem_of_in_order.
  destruct (wf_in _ Hwf p b e Hb He) as (x & Hx & _). rewrite Hx. cbn.
  eapply reads_bind; [by apply reads_edge_at|apply reads_ret].
Qed.

Lemma mark_entries_run s h f x l :
  cfg_wf s -> Forall (bb_ok s) l -> h !! f = Some x ->
  exists b, mark_entries f l (set_fns h s) = Some (tt, set_fns (<[f := at_or b x]> h) s) /\
    f_at x || b = f_at x || existsb (indirect_in s) l.
Proof.
  intros Hwf Hl. revert h x. induction l as [|p l IH]; intros h x Hx; cbn [mark_entries existsb].
  - exists false. rewrite at_or_false, insert_id by done. done.
  - apply Forall_cons in Hl as [Hp Hl].
    unfold mbind at 1, M_bind at 1. rewrite (has_indirect_inbound_run s h p Hwf Hp).
    destruct (indirect_in s p) eqn:Hi.
    + exists true. split; [|by rewrite !orb_true_r].
      unfold set_addr_taken, on_fn, mbind, M_bind, fn_at, modify. cbn. rewrite Hx. cbn. rewrite lookup_insert_eq. cbn.
      unfold at_or. by rewrite orb_true_r.
    + unfold mbind, M_bind, fn_at. cbn. rewrite Hx. cbn. destruct (f_at x) eqn:Hat.
      * exists false. rewrite at_or_false, insert_id by done. done.
      * destruct (IH Hl h x Hx) as (b & Hrun & Hb). exists b. rewrite Hrun. by rewrite Hat in Hb.
Qed.

Lemma mark_function_if_at_run s h f x :
  cfg_wf s -> h !! f = Some x -> (forall p, p ∈ f_entries x -> bb_ok s p) ->
  exists b, mark_function_if_at f (set_fns h s) = Some (tt, set_fns (<[f := at_or b x]> h) s) /\
    f_at x || b = f_at x || taken s x.
Proof.
  intros Hwf Hx Hp. unfold mark_function_if_at, taken, mbind at 1, M_bind at 1, fn_at at 1. cbn. rewrite Hx. cbn.
  destruct (f_lib_dummy x); cbn.
  - exists false. by rewrite at_or_false, insert_id by done.
  - apply mark_entries_run; [done| |done]. apply Forall_forall. intros p Hin%elem_of_in_order. auto.
Qed.

(** Pointwise, after the functions in [l] were looked at. *)
Definition marked (s : CFG) (l : list Z) (h : gmap Z ArmsFunction) : Prop :=
  forall f, exists b, h !! f = at_or b <$> c_fns s !! f /\
    (forall x, c_fns s !! f = Some x -> f_at x || b = f_at x || (bool_decide (f ∈ l) && taken s x)).

Lemma mark_all_run s l h done_ :
  cfg_wf s -> Forall (fn_ok s) l -> marked s done_ h ->
  exists h', for_each mark_function_if_at l (set_fns h s) = Some (tt, set_fns h' s) /\ marked s (done_ ++ l) h'.
Proof.
  intros Hwf Hl. revert h done_. induction l as [|f l IH]; intros h done_ Hm; cbn [for_each].
  - exists h. by rewrite app_nil_r.
  - apply Forall_cons in Hl as [[x Hx] Hl]. destruct (Hm f) as (b & Hf & Hb). rewrite Hx in Hf. cbn in Hf.
    destruct (mark_function_if_at_run s h f (at_or b x) Hwf Hf) as (b' & Hrun & Hb').
    { intros p Hp. apply (wf_entries _ Hwf f x p Hx). by left. }
    unfold mbind, M_bind. rewrite Hrun. rewrite at_or_or.
    destruct (IH Hl (<[f := at_or (b || b') x]> h) (done_ ++ [f])) as (h' & Hrun' & Hm').
    2: { exists h'. rewrite <- app_assoc in Hm'. done. }
    intros g. destruct (decide (g = f)) as [->|Hne].
    + exists (b || b'). rewrite lookup_insert_eq, Hx. split; [done|].
      intros y Hy. apply (inj Some) in Hy as <-. rewrite (bool_decide_eq_true_2 (f ∈ _)) by set_solver.
      specialize (Hb x Hx). cbn in Hb'. change (taken s (at_or b x)) with (taken s x) in Hb'.
      destruct (f_at x), b, b', (taken s x), (bool_decide (f ∈ done_)); done.
    + destruct (Hm g) as (c & Hg & Hc). exists c. rewrite lookup_insert_ne by done. split; [done|].
      intros y Hy. rewrite (Hc y Hy). f_equal. f_equal. apply bool_decide_ext. set_solver.
Qed.

Lemma set_fns_id s : set_fns (c_fns s) s = s.
Proof. by destruct s. Qed.

Lemma taken_spec s x :
  cfg_wf s ->
  taken s x = true <->
  f_lib_dummy x = false /\ exists p b e y, p ∈ f_entries x /\ c_bbs s !! p = Some b /\ e ∈ b_in b /\
    c_edges s !! e = Some y /\ is_indirect y = true.
Proof.
  intros Hwf. unfold taken. rewrite andb_true_iff, negb_true_iff, existsb_exists. apply and_iff_compat_l.
  unfold indirect_in. setoid_rewrite <- list_elem_of_In. split.
  - intros (p & Hp%elem_of_in_order & Hi). destruct (c_bbs s !! p) as [b|] eqn:Hb; [|done].
    apply existsb_exists in Hi as (e & He%list_elem_of_In%elem_of_in_order & Hi).
    destruct (c_edges s !! e) as [y|] eqn:Hy; [|done]. by exists p, b, e, y.
  - intros (p & b & e & y & Hp & Hb & He & Hy & Hi). exists p. rewrite elem_of_in_order, Hb. split; [done|].
    apply existsb_exists. exists e. rewrite <- list_elem_of_In, elem_of_in_order, Hy. done.
Qed.

End Mark.

(** [mark_at_functions] marks exactly the functions that an indirect branch
    can enter: a stored function is marked afterwards if and only if it was
    before, or it does not stand for a library function and some edge into one
    of its entry blocks is indirect.  Blocks, edges and indexes stay as they
    are, and so does every other field of a function. *)
Theorem mark_at_functions_exact s :
  cfg_wf s ->
  exists h, mark_at_functions s = Some (tt, set_fns h s) /\
  forall a f x, c_functions s !! a = Some f -> c_fns s !! f = Some x ->
  exists b, h !! f = Some (at_or b x) /\
    (f_at x || b = true <-> f_at x = true \/ f_lib_dummy x = false /\
       exists p c e y, p ∈ f_entries x /\ c_bbs s !! p = Some c /\ e ∈ b_in c /\
         c_edges s !! e = Some y /\ is_indirect y = true).
Proof.
  intros Hwf. unfold mark_at_functions, foreach_function, mbind, M_bind, gets.
  destruct (mark_all_run s (map_in_order (c_functions s)) (c_fns s) [] Hwf) as (h & Hrun & Hm).
  - apply Forall_forall. intros f (a & Ha)%elem_of_map_in_order.
    destruct (wf_functions _ Hwf a f Ha) as (x & Hx & _). by exists x.
  - intros f. exists false. split; [|intros x _; cbn; by rewrite !orb_false_r].
    destruct (c_fns s !! f) as [x|]; [|done]. cbn. by rewrite at_or_false.
  - rewrite set_fns_id in Hrun. exists h. split; [done|]. intros a f x Ha Hx.
    destruct (Hm f) as (b & Hf & Hb). rewrite Hx in Hf. exists b. split; [done|].
    rewrite (Hb x Hx), bool_decide_eq_true_2 by (apply elem_of_map_in_order; eauto).
    rewrite orb_true_iff, andb_true_l, (taken_spec s x Hwf). done.
Qed.

(** ** Unlinking *)

Lemma wp_unlink s e x :
  cfg_wf s -> c_edges s !! e = Some x ->
  wp (unlink e) (fun _ s' => good s s' /\ c_edges s' = c_edges s /\
    forall r, c_bbs s' !! r = ends_bb (fun X => X ∖ {[e]}) (fun X => X ∖ {[e]}) (e_source x) (e_target x) r <$> c_bbs s !! r) s.
Proof.
  intros Hwf He. destruct (wf_ends _ Hwf e x He) as [Hp Hq]. unfold unlink.
  eapply wp_reads; [by apply reads_edge_at|].
  destruct (run_ends s (fun X => X ∖ {[e]}) (fun X => X ∖ {[e]}) _ _ Hp Hq) as (h & Hrun & Hh).
  eapply wp_eq; [exact Hrun|]. split; [|done]. clear Hrun.
  destruct Hp as [bp Hbp], Hq as [bq Hbq].
  assert (forall r b', h !! r = Some b' -> exists b, c_bbs s !! r = Some b /\ same_bb b b' /\
            b_out b' ⊆ b_out b /\ b_in b' ⊆ b_in b) as Hback.
  { intros r b'. rewrite Hh, fmap_Some. intros (b & Hb & ->). exists b. split; [done|]. split; [same|].
    unfold ends_bb. cbn. clear. split; case_decide; set_solver. }
  assert (forall r b, c_bbs s !! r = Some b -> exists b', h !! r = Some b' /\ same_bb b b') as Hfwd.
  { intros r b Hb. rewrite Hh, Hb. eexists. split; [done|same]. }
  split_and!.
  - destruct Hwf as [H0 Ho Hi Hends Hsb Hlb Hf Hen Hfu].
    assert (forall r, bb_ok s r -> bb_ok (set_bbs h s) r) as Hok.
    { intros r [b Hb]. destruct (Hfwd r b Hb) as (b' & Hb' & _). by exists b'. }
    split; cbn; try done.
    + unfold allocated. cbn. assert (dom h = dom (c_bbs s)) as -> by
        (apply set_eq; intros r; rewrite !elem_of_dom, Hh, fmap_is_Some; done). done.
    + intros r b' d Hr Hd. apply Hback in Hr as (b & Hb & _ & Hsub & _). apply (Ho r b); auto.
    + intros r b' d Hr Hd. apply Hback in Hr as (b & Hb & _ & _ & Hsub). apply (Hi r b); auto.
    + intros d y Hd. destruct (Hends d y Hd). auto.
    + intros a r Hr. destruct (Hsb a r Hr) as (b & Hb & Hs). destruct (Hfwd r b Hb) as (b' & Hb' & _ & Hst & _).
      exists b'. split; [done|congruence].
    + intros a r Hr. destruct (Hlb a r Hr) as (b & Hb & Hs). destruct (Hfwd r b Hb) as (b' & Hb' & _ & _ & _ & Hla & _).
      exists b'. split; [done|congruence].
    + intros f y r Hy Hr. apply Hok. by apply (Hen f y).
    + intros r b' f Hr Hd. apply Hback in Hr as (b & Hb & (_ & _ & _ & _ & Hfs) & _). rewrite Hfs in Hd. by apply (Hfu r b).
  - split; [done| |]; intros r y Hy; exists y; (split; [done|same]).
  - intros Hl d y b' c' Hd Hb Hc. cbn in Hd, Hb, Hc. rewrite Hh in Hb, Hc.
    apply fmap_Some in Hb as (b & Hb & ->), Hc as (c & Hc & ->). specialize (Hl d y b c Hd Hb Hc).
    unfold ends_bb. cbn. destruct (decide (d = e)) as [->|Hde].
    + rewrite He in Hd. apply (inj Some) in Hd as <-. rewrite !decide_True by done. clear. set_solver.
    + clear -Hl Hde. repeat case_decide; set_solver.
Qed.

(** ** Every graph the analyzer builds *)

Inductive fn_flag := AddrTaken | LibDummy | Main.
Inductive fn_role := Body | Entry | Exit.

(** The operations the builder and the analysis call on a graph. *)
Inductive cfg_op :=
| OpBlock (start end_ last f : Z)         (* a parsed block, stored *)
| OpFunction (name : string) (a : Z)      (* create_dummy_function *)
| OpPltFunction (name : string) (a : Z)   (* create_plt_function *)
| OpMarkPlt (a : Z)                       (* mark_function_as_plt *)
| OpFlag (f : Z) (t : fn_flag)            (* set_addr_taken, set_is_lib_dummy, set_is_main *)
| OpAddBB (f p : Z) (t : fn_role)         (* add_bb, add_entry_block, add_exit_block *)
| OpMarkAt                                (* mark_at_functions *)
| OpEdge (a b : Z)                        (* create_and_add_edge, by address *)
| OpEdgeBB (p q : Z)                      (* create_and_add_edge, by block *)
| OpCall (p a : Z) (t : arms_edge_type)   (* handle_interprocedural_call *)
| OpSetType (e : Z) (t : arms_edge_type)  (* set_type *)
| OpIntra (e : Z)                         (* set_intraprocedural *)
| OpInter (e : Z)                         (* set_interprocedural *)
| OpHide (e : Z) (h : bool)               (* set_hidden *)
| OpUnlink (e : Z).                       (* the destructor of an edge *)

Section Graph.
Context `{Malloc}.

Definition run_op (op : cfg_op) : M unit :=
  match op with
  | OpBlock start end_ last f => p ← new_bb start end_ last f; store_bb p
  | OpFunction name a => create_dummy_function name a;; mret tt
  | OpPltFunction name a => create_plt_function name a;; mret tt
  | OpMarkPlt a => mark_function_as_plt a
  | OpFlag f AddrTaken => set_addr_taken f
  | OpFlag f LibDummy => set_is_lib_dummy f
  | OpFlag f Main => set_is_main f
  | OpAddBB f p Body => add_bb f p
  | OpAddBB f p Entry => add_entry_block f p
  | OpAddBB f p Exit => add_exit_block f p
  | OpMarkAt => mark_at_functions
  | OpEdge a b => create_and_add_edge_addr a b;; mret tt
  | OpEdgeBB p q => create_and_add_edge p q;; mret tt
  | OpCall p a t => handle_interprocedural_call p a t
  | OpSetType e t => set_type e t
  | OpIntra e => set_intraprocedural e
  | OpInter e => set_interprocedural e
  | OpHide e h => set_hidden e h
  | OpUnlink e => unlink e
  end.

(** The pointers passed are live; a block given to [create_and_add_edge] is the
    one stored at its start address, if one is stored there. *)
Definition op_ok (s : CFG) (op : cfg_op) : Prop :=
  match op with
  | OpBlock _ _ _ f => f = NULL \/ fn_ok s f
  | OpFlag f _ => fn_ok s f
  | OpAddBB f p _ => fn_ok s f /\ bb_ok s p
  | OpEdgeBB p q => exists b c, c_bbs s !! p = Some b /\ c_bbs s !! q = Some c /\
      indexed_as s p b /\ indexed_as s q c /\ (b_start b = b_start c -> b_id b = b_id c)
  | OpCall p _ _ => bb_ok s p
  | OpSetType e _ | OpIntra e | OpInter e | OpHide e _ | OpUnlink e => edge_ok s e
  | _ => True
  end.

(** The graphs built from the empty one. *)
Inductive built : CFG -> Prop :=
| built_empty : built cfg_empty
| built_step s op s' : built s -> op_ok s op -> run_op op s = Some (tt, s') -> built s'.

Lemma wp_on_edge_op s e f :
  cfg_wf s -> edge_ok s e -> (forall x, same_edge x (f x)) -> wp (on_edge e f) (fun _ s' => good s s' /\ True) s.
Proof. intros Hwf [x Hx] Hf. eapply wp_mono; [by apply (wp_on_edge _ _ x)|]. cbn beta. tauto. Qed.

Lemma wp_on_fn_op s f (g : ArmsFunction -> ArmsFunction) (P : gset Z) :
  cfg_wf s -> fn_ok s f -> (forall p, p ∈ P -> bb_ok s p) ->
  (forall x, same_fn x (g x) /\ f_entries (g x) ⊆ P ∪ f_entries x /\ f_exits (g x) ⊆ P ∪ f_exits x /\ f_bbs (g x) ⊆ P ∪ f_bbs x) ->
  wp (on_fn f g) (fun _ s' => good s s' /\ True) s.
Proof.
  intros Hwf [x Hx] HP Hg. destruct (Hg x) as (Hs & H1 & H2 & H3).
  eapply wp_mono; [apply (wp_on_fn _ _ x); [done|done|done|]|cbn beta; tauto].
  intros p Hp. destruct (decide (p ∈ P)); [auto|]. apply (wf_entries _ Hwf f x p Hx). set_solver.
Qed.

Lemma wp_set_is_plt s f : cfg_wf s -> fn_ok s f -> wp (set_is_plt f) (fun _ s' => good s s' /\ True) s.
Proof. intros Hwf Hf. apply (wp_on_fn_op s f _ ∅ Hwf Hf); [set_solver|]. intros x. cbn. split; [same|set_solver]. Qed.

Lemma good_set_fns_at s h : cfg_wf s -> marked s (map_in_order (c_functions s)) h -> good s (set_fns h s).
Proof.
  intros Hwf Hm.
  assert (forall f x, c_fns s !! f = Some x -> exists b, h !! f = Some (at_or b x)) as Hfwd.
  { intros f x Hx. destruct (Hm f) as (b & Hf & _). exists b. by rewrite Hf, Hx. }
  assert (forall f x', h !! f = Some x' -> exists x b, c_fns s !! f = Some x /\ x' = at_or b x) as Hback.
  { intros f x' Hx. destruct (Hm f) as (b & Hf & _). rewrite Hf in Hx.
    apply fmap_Some in Hx as (x & Hx & ->). eauto. }
  split_and!; [| |done].
  - destruct Hwf as [H0 Ho Hi Hends Hsb Hlb Hf Hen Hfu]. split; cbn; try done.
    + unfold allocated. cbn. assert (dom h = dom (c_fns s)) as ->; [|done].
      apply set_eq. intros f. rewrite !elem_of_dom. destruct (Hm f) as (b & -> & _). apply fmap_is_Some.
    + intros a f Ha. destruct (Hf a f Ha) as (x & Hx & Hb). destruct (Hfwd f x Hx) as (b & Hx'). by eexists.
    + intros f x' p Hx Hp. destruct (Hback f x' Hx) as (x & b & Hx0 & ->). by apply (Hen f x).
    + intros p b f Hb Hin. destruct (Hfu p b f Hb Hin) as [x Hx]. destruct (Hfwd f x Hx) as (b' & Hx'). by eexists.
  - split; cbn; try (intros ? y ?; exists y; (split; [done|same])).
    intros f x Hx. destruct (Hfwd f x Hx) as (b & Hx'). eexists. split; [done|same].
Qed.

Lemma wp_mark_at_functions s : cfg_wf s -> wp mark_at_functions (fun _ s' => good s s' /\ True) s.
Proof.
  intros Hwf. destruct (mark_all_run s (map_in_order (c_functions s)) (c_fns s) [] Hwf) as (h & Hrun & Hm).
  - apply Forall_forall. intros f (a & Ha)%elem_of_map_in_order.
    destruct (wf_functions _ Hwf a f Ha) as (x & Hx & _). by exists x.
  - intros f. exists false. split; [|intros x _; cbn; by rewrite !orb_false_r].
    destruct (c_fns s !! f) as [x|]; [|done]. cbn. by rewrite at_or_false.
  - rewrite set_fns_id in Hrun. eapply wp_eq; [exact Hrun|]. split; [|done]. by apply good_set_fns_at.
Qed.

Lemma run_op_good s op : cfg_wf s -> op_ok s op -> wp (run_op op) (fun _ s' => good s s' /\ True) s.
Proof.
  intros Hwf Hok. destruct op; cbn [run_op op_ok] in *.
  - eapply wp_good_bind; [by apply wp_new_bb|]. cbn beta. intros p s1 Hg1 (_ & _ & [i Hb] & _).
    eapply wp_mono; [apply (wp_store_bb _ _ _ (good_wf _ _ Hg1) Hb)|]. cbn beta. tauto.
  - eapply wp_good_bind; [by apply wp_create_dummy_function|]. intros f s1 Hg1 _. apply wp_good_ret; eauto with pa.
  - eapply wp_good_bind; [|intros f s1 Hg1 _; apply wp_good_ret; eauto with pa].
    instantiate (1 := fun _ _ => True). unfold create_plt_function.
    eapply wp_good_bind; [by apply wp_create_dummy_function|]. cbn beta. intros f s1 Hg1 (_ & _ & Hf).
    eapply wp_good_bind; [apply wp_set_is_plt; eauto with pa|]. intros _ s2 Hg2 _. apply wp_good_ret; eauto with pa.
  - unfold mark_function_as_plt. destruct (find_function_spec s a Hwf) as (f & Hf & [[-> _]|(Hn & _ & x & Hx & _)]).
    + eapply wp_reads; [done|]. rewrite decide_True by done. by apply wp_good_ret.
    + eapply wp_reads; [done|]. rewrite decide_False by done. apply wp_set_is_plt; [done|by exists x].
  - destruct t; (apply (wp_on_fn_op s f _ ∅ Hwf Hok); [set_solver|]; intros x; cbn; split; [same|set_solver]).
  - destruct Hok as [Hf Hp]. destruct t;
      (apply (wp_on_fn_op s f _ {[p]} Hwf Hf); [set_solver|]; intros x; cbn; split; [same|set_solver]).
  - by apply wp_mark_at_functions.
  - eapply wp_good_bind; [by apply wp_create_and_add_edge_addr|]. intros f s1 Hg1 _. apply wp_good_ret; eauto with pa.
  - destruct Hok as (b & c & Hb & Hc & Hbi & Hci & Hid).
    eapply wp_good_bind; [by apply (wp_create_and_add_edge _ _ _ b c)|]. intros f s1 Hg1 _. apply wp_good_ret; eauto with pa.
  - by apply wp_handle_interprocedural_call.
  - apply wp_on_edge_op; [done|done|]. intros x. same.
  - apply wp_on_edge_op; [done|done|]. intros x. same.
  - apply wp_on_edge_op; [done|done|]. intros x. same.
  - apply wp_on_edge_op; [done|done|]. intros x. same.
  - destruct Hok as [x Hx]. eapply wp_mono; [by apply (wp_unlink _ _ x)|]. cbn beta. tauto.
Qed.

Lemma cfg_empty_wf : cfg_wf cfg_empty /\ linked cfg_empty.
Proof.
  split.
  - split; cbn; try (intros; by rewrite lookup_empty in *); set_solver.
  - intros e x b c He. cbn in He. by rewrite lookup_empty in He.
Qed.

Lemma built_wf s : built s -> cfg_wf s /\ linked s.
Proof.
  induction 1 as [|s op s' _ [Hwf Hl] Hok Hrun]; [apply cfg_empty_wf|].
  pose proof (run_op_good s op Hwf Hok) as Hg. unfold wp in Hg. rewrite Hrun in Hg.
  destruct Hg as [(Hwf' & _ & Hl') _]. auto.
Qed.

(** C24. Every graph built by the operations of the analyzer is well-formed:
    no pointer in it dangles, the indexes lead to blocks and functions of the
    address asked for, every edge in a set of edges lies at that block, and an
    edge is an outgoing edge of its source exactly when it is an incoming edge
    of its target.  On such a graph the next operation, given live pointers,
    runs to the end without undefined behaviour or failed assertion, and keeps
    the identity and the addresses of every object. *)
Theorem graph_invariant s :
  built s ->
  cfg_wf s /\ linked s /\
  forall op, op_ok s op -> exists s', run_op op s = Some (tt, s') /\ built s' /\ extends s s'.
Proof.
  intros Hb. destruct (built_wf s Hb) as [Hwf Hl].
  split_and!; [done|done|]. intros op Hok. pose proof (run_op_good s op Hwf Hok) as Hg. unfold wp in Hg.
  destruct (run_op op s) as [[[] s']|] eqn:Hrun; [|done]. exists s'. split; [done|].
  split; [by eapply built_step|apply Hg].
Qed.

End Graph.

(** ** Finding edges *)

Lemma find_edge_run s src dst :
  cfg_wf s ->
  exists e, reads (find_edge src dst) s e /\
    (e <> NULL -> exists x p b q, c_edges s !! e = Some x /\ e_source x = p /\ c_last2bb s !! src = Some p /\
       c_bbs s !! p = Some b /\ e ∈ b_out b /\ c_bbs s !! e_target x = Some q /\ b_start q = dst) /\
    (forall p b d y q, c_last2bb s !! src = Some p -> c_bbs s !! p = Some b -> d ∈ b_out b ->
       c_edges s !! d = Some y -> c_bbs s !! e_target y = Some q -> b_start q = dst -> e <> NULL).
Proof.
  intros Hwf. unfold find_edge.
  destruct (find_bb_by_last_spec s src Hwf) as (p & Hp & [[-> Hn]|(Hpn & Ha & b & Hb & Hl)]).
  { exists NULL. split; [|split; [done|congruence]].
    eapply reads_bind; [exact Hp|]. rewrite decide_True by done. apply reads_ret. }
  set (t := fun e => match c_edges s !! e with
                     | Some x => match c_bbs s !! e_target x with Some q => bool_decide (b_start q = dst) | None => false end
                     | None => false end).
  exists (first_such t (in_order (b_out b))). split.
  { eapply reads_bind; [exact Hp|]. rewrite decide_False by done.
    eapply reads_bind; [eapply reads_bind; [by apply reads_bb_at|apply reads_ret]|].
    apply reads_find_m. intros e He%elem_of_in_order. destruct (wf_out _ Hwf p b e Hb He) as (x & Hx & _).
    destruct (wf_ends _ Hwf e x Hx) as [_ [q Hq]]. unfold t. rewrite Hx, Hq.
    eapply reads_bind; [by apply reads_edge_at|]. eapply reads_bind; [by apply reads_bb_at|apply reads_ret]. }
  assert (NULL ∉ in_order (b_out b)) as Hnull.
  { rewrite elem_of_in_order. intros He. destruct (wf_out _ Hwf p b NULL Hb He) as (x & Hx & _).
    apply (ok_not_null s NULL); [done| |done]. right. left. by exists x. }
  destruct (first_such_spec t _ Hnull) as [Hsome Hnone]. split.
  - intros He. destruct (Hsome He) as [Hin Ht]. rewrite elem_of_in_order in Hin. clear Hsome Hnone He.
    set (e := first_such t _) in *. clearbody e.
    destruct (wf_out _ Hwf p b e Hb Hin) as (x & Hx & Hs). unfold t in Ht. rewrite Hx in Ht.
    destruct (c_bbs s !! e_target x) as [q|] eqn:Hq; [|done]. apply bool_decide_eq_true in Ht.
    exists x, p, b, q. done.
  - intros p' b' d y q Ha' Hb' Hd Hy Hq Hst Hz. rewrite Ha in Ha'. apply (inj Some) in Ha' as <-.
    rewrite Hb in Hb'. apply (inj Some) in Hb' as <-. pose proof (proj1 Hnone Hz d) as Hall.
    rewrite elem_of_in_order in Hall. specialize (Hall Hd). unfold t in Hall.
    rewrite Hy, Hq, bool_decide_eq_true_2 in Hall; done.
Qed.

(** An edge added between two addresses is found by them: after
    [create_and_add_edge(a, b)] for distinct addresses, [find_edge(a, b)] gives
    an edge of the graph that leaves a block whose last instruction is at [a]
    and enters a block that starts at [b]. *)
Theorem find_added_edge `{Malloc} s a b :
  cfg_wf s -> a <> b ->
  exists e s' e', create_and_add_edge_addr a b s = Some (e, s') /\ edge_between s' e a b /\
    find_edge a b s' = Some (e', s') /\ e' <> NULL /\
    exists x p q, c_edges s' !! e' = Some x /\ c_bbs s' !! e_source x = Some p /\ c_bbs s' !! e_target x = Some q /\
      b_last p = a /\ b_start q = b.
Proof.
  intros Hwf Hab. pose proof (wp_create_and_add_edge_addr s a b Hwf) as Hw. unfold wp in Hw.
  destruct (create_and_add_edge_addr a b s) as [[e s']|]; [|done].
  destruct Hw as ((Hwf' & _) & He & Hbt & x & Hx & _ & Hl). specialize (Hl Hab).
  destruct (find_edge_run s' a b Hwf') as (e' & Hrun & Hfound & Hcomplete).
  exists e, s', e'. split; [done|]. split; [done|]. split; [exact Hrun|].
  assert (e' <> NULL) as He'.
  { destruct Hbt as (y & p & q & Hy & Hp & Hq & Hpa & Hqb & Hout & _). rewrite Hx in Hy. apply (inj Some) in Hy as <-.
    by apply (Hcomplete _ _ _ _ _ Hl Hp Hout Hx Hq). }
  split; [done|]. destruct (Hfound He') as (y & p & b0 & q & Hy & Hs & Hla & Hb0 & _ & Hq & Hqs).
  destruct (wf_last2bb _ Hwf' _ _ Hla) as (b1 & Hb1 & Hb1a).
  exists y, b0, q. rewrite Hs. rewrite Hb0 in Hb1. apply (inj Some) in Hb1 as <-. done.
Qed.

(** ** A concrete graph *)

(** An allocator that never reuses an address. *)
#[export] Program Instance bump : Malloc := {| malloc X := 1 + set_fold Z.max 0 X |}.
Next Obligation.
  intros X Hin. assert (forall x, x ∈ X -> x <= set_fold Z.max 0 X) as Hmax; [|specialize (Hmax _ Hin); lia].
  clear Hin. apply (set_fold_ind_L (fun n X => forall x, x ∈ X -> x <= n)); [set_solver|].
  intros x Y n Hx IH y [->%elem_of_singleton|Hy]%elem_of_union; [lia|]. specialize (IH y Hy). lia.
Qed.
Next Obligation.
  intros X. assert (0 <= set_fold Z.max 0 X) as Hpos; [|unfold NULL; lia].
  apply (set_fold_ind_L (fun n _ => 0 <= n)); [lia|]. intros. lia.
Qed.

(** The guard of an operation, evaluated ([OpEdgeBB] is left out). *)
Definition op_okb (s : CFG) (op : cfg_op) : bool :=
  match op with
  | OpBlock _ _ _ f => bool_decide (f = NULL) || bool_decide (is_Some (c_fns s !! f))
  | OpFlag f _ => bool_decide (is_Some (c_fns s !! f))
  | OpAddBB f p _ => bool_decide (is_Some (c_fns s !! f)) && bool_decide (is_Some (c_bbs s !! p))
  | OpEdgeBB _ _ => false
  | OpCall p _ _ => bool_decide (is_Some (c_bbs s !! p))
  | OpSetType e _ | OpIntra e | OpInter e | OpHide e _ | OpUnlink e => bool_decide (is_Some (c_edges s !! e))
  | _ => true
  end.

Fixpoint run_ops (ops : list cfg_op) (s : CFG) : option CFG :=
  match ops with
  | [] => Some s
  | op :: ops => if op_okb s op then match run_op op s with Some (_, s) => run_ops ops s | None => None end else None
  end.

Lemma op_okb_ok s op : op_okb s op = true -> op_ok s op.
Proof.
  destruct op; cbn; try done; rewrite ?orb_true_iff, ?andb_true_iff, ?bool_decide_eq_true; done.
Qed.

Lemma run_ops_built ops s s' : built s -> run_ops ops s = Some s' -> built s'.
Proof.
  revert s. induction ops as [|op ops IH]; intros s Hb; cbn [run_ops]; [by intros [= <-]|].
  destruct (op_okb s op) eqn:Hok; [|done]. destruct (run_op op s) as [[[] s1]|] eqn:Hrun; [|done].
  apply IH. eapply built_step; [done|by apply op_okb_ok|done].
Qed.

(** A function [main] that calls [handler] through a pointer, and a library
    function reached through its PLT entry.  The allocator gives the blocks of
    the first two the addresses 2 and 4. *)
Definition demo_ops : list cfg_op :=
  [OpFunction "main" 0x400100; OpFunction "handler" 0x400200; OpPltFunction "puts" 0x400300;
   OpCall 2 0x400200 arms_indirect_call; OpCall 2 0x400300 arms_direct_call].
Definition demo_cfg : CFG := default cfg_empty (run_ops demo_ops cfg_empty).

Lemma demo_built : built demo_cfg.
Proof.
  apply (run_ops_built demo_ops cfg_empty); [constructor|]. unfold demo_cfg.
  destruct (run_ops demo_ops cfg_empty) as [s|] eqn:Hs; [done|]. vm_compute in Hs. discriminate.
Qed.

Lemma graph_invariant_witness :
  cfg_wf demo_cfg /\ linked demo_cfg /\ exists s', run_op OpMarkAt demo_cfg = Some (tt, s') /\ extends demo_cfg s'.
Proof.
  destruct (graph_invariant demo_cfg demo_built) as (Hwf & Hl & Hop).
  destruct (Hop OpMarkAt I) as (s' & Hrun & _ & Hx).
  split; [exact Hwf|]. split; [exact Hl|]. exists s'. split; [exact Hrun|exact Hx].
Defined.

Lemma find_added_edge_witness :
  exists e s' e', create_and_add_edge_addr 0x400100 0x400200 demo_cfg = Some (e, s') /\
    edge_between s' e 0x400100 0x400200 /\
    find_edge 0x400100 0x400200 s' = Some (e', s') /\ e' <> NULL /\
    exists x p q, c_edges s' !! e' = Some x /\ c_bbs s' !! e_source x = Some p /\ c_bbs s' !! e_target x = Some q /\
      b_last p = 0x400100 /\ b_start q = 0x400200.
Proof. apply find_added_edge; [apply built_wf, demo_built|discriminate]. Defined.

(** [handler] (the function at 3) is marked, [main] is not. *)
Lemma mark_at_functions_exact_witness :
  exists h, mark_at_functions demo_cfg = Some (tt, set_fns h demo_cfg) /\
    f_at <$> h !! 3 = Some true /\ f_at <$> h !! 1 = Some false.
Proof.
  destruct (mark_at_functions_exact demo_cfg (proj1 (built_wf _ demo_built))) as (h & Hrun & _). exists h. split; [exact Hrun|].
  assert (forall f, h !! f = c_fns (from_option snd cfg_empty (mark_at_functions demo_cfg)) !! f) as Heq by (rewrite Hrun; reflexivity).
  rewrite !Heq. split; vm_compute; reflexivity.
Defined.
