(* ===== verification/JitPath.v ===== *)
(** The path search of the analyzer: [jit_track_callstack] and
    [jit_path_exists] of dyninst-static/lbr_analysis.C.

    The search looks for a walk through the control-flow graph that explains
    the branches of an LBR: between two of them the program may only have taken
    branches the LBR does not record.  The graph does not change during a
    search; the state that does is the number of visits of each edge, the stack
    of edges, and the static call stack.  A search can run out of fuel, which
    never happens with the fuel given below, or abort on the assertion of
    [jit_track_callstack]. *)

From stdpp Require Import sorting.
From S2P Require Import Prelude LbrState Cfg CfgInv.

Definition LBR_SIZE : Z := 16.

(** ** Kinds of edges (lbr_analysis.C) *)

Definition edge_is_indirect (x : ArmsEdge) : bool := is_indirect x || is_return x.
Definition edge_is_direct_call (x : ArmsEdge) : bool := edge_type_is_direct_call (e_type x).
Definition edge_is_return (x : ArmsEdge) : bool := is_return x.
Definition edge_is_call (x : ArmsEdge) : bool :=
  bool_decide (e_type x = arms_direct_call) || bool_decide (e_type x = arms_indirect_call).
Definition edge_is_hidden (x : ArmsEdge) : bool := e_hidden x.

(** The branches the LBR records. *)
Definition recorded (x : ArmsEdge) : bool := edge_is_indirect x || edge_is_direct_call x.

(** ** State *)

(** [shadow_edge[id].visited], [edge] of [DFSState], and the static [stack] of
    [jit_track_callstack], the last element first. *)
Record dfs := Dfs { d_visited : gmap Z Z; d_edge : list Z; d_stack : list Z }.

Definition dfs_init : dfs := Dfs ∅ [] [].

Definition set_stack (st : list Z) (d : dfs) : dfs := Dfs (d_visited d) (d_edge d) st.

Definition visits (d : dfs) (id : Z) : Z := default 0 (d_visited d !! id).

Definition edge_is_visited (x : ArmsEdge) (d : dfs) : Z := visits d (e_id x).
Definition mark_edge_visited (x : ArmsEdge) (d : dfs) : dfs :=
  Dfs (<[e_id x := u32 (visits d (e_id x) + 1)]> (d_visited d)) (d_edge d) (d_stack d).
Definition unmark_edge_visited (x : ArmsEdge) (d : dfs) : dfs :=
  Dfs (<[e_id x := u32 (visits d (e_id x) - 1)]> (d_visited d)) (d_edge d) (d_stack d).
Definition push_edge (e : Z) (d : dfs) : dfs := Dfs (d_visited d) (e :: d_edge d) (d_stack d).
Definition pop_edge (d : dfs) : dfs := Dfs (d_visited d) (tail (d_edge d)) (d_stack d).

Inductive search :=
| NoFuel
| Aborted
| Ret (found : bool) (d : dfs).

Section Search.
Context (s : CFG).

(** [jit_track_callstack] of an edge: [None] where it aborts.  The call with
    [clear] set only empties the stack; [dfs_init] is the state it leaves. *)
Definition jit_track_callstack (x : ArmsEdge) (unroll : bool) (d : dfs) : option (Z * dfs) :=
  if edge_is_call x then
    if unroll then Some (1, set_stack (tail (d_stack d)) d)
    else match get_fallthrough_bb (e_source x) s with
         | Some (bb, _) => Some (1, set_stack (bb :: d_stack d) d)
         | None => None
         end
  else if edge_is_return x then
    match d_stack d with
    | [] => Some (2, d)
    | bb :: st =>
        if decide (bb = NULL) then None else
        match equals_bb (e_target x) bb s with
        | Some (true, _) => Some (1, set_stack st d)
        | Some (false, _) => Some (0, set_stack (bb :: st) d)
        | None => None
        end
    end
  else Some (1, d).

(** The loop over the outgoing edges of a block. *)
Fixpoint search_edges (rec : list Z -> Z -> dfs -> search) (lbr : list Z) (es : list Z) (d : dfs) : search :=
  match es with
  | [] => Ret false d
  | f :: es =>
      match c_edges s !! f with
      | None => Aborted
      | Some y =>
          if edge_is_hidden y then search_edges rec lbr es d else
          match jit_track_callstack y false d with
          | None => Aborted
          | Some (r, d) =>
              let unroll d := match jit_track_callstack y true d with
                              | Some (_, d) => search_edges rec lbr es d
                              | None => Aborted
                              end in
              let descend next := match rec next f d with
                                  | Ret false d => search_edges rec lbr es d
                                  | r => r
                                  end in
              if decide (r = 0) then unroll d else
              if recorded y then
                if negb (bool_decide (head (tail lbr) = Some f)) then unroll d else
                if decide (length (tail lbr) < 2)%nat then Ret true d else
                descend (tail lbr)
              else descend lbr
          end
      end
  end.

(** [jit_path_exists(lbr, len, e, dfs)]: [lbr] is the list of the [len]
    edges that are left. *)
Fixpoint jit_path_exists (fuel : nat) (lbr : list Z) (e : Z) (d : dfs) : search :=
  match fuel with
  | O => NoFuel
  | S fuel =>
      if decide (length lbr < 2)%nat then Ret true d else
      match c_edges s !! e with
      | None => Aborted
      | Some x =>
          if decide (edge_is_visited x d >= LBR_SIZE) then Ret false d else
          let d := push_edge e (mark_edge_visited x d) in
          match c_bbs s !! e_target x with
          | None => Aborted
          | Some b =>
              match search_edges (jit_path_exists fuel) lbr (in_order (b_out b)) d with
              | Ret false d =>
                  match jit_track_callstack x true (unmark_edge_visited x (pop_edge d)) with
                  | Some (_, d) => Ret false d
                  | None => Aborted
                  end
              | r => r
              end
          end
      end
  end.

(** Depth enough for every search: an edge is on the path at most
    [LBR_SIZE] times. *)
Definition search_fuel : nat := S (16 * size (c_edges s)).

(** ** Walks *)

(** [f] leaves the block [e] enters, and is not hidden. *)
Definition follows (e f : Z) : Prop :=
  exists x b y, c_edges s !! e = Some x /\ c_bbs s !! e_target x = Some b /\ f ∈ b_out b /\
    c_edges s !! f = Some y /\ e_hidden y = false.

Fixpoint walk (e : Z) (p : list Z) : Prop :=
  match p with [] => True | f :: p => follows e f /\ walk f p end.

(** The branches of a walk that the LBR records. *)
Definition is_recorded (e : Z) : bool := from_option recorded false (c_edges s !! e).
Definition branches (p : list Z) : list Z := filter (fun e => is_recorded e = true) p.

End Search.

Lemma jit_path_exists_short s lbr e d :
  (length lbr < 2)%nat -> jit_path_exists s (search_fuel s) lbr e d = Ret true d.
Proof. intros Hl. unfold search_fuel. cbn [jit_path_exists]. by rewrite decide_True. Qed.

(** ** Soundness *)

Section Soundness.
Context (s : CFG).

Lemma walk_cons e f p : walk s e (f :: p) <-> follows s e f /\ walk s f p.
Proof. done. Qed.

Lemma branches_cons f p :
  branches s (f :: p) = if is_recorded s f then f :: branches s p else branches s p.
Proof. unfold branches. rewrite filter_cons. by destruct (is_recorded s f). Qed.

(** What a successful search has found. *)
Definition explained (e : Z) (lbr : list Z) : Prop :=
  exists p, walk s e p /\ branches s p = tail lbr.

Lemma explained_short e lbr : (length lbr < 2)%nat -> explained e lbr.
Proof. intros Hl. exists []. split; [done|]. destruct lbr as [|? [|]]; [done|done|cbn in Hl; lia]. Qed.

Lemma search_edges_sound rec e x b lbr es d d' :
  c_edges s !! e = Some x -> c_bbs s !! e_target x = Some b -> (forall f, f ∈ es -> f ∈ b_out b) ->
  (forall l f d d', rec l f d = Ret true d' -> explained f l) ->
  (2 <= length lbr)%nat ->
  search_edges s rec lbr es d = Ret true d' -> explained e lbr.
Proof.
  intros He Hb Hes Hrec Hlen. revert d. induction es as [|f es IH]; intros d Hrun; [done|].
  assert (forall d, search_edges s rec lbr es d = Ret true d' -> explained e lbr) as IH'.
  { intros d0. apply IH. intros g Hg. apply Hes. by apply list_elem_of_further. }
  clear IH. cbn [search_edges] in Hrun. destruct (c_edges s !! f) as [y|] eqn:Hy; [|done].
  destruct (edge_is_hidden y) eqn:Hh; [by eapply IH'|].
  assert (follows s e f) as Hfol.
  { exists x, b, y. split_and!; try done. apply Hes. by apply list_elem_of_here. }
  assert (is_recorded s f = recorded y) as Hrf by (unfold is_recorded; by rewrite Hy).
  destruct (jit_track_callstack s y false d) as [[r d1]|]; [|done].
  destruct (decide (r = 0)).
  { destruct (jit_track_callstack s y true d1) as [[? d2]|]; [|done]. by eapply IH'. }
  destruct (recorded y) eqn:Hrec_y.
  - case_bool_decide as Hhd; cbn [negb] in Hrun.
    2: { destruct (jit_track_callstack s y true d1) as [[? d2]|]; [|done]. by eapply IH'. }
    assert (exists k, tail lbr = f :: k) as [k Hk].
    { destruct (tail lbr) as [|g k]; [done|]. cbn in Hhd. apply (inj Some) in Hhd as ->. eauto. }
    destruct (decide (length (tail lbr) < 2)%nat) as [Hlt|Hge].
    + exists [f]. split; [done|]. rewrite branches_cons, Hrf, Hk. rewrite Hk in Hlt. cbn in Hlt.
      destruct k; [done|cbn in Hlt; lia].
    + destruct (rec (tail lbr) f d1) as [| |[] d2] eqn:Hr; [done|done| |by eapply IH'].
      apply Hrec in Hr as (p & Hw & Hp). exists (f :: p). split; [done|].
      rewrite branches_cons, Hrf, Hp, Hk. done.
  - destruct (rec lbr f d1) as [| |[] d2] eqn:Hr; [done|done| |by eapply IH'].
    apply Hrec in Hr as (p & Hw & Hp). exists (f :: p). split; [done|]. by rewrite branches_cons, Hrf.
Qed.

Lemma jit_path_exists_sound fuel lbr e d d' :
  jit_path_exists s fuel lbr e d = Ret true d' -> explained e lbr.
Proof.
  revert lbr e d d'. induction fuel as [|fuel IH]; intros lbr e d d' Hrun; [done|]. cbn [jit_path_exists] in Hrun.
  case_decide as Hlen; [by apply explained_short|].
  destruct (c_edges s !! e) as [x|] eqn:He; [|done]. case_decide; [done|].
  destruct (c_bbs s !! e_target x) as [b|] eqn:Hb; [|done].
  destruct (search_edges _ _ _ _ _) as [| |[] d1] eqn:Hs; [done|done| |].
  - refine (search_edges_sound (jit_path_exists s fuel) e x b lbr _ _ d1 He Hb _ _ _ Hs); [| |lia].
    + intros f. apply elem_of_in_order.
    + intros l f d2 d3. apply IH.
  - by destruct (jit_track_callstack s x true _) as [[? ?]|].
Qed.

End Soundness.

(** ** Termination *)

Section Termination.
Context (s : CFG).

Definition visits_ok (d : dfs) : Prop := forall i, 0 <= visits d i <= LBR_SIZE.
Definition same_visits (d d' : dfs) : Prop := forall i, visits d' i = visits d i.

Lemma same_visits_trans d1 d2 d3 : same_visits d1 d2 -> same_visits d2 d3 -> same_visits d1 d3.
Proof. intros H1 H2 i. by rewrite H2, H1. Qed.

Lemma same_visits_ok d d' : same_visits d d' -> visits_ok d -> visits_ok d'.
Proof. intros Hs Hok i. rewrite Hs. apply Hok. Qed.

Lemma track_visits x u d r d' : jit_track_callstack s x u d = Some (r, d') -> same_visits d d'.
Proof.
  intros Hrun. assert (d_visited d' = d_visited d) as Hv; [|intros i; unfold visits; by rewrite Hv].
  unfold jit_track_callstack in Hrun. destruct (edge_is_call x).
  { destruct u; [by simplify_eq|]. destruct (get_fallthrough_bb _ _) as [[? ?]|]; by simplify_eq. }
  destruct (edge_is_return x); [|by simplify_eq].
  destruct (d_stack d); [by simplify_eq|]. case_decide; [done|].
  destruct (equals_bb _ _ _) as [[[] ?]|]; by simplify_eq.
Qed.

(** The visits left, over all edges of the graph. *)
Definition budget (d : dfs) : nat :=
  sum_list_with (fun p : Z * ArmsEdge => Z.to_nat (LBR_SIZE - visits d (e_id p.2))) (map_to_list (c_edges s)).

Lemma sum_list_with_le {A} (f g : A -> nat) l :
  (forall a, f a <= g a)%nat -> (sum_list_with f l <= sum_list_with g l)%nat.
Proof. intros Hle. induction l as [|a l IH]; cbn; [lia|]. specialize (Hle a). lia. Qed.

Lemma sum_list_with_lt {A} (f g : A -> nat) l a :
  (forall a, f a <= g a)%nat -> a ∈ l -> (f a < g a)%nat -> (sum_list_with f l < sum_list_with g l)%nat.
Proof.
  intros Hle Hin Hlt. apply list_elem_of_split in Hin as (l1 & l2 & ->).
  rewrite !sum_list_with_app. cbn. pose proof (sum_list_with_le f g l1 Hle). pose proof (sum_list_with_le f g l2 Hle). lia.
Qed.

Lemma budget_same d d' : same_visits d d' -> budget d' = budget d.
Proof. intros Hs. unfold budget. induction (map_to_list _) as [|a l IH]; cbn; [done|]. by rewrite Hs, IH. Qed.

Lemma visits_mark x d i :
  visits_ok d -> visits d (e_id x) < LBR_SIZE ->
  visits (mark_edge_visited x d) i = if decide (i = e_id x) then visits d i + 1 else visits d i.
Proof.
  intros Hok Hlt. unfold mark_edge_visited, visits. cbn. case_decide as Hd.
  - subst. rewrite lookup_insert_eq. cbn. unfold u32. rewrite Z.mod_small; [done|].
    pose proof (Hok (e_id x)). unfold visits, LBR_SIZE in *. lia.
  - by rewrite lookup_insert_ne by done.
Qed.

Lemma mark_ok x d : visits_ok d -> visits d (e_id x) < LBR_SIZE -> visits_ok (mark_edge_visited x d).
Proof.
  intros Hok Hlt i. rewrite visits_mark by done. pose proof (Hok i). case_decide; [subst|done]. lia.
Qed.

Lemma unmark_mark x d d' :
  visits_ok d -> visits d (e_id x) < LBR_SIZE -> same_visits (mark_edge_visited x d) d' ->
  same_visits d (unmark_edge_visited x d').
Proof.
  intros Hok Hlt Hs i. unfold unmark_edge_visited. unfold visits at 1. cbn. destruct (decide (i = e_id x)) as [->|Hd].
  - rewrite lookup_insert_eq. cbn. rewrite Hs, visits_mark, decide_True by done.
    replace (visits d (e_id x) + 1 - 1) with (visits d (e_id x)) by lia.
    unfold u32. apply Z.mod_small. pose proof (Hok (e_id x)). unfold LBR_SIZE in *. lia.
  - rewrite lookup_insert_ne by done. change (visits d' i = visits d i). by rewrite Hs, visits_mark, decide_False by done.
Qed.

Lemma budget_mark e x d :
  c_edges s !! e = Some x -> visits_ok d -> visits d (e_id x) < LBR_SIZE ->
  (budget (mark_edge_visited x d) < budget d)%nat.
Proof.
  intros He Hok Hlt. unfold budget. apply (sum_list_with_lt _ _ _ (e, x)).
  - intros a. rewrite visits_mark by done. case_decide; lia.
  - by apply elem_of_map_to_list.
  - cbn. rewrite visits_mark, decide_True by done. lia.
Qed.

Lemma search_edges_total rec lbr es d :
  (forall l f d1, same_visits d d1 -> rec l f d1 <> NoFuel /\ forall d2, rec l f d1 = Ret false d2 -> same_visits d1 d2) ->
  search_edges s rec lbr es d <> NoFuel /\ forall d2, search_edges s rec lbr es d = Ret false d2 -> same_visits d d2.
Proof.
  intros Hrec. assert (forall d1, same_visits d d1 ->
    search_edges s rec lbr es d1 <> NoFuel /\ forall d2, search_edges s rec lbr es d1 = Ret false d2 -> same_visits d d2) as Hgen.
  2: { by apply Hgen. }
  induction es as [|f es IH]; intros d1 Hd1; cbn [search_edges].
  { split; [done|]. intros d2. by intros [= <-]. }
  destruct (c_edges s !! f) as [y|]; [|done]. destruct (edge_is_hidden y); [by apply IH|].
  destruct (jit_track_callstack s y false d1) as [[r d2]|] eqn:Ht; [|done].
  assert (same_visits d d2) as Hd2 by (eapply same_visits_trans; [exact Hd1|by eapply track_visits]).
  assert (forall n, match jit_track_callstack s y true d2 with Some (_, d) => search_edges s rec lbr es d | None => Aborted end <> NoFuel
    /\ (match jit_track_callstack s y true d2 with Some (_, d) => search_edges s rec lbr es d | None => Aborted end = Ret false n
        -> same_visits d n)) as Hun.
  { intros n. destruct (jit_track_callstack s y true d2) as [[r' d3]|] eqn:Hu; [|done].
    destruct (IH d3) as [IH1 IH2]; [|by split; [|apply IH2]].
    eapply same_visits_trans; [exact Hd2|by eapply track_visits]. }
  assert (forall next, match rec next f d2 with Ret false d => search_edges s rec lbr es d | r => r end <> NoFuel
    /\ forall n, match rec next f d2 with Ret false d => search_edges s rec lbr es d | r => r end = Ret false n -> same_visits d n) as Hde.
  { intros next. destruct (Hrec next f d2 Hd2) as [Hr1 Hr2]. destruct (rec next f d2) as [| |[] d3]; [done|done|done|].
    apply IH. eapply same_visits_trans; [exact Hd2|by apply Hr2]. }
  destruct (decide (r = 0)); [split; [apply (Hun d2)|intros m; apply Hun]|].
  destruct (recorded y); [|apply Hde].
  destruct (negb _); [split; [apply (Hun d2)|intros m; apply Hun]|].
  destruct (decide _); [done|apply Hde].
Qed.

Lemma jit_path_exists_total fuel lbr e d :
  visits_ok d -> (budget d < fuel)%nat ->
  jit_path_exists s fuel lbr e d <> NoFuel /\
  forall d', jit_path_exists s fuel lbr e d = Ret false d' -> same_visits d d'.
Proof.
  revert lbr e d. induction fuel as [|fuel IH]; intros lbr e d Hok Hb; [lia|]. cbn [jit_path_exists].
  case_decide; [done|]. destruct (c_edges s !! e) as [x|] eqn:He; [|done].
  case_decide as Hv; [by split; [|intros d' [= <-]]|]. unfold edge_is_visited in Hv.
  assert (visits d (e_id x) < LBR_SIZE) as Hlt by lia.
  destruct (c_bbs s !! e_target x) as [b|]; [|done].
  set (d1 := push_edge e (mark_edge_visited x d)).
  assert (visits_ok d1) as Hok1 by (by apply (mark_ok x d)).
  assert (budget d1 < fuel)%nat as Hb1 by (pose proof (budget_mark e x d He Hok Hlt); change (budget d1) with (budget (mark_edge_visited x d)); lia).
  destruct (search_edges_total (jit_path_exists s fuel) lbr (in_order (b_out b)) d1) as [Hn Hf].
  { intros l f d2 Hd2. apply IH; [by eapply same_visits_ok|]. by rewrite (budget_same d1 d2). }
  destruct (search_edges _ _ _ _ _) as [| |[] d2]; [done|done|done|].
  destruct (jit_track_callstack s x true _) as [[r d3]|] eqn:Ht; [|done]. split; [done|]. intros d' [= <-].
  eapply same_visits_trans; [|by eapply track_visits].
  apply (unmark_mark x d (pop_edge d2) Hok Hlt). intros i. apply (Hf d2 eq_refl i).
Qed.

Lemma budget_init : budget dfs_init = (16 * size (c_edges s))%nat.
Proof.
  unfold budget. rewrite <- length_map_to_list. induction (map_to_list _) as [|a l IH]; [done|].
  cbn [sum_list_with length]. rewrite IH. change (visits dfs_init (e_id a.2)) with 0.
  change (Z.to_nat (LBR_SIZE - 0)) with 16%nat. lia.
Qed.

Lemma visits_init_ok : visits_ok dfs_init.
Proof. intros i. change (visits dfs_init i) with 0. unfold LBR_SIZE. lia. Qed.

End Termination.

(** ** Completeness

    The limit of [LBR_SIZE] visits of an edge loses no path: between two
    recorded branches a walk never needs the same edge twice, and an LBR has at
    most [LBR_SIZE] branches. *)

Section Completeness.
Context (s : CFG).

Definition ids_distinct : Prop :=
  forall e f x y, c_edges s !! e = Some x -> c_edges s !! f = Some y -> e_id x = e_id y -> e = f.

Definition no_returns : Prop := forall e x, c_edges s !! e = Some x -> edge_is_return x = false.

(** The number of edges of a walk with a given id. *)
Definition has_id (i e : Z) : bool := from_option (fun x => bool_decide (e_id x = i)) false (c_edges s !! e).
Definition count_id (i : Z) (p : list Z) : Z := Z.of_nat (length (filter (fun e => has_id i e = true) p)).

Lemma count_id_cons i e p : count_id i (e :: p) = (if has_id i e then 1 else 0) + count_id i p.
Proof. unfold count_id. rewrite filter_cons. destruct (has_id i e); [rewrite decide_True by done; cbn; lia|done]. Qed.

Lemma count_id_app i p q : count_id i (p ++ q) = count_id i p + count_id i q.
Proof. unfold count_id. rewrite filter_app, length_app. lia. Qed.

Lemma count_id_nodup i q : ids_distinct -> NoDup q -> count_id i q <= 1.
Proof.
  intros Hid Hnd. unfold count_id. set (k := filter _ q).
  assert (NoDup k) as Hk by (by apply NoDup_filter).
  assert (forall e, e ∈ k -> has_id i e = true) as Hall by (intros e; unfold k; rewrite list_elem_of_filter; tauto).
  clearbody k. destruct k as [|e [|f k]]; cbn [length]; [lia|lia|].
  exfalso. apply NoDup_cons in Hk as [Hn _]. apply Hn. rewrite elem_of_cons. left.
  pose proof (Hall e ltac:(set_solver)) as He. pose proof (Hall f ltac:(set_solver)) as Hf. unfold has_id in He, Hf.
  destruct (c_edges s !! e) as [x|] eqn:Hx; [|done]. destruct (c_edges s !! f) as [y|] eqn:Hy; [|done]. cbn in He, Hf.
  apply bool_decide_eq_true in He, Hf. apply (Hid e f x y); congruence.
Qed.

Lemma walk_suffix e a g c : walk s e (a ++ g :: c) -> walk s g c.
Proof. revert e. induction a as [|h a IH]; intros e; cbn; [tauto|]. intros [_ Hw]. by eapply IH. Qed.

(** A run of silent edges needs no edge twice. *)
Lemma shorten_silent e q f r :
  walk s e (q ++ f :: r) -> Forall (fun g => is_recorded s g = false) q ->
  exists q', NoDup q' /\ Forall (fun g => is_recorded s g = false) q' /\ walk s e (q' ++ f :: r).
Proof.
  revert e. induction q as [|g q IH]; intros e Hw Hq; [exists []; split; [constructor|done]|].
  apply Forall_cons in Hq as [Hg Hq]. destruct Hw as [Hfol Hw].
  destruct (IH g Hw Hq) as (q' & Hnd & Hq' & Hw'). destruct (decide (g ∈ q')) as [Hin|Hnin].
  - apply list_elem_of_split in Hin as (a & c & ->). exists (g :: c).
    apply NoDup_app in Hnd as (_ & _ & Hnd). apply Forall_app in Hq' as [_ Hq'].
    split; [done|]. split; [done|]. split; [done|]. rewrite <- app_assoc in Hw'. by eapply walk_suffix.
  - exists (g :: q'). split; [by constructor|]. split; [by constructor|]. done.
Qed.

Lemma branches_silent q : Forall (fun g => is_recorded s g = false) q -> branches s q = [].
Proof.
  intros Hq. unfold branches. induction Hq as [|g q Hg _ IH]; [done|].
  rewrite filter_cons, Hg, decide_False by done. done.
Qed.

(** The first recorded branch of a walk. *)
Lemma branches_split p f t :
  branches s p = f :: t ->
  exists q r, p = q ++ f :: r /\ Forall (fun g => is_recorded s g = false) q /\ is_recorded s f = true /\ branches s r = t.
Proof.
  induction p as [|g p IH]; intros Hb; [done|]. rewrite branches_cons in Hb. destruct (is_recorded s g) eqn:Hg.
  - apply cons_inj in Hb as [-> Hb]. exists [], p. split; [done|]. split; [constructor|]. done.
  - destruct (IH Hb) as (q & r & -> & Hq & Hf & Hr). exists (g :: q), r.
    split; [done|]. split; [by constructor|]. done.
Qed.

Lemma shorten e p t :
  ids_distinct -> walk s e p -> branches s p = t ->
  exists p', walk s e p' /\ branches s p' = t /\ forall i, count_id i p' <= Z.of_nat (length t).
Proof.
  intros Hid. revert e p. induction t as [|f t IH]; intros e p Hw Hb.
  { exists []. split_and!; done. }
  apply branches_split in Hb as (q & r & -> & Hq & Hf & Hr).
  destruct (shorten_silent e q f r Hw Hq) as (q' & Hnd & Hq' & Hw').
  destruct (IH f r (walk_suffix _ _ _ _ Hw') Hr) as (r' & Hwr & Hbr & Hc).
  exists (q' ++ f :: r'). split_and!.
  - clear -Hw' Hwr. revert e Hw'. induction q' as [|g q' IH]; intros e; cbn; [tauto|]. intros [H1 H2]. auto.
  - unfold branches. rewrite filter_app. fold (branches s q'). rewrite branches_silent by done.
    fold (branches s (f :: r')). by rewrite branches_cons, Hf, Hbr.
  - intros i. replace (q' ++ f :: r') with ((q' ++ [f]) ++ r') by (by rewrite <- app_assoc).
    rewrite count_id_app. cbn [length]. specialize (Hc i). pose proof (count_id_nodup i (q' ++ [f]) Hid) as Hone.
    assert (NoDup (q' ++ [f])); [|specialize (Hone ltac:(done)); lia].
    apply NoDup_app. split; [done|]. split; [|apply NoDup_singleton].
    intros g Hg ->%list_elem_of_singleton. rewrite Forall_forall in Hq'. specialize (Hq' f Hg). congruence.
Qed.

(** Nothing aborts where there is no return. *)
Lemma fallthrough_reads p : bb_ok s p -> exists q, reads (get_fallthrough_bb p) s q.
Proof.
  intros [b Hb]. unfold get_fallthrough_bb. induction (seq 1 15) as [|i l IH].
  - exists NULL. eapply reads_bind; [by apply reads_bb_at|apply reads_ret].
  - destruct IH as [q Hq]. unfold reads, mbind, M_bind, bb_at in *. rewrite Hb in *. cbn in *.
    destruct (decide (default NULL (c_start2bb s !! u64 (b_last b + Z.of_nat i)) = NULL)); eauto.
Qed.

Lemma track_no_return e x u d :
  cfg_wf s -> no_returns -> c_edges s !! e = Some x -> exists d', jit_track_callstack s x u d = Some (1, d').
Proof.
  intros Hwf Hnr He. unfold jit_track_callstack. rewrite (Hnr e x He). destruct (edge_is_call x); [|eauto].
  destruct u; [eauto|]. destruct (fallthrough_reads (e_source x)) as [q Hq]; [by apply (wf_ends _ Hwf e x)|].
  rewrite Hq. eauto.
Qed.

Lemma search_edges_no_abort rec lbr es d :
  cfg_wf s -> no_returns -> Forall (edge_ok s) es ->
  (forall l f d1, edge_ok s f -> rec l f d1 <> Aborted) -> search_edges s rec lbr es d <> Aborted.
Proof.
  intros Hwf Hnr Hes Hrec. revert d. induction Hes as [|f es [y Hy] _ IH]; intros d; [done|]. cbn [search_edges].
  rewrite Hy. destruct (edge_is_hidden y); [apply IH|].
  destruct (track_no_return f y false d Hwf Hnr Hy) as [d1 ->]. rewrite decide_False by done.
  destruct (track_no_return f y true d1 Hwf Hnr Hy) as [d2 ->].
  assert (forall next, match rec next f d1 with Ret false d => search_edges s rec lbr es d | r => r end <> Aborted) as Hde.
  { intros next. pose proof (Hrec next f d1 ltac:(by exists y)). destruct (rec next f d1) as [| |[] d3]; try done. }
  destruct (recorded y); [|apply Hde]. destruct (negb _); [apply IH|]. destruct (decide _); [done|apply Hde].
Qed.

Lemma out_edges_ok p b : cfg_wf s -> c_bbs s !! p = Some b -> Forall (edge_ok s) (in_order (b_out b)).
Proof.
  intros Hwf Hb. apply Forall_forall. intros f Hf%elem_of_in_order.
  destruct (wf_out _ Hwf p b f Hb Hf) as (y & Hy & _). by exists y.
Qed.

Lemma jit_path_exists_no_abort fuel lbr e d :
  cfg_wf s -> no_returns -> edge_ok s e -> jit_path_exists s fuel lbr e d <> Aborted.
Proof.
  intros Hwf Hnr. revert lbr e d. induction fuel as [|fuel IH]; intros lbr e d [x He]; [done|]. cbn [jit_path_exists].
  case_decide; [done|]. rewrite He. case_decide; [done|].
  destruct (wf_ends _ Hwf e x He) as [_ [b Hb]]. rewrite Hb.
  pose proof (search_edges_no_abort (jit_path_exists s fuel) lbr (in_order (b_out b)) (push_edge e (mark_edge_visited x d))
    Hwf Hnr (out_edges_ok _ b Hwf Hb) ltac:(intros l f d1; apply IH)) as Hna.
  destruct (search_edges _ _ _ _ _) as [| |[] d2]; [done|done|done|].
  destruct (track_no_return e x true (unmark_edge_visited x (pop_edge d2)) Hwf Hnr He) as [d3 ->]. done.
Qed.

(** The step the search must take, for the next edge [f] of a walk. *)
Definition takes (rec : list Z -> Z -> dfs -> search) (lbr : list Z) (f : Z) (d : dfs) : Prop :=
  if is_recorded s f then
    head (tail lbr) = Some f /\ ((length (tail lbr) < 2)%nat \/ exists d', rec (tail lbr) f d = Ret true d')
  else exists d', rec lbr f d = Ret true d'.

Lemma search_edges_complete rec lbr es d f y :
  cfg_wf s -> no_returns -> Forall (edge_ok s) es -> f ∈ es -> c_edges s !! f = Some y -> e_hidden y = false ->
  (forall l g d1, edge_ok s g -> same_visits d d1 ->
     rec l g d1 <> NoFuel /\ rec l g d1 <> Aborted /\ forall d2, rec l g d1 = Ret false d2 -> same_visits d1 d2) ->
  (forall d1, same_visits d d1 -> takes rec lbr f d1) ->
  exists d', search_edges s rec lbr es d = Ret true d'.
Proof.
  intros Hwf Hnr Hes Hin Hf Hh Hrec Htk.
  assert (forall d1, same_visits d d1 -> exists d', search_edges s rec lbr es d1 = Ret true d') as Hgen; [|by apply Hgen].
  induction Hes as [|g es [z Hz] Hes IH]; intros d1 Hd1; [by apply not_elem_of_nil in Hin|]. cbn [search_edges]. rewrite Hz.
  destruct (track_no_return g z false d1 Hwf Hnr Hz) as [d2 Ht]. pose proof (track_visits s _ _ _ _ _ Ht) as Hv2.
  destruct (track_no_return g z true d2 Hwf Hnr Hz) as [d3 Ht']. pose proof (track_visits s _ _ _ _ _ Ht') as Hv3.
  assert (same_visits d d2) as Hd2 by (by eapply same_visits_trans).
  assert (same_visits d d3) as Hd3 by (by eapply same_visits_trans).
  rewrite Ht, Ht', decide_False by done.
  assert (forall next, (exists d', rec next g d2 = Ret true d') \/ f ∈ es ->
    exists d', match rec next g d2 with Ret false d => search_edges s rec lbr es d | r => r end = Ret true d') as Hde.
  { intros next Hor. destruct (Hrec next g d2 ltac:(by exists z) Hd2) as (H1 & H2 & H3).
    destruct Hor as [(d' & ->)|Hf_in]; [eauto|].
    destruct (rec next g d2) as [| |[] d4]; [done|done|eauto|]. apply IH; [done|].
    eapply same_visits_trans; [exact Hd2|by apply H3]. }
  apply elem_of_cons in Hin as [<-|Hin'].
  - rewrite Hf in Hz. apply (inj Some) in Hz as <-. unfold edge_is_hidden. rewrite Hh.
    specialize (Htk d2 Hd2). unfold takes, is_recorded in Htk. rewrite Hf in Htk. cbn in Htk.
    destruct (recorded y); [|apply Hde; by left]. destruct Htk as [Hhd Hor]. rewrite bool_decide_eq_true_2 by done. cbn [negb].
    destruct (decide _); [eauto|]. destruct Hor as [?|Hor]; [done|]. apply Hde. by left.
  - destruct (edge_is_hidden z); [by apply IH|].
    destruct (recorded z); [|apply Hde; by right]. destruct (negb _); [by apply IH|].
    destruct (decide _); [eauto|]. apply Hde. by right.
Qed.

Lemma jit_path_exists_complete fuel lbr e p d :
  cfg_wf s -> no_returns -> edge_ok s e -> visits_ok d -> (budget s d < fuel)%nat ->
  walk s e p -> branches s p = tail lbr -> (forall i, visits d i + count_id i (e :: p) <= LBR_SIZE) ->
  exists d', jit_path_exists s fuel lbr e d = Ret true d'.
Proof.
  intros Hwf Hnr. revert lbr e p d. induction fuel as [|fuel IH]; intros lbr e p d [x He] Hok Hb Hw Hbr Hcnt; [lia|].
  cbn [jit_path_exists]. case_decide as Hlen; [eauto|]. rewrite He.
  pose proof (Hcnt (e_id x)) as Hx. rewrite count_id_cons in Hx. unfold has_id in Hx at 1. rewrite He in Hx. cbn in Hx.
  rewrite bool_decide_eq_true_2 in Hx by done. assert (0 <= count_id (e_id x) p) by (unfold count_id; lia).
  assert (visits d (e_id x) < LBR_SIZE) as Hlt by lia.
  rewrite decide_False by (unfold edge_is_visited; lia).
  destruct (wf_ends _ Hwf e x He) as [_ [b Hbb]]. rewrite Hbb.
  set (d1 := push_edge e (mark_edge_visited x d)).
  assert (visits_ok d1) as Hok1 by (by apply (mark_ok x d)).
  assert (budget s d1 < fuel)%nat as Hb1.
  { pose proof (budget_mark s e x d He Hok Hlt). change (budget s d1) with (budget s (mark_edge_visited x d)). lia. }
  destruct p as [|f p].
  { destruct lbr as [|? [|]]; cbn in Hlen; try lia. done. }
  destruct Hw as [(x' & b' & y & He' & Hb' & Hf & Hy & Hh) Hw]. rewrite He in He'. apply (inj Some) in He' as <-.
  rewrite Hbb in Hb'. apply (inj Some) in Hb' as <-.
  destruct (search_edges_complete (jit_path_exists s fuel) lbr (in_order (b_out b)) d1 f y Hwf Hnr) as [d' Hrun].
  - by eapply out_edges_ok.
  - by apply elem_of_in_order.
  - done.
  - done.
  - intros l g d2 Hg Hd2. destruct (jit_path_exists_total s fuel l g d2) as [H1 H2];
      [by eapply same_visits_ok|by rewrite (budget_same s d1 d2)|].
    split_and!; [done|by apply jit_path_exists_no_abort|done].
  - intros d2 Hd2.
    assert (forall l, branches s p = tail l -> exists d', jit_path_exists s fuel l f d2 = Ret true d') as Hnext.
    { intros l Hl. apply (IH l f p d2); [by exists y|by eapply same_visits_ok|by rewrite (budget_same s d1 d2)|done|done|].
      intros i. rewrite Hd2. unfold d1. change (visits (push_edge e ?m) i) with (visits m i).
      rewrite visits_mark by done. specialize (Hcnt i). rewrite count_id_cons in Hcnt.
      unfold has_id in Hcnt at 1. rewrite He in Hcnt. cbn in Hcnt.
      destruct (decide (i = e_id x)) as [->|Hi].
      - rewrite bool_decide_eq_true_2 in Hcnt by done. lia.
      - rewrite bool_decide_eq_false_2 in Hcnt by congruence. lia. }
    unfold takes. rewrite branches_cons in Hbr. destruct (is_recorded s f); [|by apply Hnext].
    rewrite <- Hbr. split; [done|]. right. apply Hnext. done.
  - fold d1. rewrite Hrun. eauto.
Qed.

End Completeness.

Lemma jit_path_exists_decide s lbr e :
  cfg_wf s -> ids_distinct s -> no_returns s -> edge_ok s e -> (length lbr <= 16)%nat ->
  exists b d, jit_path_exists s (search_fuel s) lbr e dfs_init = Ret b d /\
    (b = true <-> exists p, walk s e p /\ branches s p = tail lbr).
Proof.
  intros Hwf Hid Hnr He Hlen. assert (budget s dfs_init < search_fuel s)%nat as Hb.
  { rewrite budget_init. unfold search_fuel. lia. }
  destruct (jit_path_exists_total s _ lbr e dfs_init visits_init_ok Hb) as [Hn _].
  pose proof (jit_path_exists_no_abort s (search_fuel s) lbr e dfs_init Hwf Hnr He) as Ha.
  destruct (jit_path_exists s (search_fuel s) lbr e dfs_init) as [| |b d] eqn:Hrun; [done|done|].
  exists b, d. split; [done|]. split; [intros ->; by eapply jit_path_exists_sound|].
  intros (p & Hw & Hp). destruct (shorten s e p _ Hid Hw Hp) as (p' & Hw' & Hp' & Hc).
  destruct (jit_path_exists_complete s (search_fuel s) lbr e p' dfs_init Hwf Hnr He visits_init_ok Hb Hw' Hp') as [d' Hr].
  - intros i. change (visits dfs_init i) with 0. rewrite count_id_cons. specialize (Hc i).
    assert (length (tail lbr) <= 15)%nat by (clear -Hlen; destruct lbr; cbn [tail length] in *; lia). unfold LBR_SIZE.
    destruct (has_id s i e); lia.
  - congruence.
Qed.

(** ** Properties *)

(** C27. The search ends, and what it accepts happened: with the fuel
    [search_fuel] it never runs out; and when it returns 1 there is a walk
    through the graph from the first branch of the LBR along visible edges whose
    recorded branches (indirect branches, returns and direct calls) are exactly
    the other branches of the LBR, in order. *)
Theorem jit_path_exists_sound_total s lbr e :
  jit_path_exists s (search_fuel s) lbr e dfs_init <> NoFuel /\
  forall d, jit_path_exists s (search_fuel s) lbr e dfs_init = Ret true d ->
    exists p, walk s e p /\ branches s p = tail lbr.
Proof.
  split; [|intros d; apply jit_path_exists_sound].
  apply jit_path_exists_total; [apply visits_init_ok|]. rewrite budget_init. unfold search_fuel. lia.
Qed.

(** C9. Without returns in the graph the search decides: for an LBR of at most
    [LBR_SIZE] branches it returns 1 exactly when there is a walk from the first
    branch whose recorded branches are the others.  The limit of [LBR_SIZE]
    visits of an edge loses no path. *)
Theorem jit_path_exists_decides s lbr e :
  cfg_wf s -> ids_distinct s -> no_returns s -> edge_ok s e -> (length lbr <= 16)%nat ->
  exists b d, jit_path_exists s (search_fuel s) lbr e dfs_init = Ret b d /\
    (b = true <-> exists p, walk s e p /\ branches s p = tail lbr).
Proof. apply jit_path_exists_decide. Qed.

Lemma equals_bb_run s p q b c :
  c_bbs s !! p = Some b -> c_bbs s !! q = Some c -> equals_bb p q s = Some (bool_decide (b_id b = b_id c), s).
Proof.
  intros Hb Hc. unfold equals_bb, mbind, M_bind, bb_at. rewrite Hb. cbn. rewrite Hc. done.
Qed.

Lemma track_return s x u d bb st b c :
  e_type x = arms_ret -> d_stack d = bb :: st -> bb <> NULL ->
  c_bbs s !! e_target x = Some b -> c_bbs s !! bb = Some c ->
  jit_track_callstack s x u d =
    if decide (b_id b = b_id c) then Some (1, set_stack st d) else Some (0, set_stack (bb :: st) d).
Proof.
  intros Hx Hst Hn Hb Hc. unfold jit_track_callstack, edge_is_call, edge_is_return, is_return. rewrite Hx, Hst. cbn.
  rewrite decide_False, (equals_bb_run s _ _ b c) by done.
  destruct (decide (b_id b = b_id c));
    [rewrite (bool_decide_eq_true_2 (b_id b = _)) by done|rewrite (bool_decide_eq_false_2 (b_id b = _)) by done]; done.
Qed.

(** C28. Whether a return that does not match its call is accepted depends on
    the order of the edges.  The call stack holds the return site [bb] of the
    only open call.  A block returns along [g], which leads to [bb], and along
    [r], which does not, and the LBR says [r] was taken.  If [r] is tried first
    it is rejected, as it should be.  If [g] is tried first, its check pops
    [bb], giving up on [g] does not push it back, and [r] passes as a return
    whose call is not in the LBR. *)
Theorem return_match_order s rec l0 g r y z bb c bg br d :
  c_edges s !! g = Some y -> c_edges s !! r = Some z -> g <> r ->
  e_type y = arms_ret -> e_type z = arms_ret -> e_hidden y = false -> e_hidden z = false ->
  d_stack d = [bb] -> bb <> NULL -> c_bbs s !! bb = Some c ->
  c_bbs s !! e_target y = Some bg -> c_bbs s !! e_target z = Some br ->
  b_id bg = b_id c -> b_id br <> b_id c ->
  (exists d', search_edges s rec [l0; r] [r; g] d = Ret false d') /\
  (exists d', search_edges s rec [l0; r] [g; r] d = Ret true d').
Proof.
  intros Hg Hr Hne Ty Tz Vy Vz Hst Hn Hc Hbg Hbr Hid Hid'.
  assert (recorded y = true) as Ry by (unfold recorded, edge_is_indirect, is_indirect, is_return; rewrite Ty; done).
  assert (recorded z = true) as Rz by (unfold recorded, edge_is_indirect, is_indirect, is_return; rewrite Tz; done).
  assert (forall u, jit_track_callstack s y u (set_stack [] d) = Some (2, set_stack [] d)) as Hempty.
  { intros u. unfold jit_track_callstack, edge_is_call, edge_is_return, is_return. by rewrite Ty. }
  assert (forall u, jit_track_callstack s z u (set_stack [] d) = Some (2, set_stack [] d)) as Hemptyz.
  { intros u. unfold jit_track_callstack, edge_is_call, edge_is_return, is_return. by rewrite Tz. }
  split; cbn [search_edges]; rewrite Hg, Hr; unfold edge_is_hidden; rewrite Vy, Vz, Ry, Rz; cbn [tail head].
  - rewrite (track_return s z false d bb [] br c) by done. rewrite decide_False by done. cbn [decide decide_rel Z.eq_dec].
    rewrite decide_True by done.
    rewrite (track_return s z true (set_stack [bb] d) bb [] br c), decide_False by done.
    rewrite (track_return s y false (set_stack [bb] (set_stack [bb] d)) bb [] bg c), decide_True by done.
    rewrite decide_False, bool_decide_eq_false_2 by congruence. cbn [negb].
    change (set_stack [] (set_stack [bb] (set_stack [bb] d))) with (set_stack [] d). rewrite Hempty. eauto.
  - rewrite (track_return s y false d bb [] bg c), decide_True by done. rewrite decide_False by done.
    rewrite bool_decide_eq_false_2 by congruence. cbn [negb]. rewrite Hempty, Hemptyz.
    rewrite decide_False, bool_decide_eq_true_2 by done. cbn [negb]. eauto.
Qed.

(** ** Concrete graphs *)

(** A loop between two blocks, left by an indirect call.  The edges get the
    addresses 3, 5, 6 and 8. *)
Definition loop_cfg : CFG := default cfg_empty (run_ops
  [OpEdge 0x10 0x20; OpEdge 0x20 0x30; OpEdge 0x30 0x20; OpEdge 0x30 0x40; OpSetType 8 arms_indirect_call] cfg_empty).

(** A call (edge 5) from the block that ends at 0x10 to a function that returns
    to the call site at 0x15 (edge 7) and to another call site (edge 9). *)
Definition call_cfg : CFG := default cfg_empty (run_ops
  [OpEdge 0x8 0x10; OpSetType 3 arms_indirect_jmp; OpEdge 0x10 0x100; OpSetType 5 arms_direct_call;
   OpEdge 0x100 0x15; OpSetType 7 arms_ret; OpEdge 0x100 0x50; OpSetType 9 arms_ret] cfg_empty).

Lemma run_ops_default ops : run_ops ops cfg_empty <> None -> built (default cfg_empty (run_ops ops cfg_empty)).
Proof.
  intros Hn. destruct (run_ops ops cfg_empty) as [s|] eqn:Hs; [|done].
  apply (run_ops_built ops cfg_empty); [constructor|done].
Qed.

Lemma ids_distinct_check s :
  NoDup ((fun p : Z * ArmsEdge => e_id p.2) <$> map_to_list (c_edges s)) -> ids_distinct s.
Proof.
  intros Hnd e f x y He Hf Hid. apply elem_of_map_to_list in He, Hf.
  apply list_elem_of_lookup in He as [i Hi], Hf as [j Hj].
  assert (i = j) as ->; [|congruence].
  eapply (NoDup_lookup _ i j (e_id x)); [exact Hnd| |]; rewrite list_lookup_fmap, ?Hi, ?Hj; cbn; congruence.
Qed.

Lemma jit_path_exists_decides_witness :
  exists b d, jit_path_exists loop_cfg (search_fuel loop_cfg) [3; 8] 3 dfs_init = Ret b d /\
    (b = true <-> exists p, walk loop_cfg 3 p /\ branches loop_cfg p = [8]).
Proof.
  apply (jit_path_exists_decides loop_cfg [3; 8] 3).
  - apply built_wf, run_ops_default. vm_compute. discriminate.
  - apply ids_distinct_check. vm_compute. repeat constructor; set_solver.
  - assert (map_Forall (fun _ x => edge_is_return x = false) (c_edges loop_cfg)) as Hall; [|exact Hall].
    apply (bool_decide_eq_true_1 _). vm_compute. reflexivity.
  - eexists. vm_compute. reflexivity.
  - cbn. lia.
Defined.

(** The search accepts the LBR that enters the function from 0x10 and returns
    to 0x50. *)
Lemma return_match_order_witness :
  ((exists d', search_edges call_cfg (jit_path_exists call_cfg 5) [5; 9] [9; 7] (Dfs ∅ [] [6]) = Ret false d') /\
   (exists d', search_edges call_cfg (jit_path_exists call_cfg 5) [5; 9] [7; 9] (Dfs ∅ [] [6]) = Ret true d')) /\
  exists d', jit_path_exists call_cfg (search_fuel call_cfg) [3; 5; 9] 3 dfs_init = Ret true d'.
Proof.
  split; [|eexists; vm_compute; reflexivity].
  eapply (return_match_order call_cfg (jit_path_exists call_cfg 5) 5 7 9 _ _ 6 _ _ _ (Dfs ∅ [] [6]));
    first [vm_compute; reflexivity | discriminate | vm_compute; discriminate].
Defined.
