(* ===== verification/Jit.v ===== *)
(** Validation of an LBR by the analyzer: [jit_validate_lbr] of
    dyninst-static/lbr_analysis.C and what it calls.

    The branches of the LBR are cleaned (the entries the library wrappers cause
    are removed, returns from simple library functions are normalized), turned
    into edges of the control-flow graph, and the search of JitPath.v looks for
    a walk that explains them. *)

From stdpp Require Import sorting.
From S2P Require Import Prelude Slots Lbr LbrState Kernel Armor Cfg CfgInv JitPath.

(** ** Removing the entries of the library wrappers *)

Module Clean.

(** [(lbr->tos + i + 1) % LBR_ENTRIES]: the [i]-th entry, the oldest first. *)
Definition slot (l : lbr_t) (i : nat) : nat := Z.to_nat (u64 (l_tos l + Z.of_nat i + 1) mod Z.of_nat LBR_ENTRIES).

Definition set_arrays (from to : list Z) (l : lbr_t) : lbr_t :=
  Lbr (l_debug l) (l_select l) (l_tos l) from to (l_task l).

(** [memmove(&a[start + 1], &a[start], index - start)], then [a[start] = 0]. *)
Definition move_up (start index : nat) (a : list Z) : list Z :=
  (fun j : nat => if decide (j = start) then 0 else
                  if decide (start < j <= index)%nat then a !!! (j - 1)%nat else a !!! j) <$> seq 0 LBR_ENTRIES.

(** The loop of [moveblocks] over the entries [is]: the LBR and the result. *)
Fixpoint moveblocks_loop (target : Z) (start : nat) (entries : list nat) (l : lbr_t) : lbr_t * bool :=
  match entries with
  | [] => (l, true)
  | i :: entries =>
      let index := slot l i in
      if decide (l_to l !!! index = target) then
        if decide (index < start)%nat then (l, false)
        else moveblocks_loop target start entries
               (set_arrays (move_up start index (l_from l)) (move_up start index (l_to l)) l)
      else moveblocks_loop target start entries l
  end.

Definition moveblocks (target : Z) (l : lbr_t) : lbr_t * bool :=
  moveblocks_loop target (slot l 0) (seq 0 LBR_ENTRIES) l.

(** The copy that is not circular, and writing it back. *)
Definition straight (l : lbr_t) : lbr_t :=
  Lbr 0 0 (Z.of_nat LBR_ENTRIES - 1) ((fun i => l_from l !!! slot l i) <$> seq 0 LBR_ENTRIES)
      ((fun i => l_to l !!! slot l i) <$> seq 0 LBR_ENTRIES) NULL.

Definition write_back (copy l : lbr_t) : lbr_t :=
  for_up LBR_ENTRIES (fun i l => set_arrays (<[slot l i := l_from copy !!! i]> (l_from l))
                                            (<[slot l i := l_to copy !!! i]> (l_to l)) l) l.

Definition remove_lib_enter_edges (target : Z) (l : lbr_t) : lbr_t * bool :=
  let '(l, ok) := moveblocks target l in
  if ok : bool then (l, true) else
  let '(copy, ok) := moveblocks target (straight l) in
  if ok : bool then (write_back copy l, true) else (l, false).

(** *** What it does *)

(** The entries, the oldest first. *)
Definition entry (l : lbr_t) (j : nat) : Z * Z := (l_from l !!! j, l_to l !!! j).
Definition oldest_first (l : lbr_t) : list (Z * Z) := (fun i => entry l (slot l i)) <$> seq 0 LBR_ENTRIES.

(** The entries that do not lead to [target], in order, behind as many empty
    ones as were removed. *)
Definition keeps (target : Z) (e : Z * Z) : bool := negb (bool_decide (e.2 = target)).
Definition kept (target : Z) (w : list (Z * Z)) : list (Z * Z) := filter (fun e => keeps target e = true) w.
Definition purge (target : Z) (w : list (Z * Z)) : list (Z * Z) :=
  replicate (length w - length (kept target w)) (0, 0) ++ kept target w.

Definition sized (l : lbr_t) : Prop := length (l_from l) = LBR_ENTRIES /\ length (l_to l) = LBR_ENTRIES.

Lemma slot_alt l i :
  (i < LBR_ENTRIES)%nat ->
  (slot l 0 < LBR_ENTRIES)%nat /\
  slot l i = (if decide (slot l 0 + i < LBR_ENTRIES)%nat then slot l 0 + i else slot l 0 + i - LBR_ENTRIES)%nat.
Proof.
  intros Hi. unfold slot, u64, LBR_ENTRIES in *.
  replace ((l_tos l + Z.of_nat i + 1) mod 2 ^ 64 mod Z.of_nat 16) with ((l_tos l + Z.of_nat i + 1) mod 16).
  2: { change (2 ^ 64) with (16 * 2 ^ 60). change (Z.of_nat 16) with 16. rewrite Z.mul_comm.
       rewrite <- Znumtheory.Zmod_div_mod; [done|lia|lia|]. exists (2 ^ 60). lia. }
  replace ((l_tos l + Z.of_nat 0 + 1) mod 2 ^ 64 mod Z.of_nat 16) with ((l_tos l + 1) mod 16).
  2: { change (2 ^ 64) with (16 * 2 ^ 60). change (Z.of_nat 16) with 16. rewrite Z.mul_comm.
       rewrite <- Znumtheory.Zmod_div_mod; [f_equal; lia|lia|lia|]. exists (2 ^ 60). lia. }
  set (a := l_tos l + 1). replace (l_tos l + Z.of_nat i + 1) with (a + Z.of_nat i) by (unfold a; lia).
  pose proof (Z.mod_pos_bound a 16 ltac:(lia)) as Ha. rewrite <- Z.add_mod_idemp_l by lia.
  set (b := a mod 16) in *. split; [lia|]. case_decide.
  - rewrite Z.mod_small by lia. lia.
  - rewrite (Z.mod_eq (b + Z.of_nat i) 16) by lia.
    replace ((b + Z.of_nat i) / 16) with 1; [lia|]. apply Z.div_unique with (b + Z.of_nat i - 16); lia.
Qed.

Lemma slot_lt l i : (i < LBR_ENTRIES)%nat -> (slot l i < LBR_ENTRIES)%nat.
Proof. intros Hi. destruct (slot_alt l i Hi) as [H0 ->]. case_decide; lia. Qed.

Lemma slot_inj l i j : (i < LBR_ENTRIES)%nat -> (j < LBR_ENTRIES)%nat -> slot l i = slot l j -> i = j.
Proof.
  intros Hi Hj. destruct (slot_alt l i Hi) as [H0 ->], (slot_alt l j Hj) as [_ ->].
  repeat case_decide; lia.
Qed.

Lemma length_oldest_first l : length (oldest_first l) = LBR_ENTRIES.
Proof. unfold oldest_first. by rewrite length_fmap, length_seq. Qed.

Lemma lookup_oldest_first l i : (i < LBR_ENTRIES)%nat -> oldest_first l !! i = Some (entry l (slot l i)).
Proof. intros Hi. unfold oldest_first. rewrite list_lookup_fmap, lookup_seq_lt by done. done. Qed.

(** In the order of the entries, a move takes entry [i] out and puts an empty
    entry in front. *)
Definition take_out (i : nat) (w : list (Z * Z)) : list (Z * Z) := (0, 0) :: take i w ++ drop (S i) w.

Lemma oldest_first_move l i :
  (i < LBR_ENTRIES)%nat -> (slot l 0 <= slot l i)%nat ->
  oldest_first (set_arrays (move_up (slot l 0) (slot l i) (l_from l)) (move_up (slot l 0) (slot l i) (l_to l)) l)
  = take_out i (oldest_first l).
Proof.
  intros Hi Hle. apply list_eq. intros m. destruct (decide (m < LBR_ENTRIES)%nat) as [Hm|Hm].
  2: { rewrite !lookup_ge_None_2; [done| |rewrite length_oldest_first; lia].
       unfold take_out. cbn [length]. rewrite length_app, length_take, length_drop, length_oldest_first. lia. }
  rewrite lookup_oldest_first by done.
  change (slot (set_arrays _ _ l) m) with (slot l m). unfold entry, set_arrays, move_up. cbn [l_from l_to].
  rewrite !lookup_total_seq_map by (by apply slot_lt).
  destruct (slot_alt l m Hm) as [H0 Em], (slot_alt l i Hi) as [_ Ei].
  destruct m as [|m].
  - rewrite !decide_True by done. done.
  - rewrite !(decide_False (P := slot l (S m) = slot l 0)) by (intros ?%slot_inj; lia).
    unfold take_out. rewrite lookup_cons. destruct (decide (S m <= i)%nat) as [Hmi|Hmi].
    + rewrite !decide_True by (repeat case_decide; lia). rewrite lookup_app_l by (rewrite length_take, length_oldest_first; lia).
      rewrite lookup_take_lt, lookup_oldest_first by lia. unfold entry.
      destruct (slot_alt l m ltac:(lia)) as [_ Em']. replace (slot l (S m) - 1)%nat with (slot l m); [done|].
      repeat case_decide; lia.
    + rewrite !decide_False by (repeat case_decide; lia). rewrite lookup_app_r by (rewrite length_take, length_oldest_first; lia).
      rewrite length_take, length_oldest_first, lookup_drop.
      replace (S i + (m - i `min` LBR_ENTRIES))%nat with (S m) by lia. by rewrite lookup_oldest_first.
Qed.

(** What the loop has done after [i] entries. *)
Definition partial (target : Z) (i : nat) (w : list (Z * Z)) : list (Z * Z) := purge target (take i w) ++ drop i w.

Lemma length_kept target w : (length (kept target w) <= length w)%nat.
Proof. apply length_filter. Qed.

Lemma length_purge target w : length (purge target w) = length w.
Proof. unfold purge. rewrite length_app, length_replicate. pose proof (length_kept target w). lia. Qed.

Lemma length_partial target i w : length (partial target i w) = length w.
Proof. unfold partial. rewrite length_app, length_purge, length_take, length_drop. lia. Qed.

Lemma partial_keep target i w e :
  w !! i = Some e -> keeps target e = true -> partial target (S i) w = partial target i w.
Proof.
  intros He Hk. unfold partial. rewrite (take_S_r _ _ _ He), (drop_S _ _ _ He).
  unfold purge, kept. rewrite filter_app, filter_cons, decide_True by done.
  rewrite filter_nil, !length_app. cbn [length]. rewrite <- !app_assoc.
  pose proof (length_kept target (take i w)) as Hl. unfold kept in Hl.
  do 2 f_equal. lia.
Qed.

Lemma partial_drop target i w e :
  w !! i = Some e -> keeps target e = false -> partial target (S i) w = take_out i (partial target i w).
Proof.
  intros He Hk. pose proof (lookup_lt_Some _ _ _ He) as Hlt. unfold partial at 1.
  rewrite (take_S_r _ _ _ He). unfold purge, kept. rewrite filter_app, filter_cons, decide_False by congruence.
  rewrite filter_nil, app_nil_r, length_app. cbn [length]. fold (kept target (take i w)).
  pose proof (length_kept target (take i w)) as Hl.
  replace (length (take i w) + 1 - length (kept target (take i w)))%nat
    with (S (length (take i w) - length (kept target (take i w)))) by lia.
  cbn [replicate app]. unfold take_out. f_equal. unfold partial.
  assert (length (purge target (take i w)) = i) as Hp by (rewrite length_purge, length_take; lia).
  rewrite take_app_length', drop_app_ge, Hp by lia. rewrite (drop_S _ _ _ He).
  replace (S i - i)%nat with 1%nat by lia. done.
Qed.

Lemma lookup_partial target i j w : (i <= j)%nat -> (i <= length w)%nat -> partial target i w !! j = w !! j.
Proof.
  intros Hij Hi. unfold partial. rewrite lookup_app_r; rewrite length_purge, length_take; [|lia].
  rewrite lookup_drop. f_equal. lia.
Qed.

Lemma to_entry l i :
  (i < LBR_ENTRIES)%nat -> exists e, oldest_first l !! i = Some e /\ e.2 = l_to l !!! slot l i.
Proof. intros Hi. rewrite lookup_oldest_first by done. by eexists. Qed.

Lemma kept_app target v w : kept target (v ++ w) = kept target v ++ kept target w.
Proof. apply filter_app. Qed.

Lemma kept_kept target w : kept target (kept target w) = kept target w.
Proof. unfold kept. rewrite list_filter_filter. apply list_filter_iff. tauto. Qed.

Lemma kept_zeros target k :
  kept target (replicate k (0, 0)) = if decide (target = 0) then [] else replicate k (0, 0).
Proof.
  unfold kept. induction k as [|k IH]; [by case_decide|]. cbn [replicate]. rewrite filter_cons, IH.
  unfold keeps. cbn [snd]. destruct (decide (target = 0)) as [->|Hne].
  - done.
  - rewrite bool_decide_eq_false_2 by congruence. done.
Qed.

Lemma purge_partial target i w : purge target (partial target i w) = purge target w.
Proof.
  unfold purge at 1. rewrite length_partial. unfold partial. rewrite kept_app. unfold purge at 1 2.
  rewrite !kept_app, kept_zeros, kept_kept.
  assert (kept target w = kept target (take i w) ++ kept target (drop i w)) as Hw by (by rewrite <- kept_app, take_drop).
  unfold purge. rewrite Hw. pose proof (length_kept target (take i w)). pose proof (length_kept target (drop i w)).
  assert (length w = length (take i w) + length (drop i w))%nat as Hl by (by rewrite <- length_app, take_drop).
  destruct (decide (target = 0)); [done|].
  rewrite !length_app, length_replicate, <- !app_assoc, app_assoc, <- replicate_add.
  f_equal. f_equal. rewrite Hl. lia.
Qed.

Lemma partial_0 target w : partial target 0 w = w.
Proof. unfold partial. by rewrite take_0, drop_0. Qed.

Lemma moveblocks_loop_spec target w n i l l' ok :
  (i + n = LBR_ENTRIES)%nat -> length w = LBR_ENTRIES -> oldest_first l = partial target i w -> sized l ->
  moveblocks_loop target (slot l 0) (seq i n) l = (l', ok) ->
  l_tos l' = l_tos l /\ sized l' /\ (slot l 0 = 0%nat -> ok = true) /\
  if ok then oldest_first l' = purge target w else exists j, oldest_first l' = partial target j w.
Proof.
  revert i l. induction n as [|n IH]; intros i l Hn Hw Hv Hs Hrun.
  - cbn in Hrun. apply pair_equal_spec in Hrun as [<- <-]. split_and!; try done. rewrite Hv. unfold partial.
    rewrite take_ge, drop_ge, app_nil_r by lia. done.
  - cbn [seq moveblocks_loop] in Hrun. destruct (to_entry l i ltac:(lia)) as (e & He & Hto).
    rewrite Hv, lookup_partial in He by lia. destruct (decide (l_to l !!! slot l i = target)) as [Ht|Ht].
    + assert (keeps target e = false) as Hk by (unfold keeps; rewrite bool_decide_eq_true_2 by congruence; done).
      destruct (decide (slot l i < slot l 0)%nat) as [Hlt|Hge].
      * apply pair_equal_spec in Hrun as [<- <-]. split_and!; [done|done|lia|eauto].
      * assert (l_tos l' = l_tos l /\ sized l' /\ (slot l 0 = 0%nat -> ok = true) /\
          if ok then oldest_first l' = purge target w else exists j, oldest_first l' = partial target j w) as Hres; [|exact Hres].
        refine (IH (S i) (set_arrays _ _ l) _ Hw _ _ Hrun); [lia| |].
        -- rewrite oldest_first_move by lia. rewrite Hv. symmetry. by apply (partial_drop _ _ _ e).
        -- split; unfold set_arrays, move_up; cbn [l_from l_to]; by rewrite length_fmap, length_seq.
    + assert (keeps target e = true) as Hk by (unfold keeps; rewrite bool_decide_eq_false_2 by congruence; done).
      apply (IH (S i) l); [lia|done| |done|done]. rewrite Hv. symmetry. by apply (partial_keep _ _ _ e).
Qed.

Lemma moveblocks_eq target l : moveblocks target l = moveblocks_loop target (slot l 0) (seq 0 LBR_ENTRIES) l.
Proof. reflexivity. Qed.

Lemma moveblocks_spec target l l' ok :
  sized l -> moveblocks target l = (l', ok) ->
  l_tos l' = l_tos l /\ sized l' /\ (slot l 0 = 0%nat -> ok = true) /\
  if ok then oldest_first l' = purge target (oldest_first l)
  else exists j, oldest_first l' = partial target j (oldest_first l).
Proof.
  intros Hs Hrun. rewrite moveblocks_eq in Hrun. apply (moveblocks_loop_spec target (oldest_first l) LBR_ENTRIES 0 l l' ok);
    [reflexivity|apply length_oldest_first| |exact Hs|exact Hrun].
  symmetry. apply partial_0.
Qed.

(** The copy is in order. *)
Lemma slot_straight l i : (i < LBR_ENTRIES)%nat -> slot (straight l) i = i.
Proof.
  intros Hi. destruct (slot_alt (straight l) i Hi) as [_ ->].
  change (slot (straight l) 0) with 0%nat. rewrite decide_True by lia. lia.
Qed.

Lemma oldest_first_straight l : oldest_first (straight l) = oldest_first l.
Proof.
  apply list_eq. intros i. destruct (decide (i < LBR_ENTRIES)%nat) as [Hi|Hi].
  - rewrite !lookup_oldest_first, slot_straight by done. unfold entry, straight. cbn [l_from l_to].
    by rewrite !lookup_total_seq_map by done.
  - rewrite !lookup_ge_None_2; rewrite ?length_oldest_first; (done || lia).
Qed.

Lemma write_back_spec copy l :
  sized l -> l_tos copy = Z.of_nat LBR_ENTRIES - 1 ->
  l_tos (write_back copy l) = l_tos l /\ oldest_first (write_back copy l) = oldest_first copy.
Proof.
  intros Hs Htos. unfold write_back. set (body := fun (i : nat) (l : lbr_t) => _).
  assert (let l' := for_up LBR_ENTRIES body l in l_tos l' = l_tos l /\ sized l' /\
    forall m, (m < LBR_ENTRIES)%nat -> entry l' (slot l m) = entry copy m) as (Ht & _ & He).
  { apply (for_up_ind (fun n l' => l_tos l' = l_tos l /\ sized l' /\ forall m, (m < n)%nat -> entry l' (slot l m) = entry copy m)).
    - split_and!; [done|exact Hs|lia].
    - intros i l1 Hi (Ht & [Hf Hto] & He). assert (forall m, slot l1 m = slot l m) as Hsl by (intros m; unfold slot; by rewrite Ht).
      unfold body. split; [done|]. split; [split; cbn; by rewrite length_insert|].
      intros m Hm. unfold entry. cbn [l_from l_to set_arrays]. rewrite Hsl.
      pose proof (slot_lt l i ltac:(lia)) as Hslt.
      destruct (decide (m = i)) as [->|Hne].
      + rewrite !list_lookup_total_insert_eq by lia. done.
      + rewrite !list_lookup_total_insert_ne by (intros ?%slot_inj; lia). apply He. lia. }
  split; [done|]. apply list_eq. intros m. destruct (decide (m < LBR_ENTRIES)%nat) as [Hm|Hm].
  - rewrite !lookup_oldest_first by done. f_equal.
    assert (slot (for_up LBR_ENTRIES body l) m = slot l m) as -> by (unfold slot; by rewrite Ht).
    assert (slot copy m = m) as ->; [|by apply He].
    destruct (slot_alt copy m Hm) as [_ ->]. assert (slot copy 0 = 0%nat) as -> by (unfold slot; by rewrite Htos).
    rewrite decide_True by lia. lia.
  - rewrite !lookup_ge_None_2; rewrite ?length_oldest_first; (done || lia).
Qed.

(** C31. [remove_lib_enter_edges] always succeeds.  In the order of the entries,
    the oldest first, it removes exactly those that lead to [target], keeps the
    others in order, and fills up with empty entries at the oldest end, wherever
    the circular buffer starts. *)
Theorem remove_lib_enter_edges_purges target l :
  sized l ->
  let '(l', ok) := remove_lib_enter_edges target l in
  ok = true /\ l_tos l' = l_tos l /\ oldest_first l' = purge target (oldest_first l).
Proof.
  intros Hs. unfold remove_lib_enter_edges.
  destruct (moveblocks target l) as [l1 ok1] eqn:H1. destruct (moveblocks_spec target l l1 ok1 Hs H1) as (T1 & S1 & _ & V1).
  destruct ok1; [done|]. destruct V1 as [j V1].
  destruct (moveblocks target (straight l1)) as [c ok2] eqn:H2.
  assert (sized (straight l1)) as Ss by (split; unfold straight; cbn [l_from l_to]; by rewrite length_fmap, length_seq).
  destruct (moveblocks_spec target (straight l1) c ok2 Ss H2) as (T2 & S2 & O2 & V2).
  rewrite (O2 eq_refl) in *. destruct (write_back_spec c l1 S1 T2) as [T3 V3].
  split; [done|]. split; [congruence|]. rewrite V3, V2, oldest_first_straight, V1. apply purge_partial.
Qed.

Definition demo_lbr : lbr_t :=
  Lbr 0 0 2 [0xa; 0xb; 0xc; 0xd; 5; 6; 7; 8; 9; 10; 11; 12; 13; 14; 15; 16]
            [0x99; 2; 3; 0x99; 5; 0x99; 7; 8; 9; 10; 11; 12; 13; 14; 15; 16] NULL.

Lemma remove_lib_enter_edges_purges_witness :
  let '(l', ok) := remove_lib_enter_edges 0x99 demo_lbr in
  ok = true /\ l_tos l' = 2 /\ oldest_first l' = purge 0x99 (oldest_first demo_lbr) /\
  take 4 (oldest_first l') = [(0, 0); (0, 0); (0, 0); (5, 5)].
Proof.
  pose proof (remove_lib_enter_edges_purges 0x99 demo_lbr (conj eq_refl eq_refl)) as Hp.
  destruct (remove_lib_enter_edges 0x99 demo_lbr) as [l' ok]. destruct Hp as (H1 & H2 & H3).
  split_and!; [exact H1|exact H2|exact H3|]. rewrite H3. vm_compute. reflexivity.
Defined.

End Clean.

(** ** Validation *)

(** glibc's [bsearch] with [cmpfunc]: is the key among the elements of the
    array between [lo] and [hi]?  The interval shrinks at every step, so the
    length of the array is fuel enough. *)
Fixpoint bsearch_in (fuel : nat) (a : list Z) (key : Z) (lo hi : nat) : bool :=
  match fuel with
  | O => false
  | S fuel =>
      if decide (lo < hi)%nat then
        let mid := ((lo + hi) / 2)%nat in
        if decide (key < a !!! mid) then bsearch_in fuel a key lo mid else
        if decide (a !!! mid < key) then bsearch_in fuel a key (S mid) hi else
        true
      else false
  end.
Definition bsearch (a : list Z) (key : Z) : bool := bsearch_in (S (length a)) a key 0 (length a).

Definition JIT_ADDR_UNKNOWN : Z := 0xffffffffffffffff.

(** The index loops of the program re-read the size of the set they walk at
    every iteration; the loops that do not add to it walk its elements in order.
    [for_index] is the general form, with fuel. *)
Fixpoint for_index (fuel : nat) (count : M nat) (body : nat -> M unit) (i : nat) : M unit :=
  match fuel with
  | O => undefined
  | S fuel => n ← count; if decide (i < n)%nat then body i;; for_index fuel count body (S i) else mret tt
  end.

Section Validate.
Context `{Malloc}.
(** [DICFG::retouch], which lets Dyninst parse the code at an address anew. *)
Context (retouch : Z -> M unit).
Context (offsets : offsets_t).

(** [jit_normalize_addr]; the static [last_lib_call] is passed and returned. *)
Definition jit_normalize_addr (addr last : Z) : M (Z * Z) :=
  local ← addr_in_cfg addr;
  if local : bool then mret (addr, last) else
  if decide (addr = of_indirect_call_source offsets) then mret (Tag.ADDRESS_TAKEN, last) else
  if decide (addr = of_load_from offsets) then mret (0, last) else
  if decide (addr = of_armor_lib_return offsets) then mret (last, last) else
  if decide (addr = of_pthread_create offsets \/ addr = of_pthread_create_return offsets) then
    f ← find_lib_dummy_by_name "pthread_create";
    if decide (f = NULL) then mret (addr, last) else
    x ← fn_at f; mret (f_base x, last)
  else
  if existsb (fun lib : string * Z * Z => bool_decide (lib.1.2 < addr) && bool_decide (addr < lib.2)) (of_libs offsets)
  then mret (addr, addr) else mret (JIT_ADDR_UNKNOWN, last).

(** A return edge of the library function, to the block where its caller goes
    on; a caller without one is skipped. *)
Definition add_lib_return (shlib caller : Z) : M unit :=
  q ← get_fallthrough_bb caller;
  if decide (q = NULL) then mret tt else
  x ← fn_at shlib;
  b ← bb_at q;
  e ← create_and_add_edge_addr (f_base x) (b_start b);
  set_type e arms_ret;; set_interprocedural e.

Definition jit_add_plt_got_edge (fuel : nat) (a b : Z) : M Z :=
  plt ← find_function a;
  if decide (plt = NULL) then mret NULL else
  p ← fn_at plt;
  if negb (f_plt p) then mret NULL else
  shlib ← create_dummy_function (f_name p) b;
  set_is_lib_dummy shlib;;
  e ← create_and_add_edge_addr a b;
  set_type e arms_inter_indirect_jmp;;
  set_interprocedural e;;
  bb ← find_bb (f_base p);
  for_index fuel (incoming_edge_count bb) (fun i =>
    inc ← get_incoming_edge bb i; x ← edge_at inc;
    let cc := e_source x in
    for_index fuel (outgoing_edge_count cc) (fun j =>
      out ← get_outgoing_edge cc j; y ← edge_at out;
      if edge_is_call y then mret tt else
      for_index fuel (incoming_edge_count cc) (fun k =>
        in2 ← get_incoming_edge cc k; z ← edge_at in2;
        add_lib_return shlib (e_source z)) 0) 0;;
    add_lib_return shlib cc) 0;;
  mret e.

(** An edge the program allows although the graph does not have it: an indirect
    jump within a function, from a block whose only successor is a dummy. *)
Definition add_indirect_jump (a b : Z) : M Z :=
  e ← create_and_add_edge_addr a b; set_type e arms_indirect_jmp;; set_intraprocedural e;; mret e.

Definition allow_dummy_jump (a b : Z) : M Z :=
  src ← find_bb_by_last_insn_address a;
  dst ← find_bb b;
  if decide (src = NULL) then mret NULL else
  n ← outgoing_edge_count src;
  if negb (bool_decide (n = 1%nat)) then mret NULL else
  e0 ← get_outgoing_edge src 0; x ← edge_at e0; t ← bb_at (e_target x);
  if negb (b_dummy t) then mret NULL else
  if decide (dst = NULL) then mret NULL else
  bs ← bb_at src; bd ← bb_at dst;
  if negb (bool_decide (get_function bs = get_function bd)) then mret NULL else
  add_indirect_jump a b.

(** ... or from a block all of whose successors are such jumps. *)
Definition allow_indirect_jump (a b : Z) : M Z :=
  src ← find_bb_by_last_insn_address a;
  if decide (src = NULL) then mret NULL else
  only ← intra_procedural_indirect_jump_targets_only src;
  if only : bool then add_indirect_jump a b else mret NULL.

(** The edge of a branch in the graph, after [retouch] where the target is
    unknown code of the main executable. *)
Definition lookup_edge (a b : Z) : M Z :=
  e ← find_edge a b;
  q ← find_bb b;
  if bool_decide (e = NULL) && bool_decide (q = NULL) && bool_decide (b < 0x4000000)
  then retouch b;; find_edge a b
  else mret e.

(** The scan of the PLT/GOT table: is the branch in it, and is it one of a
    function that could not be instrumented (bit 63 set)? *)
Fixpoint scan_plt_got (orig_a orig_b : Z) (t : list (Z * Z)) : bool * bool :=
  match t with
  | [] => (false, false)
  | (plt, got) :: t =>
      if decide (plt = orig_a /\ got = orig_b) then (true, false) else
      if Tag.has Tag.LIB_FLAG got && bool_decide (got = Z.lor orig_b Tag.LIB_FLAG) then (false, true) else
      scan_plt_got orig_a orig_b t
  end.

(** The block that ends within the 16 bytes before [b]. *)
Definition block_before (b : Z) : M Z :=
  (fix scan (offs : list nat) : M Z :=
     match offs with
     | [] => mret NULL
     | x :: offs => p ← find_bb_by_last_insn_address (u64 (b - Z.of_nat x));
                    if decide (p = NULL) then scan offs else mret p
     end) (seq 0 16).

(** Does it lead to a PLT entry that could not be instrumented? *)
Definition after_uninstrumentable (plt_got : list (Z * Z)) (b : Z) : M bool :=
  p ← block_before b;
  if decide (p = NULL) then mret false else
  l ← outgoing_edges p;
  exists_m (fun e =>
    x ← edge_at e; t ← bb_at (e_target x);
    mret (existsb (fun pg : Z * Z => Tag.has Tag.LIB_FLAG pg.1 && bool_decide (pg.1 = Z.lor (b_start t) Tag.LIB_FLAG)) plt_got)) l.

(** What becomes of one entry of the LBR. *)
Inductive entry_result := Skip | Found (e : Z) | Invalid | Unsupported.

Definition resolve_edge (fuel : nat) (plt_got : list (Z * Z)) (orig_a orig_b a b : Z) : M entry_result :=
  e ← lookup_edge a b;
  e ← (if decide (e = NULL) then allow_dummy_jump a b else mret e);
  e ← (if decide (e = NULL) then allow_indirect_jump a b else mret e);
  if negb (bool_decide (e = NULL)) then mret (Found e) else
  let '(in_plt, unsupported) := scan_plt_got orig_a orig_b plt_got in
  unsupported ← (if in_plt || unsupported then mret unsupported else after_uninstrumentable plt_got b);
  if unsupported : bool then mret Unsupported else
  if negb in_plt then mret Invalid else
  e ← jit_add_plt_got_edge fuel a b;
  mret (if decide (e = NULL) then Invalid else Found e).

(** Entries that are not looked at: empty ones, and returns from a library
    whose call is not in the LBR. *)
Definition skipped (l : lbr_t) (i : nat) : bool :=
  let a := l_from l !!! Clean.slot l i in
  let b := l_to l !!! Clean.slot l i in
  let prev := Z.to_nat (u64 (l_tos l + Z.of_nat i) mod Z.of_nat LBR_ENTRIES) in
  bool_decide (a = of_armor_lib_return offsets) &&
    (bool_decide (i = 0%nat) || bool_decide (l_from l !!! prev = 0) && bool_decide (l_to l !!! prev = 0))
  || bool_decide (a = 0) && bool_decide (b = 0).

Definition validate_entry (fuel : nat) (plt_got : list (Z * Z)) (l : lbr_t) (i : nat) (last : Z) : M (entry_result * Z) :=
  let a := l_from l !!! Clean.slot l i in
  let b := l_to l !!! Clean.slot l i in
  if skipped l i then mret (Skip, last) else
  '(na, last) ← jit_normalize_addr a last;
  '(nb, last) ← jit_normalize_addr b last;
  if decide (na = JIT_ADDR_UNKNOWN) then mret (Invalid, last) else
  if decide (nb = JIT_ADDR_UNKNOWN) then mret (Invalid, last) else
  r ← resolve_edge fuel plt_got a b na nb;
  mret (r, last).

(** The edges of the LBR, or the verdict that ends the loop; the last component
    is [last_lib_call]. *)
Fixpoint collect_edges (fuel : nat) (plt_got : list (Z * Z)) (l : lbr_t) (entries : list nat) (edges : list Z) (last : Z)
  : M ((list Z + Z) * Z) :=
  match entries with
  | [] => mret (inl edges, last)
  | i :: entries =>
      '(r, last) ← validate_entry fuel plt_got l i last;
      match r with
      | Skip => collect_edges fuel plt_got l entries edges last
      | Found e => collect_edges fuel plt_got l entries (edges ++ [e]) last
      | Invalid => mret (inr 0, last)
      | Unsupported => mret (inr 2, last)
      end
  end.

(** Returns from simple library functions look like returns of the wrapper. *)
Definition patch_simples (simples : list Z) (l : lbr_t) : lbr_t :=
  Clean.set_arrays ((fun a => if bsearch simples a then of_armor_lib_return offsets else a) <$> l_from l) (l_to l) l.

Definition clean_lbr (simples : list Z) (l : lbr_t) : lbr_t :=
  patch_simples simples (Clean.remove_lib_enter_edges (of_armor_lib_enter offsets) l).1.

(** The search; it aborts where [jit_track_callstack] does.  The call stack is
    static and cleared after every search, so each starts with an empty one. *)
Definition search_path (edges : list Z) : M bool := fun s =>
  match jit_path_exists s (search_fuel s) edges (default NULL (head edges)) dfs_init with
  | Ret found _ => Some (found, s)
  | _ => None
  end.

(** [jit_validate_lbr]: 1 for a valid LBR, 0 for an invalid one, 2 where it
    cannot tell; with the new value of [last_lib_call]. *)
Definition jit_validate_lbr (fuel : nat) (simples : list Z) (plt_got : list (Z * Z)) (l : lbr_t) (last : Z) : M (Z * Z) :=
  let l := clean_lbr simples l in
  '(r, last) ← collect_edges fuel plt_got l (seq 0 LBR_ENTRIES) [] last;
  match r with
  | inr verdict => mret (verdict, last)
  | inl edges => found ← search_path edges; mret (if found : bool then 1 else 0, last)
  end.

End Validate.

(** ** Properties *)

Lemma wlp_good_bind {A B} (m : M A) (f : A -> M B) s (P : A -> CFG -> Prop) (Q : B -> CFG -> Prop) :
  wlp m (fun a s' => good s s' /\ P a s') s ->
  (forall a s', good s s' -> P a s' -> wlp (f a) (fun b s'' => good s' s'' /\ Q b s'') s') ->
  wlp (m ≫= f) (fun b s'' => good s s'' /\ Q b s'') s.
Proof.
  intros Hm Hf. apply wlp_bind. eapply wlp_mono; [apply Hm|]. intros a s' [Hg HP].
  eapply wlp_mono; [by apply Hf|]. intros b s'' [Hg' HQ]. split; [|done]. by eapply good_trans.
Qed.

(** Computations that only read. *)
Definition quiet {A} (m : M A) : Prop := forall s a s', m s = Some (a, s') -> s' = s.

Lemma quiet_ret {A} (a : A) : quiet (mret a).
Proof. intros s b s' [= _ <-]. done. Qed.
Lemma quiet_bind {A B} (m : M A) (f : A -> M B) : quiet m -> (forall a, quiet (f a)) -> quiet (m ≫= f).
Proof.
  intros Hm Hf s b s'. unfold mbind, M_bind. destruct (m s) as [[a s1]|] eqn:Hs; [|done].
  intros Hb. apply Hm in Hs as ->. by eapply Hf.
Qed.
Lemma quiet_gets {A} (f : CFG -> A) : quiet (gets f).
Proof. intros s b s' [= _ <-]. done. Qed.
Lemma quiet_bb_at p : quiet (bb_at p).
Proof. intros s b s'. unfold bb_at. destruct (c_bbs s !! p); [|done]. by intros [= _ <-]. Qed.
Lemma quiet_edge_at p : quiet (edge_at p).
Proof. intros s b s'. unfold edge_at. destruct (c_edges s !! p); [|done]. by intros [= _ <-]. Qed.
Lemma quiet_fn_at p : quiet (fn_at p).
Proof. intros s b s'. unfold fn_at. destruct (c_fns s !! p); [|done]. by intros [= _ <-]. Qed.
Lemma quiet_intra x : quiet (is_intraprocedural x).
Proof. intros s b s'. unfold is_intraprocedural. destruct (e_intra x); [|done]. by intros [= _ <-]. Qed.

Create HintDb quiet.
#[export] Hint Resolve quiet_ret quiet_gets quiet_bb_at quiet_edge_at quiet_fn_at quiet_intra : quiet.
Ltac quiet := repeat first [eassumption | solve [auto with quiet] | apply quiet_bind; [|intros ?] | case_decide | case_bool_decide
  | progress cbn beta iota | match goal with |- quiet (if ?b then _ else _) => destruct b end
  | match goal with |- quiet (match ?l with _ => _ end) => destruct l end].

Lemma quiet_exists_m test l : (forall x, quiet (test x)) -> quiet (exists_m test l).
Proof. intros Ht. induction l as [|x l IH]; cbn [exists_m]; quiet. Qed.
Lemma quiet_find_m test l : (forall x, quiet (test x)) -> quiet (find_m test l).
Proof. intros Ht. induction l as [|x l IH]; cbn [find_m]; quiet. Qed.

Lemma wlp_quiet {A B} (m : M A) (f : A -> M B) s (Q : B -> CFG -> Prop) :
  quiet m -> (forall a, wlp (f a) Q s) -> wlp (m ≫= f) Q s.
Proof. intros Hm Hf. apply wlp_bind. intros a s' Hs. apply Hm in Hs as ->. apply Hf. Qed.

Lemma quiet_find_bb a : quiet (find_bb a).
Proof. apply quiet_gets. Qed.
Lemma quiet_find_last a : quiet (find_bb_by_last_insn_address a).
Proof. apply quiet_gets. Qed.
Lemma quiet_find_function a : quiet (find_function a).
Proof. apply quiet_gets. Qed.
#[export] Hint Resolve quiet_find_bb quiet_find_last quiet_find_function : quiet.
Lemma quiet_out p : quiet (outgoing_edges p).
Proof. unfold outgoing_edges. quiet. Qed.
Lemma quiet_in p : quiet (incoming_edges p).
Proof. unfold incoming_edges. quiet. Qed.
#[export] Hint Resolve quiet_out quiet_in : quiet.
Lemma quiet_in_count p : quiet (incoming_edge_count p).
Proof. unfold incoming_edge_count. quiet. Qed.
Lemma quiet_out_count p : quiet (outgoing_edge_count p).
Proof. unfold outgoing_edge_count. quiet. Qed.
Lemma quiet_get_in p i : quiet (get_incoming_edge p i).
Proof. unfold get_incoming_edge. quiet. Qed.
Lemma quiet_get_out p i : quiet (get_outgoing_edge p i).
Proof. unfold get_outgoing_edge. quiet. Qed.
Lemma quiet_fallthrough p : quiet (get_fallthrough_bb p).
Proof. unfold get_fallthrough_bb. apply quiet_bind; [quiet|]. intros b. induction (seq 1 15); quiet. Qed.
Lemma quiet_addr_in_cfg a : quiet (addr_in_cfg a).
Proof. unfold addr_in_cfg. quiet. Qed.
Lemma quiet_find_lib_dummy n : quiet (find_lib_dummy_by_name n).
Proof. unfold find_lib_dummy_by_name. apply quiet_bind; [quiet|]. intros l. apply quiet_find_m. intros f. quiet. Qed.
Lemma quiet_only p : quiet (intra_procedural_indirect_jump_targets_only p).
Proof.
  unfold intra_procedural_indirect_jump_targets_only. apply quiet_bind; [quiet|]. intros l. case_decide; [quiet|].
  apply quiet_bind; [|intros; quiet]. apply quiet_exists_m. intros e. quiet.
Qed.
#[export] Hint Resolve quiet_in_count quiet_out_count quiet_get_in quiet_get_out quiet_fallthrough quiet_addr_in_cfg
  quiet_find_lib_dummy quiet_only : quiet.
Lemma quiet_normalize o a l : quiet (jit_normalize_addr o a l).
Proof. unfold jit_normalize_addr. quiet. Qed.
Lemma quiet_uninstrumentable t b : quiet (after_uninstrumentable t b).
Proof.
  unfold after_uninstrumentable. apply quiet_bind.
  - unfold block_before. induction (seq 0 16); quiet.
  - intros p. case_decide; [quiet|]. apply quiet_bind; [quiet|]. intros l. apply quiet_exists_m. intros e. quiet.
Qed.
#[export] Hint Resolve quiet_normalize quiet_uninstrumentable : quiet.

Section Sound.
Context `{Malloc}.
Context (retouch : Z -> M unit) (offsets : offsets_t).

(** Parsing more code adds to the graph. *)
Definition retouch_adds : Prop := forall b s, cfg_wf s -> wlp (retouch b) (fun _ s' => good s s' /\ True) s.

(** The edge [e] is a branch from [a] to [b]. *)
Definition branch_edge (s : CFG) (e a b : Z) : Prop :=
  exists x p q, c_edges s !! e = Some x /\ c_bbs s !! e_source x = Some p /\ c_bbs s !! e_target x = Some q /\
    b_last p = a /\ b_start q = b.

Lemma branch_edge_extends s s' e a b : extends s s' -> branch_edge s e a b -> branch_edge s' e a b.
Proof.
  intros Hx (x & p & q & He & Hp & Hq & Ha & Hb).
  destruct (ext_edge _ _ Hx _ _ He) as (x' & He' & _ & Hs & Ht).
  destruct (ext_bb _ _ Hx _ _ Hp) as (p' & Hp' & _ & _ & _ & Hpl & _).
  destruct (ext_bb _ _ Hx _ _ Hq) as (q' & Hq' & _ & Hqs & _).
  exists x', p', q'. rewrite Hs, Ht. split_and!; congruence.
Qed.

Lemma edge_between_branch s e a b : edge_between s e a b -> branch_edge s e a b.
Proof. intros (x & p & q & ? & ? & ? & ? & ? & _). exists x, p, q. done. Qed.

Lemma branch_edge_ok s e a b : branch_edge s e a b -> edge_ok s e.
Proof. intros (x & _ & _ & He & _). by exists x. Qed.

Lemma wlp_find_edge s a b :
  cfg_wf s -> wlp (find_edge a b) (fun e s' => good s s' /\ (e = NULL \/ branch_edge s' e a b)) s.
Proof.
  intros Hwf e s' Hrun. destruct (find_edge_run s a b Hwf) as (e' & Hr & Hf & _). unfold reads in Hr.
  rewrite Hr in Hrun. apply Some_pair_inj in Hrun as [<- <-]. split; [by apply good_refl|].
  destruct (decide (e' = NULL)) as [|Hn]; [by left|right]. destruct (Hf Hn) as (x & p & bp & q & Hx & Hs & Hl & Hb & _ & Hq & Hqs).
  destruct (wf_last2bb _ Hwf _ _ Hl) as (bp' & Hb' & Hla). rewrite Hb in Hb'. apply (inj Some) in Hb' as <-.
  exists x, bp, q. by rewrite Hs.
Qed.

Lemma wlp_relabel s e f :
  cfg_wf s -> edge_ok s e -> (forall x, same_edge x (f x)) -> wlp (on_edge e f) (fun _ s' => good s s' /\ True) s.
Proof. intros. by apply wp_wlp, wp_on_edge_op. Qed.

(** A new edge between two addresses, labelled. *)
Lemma wlp_add_labelled {A} s a b t f (k : Z -> M A) (Q : A -> CFG -> Prop) :
  cfg_wf s -> (forall x, same_edge x (f x)) ->
  (forall e s', good s s' -> e <> NULL -> branch_edge s' e a b -> wlp (k e) (fun r s'' => good s' s'' /\ Q r s'') s') ->
  wlp (e ← create_and_add_edge_addr a b; set_type e t;; on_edge e f;; k e) (fun r s'' => good s s'' /\ Q r s'') s.
Proof.
  intros Hwf Hf Hk. eapply wlp_good_bind; [by apply wp_wlp, wp_create_and_add_edge_addr|]. cbn beta.
  intros e s1 G1 (Hn & Hb%edge_between_branch & _).
  eapply wlp_good_bind; [apply wlp_relabel; [by eapply good_wf|by eapply branch_edge_ok|intros x; same]|].
  intros _ s2 G2 _. assert (branch_edge s2 e a b) as Hb2 by (eapply branch_edge_extends; [apply G2|done]).
  eapply wlp_good_bind; [apply wlp_relabel; [by eapply good_wf|by eapply branch_edge_ok|done]|].
  intros _ s3 G3 _. apply (wlp_mono _ (fun r s'' => good s3 s'' /\ Q r s'')); [|done].
  apply Hk; [|done|by eapply branch_edge_extends; [apply G3|]].
  eapply good_trans; [exact G1|]. by eapply good_trans.
Qed.

Lemma wlp_for_index fuel count body s i :
  quiet count -> (forall i s, cfg_wf s -> wlp (body i) (fun _ s' => good s s' /\ True) s) ->
  cfg_wf s -> wlp (for_index fuel count body i) (fun _ s' => good s s' /\ True) s.
Proof.
  intros Hc Hb. revert i s. induction fuel as [|fuel IH]; intros i s Hwf; [done|]. cbn [for_index].
  apply wlp_quiet; [done|]. intros n. case_decide; [|apply wlp_ret; split; [by apply good_refl|done]].
  eapply wlp_good_bind; [by apply Hb|]. intros _ s1 G1 _. apply IH. by eapply good_wf.
Qed.

Lemma wlp_add_lib_return s f p : cfg_wf s -> wlp (add_lib_return f p) (fun _ s' => good s s' /\ True) s.
Proof.
  intros Hwf. unfold add_lib_return. apply wlp_quiet; [auto with quiet|]. intros q.
  case_decide; [apply wlp_ret; split; [by apply good_refl|done]|].
  apply wlp_quiet; [auto with quiet|]. intros x. apply wlp_quiet; [auto with quiet|]. intros b.
  eapply wlp_good_bind; [by apply wp_wlp, wp_create_and_add_edge_addr|]. cbn beta.
  intros e s1 G1 (_ & Hb%edge_between_branch & _).
  eapply wlp_good_bind; [apply wlp_relabel; [by eapply good_wf|by eapply branch_edge_ok|intros y; same]|].
  intros _ s2 G2 _. apply wlp_relabel; [by eapply good_wf| |intros y; same].
  eapply extends_edge_ok; [apply G2|by eapply branch_edge_ok].
Qed.

Lemma wlp_set_is_lib_dummy s f : cfg_wf s -> fn_ok s f -> wlp (set_is_lib_dummy f) (fun _ s' => good s s' /\ True) s.
Proof.
  intros Hwf [x Hx]. apply wp_wlp. eapply wp_mono; [apply (wp_on_fn _ _ x); [done|done|same|]|cbn beta; tauto].
  intros p. apply (wf_entries _ Hwf f x p Hx).
Qed.

Lemma wlp_plt_got s fuel a b :
  cfg_wf s -> wlp (jit_add_plt_got_edge fuel a b) (fun e s' => good s s' /\ (e = NULL \/ branch_edge s' e a b)) s.
Proof.
  intros Hwf. assert (good s s) as Gs by (by apply good_refl). unfold jit_add_plt_got_edge.
  apply wlp_quiet; [auto with quiet|]. intros plt. case_decide; [apply wlp_ret; auto|].
  apply wlp_quiet; [auto with quiet|]. intros p. destruct (negb (f_plt p)); [apply wlp_ret; auto|].
  eapply wlp_good_bind; [by apply wp_wlp, wp_create_dummy_function|]. cbn beta. intros f s1 G1 (_ & _ & Hf).
  eapply wlp_good_bind; [apply wlp_set_is_lib_dummy; [by eapply good_wf|done]|]. intros _ s2 G2 _.
  apply wlp_add_labelled; [by eapply good_wf|intros x; same|]. intros e s3 G3 Hn Hb.
  apply wlp_quiet; [auto with quiet|]. intros bb.
  eapply wlp_good_bind; [apply wlp_for_index; [auto with quiet| |by eapply good_wf]|].
  - intros i s4 W4. apply wlp_quiet; [auto with quiet|]. intros inc. apply wlp_quiet; [auto with quiet|]. intros x.
    eapply wlp_good_bind with (P := fun _ _ => True); [|intros _ s5 G5 _; apply wlp_add_lib_return; by eapply good_wf].
    apply wlp_for_index; [auto with quiet| |done]. intros j s5 W5.
    apply wlp_quiet; [auto with quiet|]. intros out. apply wlp_quiet; [auto with quiet|]. intros y.
    destruct (edge_is_call y); [apply wlp_ret; split; [by apply good_refl|done]|].
    apply wlp_for_index; [auto with quiet| |done]. intros k s6 W6.
    apply wlp_quiet; [auto with quiet|]. intros in2. apply wlp_quiet; [auto with quiet|]. intros z.
    by apply wlp_add_lib_return.
  - intros _ s4 G4 _. apply wlp_ret. split; [apply good_refl; by eapply good_wf|]. right.
    eapply branch_edge_extends; [apply G4|done].
Qed.

Lemma wlp_add_indirect_jump s a b :
  cfg_wf s -> wlp (add_indirect_jump a b) (fun e s' => good s s' /\ (e = NULL \/ branch_edge s' e a b)) s.
Proof.
  intros Hwf. apply wlp_add_labelled; [done|intros x; same|]. intros e s1 G1 Hn Hb. apply wlp_ret.
  split; [apply good_refl; by eapply good_wf|by right].
Qed.

Lemma wlp_allow_dummy_jump s a b :
  cfg_wf s -> wlp (allow_dummy_jump a b) (fun e s' => good s s' /\ (e = NULL \/ branch_edge s' e a b)) s.
Proof.
  intros Hwf. assert (good s s) as Gs by (by apply good_refl). unfold allow_dummy_jump.
  apply wlp_quiet; [auto with quiet|]. intros src. apply wlp_quiet; [auto with quiet|]. intros dst.
  case_decide; [apply wlp_ret; auto|]. apply wlp_quiet; [auto with quiet|]. intros n.
  destruct (negb _); [apply wlp_ret; auto|].
  apply wlp_quiet; [auto with quiet|]. intros e0. apply wlp_quiet; [auto with quiet|]. intros x.
  apply wlp_quiet; [auto with quiet|]. intros t. destruct (negb _); [apply wlp_ret; auto|].
  case_decide; [apply wlp_ret; auto|]. apply wlp_quiet; [auto with quiet|]. intros bs.
  apply wlp_quiet; [auto with quiet|]. intros bd. destruct (negb _); [apply wlp_ret; auto|].
  by apply wlp_add_indirect_jump.
Qed.

Lemma wlp_allow_indirect_jump s a b :
  cfg_wf s -> wlp (allow_indirect_jump a b) (fun e s' => good s s' /\ (e = NULL \/ branch_edge s' e a b)) s.
Proof.
  intros Hwf. assert (good s s) as Gs by (by apply good_refl). unfold allow_indirect_jump.
  apply wlp_quiet; [auto with quiet|]. intros src. case_decide; [apply wlp_ret; auto|].
  apply wlp_quiet; [auto with quiet|]. intros []; [by apply wlp_add_indirect_jump|apply wlp_ret; auto].
Qed.

Lemma wlp_lookup_edge s a b :
  retouch_adds -> cfg_wf s ->
  wlp (lookup_edge retouch a b) (fun e s' => good s s' /\ (e = NULL \/ branch_edge s' e a b)) s.
Proof.
  intros Hre Hwf. unfold lookup_edge.
  eapply wlp_good_bind; [by apply wlp_find_edge|]. cbn beta. intros e s1 G1 He. pose proof (good_wf _ _ G1) as W1.
  apply wlp_quiet; [auto with quiet|]. intros q. destruct (_ && _ && _); [|apply wlp_ret; split; [by apply good_refl|done]].
  eapply wlp_good_bind; [by apply Hre|]. intros _ s2 G2 _. apply wlp_find_edge. by eapply good_wf.
Qed.

(** An alternative that is tried when the edge was not found. *)
Lemma wlp_or_else s e m a b :
  cfg_wf s -> e = NULL \/ branch_edge s e a b ->
  wlp m (fun e s' => good s s' /\ (e = NULL \/ branch_edge s' e a b)) s ->
  wlp (if decide (e = NULL) then m else mret e) (fun e s' => good s s' /\ (e = NULL \/ branch_edge s' e a b)) s.
Proof. intros Hwf He Hm. case_decide; [done|]. apply wlp_ret. split; [by apply good_refl|done]. Qed.

Lemma wlp_resolve_edge s fuel t oa ob a b :
  retouch_adds -> cfg_wf s ->
  wlp (resolve_edge retouch fuel t oa ob a b)
      (fun r s' => good s s' /\ (forall e, r = Found e -> branch_edge s' e a b)) s.
Proof.
  intros Hre Hwf. unfold resolve_edge.
  eapply wlp_good_bind; [by apply wlp_lookup_edge|]. cbn beta. intros e1 s1 G1 H1. pose proof (good_wf _ _ G1) as W1.
  eapply wlp_good_bind; [apply wlp_or_else; [done|done|by apply wlp_allow_dummy_jump]|]. cbn beta.
  intros e2 s2 G2 H2. pose proof (good_wf _ _ G2) as W2.
  eapply wlp_good_bind; [apply wlp_or_else; [done|done|by apply wlp_allow_indirect_jump]|]. cbn beta.
  intros e3 s3 G3 H3. pose proof (good_wf _ _ G3) as W3. pose proof (good_refl _ W3) as R3.
  destruct (decide (e3 = NULL)) as [->|Hn].
  2: { rewrite bool_decide_eq_false_2 by done. apply wlp_ret. split; [done|]. intros e [= <-]. by destruct H3. }
  cbn [negb bool_decide decide_rel]. destruct (scan_plt_got oa ob t) as [in_plt uns].
  apply wlp_quiet; [destruct (in_plt || uns); auto with quiet|]. intros [].
  { apply wlp_ret. split; [done|]. intros e. discriminate. }
  destruct in_plt; cbn [negb]; [|apply wlp_ret; split; [done|intros e; discriminate]].
  eapply wlp_good_bind; [by apply wlp_plt_got|]. cbn beta. intros e4 s4 G4 H4.
  apply wlp_ret. split; [apply good_refl; by eapply good_wf|]. case_decide; intros e [= <-]. by destruct H4.
Qed.

Lemma resolve_not_skip fuel t oa ob a b s s' : resolve_edge retouch fuel t oa ob a b s <> Some (Skip, s').
Proof.
  assert (wlp (resolve_edge retouch fuel t oa ob a b) (fun r _ => r <> Skip) s) as Hw; [|by intros Hr; apply (Hw _ _ Hr)].
  unfold resolve_edge. apply wlp_bind. intros e1 s1 _. apply wlp_bind. intros e2 s2 _. apply wlp_bind. intros e3 s3 _.
  destruct (negb (bool_decide (e3 = NULL))); [by apply wlp_ret|]. destruct (scan_plt_got oa ob t) as [p u].
  apply wlp_bind. intros [] s4 _; [by apply wlp_ret|]. destruct (negb p); [by apply wlp_ret|].
  apply wlp_bind. intros e5 s5 _. apply wlp_ret. by case_decide.
Qed.

(** What an address is normalized to: itself, unless it is one of the addresses
    inside the wrappers. *)
Definition normalizes (a na : Z) : Prop :=
  na = a \/ a ∈ [of_indirect_call_source offsets; of_load_from offsets; of_armor_lib_return offsets;
                 of_pthread_create offsets; of_pthread_create_return offsets].

Lemma wlp_normalize s a last :
  wlp (jit_normalize_addr offsets a last) (fun r s' => s' = s /\ (normalizes a r.1 \/ r.1 = JIT_ADDR_UNKNOWN)) s.
Proof.
  assert (wlp (jit_normalize_addr offsets a last) (fun r _ => normalizes a r.1 \/ r.1 = JIT_ADDR_UNKNOWN) s) as Hw.
  2: { intros r s' Hrun. split; [by eapply quiet_normalize|by eapply Hw]. }
  unfold jit_normalize_addr. apply wlp_quiet; [auto with quiet|]. intros []; [apply wlp_ret; by left; left|].
  case_decide; [apply wlp_ret; left; right; set_solver|]. case_decide; [apply wlp_ret; left; right; set_solver|].
  case_decide; [apply wlp_ret; left; right; set_solver|]. case_decide as Hp.
  - apply wlp_quiet; [auto with quiet|]. intros f. case_decide; [apply wlp_ret; by left; left|].
    apply wlp_quiet; [auto with quiet|]. intros x. apply wlp_ret. left. right. set_solver.
  - destruct (existsb _ _); apply wlp_ret; [by left; left|by right].
Qed.

(** An edge that stands for entry [i] of the LBR. *)
Definition stands_for (s : CFG) (l : lbr_t) (i : nat) (e : Z) : Prop :=
  exists na nb, normalizes (l_from l !!! Clean.slot l i) na /\ normalizes (l_to l !!! Clean.slot l i) nb /\
    branch_edge s e na nb.

Lemma stands_for_extends s s' l i e : extends s s' -> stands_for s l i e -> stands_for s' l i e.
Proof.
  intros Hx (na & nb & Ha & Hb & Hbe). exists na, nb. split_and!; [done|done|by eapply branch_edge_extends].
Qed.

Lemma wlp_validate_entry s fuel t l i last :
  retouch_adds -> cfg_wf s ->
  wlp (validate_entry retouch offsets fuel t l i last)
      (fun r s' => good s s' /\ (r.1 = Skip <-> skipped offsets l i = true) /\ (forall e, r.1 = Found e -> stands_for s' l i e)) s.
Proof.
  intros Hre Hwf. pose proof (good_refl _ Hwf) as R. unfold validate_entry.
  destruct (skipped offsets l i); [by apply wlp_ret|].
  apply wlp_bind. eapply wlp_mono; [apply wlp_normalize|]. intros [na l1] s1 [-> Ha]. cbn in Ha.
  apply wlp_bind. eapply wlp_mono; [apply wlp_normalize|]. intros [nb l2] s2 [-> Hb]. cbn in Hb.
  case_decide; [by apply wlp_ret|]. case_decide; [by apply wlp_ret|].
  destruct Ha as [Ha|]; [|done]. destruct Hb as [Hb|]; [|done].
  intros r s3 Hrun. unfold mbind, M_bind in Hrun.
  destruct (resolve_edge retouch fuel t _ _ na nb s) as [[r' s4]|] eqn:Hr; [|done].
  apply Some_pair_inj in Hrun as [<- <-]. destruct (wlp_resolve_edge s fuel t _ _ na nb Hre Hwf _ _ Hr) as [G Hf]. cbn [fst].
  split; [done|]. split; [|intros e He; exists na, nb; auto]. split; [|done]. intros ->. exfalso.
  revert Hr. apply resolve_not_skip.
Qed.

(** The entries that are looked at. *)
Definition considered (l : lbr_t) (entries : list nat) : list nat :=
  filter (fun i => skipped offsets l i = false) entries.

Lemma wlp_collect_edges fuel t l entries done_ edges last s :
  retouch_adds -> cfg_wf s -> Forall2 (stands_for s l) (considered l done_) edges ->
  wlp (collect_edges retouch offsets fuel t l entries edges last)
      (fun r s' => good s s' /\ match r.1 with
                                | inl es => Forall2 (stands_for s' l) (considered l (done_ ++ entries)) es
                                | inr v => v <> 1
                                end) s.
Proof.
  intros Hre. revert done_ edges last s. induction entries as [|i entries IH]; intros done_ edges last s Hwf Hes.
  - apply wlp_ret. split; [by apply good_refl|]. cbn. by rewrite app_nil_r.
  - cbn [collect_edges]. eapply wlp_good_bind; [by apply wlp_validate_entry|]. cbn beta.
    intros [r l1] s1 G1 [Hskip Hfound]. cbn in Hskip, Hfound. pose proof (good_wf _ _ G1) as W1.
    pose proof (good_refl _ W1) as R1.
    assert (Forall2 (stands_for s1 l) (considered l done_) edges) as Hes1.
    { eapply Forall2_impl; [exact Hes|]. intros j e. apply stands_for_extends. apply G1. }
    replace (done_ ++ i :: entries) with ((done_ ++ [i]) ++ entries) by (by rewrite <- app_assoc).
    assert (considered l (done_ ++ [i]) = considered l done_ ++ (if skipped offsets l i then [] else [i])) as Hc.
    { unfold considered. rewrite filter_app, filter_cons, filter_nil. by destruct (skipped offsets l i). }
    destruct r as [|e| |]; [| |by apply wlp_ret|by apply wlp_ret].
    + apply IH; [done|]. rewrite Hc, (proj1 Hskip eq_refl), app_nil_r. done.
    + apply IH; [done|]. rewrite Hc. destruct (skipped offsets l i); [by destruct Hskip as [_ Hs]; discriminate Hs|].
      apply Forall2_app; [done|]. constructor; [by apply Hfound|constructor].
Qed.

(** The entries of the cleaned LBR have edges, and a walk explains them. *)
Definition explains (simples : list Z) (l : lbr_t) (s : CFG) : Prop :=
  exists es, Forall2 (stands_for s (clean_lbr offsets simples l)) (considered (clean_lbr offsets simples l) (seq 0 LBR_ENTRIES)) es /\
    exists p, walk s (default NULL (head es)) p /\ branches s p = tail es.

Lemma wlp_jit_validate_lbr fuel simples t l last s :
  retouch_adds -> cfg_wf s ->
  wlp (jit_validate_lbr retouch offsets fuel simples t l last) (fun r s' => good s s' /\ (r.1 = 1 -> explains simples l s')) s.
Proof.
  intros Hre Hwf. unfold jit_validate_lbr, explains. set (c := clean_lbr offsets simples l).
  eapply wlp_good_bind; [apply (wlp_collect_edges fuel t c (seq 0 LBR_ENTRIES) [] [] last s Hre Hwf); constructor|].
  cbn beta. intros [r l1] s1 G1 Hr. cbn [fst] in Hr. pose proof (good_refl _ (good_wf _ _ G1)) as R1. destruct r as [es|v].
  - intros [v l2] s2 H2. unfold mbind, M_bind, search_path in H2.
    destruct (jit_path_exists s1 (search_fuel s1) es _ dfs_init) as [| |found d] eqn:Hs; [done|done|].
    apply Some_pair_inj in H2 as [H2 <-]. apply pair_equal_spec in H2 as [<- <-]. split; [done|].
    cbn [fst]. destruct found; [|done]. intros _. exists es. split; [exact Hr|].
    exact (jit_path_exists_sound _ _ _ _ _ _ Hs).
  - apply wlp_ret. split; [done|]. cbn [fst]. intros ->. done.
Qed.


End Sound.

(** A return from the library is attributed to the last library call: when
    an address between the bounds of a mapped library (and none of the special
    addresses, nor one the graph knows) has been normalized, to itself, the
    return address inside the wrapper is normalized to it from then on. *)
Theorem lib_return_normalized offsets s addr last lib lo hi :
  addr_in_cfg addr s = Some (false, s) -> addr_in_cfg (of_armor_lib_return offsets) s = Some (false, s) ->
  addr ∉ [of_indirect_call_source offsets; of_load_from offsets; of_armor_lib_return offsets;
          of_pthread_create offsets; of_pthread_create_return offsets] ->
  of_armor_lib_return offsets <> of_indirect_call_source offsets -> of_armor_lib_return offsets <> of_load_from offsets ->
  (lib, lo, hi) ∈ of_libs offsets -> lo < addr < hi ->
  jit_normalize_addr offsets addr last s = Some (addr, addr, s) /\
  jit_normalize_addr offsets (of_armor_lib_return offsets) addr s = Some (addr, addr, s).
Proof.
  intros Ha Hr Hsp Hn1 Hn2 Hlib Hrange. rewrite !not_elem_of_cons in Hsp. destruct Hsp as (H1 & H2 & H3 & H4 & H5 & _).
  split; unfold jit_normalize_addr, mbind, M_bind; rewrite ?Ha, ?Hr.
  - rewrite !decide_False by (try done; tauto).
    assert (existsb (fun x : string * Z * Z => bool_decide (x.1.2 < addr) && bool_decide (addr < x.2)) (of_libs offsets) = true) as ->; [|done].
    apply existsb_exists. exists (lib, lo, hi). rewrite <- list_elem_of_In. split; [done|]. cbn.
    rewrite !bool_decide_eq_true_2 by lia. done.
  - rewrite (decide_False (P := of_armor_lib_return offsets = of_indirect_call_source offsets)) by done.
    rewrite (decide_False (P := of_armor_lib_return offsets = of_load_from offsets)) by done.
    rewrite decide_True by done. done.
Qed.

(** *** Simple library functions *)

Definition ascending (a : list Z) : Prop := forall i j, (i <= j < length a)%nat -> a !!! i <= a !!! j.

Lemma bsearch_in_spec fuel a key lo hi :
  ascending a -> (hi <= length a)%nat -> (hi - lo < fuel)%nat ->
  bsearch_in fuel a key lo hi = true <-> exists i, (lo <= i < hi)%nat /\ a !!! i = key.
Proof.
  intros Ha. revert lo hi. induction fuel as [|fuel IH]; intros lo hi Hhi Hf; [lia|]. cbn [bsearch_in].
  destruct (decide (lo < hi)%nat) as [Hlt|Hge]; [|split; [done|intros (i & Hi & _); lia]].
  set (mid := ((lo + hi) / 2)%nat).
  assert (lo <= mid < hi)%nat as Hmid.
  { unfold mid. split; [apply Nat.div_le_lower_bound; lia|apply Nat.div_lt_upper_bound; lia]. }
  clearbody mid. destruct (decide (key < a !!! mid)) as [Hk|Hk]; [|destruct (decide (a !!! mid < key)) as [Hk'|Hk']].
  - rewrite IH by lia. split; intros (i & Hi & He); exists i; (split; [|done]); [lia|].
    destruct (decide (i < mid)%nat); [lia|]. pose proof (Ha mid i ltac:(lia)). lia.
  - rewrite IH by lia. split; intros (i & Hi & He); exists i; (split; [|done]); [lia|].
    destruct (decide (mid < i)%nat); [lia|]. pose proof (Ha i mid ltac:(lia)). lia.
  - split; [|done]. intros _. exists mid. split; [lia|]. lia.
Qed.

(** Returns from simple library functions are recognized: with the table
    of exit points in ascending order, [patch_simples] replaces the source of
    exactly those entries of the LBR that are in the table, by the return
    address inside the wrapper, and leaves the other sources and all targets
    as they are. *)
Theorem patch_simples_exact offsets simples l j :
  ascending simples -> (j < length (l_from l))%nat ->
  l_to (patch_simples offsets simples l) = l_to l /\
  l_from (patch_simples offsets simples l) !!! j =
    if decide (l_from l !!! j ∈ simples) then of_armor_lib_return offsets else l_from l !!! j.
Proof.
  intros Ha Hj. split; [done|]. unfold patch_simples, Clean.set_arrays. cbn [l_from].
  destruct (lookup_lt_is_Some_2 _ _ Hj) as [x Hx]. rewrite (list_lookup_total_correct (l_from l) j x Hx).
  erewrite list_lookup_total_correct by (rewrite list_lookup_fmap, Hx; reflexivity).
  assert (bsearch simples x = true <-> x ∈ simples) as Hb.
  { unfold bsearch. rewrite bsearch_in_spec by (done || lia). rewrite list_elem_of_lookup_total. split.
    - intros (i & Hi & He). exists i. split; [lia|done].
    - intros (i & Hi & He). exists i. split; [lia|done]. }
  case_decide as Hd.
  - rewrite (proj2 Hb Hd). done.
  - destruct (bsearch simples _) eqn:Hs; [|done]. by destruct Hd; apply Hb.
Qed.

Lemma patch_simples_exact_witness :
  ascending [0x7f10; 0x7f20; 0x7f30] /\
  l_from (patch_simples (Offsets [] 1 2 3 0x99 5 6) [0x7f10; 0x7f20; 0x7f30]
            (Lbr 0 0 0 (0x7f20 :: replicate 15 0) (replicate 16 0) NULL)) !!! 0%nat = 0x99.
Proof.
  assert (ascending [0x7f10; 0x7f20; 0x7f30]) as Ha.
  { intros i j Hij. cbn [length] in Hij.
    assert (i = 0 \/ i = 1 \/ i = 2)%nat as [->|[->| ->]] by lia; assert (j = 0 \/ j = 1 \/ j = 2)%nat as [->|[->| ->]] by lia;
      cbn; lia. }
  split; [exact Ha|].
  destruct (patch_simples_exact (Offsets [] 1 2 3 0x99 5 6) [0x7f10; 0x7f20; 0x7f30]
              (Lbr 0 0 0 (0x7f20 :: replicate 15 0) (replicate 16 0) NULL) 0 Ha ltac:(cbn; lia)) as [_ Hr].
  rewrite Hr. vm_compute. reflexivity.
Defined.

(** *** Branches the graph knows *)

Section Known.
Context `{Malloc}.
Context (retouch : Z -> M unit) (offsets : offsets_t) (s : CFG).

(** Both ends of the entry lie in the main executable and the graph has the
    edge [e] between them. *)
Definition known (l : lbr_t) (i : nat) (e : Z) : Prop :=
  let a := l_from l !!! Clean.slot l i in
  let b := l_to l !!! Clean.slot l i in
  c_start_addr s <= a < c_end_addr s /\ c_start_addr s <= b < c_end_addr s /\
  a <> JIT_ADDR_UNKNOWN /\ b <> JIT_ADDR_UNKNOWN /\ find_edge a b s = Some (e, s) /\ e <> NULL.

Lemma normalize_local a last :
  c_start_addr s <= a < c_end_addr s -> jit_normalize_addr offsets a last s = Some (a, last, s).
Proof.
  intros Ha. unfold jit_normalize_addr, addr_in_cfg, mbind, M_bind, gets. rewrite decide_True by done. done.
Qed.

Lemma lookup_edge_found a b e : find_edge a b s = Some (e, s) -> e <> NULL -> lookup_edge retouch a b s = Some (e, s).
Proof.
  intros Hf Hn. unfold lookup_edge, mbind, M_bind. rewrite Hf. unfold find_bb, gets.
  rewrite (bool_decide_eq_false_2 (e = NULL)) by done. done.
Qed.

Lemma validate_known fuel t l i last e :
  skipped offsets l i = false -> known l i e ->
  validate_entry retouch offsets fuel t l i last s = Some (Found e, last, s).
Proof.
  intros Hs (Ha & Hb & Ua & Ub & Hf & Hn). unfold validate_entry. rewrite Hs. unfold mbind at 1, M_bind at 1.
  rewrite normalize_local by done. unfold mbind at 1, M_bind at 1. rewrite normalize_local by done.
  rewrite !decide_False by done. unfold resolve_edge. unfold mbind, M_bind. rewrite (lookup_edge_found _ _ e) by done.
  rewrite !decide_False by done. cbn. rewrite !decide_False by done. cbn. rewrite bool_decide_eq_false_2 by done. done.
Qed.

Lemma collect_known fuel t l entries edges es last :
  Forall2 (known l) (considered offsets l entries) es ->
  collect_edges retouch offsets fuel t l entries edges last s = Some (inl (edges ++ es), last, s).
Proof.
  revert edges es. induction entries as [|i entries IH]; intros edges es Hk; cbn [collect_edges].
  - apply Forall2_nil_inv_l in Hk as ->. by rewrite app_nil_r.
  - unfold considered in Hk. rewrite filter_cons in Hk. unfold mbind, M_bind. case_decide as Hs.
    + apply Forall2_cons_inv_l in Hk as (e & es' & He & Hk & ->).
      rewrite (validate_known fuel t l i last e Hs He). cbn. rewrite (IH (edges ++ [e]) es' Hk). by rewrite <- app_assoc.
    + apply not_false_is_true in Hs. unfold validate_entry at 1. rewrite Hs. cbn. by apply IH.
Qed.

End Known.

(** C6. On branches the graph knows, [jit_validate_lbr] decides: if every entry
    of the cleaned LBR that is not skipped lies in the main executable and the
    graph (without returns) has an edge for it, then it answers 1 or 0, leaves the
    graph as it is, and answers 1 exactly when some walk from the first of these
    edges has the others as its recorded branches. *)
Theorem jit_validate_lbr_decides `{Malloc} retouch offsets fuel simples t l last s es :
  cfg_wf s -> ids_distinct s -> no_returns s ->
  Forall2 (known s (clean_lbr offsets simples l)) (considered offsets (clean_lbr offsets simples l) (seq 0 LBR_ENTRIES)) es ->
  exists v, jit_validate_lbr retouch offsets fuel simples t l last s = Some (v, last, s) /\
    (v = 1 \/ v = 0) /\
    (v = 1 <-> exists p, walk s (default NULL (head es)) p /\ branches s p = tail es).
Proof.
  intros Hwf Hid Hnr Hk. unfold jit_validate_lbr, mbind, M_bind.
  rewrite (collect_known retouch offsets s fuel t _ _ [] es last Hk). cbn [app]. unfold search_path.
  assert (length es <= 16)%nat as Hlen.
  { rewrite <- (Forall2_length _ _ _ Hk). unfold considered.
    etransitivity; [apply length_filter|]. by rewrite length_seq. }
  destruct es as [|e es].
  - rewrite jit_path_exists_short by (cbn; lia). exists 1. split; [reflexivity|]. split; [by left|]. split; [|done]. intros _. by exists [].
  - assert (edge_ok s e) as He.
    { apply Forall2_cons_inv_r in Hk as (i & k & (_ & _ & _ & _ & Hf & Hn) & _).
      match type of Hf with find_edge ?a ?b _ = _ => destruct (wlp_find_edge s a b Hwf _ _ Hf) as [_ [|Hb]] end; [done|].
      by eapply branch_edge_ok. }
    cbn [head default from_option]. change (id e) with e.
    destruct (jit_path_exists_decide s (e :: es) e Hwf Hid Hnr He Hlen) as (b & d & Hrun & Hiff). rewrite Hrun.
    exists (if b : bool then 1 else 0). split; [reflexivity|].
    split; [destruct b; auto|]. rewrite <- Hiff. destruct b; split; done.
Qed.

(** ** Concrete runs *)

Definition demo_offsets : offsets_t :=
  Offsets [("/lib/libc.so.6"%string, 0x7f0000000000, 0x7f0000100000)] 0x7e1000 0x7e2000 0x7e3000 0x7e4000 0x7e5000 0x7e6000.

(** The branches 0x8 -> 0x10 and 0x10 -> 0x100 of [call_cfg], the newest last,
    after a jump into the wrapper that is removed. *)
Definition demo_call_lbr : lbr_t :=
  Lbr 0 0 15 (replicate 13 0 ++ [0x8; 0x77; 0x10]) (replicate 13 0 ++ [0x10; 0x7e3000; 0x100]) NULL.

Definition no_retouch : Z -> M unit := fun _ => mret tt.

Lemma no_retouch_adds : retouch_adds no_retouch.
Proof. intros b s Hwf. apply wlp_ret. split; [by apply good_refl|done]. Qed.

Definition demo_graph : CFG := set_addrs 0x0 0x1000 call_cfg.

Lemma demo_graph_wf : cfg_wf demo_graph.
Proof. apply set_addrs_wf, built_wf, run_ops_default. vm_compute. discriminate. Qed.


Lemma lib_return_normalized_witness :
  jit_normalize_addr demo_offsets 0x7f0000000123 JIT_ADDR_UNKNOWN demo_graph = Some (0x7f0000000123, 0x7f0000000123, demo_graph) /\
  jit_normalize_addr demo_offsets 0x7e4000 0x7f0000000123 demo_graph = Some (0x7f0000000123, 0x7f0000000123, demo_graph).
Proof.
  apply (lib_return_normalized demo_offsets demo_graph 0x7f0000000123 JIT_ADDR_UNKNOWN "/lib/libc.so.6"%string 0x7f0000000000 0x7f0000100000).
  - vm_compute. reflexivity.
  - vm_compute. reflexivity.
  - cbn. rewrite !not_elem_of_cons. split_and!; try discriminate. apply not_elem_of_nil.
  - discriminate.
  - discriminate.
  - apply list_elem_of_here.
  - lia.
Defined.

Lemma jit_validate_lbr_decides_witness :
  exists v, jit_validate_lbr no_retouch demo_offsets 9 [] []
      (Lbr 0 0 15 (replicate 14 0 ++ [0x10; 0x30]) (replicate 14 0 ++ [0x20; 0x40]) NULL) JIT_ADDR_UNKNOWN
      (set_addrs 0x0 0x1000 loop_cfg) = Some (v, JIT_ADDR_UNKNOWN, set_addrs 0x0 0x1000 loop_cfg) /\
    (v = 1 \/ v = 0) /\
    (v = 1 <-> exists p, walk (set_addrs 0x0 0x1000 loop_cfg) 3 p /\ branches (set_addrs 0x0 0x1000 loop_cfg) p = [8]).
Proof.
  apply (jit_validate_lbr_decides no_retouch demo_offsets 9 [] [] _ JIT_ADDR_UNKNOWN (set_addrs 0x0 0x1000 loop_cfg) [3; 8]).
  - apply set_addrs_wf, built_wf, run_ops_default. vm_compute. discriminate.
  - apply ids_distinct_check. vm_compute. repeat constructor; set_solver.
  - assert (map_Forall (fun _ x => edge_is_return x = false) (c_edges (set_addrs 0x0 0x1000 loop_cfg))) as Hall;
      [|exact Hall].
    apply (bool_decide_eq_true_1 _). vm_compute. reflexivity.
  - match goal with |- Forall2 _ ?c _ => replace c with [14; 15]%nat by (vm_compute; reflexivity) end.
    constructor; [|constructor; [|constructor]]; unfold known; cbv zeta; split_and!; vm_compute; first [reflexivity | discriminate].
Defined.
