(* ===== verification/Enum.v ===== *)
(** Ahead-of-time enumeration of LBR states: [LBRState], [LBRStateSet],
    [LBRConfig], [DFSState] and [get_lbr_states] of dyninst-static/lbr_analysis.C.

    For every dangerous library function the analyzer walks the control-flow
    graph backwards from the entry of the function and writes down the windows
    of branches an LBR can hold when the function is entered: the indirect
    branches and returns of a path, newest first.  A search stops when the
    window is full or the graph ends, skips hidden edges, matches calls with the
    returns seen before, and gives up on a path that closes a cycle of
    direct edges.  Blocks where a full window ends are searched in turn, while
    they can still be in an LBR.

    The graph does not change.  The counters of [stats] are left out; so is
    [break_direct_cycle], which nothing calls.  [append_state] gives a [bool]
    that its callers compare with [< 0], so the error returns of the search are
    never taken. *)

From stdpp Require Import sorting relations.
From S2P Require Import Prelude LbrState Cfg CfgInv JitPath.

(** ** States *)

(** The edges of a state, newest first.  [_hash] caches a value that [hash]
    computes anew. *)
Definition LBRState : Type := list Z.

(** Backwards, as the last edges are most likely to differ. *)
Definition equals (t u : LBRState) : bool :=
  bool_decide (length t = length u) && forallb (fun p : Z * Z => bool_decide (p.1 = p.2)) (rev (zip t u)).

(** [_func], [_state] and [_states_by_last_edge].  Looking up a missing key
    of the map inserts an empty vector, which cannot be told from no entry. *)
Record LBRStateSet := StateSet { ss_func : Z; ss_state : list LBRState; ss_by_last : gmap Z (list LBRState) }.

Definition new_state_set (func : Z) : LBRStateSet := StateSet func [] ∅.

(** [_state_set]. *)
Definition LBRStateMap : Type := list LBRStateSet.

(** ** Configuration *)

Record LBRConfig := Config { cf_blacklist : gset string; cf_window : Z }.

(** The assertions of [set_window_size]. *)
Definition set_window_size (w : Z) (c : LBRConfig) : option LBRConfig :=
  if decide (1 < w <= LBR_SIZE /\ w <= Z.of_nat WINDOW_SIZE) then Some (Config (cf_blacklist c) w) else None.

Definition blacklist_func (name : string) (c : LBRConfig) : LBRConfig := Config ({[name]} ∪ cf_blacklist c) (cf_window c).
Definition is_blacklisted (name : string) (c : LBRConfig) : bool := bool_decide (name ∈ cf_blacklist c).

Definition default_blacklist : list string :=
  ["execve"; "execl"; "execlp"; "execle"; "execv"; "execvp"; "execvpe"; "fexecve"; "mprotect"; "mmap"; "mmap64";
   "system"; "syscall"; "raise"; "kill"; "pthread_kill"; "tkill"; "tgkill"; "sigaction"; "signal"]%string.

(** [LBRConfig(init_blacklist, window_size)]. *)
Definition new_config (init_blacklist : bool) (window_size : Z) : option LBRConfig :=
  let c := Config ∅ 0 in
  let c := if init_blacklist then foldl (fun c name => blacklist_func name c) c default_blacklist else c in
  set_window_size window_size c.

(** ** Search state *)

(** The part of [DFSState] the enumeration uses.  The arrays that grow at the
    end, [lbr_edge] up to [len] and [edge], are lists with the last element first;
    [q_bb] has [when_scheduled] of the blocks that are scheduled. *)
Record DFSState := DFS {
  q_lbr : list Z;
  q_edge : list Z;
  q_set : LBRStateSet;
  q_shift : Z;
  q_queue : list Z;
  q_bb : gmap Z Z;
  q_visited : gmap Z Z;
  q_black : gset Z
}.

Definition new_DFSState (func : Z) : DFSState := DFS [] [] (new_state_set func) 0 [] ∅ ∅ ∅.

Definition q_path (lbr edge : list Z) (vis : gmap Z Z) (d : DFSState) : DFSState :=
  DFS lbr edge (q_set d) (q_shift d) (q_queue d) (q_bb d) vis (q_black d).
Definition q_sched (shift : Z) (queue : list Z) (bb : gmap Z Z) (d : DFSState) : DFSState :=
  DFS (q_lbr d) (q_edge d) (q_set d) shift queue bb (q_visited d) (q_black d).
Definition q_states (ss : LBRStateSet) (d : DFSState) : DFSState :=
  DFS (q_lbr d) (q_edge d) ss (q_shift d) (q_queue d) (q_bb d) (q_visited d) (q_black d).

Definition q_visits (d : DFSState) (id : Z) : Z := default 0 (q_visited d !! id).

(** What a search gives: no result within the fuel, undefined behaviour,
    or the state it leaves. *)
Inductive outcome :=
| OutOfFuel
| Undef
| Ok (d : DFSState).

Definition of_option (o : option DFSState) : outcome := match o with Some d => Ok d | None => Undef end.
Definition and_then (r : outcome) (k : DFSState -> outcome) : outcome :=
  match r with Ok d => k d | r => r end.

Section Enumeration.
Context (s : CFG).

(** [_edge[i]->id()] for the last edge of a state. *)
Definition last_edge_id (t : LBRState) : option Z := e ← last t; x ← c_edges s !! e; Some (e_id x).

Definition append_state (t : LBRState) (ss : LBRStateSet) : option LBRStateSet :=
  i ← last_edge_id t;
  Some (StateSet (ss_func ss) (ss_state ss ++ [t]) (<[i := default [] (ss_by_last ss !! i) ++ [t]]> (ss_by_last ss))).

Definition find_state (t : LBRState) (ss : LBRStateSet) : option (option LBRState) :=
  i ← last_edge_id t; Some (head (filter (fun u => equals u t = true) (default [] (ss_by_last ss !! i)))).

Fixpoint append_all (l : list LBRState) (ss : LBRStateSet) : option LBRStateSet :=
  match l with [] => Some ss | t :: l => ss ← append_state t ss; append_all l ss end.

(** [LBRStateSet::copy] and [LBRStateMap::append_state_set]. *)
Definition copy_set (ss : LBRStateSet) : option LBRStateSet := append_all (ss_state ss) (new_state_set (ss_func ss)).
Definition append_state_set (ss : LBRStateSet) (m : LBRStateMap) : option LBRStateMap :=
  ss ← copy_set ss; Some (m ++ [ss]).

Definition store_lbr_state (d : DFSState) : option DFSState :=
  if decide (length (q_lbr d) = 0%nat) then Some d else
  let t := rev (q_lbr d) in
  r ← find_state t (q_set d);
  match r with
  | Some _ => Some d
  | None => ss ← append_state t (q_set d); Some (q_states ss d)
  end.

(** *** Scheduling *)

Definition schedule_node (p : Z) (d : DFSState) : option DFSState :=
  b ← c_bbs s !! p;
  match q_bb d !! b_id b with
  | None => Some (q_sched (q_shift d) (q_queue d ++ [p]) (<[b_id b := q_shift d]> (q_bb d)) d)
  | Some _ => Some d
  end.

Definition when_scheduled (p : Z) (d : DFSState) : option Z := b ← c_bbs s !! p; q_bb d !! b_id b.

Fixpoint schedule_all (l : list Z) (d : DFSState) : option DFSState :=
  match l with [] => Some d | p :: l => d ← schedule_node p d; schedule_all l d end.

(** *** Matching calls and returns *)

(** The loop of [edge_is_traversable] over the path, from the edge pushed last. *)
Fixpoint match_return (bb : Z) (level : Z) (path : list Z) : option bool :=
  match path with
  | [] => Some true
  | f :: path =>
      y ← c_edges s !! f;
      if edge_is_call y then match_return bb (level + 1) path else
      if edge_is_return y then
        if decide (level <> 0) then match_return bb (level - 1) path else
        if decide (bb = NULL) then Some false else
        '(b, _) ← equals_bb bb (e_target y) s; Some b
      else match_return bb level path
  end.

Definition edge_is_traversable (x : ArmsEdge) (path : list Z) : option bool :=
  if edge_is_call x then '(bb, _) ← get_fallthrough_bb (e_source x) s; match_return bb 0 path else Some true.

(** *** Cycles of direct edges *)

Definition UINT_MAX : Z := 0xffffffff.

(** Marsaglia xorshift of the address of an edge. *)
Definition xorshift (f : Z) : Z :=
  let a := Z.lxor f (Z.shiftr f 12) in
  let a := Z.lxor a (u64 (Z.shiftl a 25)) in
  let a := Z.lxor a (Z.shiftr a 27) in
  u64 (a * 2685821657736338717).

(** The loop runs over the path from its end; running past its beginning is an
    access outside the vector. *)
Fixpoint cycle_sig (id sig : Z) (path : list Z) : option Z :=
  match path with
  | [] => None
  | f :: path =>
      y ← c_edges s !! f;
      let sig := Z.lxor sig (xorshift f) in
      if edge_is_indirect y then Some 0 else
      if decide (e_id y = id) then Some sig else cycle_sig id sig path
  end.

Definition is_direct_cycle (x : ArmsEdge) (path : list Z) : option Z :=
  if edge_is_indirect x then Some 0 else cycle_sig (e_id x) UINT_MAX path.

(** *** The search *)

Definition SEARCH_DEPTH : Z := 0.

Context (w : Z).

(** Schedule the block where a full window ends. *)
Definition overlap (x : ArmsEdge) (d : DFSState) : option DFSState :=
  if decide (Z.of_nat (length (q_lbr d)) = w /\ 1 + q_shift d * (w - 1) < LBR_SIZE)
  then schedule_node (e_target x) d else Some d.

(** The edge is pushed; [None] where [lbr_edge] is full. *)
Definition enter_edge (e : Z) (x : ArmsEdge) (d : DFSState) : option DFSState :=
  let vis := <[e_id x := u32 (q_visits d (e_id x) + 1)]> (q_visited d) in
  if edge_is_indirect x then
    if decide (Z.of_nat (length (q_lbr d)) < LBR_SIZE) then Some (q_path (e :: q_lbr d) (e :: q_edge d) vis d) else None
  else Some (q_path (q_lbr d) (e :: q_edge d) vis d).

Definition leave_edge (x : ArmsEdge) (d : DFSState) : DFSState :=
  q_path (if edge_is_indirect x then tail (q_lbr d) else q_lbr d) (tail (q_edge d))
         (<[e_id x := u32 (q_visits d (e_id x) - 1)]> (q_visited d)) d.

(** The loop over the edges that enter the source of the current edge. *)
Fixpoint search_sources (rec : Z -> DFSState -> outcome) (fs : list Z) (d : DFSState) : outcome :=
  match fs with
  | [] => Ok d
  | f :: fs =>
      match c_edges s !! f with
      | None => Undef
      | Some y =>
          if edge_is_hidden y then search_sources rec fs d else
          match edge_is_traversable y (q_edge d) with
          | None => Undef
          | Some false => search_sources rec fs d
          | Some true => and_then (rec f d) (search_sources rec fs)
          end
      end
  end.

Definition too_deep (d : DFSState) : bool :=
  bool_decide (SEARCH_DEPTH > 0) && bool_decide (Z.of_nat (length (q_edge d)) >= SEARCH_DEPTH).

Fixpoint search_inbound_edges (fuel : nat) (e : Z) (d : DFSState) : outcome :=
  match fuel with
  | O => OutOfFuel
  | S fuel =>
      match c_edges s !! e with
      | None => Undef
      | Some x =>
          if decide (e_id x ∈ q_black d) then Ok d else
          if too_deep d then Ok d else
          match (if decide (q_visits d (e_id x) = 0) then Some 0 else is_direct_cycle x (q_edge d)) with
          | None => Undef
          | Some sig =>
              if decide (sig <> 0) then Ok d else
              match (d ← enter_edge e x d; overlap x d), c_bbs s !! e_source x with
              | Some d, Some b =>
                  and_then
                    (if decide (Z.of_nat (length (q_lbr d)) = w \/ size (b_in b) = 0%nat)
                     then of_option (store_lbr_state d)
                     else search_sources (search_inbound_edges fuel) (in_order (b_in b)) d)
                    (fun d => Ok (leave_edge x d))
              | _, _ => Undef
              end
          end
      end
  end.

(** [foreach_incoming_edge(search_inbound_edges)]: no test of the edges. *)
Fixpoint search_all (fuel : nat) (es : list Z) (d : DFSState) : outcome :=
  match es with
  | [] => Ok d
  | e :: es => and_then (search_inbound_edges fuel e d) (search_all fuel es)
  end.

(** The loop over the search queue. *)
Fixpoint search_queue (fuel depth : nat) (d : DFSState) : outcome :=
  match q_queue d with
  | [] => Ok d
  | p :: q =>
      match fuel with
      | O => OutOfFuel
      | S fuel =>
          let d := q_sched (q_shift d) q (q_bb d) d in
          match when_scheduled p d, c_bbs s !! p with
          | Some k, Some b =>
              and_then (search_all depth (in_order (b_in b)) (q_sched (u32 (k + 1)) (q_queue d) (q_bb d) d))
                (search_queue fuel depth)
          | _, _ => Undef
          end
      end
  end.

(** Depth and number of blocks that are enough. *)
Definition depth_fuel : nat := S (Z.to_nat w * S (size (c_edges s))).
Definition queue_fuel : nat := S (size (c_bbs s)).

(** The states of one function. *)
Definition func_states (f : Z) (x : ArmsFunction) : outcome :=
  and_then (of_option (schedule_all (in_order (f_entries x)) (new_DFSState f))) (search_queue queue_fuel depth_fuel).

End Enumeration.

Definition get_func_lbr_states (s : CFG) (c : LBRConfig) (f : Z) (m : LBRStateMap) : option LBRStateMap :=
  x ← c_fns s !! f;
  if negb (f_lib_dummy x) then Some m else
  if negb (is_blacklisted (f_name x) c) then Some m else
  match func_states s (cf_window c) f x with
  | Ok d => append_state_set s (q_set d) m
  | _ => None
  end.

(** [foreach_function(get_func_lbr_states, smap)]. *)
Fixpoint get_states_of (s : CFG) (c : LBRConfig) (fs : list Z) (m : LBRStateMap) : option LBRStateMap :=
  match fs with [] => Some m | f :: fs => m ← get_func_lbr_states s c f m; get_states_of s c fs m end.

Definition get_lbr_states (s : CFG) (c : LBRConfig) : option LBRStateMap :=
  get_states_of s c (map_in_order (c_functions s)) [].
