(* ===== verification/EnumProps.v ===== *)
(** What the enumeration of Enum.v computes: the windows of all backward
    paths that end, found by a search that ends.  The paths are defined here
    without the search: [grows] is one step backwards, [root] the blocks where
    searches start. *)

From stdpp Require Import sorting relations.
From S2P Require Import Prelude LbrState Cfg CfgInv JitPath Enum.

(** ** Paths

    A path is a list of edges, the last one visited (the oldest branch) first. *)

Section Paths.
Context (s : CFG) (w : Z).

Definition indirect (e : Z) : bool := from_option edge_is_indirect false (c_edges s !! e).
Definition indirects (path : list Z) : list Z := filter (fun e => indirect e = true) path.

(** The direct edges since the last indirect one. *)
Fixpoint segment (path : list Z) : list Z :=
  match path with [] => [] | f :: path => if indirect f then [] else f :: segment path end.

(** Going back along [e] would close a cycle of direct edges. *)
Definition loops (path : list Z) (e : Z) : Prop :=
  indirect e = false /\ exists x f, c_edges s !! e = Some x /\ f ∈ segment path /\ has_id s (e_id x) f = true.

(** Calls minus returns. *)
Definition depth_of (e : Z) : Z :=
  match c_edges s !! e with
  | Some y => if edge_is_call y then 1 else if edge_is_return y then -1 else 0
  | None => 0
  end.
Definition depth (a : list Z) : Z := foldr (fun e n => depth_of e + n) 0 a.

(** [r] is the first return of the path whose call is not on the path. *)
Definition unmatched (path : list Z) (r : ArmsEdge) : Prop :=
  exists a f b, path = a ++ f :: b /\ c_edges s !! f = Some r /\ edge_is_call r = false /\ edge_is_return r = true /\
    depth a = 0 /\ forall a1 a2, a = a1 ++ a2 -> 0 <= depth a1.

(** A call goes with that return: the function returns behind the call. *)
Definition fits (y : ArmsEdge) (path : list Z) : Prop :=
  edge_is_call y = true -> forall r, unmatched path r ->
  exists bb b c, reads (get_fallthrough_bb (e_source y)) s bb /\ bb <> NULL /\
    c_bbs s !! bb = Some b /\ c_bbs s !! e_target r = Some c /\ b_id b = b_id c.

(** The block where the path begins, seen in the direction of the program. *)
Definition begins_at (path : list Z) (b : ArmsBasicBlock) : Prop :=
  exists e x rest, path = e :: rest /\ c_edges s !! e = Some x /\ c_bbs s !! e_source x = Some b.

Definition full (path : list Z) : Prop := Z.of_nat (length (indirects path)) = w.
Definition complete (path : list Z) : Prop := full path \/ exists b, begins_at path b /\ size (b_in b) = 0%nat.

(** One step back. *)
Inductive grows : list Z -> list Z -> Prop :=
| grow path b f y :
    begins_at path b -> ~ full path -> f ∈ b_in b -> c_edges s !! f = Some y -> e_hidden y = false ->
    fits y path -> ~ loops path f -> grows path (f :: path).

(** The paths that enter the block [p]. *)
Definition traces (p : Z) (path : list Z) : Prop :=
  exists b e, c_bbs s !! p = Some b /\ e ∈ b_in b /\ rtc grows [e] path.

(** What an LBR shows of a path, newest branch first. *)
Definition window (path : list Z) : LBRState := rev (indirects path).

(** The next search starts where a full window ends, while that block is in
    reach of an LBR. *)
Definition can_shift (shift : Z) : Prop := 1 + shift * (w - 1) < LBR_SIZE.
Definition ends_in (path : list Z) (q : Z) : Prop :=
  exists e rest x, path = e :: rest /\ c_edges s !! e = Some x /\ e_target x = q.

Inductive root (x : ArmsFunction) : Z -> Z -> Prop :=
| root_entry p : p ∈ f_entries x -> root x 0 p
| root_shift k p path q :
    root x k p -> can_shift (k + 1) -> traces p path -> full path -> ends_in path q -> root x (k + 1) q.

(** ** Paths without direct cycles are short *)

Inductive simple : list Z -> Prop :=
| simple_nil : simple []
| simple_cons e path : edge_ok s e -> simple path -> ~ loops path e -> simple (e :: path).

Lemma indirects_cons e path : indirects (e :: path) = if indirect e then e :: indirects path else indirects path.
Proof. unfold indirects. rewrite filter_cons. by destruct (indirect e). Qed.

Lemma segment_sub path f : f ∈ segment path -> f ∈ path /\ indirect f = false.
Proof.
  induction path as [|e path IH]; cbn; [set_solver|]. destruct (indirect e) eqn:He; [set_solver|].
  rewrite !elem_of_cons. intros [->|Hf]; [by split; [left|]|]. destruct (IH Hf). by split; [right|].
Qed.

Lemma simple_ok path f : simple path -> f ∈ path -> edge_ok s f.
Proof. induction 1 as [|e path He _ IH _]; [set_solver|]. rewrite elem_of_cons. intros [->|]; auto. Qed.

Lemma has_id_self e x : c_edges s !! e = Some x -> has_id s (e_id x) e = true.
Proof. intros He. unfold has_id. rewrite He. cbn. by apply bool_decide_eq_true_2. Qed.

Lemma segment_nodup path : simple path -> NoDup (segment path).
Proof.
  induction 1 as [|e path [x He] _ IH Hl]; cbn; [constructor|]. destruct (indirect e) eqn:Hi; [constructor|].
  constructor; [|done]. intros Hin. apply Hl. split; [done|]. exists x, e. split_and!; [done..|]. by apply has_id_self.
Qed.

Lemma length_segment path : simple path -> (length (segment path) <= size (c_edges s))%nat.
Proof.
  intros Hs. rewrite <- (size_list_to_set (C := gset Z)) by (by apply segment_nodup).
  rewrite <- size_dom. apply subseteq_size. intros f. rewrite elem_of_list_to_set, elem_of_dom.
  intros [Hf _]%segment_sub. by apply (simple_ok path).
Qed.

Lemma length_simple path : simple path ->
  (length path <= length (indirects path) * S (size (c_edges s)) + length (segment path))%nat.
Proof.
  induction 1 as [|e path He Hs IH Hl]; [done|]. rewrite indirects_cons. cbn [segment length].
  pose proof (length_segment path Hs). destruct (indirect e); cbn [length]; lia.
Qed.

(** An id is on a simple path a bounded number of times. *)
Lemma count_simple i path : simple path ->
  count_id s i path <= count_id s i (segment path) + 2 * Z.of_nat (length (indirects path)) /\
  0 <= count_id s i (segment path) <= 1.
Proof.
  induction 1 as [|e path [x He] Hs IH Hl]; [done|]. rewrite indirects_cons, count_id_cons. cbn [segment].
  destruct (indirect e) eqn:Hi.
  - change (count_id s i []) with 0. cbn [length]. destruct (has_id s i e); lia.
  - rewrite count_id_cons. destruct (has_id s i e) eqn:Hie; [|lia].
    assert (count_id s i (segment path) = 0) as H0; [|lia].
    unfold count_id. replace (filter _ (segment path)) with (@nil Z); [done|].
    destruct (filter _ (segment path)) as [|f k] eqn:Hf; [done|]. exfalso. apply Hl. split; [done|].
    assert (f ∈ filter (fun e => has_id s i e = true) (segment path)) as Hin by (rewrite Hf; set_solver).
    apply list_elem_of_filter in Hin as [Hif Hin]. exists x, f. split_and!; [done..|].
    unfold has_id in Hie. rewrite He in Hie. cbn in Hie. apply bool_decide_eq_true in Hie. by rewrite Hie.
Qed.

(** ** The signature of a cycle *)

Definition sig_of (l : list Z) : Z := foldl (fun sig f => Z.lxor sig (xorshift f)) UINT_MAX l.

(** No set of direct edges has the signature 0, which the search would take for
    no cycle. *)
Definition no_collision : Prop :=
  forall l, l <> [] -> NoDup l -> (forall f, f ∈ l -> edge_ok s f /\ indirect f = false) -> sig_of l <> 0.

Lemma cycle_sig_spec i l path :
  no_collision -> simple path -> NoDup (l ++ segment path) -> (forall f, f ∈ l -> edge_ok s f /\ indirect f = false) ->
  count_id s i path <> 0 ->
  exists sig, cycle_sig s i (sig_of l) path = Some sig /\
    (sig <> 0 <-> exists f, f ∈ segment path /\ has_id s i f = true).
Proof.
  intros Hc Hs. revert l. induction Hs as [|f path [y Hf] Hs IH _]; intros l Hnd Hl Hcnt; [done|].
  cbn [cycle_sig segment]. rewrite Hf. cbn [mbind option_bind]. unfold indirect at 1. rewrite Hf. cbn [from_option].
  destruct (edge_is_indirect y) eqn:Hi.
  { exists 0. split; [done|]. split; [done|]. by intros (g & Hg%not_elem_of_nil & _). }
  cbn [segment] in Hnd. unfold indirect in Hnd at 1. rewrite Hf in Hnd. cbn [from_option] in Hnd. rewrite Hi in Hnd.
  assert (has_id s i f = bool_decide (e_id y = i)) as Hif by (unfold has_id; by rewrite Hf).
  assert (indirect f = false) as Hif' by (unfold indirect; by rewrite Hf).
  assert (forall g, g ∈ l ++ [f] -> edge_ok s g /\ indirect g = false) as Hl'.
  { intros g [Hg| ->%list_elem_of_singleton]%elem_of_app; [auto|]. split; [by exists y|done]. }
  replace (Z.lxor (sig_of l) (xorshift f)) with (sig_of (l ++ [f])) by (unfold sig_of; by rewrite foldl_app).
  replace (l ++ f :: segment path) with ((l ++ [f]) ++ segment path) in Hnd by (by rewrite <- app_assoc).
  destruct (decide (e_id y = i)) as [Hid|Hid].
  - exists (sig_of (l ++ [f])). split; [done|]. split; intros _.
    + exists f. rewrite Hif. split; [apply list_elem_of_here|]. by apply bool_decide_eq_true_2.
    + apply Hc; [by destruct l| |done]. by apply NoDup_app in Hnd as [? _].
  - destruct (IH (l ++ [f]) Hnd Hl') as (sig & -> & Hsig).
    { rewrite count_id_cons, Hif, bool_decide_eq_false_2 in Hcnt by done. lia. }
    exists sig. split; [done|]. rewrite Hsig. split; intros (g & Hg & Hgi); exists g; (split; [|exact Hgi]).
    + by apply list_elem_of_further.
    + apply elem_of_cons in Hg as [->|Hg]; [|exact Hg]. rewrite Hif, bool_decide_eq_false_2 in Hgi; done.
Qed.

(** The test of the search for an edge [e] behind [path]. *)
Lemma cycle_test_spec e x path :
  no_collision -> simple path -> c_edges s !! e = Some x ->
  exists sig, (if decide (count_id s (e_id x) path = 0) then Some 0 else is_direct_cycle s x path) = Some sig /\
    (sig <> 0 <-> loops path e).
Proof.
  intros Hc Hs He. assert (indirect e = edge_is_indirect x) as Hi by (unfold indirect; by rewrite He).
  assert (loops path e <-> indirect e = false /\ exists f, f ∈ segment path /\ has_id s (e_id x) f = true) as Hloops.
  { unfold loops. rewrite He. split; intros (? & Hex); (split; [done|]).
    - destruct Hex as (z & f & [= <-] & ? & ?). eauto.
    - destruct Hex as (f & ? & ?). eauto. }
  setoid_rewrite Hloops. rewrite Hi. destruct (decide _) as [H0|H0].
  - exists 0. split; [done|]. split; [done|]. intros (_ & f & Hf & Hid). exfalso.
    apply segment_sub in Hf as [Hf _]. unfold count_id in H0.
    assert (f ∈ filter (fun g => has_id s (e_id x) g = true) path) as Hin by (by apply list_elem_of_filter).
    destruct (filter _ path); [set_solver|cbn in H0; lia].
  - unfold is_direct_cycle. destruct (edge_is_indirect x); [exists 0; split; [done|naive_solver]|].
    destruct (cycle_sig_spec (e_id x) [] path Hc Hs) as (sig & Hsig & Hiff);
      [by apply segment_nodup|set_solver|done|]. exists sig. split; [exact Hsig|]. rewrite Hiff. naive_solver.
Qed.

(** ** Matching calls and returns *)

(** [unmatched], with [n] calls open. *)
Definition unmatched_at (n : Z) (path : list Z) (r : ArmsEdge) : Prop :=
  exists a f b, path = a ++ f :: b /\ c_edges s !! f = Some r /\ edge_is_call r = false /\ edge_is_return r = true /\
    n + depth a = 0 /\ forall a1 a2, a = a1 ++ a2 -> 0 <= n + depth a1.

Lemma depth_cons e a : depth (e :: a) = depth_of e + depth a.
Proof. reflexivity. Qed.

Lemma unmatched_0 path r : unmatched path r <-> unmatched_at 0 path r.
Proof. done. Qed.

Lemma unmatched_here f y path r : c_edges s !! f = Some y -> edge_is_call y = false -> edge_is_return y = true ->
  unmatched_at 0 (f :: path) r <-> r = y.
Proof.
  intros Hf Hc Hr. split.
  - intros ([|g a] & h & b & Heq & Hh & _ & _ & _ & Hpre).
    + apply cons_inj in Heq as [<- _]. congruence.
    + apply cons_inj in Heq as [<- _]. specialize (Hpre [f] a eq_refl).
      rewrite depth_cons in Hpre. change (depth []) with 0 in Hpre. unfold depth_of in Hpre.
      rewrite Hf, Hc, Hr in Hpre. lia.
  - intros ->. exists [], f, path. split_and!; try done. by intros [|] ? ?.
Qed.

Lemma unmatched_step n f y path r : c_edges s !! f = Some y -> 0 <= n ->
  edge_is_call y = true \/ edge_is_return y = false \/ n <> 0 ->
  unmatched_at n (f :: path) r <-> unmatched_at (n + depth_of f) path r.
Proof.
  intros Hf Hn Hy. split.
  - intros ([|g a] & h & b & Heq & Hh & Hc & Hr & Hd & Hpre); apply cons_inj in Heq as [<- ->].
    + exfalso. change (depth []) with 0 in Hd. rewrite Hf in Hh. apply (inj Some) in Hh as <-. intuition (congruence || lia).
    + exists a, h, b. split_and!; try done; [rewrite depth_cons in Hd; lia|]. intros a1 a2 ->.
      specialize (Hpre (f :: a1) a2 eq_refl). rewrite depth_cons in Hpre. lia.
  - intros (a & h & b & -> & Hh & Hc & Hr & Hd & Hpre). exists (f :: a), h, b. split_and!; try done; [rewrite depth_cons; lia|].
    intros [|g a1] a2 Heq; [change (depth []) with 0; lia|]. apply cons_inj in Heq as [<- ->]. specialize (Hpre a1 a2 eq_refl). rewrite depth_cons. lia.
Qed.

Lemma match_return_spec bb n path :
  cfg_wf s -> bb = NULL \/ bb_ok s bb -> 0 <= n -> (forall f, f ∈ path -> edge_ok s f) ->
  exists ok, match_return s bb n path = Some ok /\
    (ok = true <-> forall r, unmatched_at n path r ->
       exists b c, bb <> NULL /\ c_bbs s !! bb = Some b /\ c_bbs s !! e_target r = Some c /\ b_id b = b_id c).
Proof.
  intros Hwf Hbb. revert n. induction path as [|f path IH]; intros n Hn Hok; cbn [match_return].
  { exists true. split; [done|]. split; [|done]. intros _ r (a & f & b & Heq & _). by destruct a. }
  destruct (Hok f) as [y Hf]; [set_solver|]. rewrite Hf. cbn [mbind option_bind].
  assert (forall g, g ∈ path -> edge_ok s g) as Hok' by set_solver.
  assert (forall m, m = n + depth_of f -> 0 <= m -> edge_is_call y = true \/ edge_is_return y = false \/ n <> 0 ->
    exists ok, match_return s bb m path = Some ok /\ (ok = true <-> forall r, unmatched_at n (f :: path) r ->
       exists b c, bb <> NULL /\ c_bbs s !! bb = Some b /\ c_bbs s !! e_target r = Some c /\ b_id b = b_id c)) as Hstep.
  { intros m -> Hm Hy. destruct (IH (n + depth_of f) Hm Hok') as (ok & -> & Hiff). exists ok. split; [done|].
    rewrite Hiff. by setoid_rewrite (unmatched_step n f y path _ Hf Hn Hy). }
  unfold depth_of in Hstep. rewrite Hf in Hstep.
  destruct (edge_is_call y) eqn:Hc; [apply Hstep; [done|lia|by left]|].
  destruct (edge_is_return y) eqn:Hr; [|apply Hstep; [lia|lia|by right; left]].
  destruct (decide (n <> 0)) as [Hn0|Hn0]; [apply Hstep; [lia|lia|by right; right]|].
  assert (n = 0) as -> by lia. setoid_rewrite (unmatched_here f y path _ Hf Hc Hr).
  destruct (decide (bb = NULL)) as [->|Hnn].
  { exists false. split; [done|]. split; [done|]. intros Hall. by destruct (Hall y eq_refl) as (? & ? & ? & _). }
  destruct Hbb as [?|[b Hb]]; [done|]. destruct (wf_ends _ Hwf f y Hf) as [_ [c Hcc]].
  rewrite (equals_bb_run s bb (e_target y) b c Hb Hcc). cbn. eexists. split; [reflexivity|].
  rewrite bool_decide_eq_true. split.
  - intros Hid r ->. exists b, c. done.
  - intros Hall. destruct (Hall y eq_refl) as (b' & c' & _ & Hb' & Hc' & Hid). congruence.
Qed.

Lemma fallthrough_ok p q : cfg_wf s -> reads (get_fallthrough_bb p) s q -> q = NULL \/ bb_ok s q.
Proof.
  intros Hwf. unfold reads, get_fallthrough_bb, mbind, M_bind. destruct (bb_at p s) as [[b s']|] eqn:Hb; [|done].
  unfold bb_at in Hb. destruct (c_bbs s !! p); [|done]. cbn in Hb. apply Some_pair_inj in Hb as [<- <-].
  induction (seq 1 15) as [|i l IH]; cbn; [intros [= <-]; by left|].
  destruct (c_start2bb s !! _) as [r|] eqn:Hr; cbn.
  - destruct (decide (r = NULL)); [exact IH|]. intros [= <-]. right.
    destruct (wf_start2bb _ Hwf _ _ Hr) as (c & Hc & _). by exists c.
  - exact IH.
Qed.

Lemma traversable_spec f y path :
  cfg_wf s -> c_edges s !! f = Some y -> (forall f, f ∈ path -> edge_ok s f) ->
  exists ok, edge_is_traversable s y path = Some ok /\ (ok = true <-> fits y path).
Proof.
  intros Hwf Hf Hok. unfold edge_is_traversable, fits. destruct (edge_is_call y); [|exists true; naive_solver].
  destruct (fallthrough_reads s (e_source y)) as [bb Hbb]; [by apply (wf_ends _ Hwf f y)|].
  pose proof (fallthrough_ok _ _ Hwf Hbb) as Hbo. pose proof Hbb as Hr. unfold reads in Hr. rewrite Hr. cbn [mbind option_bind].
  destruct (match_return_spec bb 0 path Hwf Hbo ltac:(lia) Hok) as (ok & -> & Hiff). exists ok. split; [done|].
  rewrite Hiff. setoid_rewrite unmatched_0. split.
  - intros Hall _ r Hu. destruct (Hall r Hu) as (b & c & ? & ? & ? & ?). exists bb, b, c. done.
  - intros Hall r Hu. destruct (Hall eq_refl r Hu) as (bb' & b & c & Hbb' & ?).
    unfold reads in Hbb'. rewrite Hr in Hbb'. apply (inj Some), (f_equal fst) in Hbb'. cbn in Hbb'. subst bb'. exists b, c. tauto.
Qed.
End Paths.

(** ** Sets of states *)

Lemma equals_spec t u : equals t u = true <-> t = u.
Proof.
  unfold equals. rewrite andb_true_iff, bool_decide_eq_true, forallb_forall. split.
  - intros [Hl Hall]. revert u Hl Hall. induction t as [|a t IH]; intros [|b u] Hl Hall; try done.
    f_equal.
    + apply (bool_decide_eq_true_1 _). apply (Hall (a, b)). rewrite <- in_rev. by left.
    + apply IH; [by injection Hl|]. intros p Hp. apply Hall. rewrite <- in_rev in *. by right.
  - intros ->. split; [done|]. intros p Hp%in_rev. apply bool_decide_eq_true_2.
    induction u as [|a u IH]; [done|]. destruct Hp as [<-|Hp]; [done|]. by apply IH.
Qed.

Section Sets.
Context (s : CFG).

(** Every state is there once, and the index by last edge has them all. *)
Record set_ok (ss : LBRStateSet) : Prop := {
  set_nodup : NoDup (ss_state ss);
  set_index t i : t ∈ default [] (ss_by_last ss !! i) <-> t ∈ ss_state ss /\ last_edge_id s t = Some i
}.

Lemma new_set_ok f : set_ok (new_state_set f).
Proof.
  split; [constructor|]. intros t i. cbn. rewrite lookup_empty. cbn.
  split; [by intros ?%not_elem_of_nil|]. by intros [?%not_elem_of_nil _].
Qed.

Lemma last_edge_id_ok t : t <> [] -> (forall e, e ∈ t -> edge_ok s e) -> exists i, last_edge_id s t = Some i.
Proof.
  intros Hne Hok. unfold last_edge_id. destruct (last t) as [e|] eqn:Hl; [|by apply last_None in Hl].
  destruct (Hok e) as [x Hx]; [by apply last_Some_elem_of|]. cbn. rewrite Hx. by eexists.
Qed.

Lemma find_state_spec t ss i : set_ok ss -> last_edge_id s t = Some i ->
  exists r, find_state s t ss = Some r /\ (r = None <-> t ∉ ss_state ss).
Proof.
  intros Hss Hi. unfold find_state. rewrite Hi. cbn. eexists. split; [reflexivity|].
  assert (t ∈ filter (fun u => equals u t = true) (default [] (ss_by_last ss !! i)) <-> t ∈ ss_state ss) as Hin.
  { rewrite list_elem_of_filter, equals_spec, (set_index _ Hss). tauto. }
  rewrite <- Hin. destruct (filter _ _) as [|u k] eqn:Hf; cbn.
  - split; [|done]. intros _. apply not_elem_of_nil.
  - split; [done|]. intros Hn. exfalso. apply Hn.
    assert (u ∈ filter (fun u => equals u t = true) (default [] (ss_by_last ss !! i))) as Hu by (rewrite Hf; left).
    apply list_elem_of_filter in Hu as [<-%equals_spec _]. left.
Qed.

Lemma append_state_ok t ss i : set_ok ss -> last_edge_id s t = Some i -> t ∉ ss_state ss ->
  exists ss', append_state s t ss = Some ss' /\ set_ok ss' /\ ss_state ss' = ss_state ss ++ [t] /\ ss_func ss' = ss_func ss.
Proof.
  intros Hss Hi Hn. unfold append_state. rewrite Hi. cbn. eexists. split; [reflexivity|].
  split; [|done]. split; cbn.
  - apply NoDup_app. split; [apply (set_nodup _ Hss)|]. split; [|apply NoDup_singleton].
    by intros u Hu ->%list_elem_of_singleton.
  - intros u j. rewrite elem_of_app, list_elem_of_singleton. destruct (decide (j = i)) as [->|Hne].
    + rewrite lookup_insert_eq. cbn. rewrite elem_of_app, list_elem_of_singleton, (set_index _ Hss).
      split; [|intuition]. intros [[? ?]| ->]; auto.
    + rewrite lookup_insert_ne by done. rewrite (set_index _ Hss). split; [intuition|].
      intros [[?| ->] Hj]; [done|]. congruence.
Qed.

Lemma copy_set_ok ss : set_ok ss -> (forall t, t ∈ ss_state ss -> exists i, last_edge_id s t = Some i) ->
  exists ss', copy_set s ss = Some ss' /\ set_ok ss' /\ ss_state ss' = ss_state ss /\ ss_func ss' = ss_func ss.
Proof.
  intros Hss Hi. unfold copy_set.
  assert (forall l ss0, set_ok ss0 -> NoDup (ss_state ss0 ++ l) -> (forall t, t ∈ l -> exists i, last_edge_id s t = Some i) ->
    exists ss', append_all s l ss0 = Some ss' /\ set_ok ss' /\ ss_state ss' = ss_state ss0 ++ l /\ ss_func ss' = ss_func ss0) as Hgen.
  { induction l as [|t l IH]; intros ss0 H0 Hnd Hl; cbn.
    - exists ss0. by rewrite app_nil_r.
    - destruct (Hl t) as [i Ht]; [left|]. destruct (append_state_ok t ss0 i H0 Ht) as (ss1 & -> & H1 & Hs1 & Hf1).
      { apply NoDup_app in Hnd as (_ & Hd & _). intros Hin. apply (Hd t Hin). left. }
      cbn. destruct (IH ss1 H1) as (ss2 & -> & H2 & Hs2 & Hf2).
      + rewrite Hs1, <- app_assoc. done.
      + intros u Hu. apply Hl. by right.
      + exists ss2. split_and!; [done|done| |congruence]. rewrite Hs2, Hs1, <- app_assoc. done. }
  destruct (Hgen (ss_state ss) (new_state_set (ss_func ss)) (new_set_ok _)) as (ss' & H1 & H2 & H3 & H4);
    [apply (set_nodup _ Hss)|done|]. by exists ss'.
Qed.
End Sets.

(** ** The search *)

Section Search.
Context (s : CFG) (w : Z).

(** The search stands at the end of [path]. *)
Record at_path (d : DFSState) (path : list Z) : Prop := {
  ap_edge : q_edge d = path;
  ap_lbr : q_lbr d = indirects s path;
  ap_visits i : q_visits d i = count_id s i path;
  ap_black : q_black d = ∅
}.

(** The blocks to search next, when the paths of [P] have been found. *)
Definition next (P : list Z -> Prop) (shift q : Z) : Prop :=
  exists path, P path /\ full s w path /\ can_shift w shift /\ ends_in s path q.

(** From [d] to [d'] the search has found the complete paths of [P]. *)
Record progress (d d' : DFSState) (P : list Z -> Prop) : Prop := {
  pr_shift : q_shift d' = q_shift d;
  pr_func : ss_func (q_set d') = ss_func (q_set d);
  pr_set : set_ok s (q_set d');
  pr_states t : t ∈ ss_state (q_set d') <->
    t ∈ ss_state (q_set d) \/ t <> [] /\ exists path, P path /\ window s path = t;
  pr_queue : exists new, q_queue d' = q_queue d ++ new /\ size (q_bb d') = (size (q_bb d) + length new)%nat /\
    (forall p, p ∈ new -> next P (q_shift d) p /\ exists b, c_bbs s !! p = Some b /\ q_bb d' !! b_id b = Some (q_shift d)) /\
    (forall i k, q_bb d' !! i = Some k -> q_bb d !! i = Some k \/
       k = q_shift d /\ exists p b, p ∈ new /\ c_bbs s !! p = Some b /\ b_id b = i);
  pr_old : q_bb d ⊆ q_bb d';
  pr_next q b : next P (q_shift d) q -> c_bbs s !! q = Some b -> is_Some (q_bb d' !! b_id b)
}.

Lemma progress_refl d : set_ok s (q_set d) -> progress d d (fun _ => False).
Proof.
  intros Hs. split; try done.
  - intros t. split; [by left|]. by intros [?|(_ & ? & ? & _)].
  - exists []. rewrite app_nil_r. split_and!; [done|cbn; lia| |].
    + by intros p ?%not_elem_of_nil.
    + intros i k Hk. by left.
  - by intros q b (? & ? & _).
Qed.

Lemma next_mono (P Q : list Z -> Prop) shift q : (forall l, P l -> Q l) -> next P shift q -> next Q shift q.
Proof. intros Hi (l & Hl & H). exists l. split; [by apply Hi|done]. Qed.

Lemma progress_ext d d' (P Q : list Z -> Prop) : (forall l, P l <-> Q l) -> progress d d' P -> progress d d' Q.
Proof.
  intros Hi [H1 H2 H3 H4 (new & Q1 & Q2 & Q3 & Q4) H6 H7]. split; try done.
  - intros t. rewrite H4. by setoid_rewrite Hi.
  - exists new. split_and!; try done. intros p Hp. destruct (Q3 p Hp) as [Hn Hb]. split; [|done].
    eapply next_mono; [|exact Hn]. apply Hi.
  - intros q b Hn. apply H7. eapply next_mono; [|exact Hn]. apply Hi.
Qed.

Lemma progress_trans d1 d2 d3 P Q : progress d1 d2 P -> progress d2 d3 Q -> progress d1 d3 (fun l => P l \/ Q l).
Proof.
  intros [A1 A2 A3 A4 (n1 & A5 & A6 & A7 & A8) A9 A10] [B1 B2 B3 B4 (n2 & B5 & B6 & B7 & B8) B9 B10].
  rewrite A1 in *. split; try congruence.
  - intros t. rewrite B4, A4. naive_solver.
  - exists (n1 ++ n2). split_and!.
    + by rewrite B5, A5, <- app_assoc.
    + rewrite B6, A6, length_app. lia.
    + intros p [Hp|Hp]%elem_of_app.
      * destruct (A7 p Hp) as (Hn & b & Hb & Hk). split; [eapply next_mono; [|exact Hn]; naive_solver|].
        exists b. split; [done|]. by eapply lookup_weaken.
      * destruct (B7 p Hp) as (Hn & b & Hb & Hk). split; [eapply next_mono; [|exact Hn]; naive_solver|]. by exists b.
    + intros i k [Hk|(-> & p & b & Hp & Hb)]%B8.
      * destruct (A8 i k Hk) as [?|(-> & p & b & Hp & Hb)]; [by left|]. right. split; [done|]. exists p, b. set_solver.
      * right. split; [done|]. exists p, b. set_solver.
  - by transitivity (q_bb d2).
  - intros q b (l & [Hl|Hl] & Hn) Hb.
    + destruct (A10 q b) as [k Hk]; [by exists l|done|]. exists k. by eapply lookup_weaken.
    + apply (B10 q b); [by exists l|done].
Qed.

(** Moving along the path changes nothing else. *)
Lemma progress_path l1 e1 v1 l2 e2 v2 d d' P :
  progress (q_path l1 e1 v1 d) d' P -> progress d (q_path l2 e2 v2 d') P.
Proof. intros [A1 A2 A3 A4 A5 A6 A7]. by split. Qed.

Lemma window_elem path e : e ∈ window s path -> e ∈ path.
Proof. intros H%list_elem_of_In%in_rev%list_elem_of_In. apply list_elem_of_filter in H. tauto. Qed.

Lemma begins_at_cons e x path b c :
  c_edges s !! e = Some x -> c_bbs s !! e_source x = Some b -> begins_at s (e :: path) c <-> c = b.
Proof.
  intros He Hb. split.
  - intros (e' & x' & rest & Heq & He' & Hc). apply cons_inj in Heq as [<- <-]. congruence.
  - intros ->. by exists e, x, path.
Qed.

Lemma complete_grows path path' : complete s w path -> grows s w path path' -> False.
Proof.
  intros Hc Hg. destruct Hg as [path b f y Hb Hf Hin _ _ _ _]. destruct Hc as [Hc|(c & Hb' & Hsz)]; [done|].
  destruct Hb as (e & x & rest & -> & He & Hbb). apply (begins_at_cons e x rest b c He Hbb) in Hb' as ->.
  apply size_empty_inv in Hsz. set_solver.
Qed.

(** Following a path that is complete, and one that is not. *)
Lemma rtc_complete path l : complete s w path -> rtc (grows s w) path l /\ complete s w l <-> l = path.
Proof.
  intros Hc. split; [|by intros ->]. intros [Hr _]. inversion Hr as [|? y ? Hg]; [done|]. by destruct (complete_grows path y).
Qed.

Lemma rtc_incomplete e x path b l :
  c_edges s !! e = Some x -> c_bbs s !! e_source x = Some b -> ~ complete s w (e :: path) ->
  rtc (grows s w) (e :: path) l /\ complete s w l <->
  exists f y, f ∈ in_order (b_in b) /\ c_edges s !! f = Some y /\ e_hidden y = false /\ fits s y (e :: path) /\
    ~ loops s (e :: path) f /\ rtc (grows s w) (f :: e :: path) l /\ complete s w l.
Proof.
  intros He Hb Hn. split.
  - intros [Hr Hc]. inversion Hr as [|? y ? Hg Hr']; subst; [done|].
    inversion Hg as [path' b' f z Hb' Hf Hin Hz Hh Hfit Hl]; subst.
    apply (begins_at_cons e x path b b' He Hb) in Hb' as ->. exists f, z. rewrite elem_of_in_order. done.
  - intros (f & y & Hin & Hy & Hh & Hfit & Hl & Hr & Hc). split; [|done]. eapply rtc_l; [|exact Hr].
    apply grow with b y; try done; [by apply (begins_at_cons e x path b b)| |by apply elem_of_in_order].
    intros Hfull. apply Hn. by left.
Qed.

Context (Hwf : cfg_wf s) (Hcol : no_collision s) (Hw : 1 < w <= 16).

Lemma schedule_node_spec p b d : c_bbs s !! p = Some b ->
  exists d', schedule_node s p d = Some d' /\ q_lbr d' = q_lbr d /\ q_edge d' = q_edge d /\ q_set d' = q_set d /\
    q_shift d' = q_shift d /\ q_visited d' = q_visited d /\ q_black d' = q_black d /\
    (q_queue d' = q_queue d /\ q_bb d' = q_bb d /\ is_Some (q_bb d !! b_id b) \/
     q_queue d' = q_queue d ++ [p] /\ q_bb d' = <[b_id b := q_shift d]> (q_bb d) /\ q_bb d !! b_id b = None).
Proof.
  intros Hb. unfold schedule_node. rewrite Hb. cbn [mbind option_bind].
  destruct (q_bb d !! b_id b) as [k|] eqn:Hk; (eexists; split; [reflexivity|]; cbn; split_and!; try done).
  - left. split_and!; [done|done|by eexists].
  - right. done.
Qed.

(** At the end of a path: schedule, if it is full, and store. *)
Lemma overlap_spec e x path d :
  c_edges s !! e = Some x -> at_path d (e :: path) ->
  exists d1, overlap s w x d = Some d1 /\ q_lbr d1 = q_lbr d /\ q_edge d1 = q_edge d /\ q_set d1 = q_set d /\
    q_visited d1 = q_visited d /\ q_black d1 = q_black d /\
    (forall ss, set_ok s ss -> ss_func ss = ss_func (q_set d) ->
       (forall t, t ∈ ss_state ss <-> t ∈ ss_state (q_set d) \/ t <> [] /\ exists l, l = e :: path /\ window s l = t) ->
       progress d (q_states ss d1) (fun l => l = e :: path)).
Proof.
  intros He [P1 P2 P3 P4]. unfold overlap. rewrite P2. destruct (wf_ends _ Hwf e x He) as [_ [c Hc]].
  destruct (decide _) as [[Hfull Hsh]|Hno].
  - destruct (schedule_node_spec (e_target x) c d Hc) as (d1 & -> & L1 & E1 & S1 & Sh1 & V1 & B1 & Hq). exists d1.
    split_and!; [done|congruence|done..|]. intros ss Hss Hf Hst. split; try done.
    + destruct Hq as [(Q1 & Q2 & _)|(Q1 & Q2 & Q3)]; cbn.
      * exists []. rewrite Q1, Q2, app_nil_r. split_and!; [done|cbn; lia| |by left]. by intros p ?%not_elem_of_nil.
      * exists [e_target x]. rewrite Q1, Q2. split_and!; [done| | |].
        -- rewrite map_size_insert_None by done. cbn. lia.
        -- intros p ->%list_elem_of_singleton. split; [|exists c; by rewrite lookup_insert_eq].
           exists (e :: path). split_and!; [done|exact Hfull|exact Hsh|]. by exists e, path, x.
        -- intros i k [[<- <-]|[_ Hk]]%lookup_insert_Some; [|by left]. right. split; [done|].
           exists (e_target x), c. split_and!; [by apply list_elem_of_singleton|done|done].
    + destruct Hq as [(_ & Q2 & _)|(_ & Q2 & Q3)]; cbn; rewrite Q2; [done|by apply insert_subseteq].
    + intros q b (l & -> & _ & _ & e' & rest & x' & Heq & He' & <-) Hb. apply cons_inj in Heq as [<- <-].
      rewrite He in He'. apply (inj Some) in He' as <-. rewrite Hc in Hb. apply (inj Some) in Hb as <-. cbn.
      destruct Hq as [(_ & -> & ?)|(_ & -> & _)]; [done|]. by rewrite lookup_insert_eq.
  - exists d. split_and!; try done. intros ss Hss Hf Hst. split; try done.
    + exists []. rewrite app_nil_r. split_and!; [done|cbn; lia| |by left]. by intros p ?%not_elem_of_nil.
    + intros q b (l & -> & Hfull & Hsh & _). exfalso. by apply Hno.
Qed.

Lemma finish_spec e x path d :
  c_edges s !! e = Some x -> at_path d (e :: path) -> simple s (e :: path) -> set_ok s (q_set d) ->
  exists d1 d2, overlap s w x d = Some d1 /\ store_lbr_state s d1 = Some d2 /\
    at_path d2 (e :: path) /\ length (q_lbr d1) = length (q_lbr d) /\ progress d d2 (fun l => l = e :: path).
Proof.
  intros He Hat0 Hsim Hset. destruct (overlap_spec e x path d He Hat0) as (d1 & H1 & L1 & E1 & S1 & V1 & B1 & Pr).
  destruct Hat0 as [P1 P2 P3 P4].
  exists d1. rewrite H1. unfold store_lbr_state. rewrite L1, P2.
  assert (forall d2, q_lbr d2 = q_lbr d1 -> q_edge d2 = q_edge d1 -> q_visited d2 = q_visited d1 -> q_black d2 = q_black d1 ->
    at_path d2 (e :: path)) as Hat.
  { intros d2 X1 X2 X3 X4. split; [congruence|congruence| |congruence].
    intros i. unfold q_visits. rewrite X3, V1. apply P3. }
  assert (forall d2, d2 = q_states (q_set d2) d2) as Heta by (by intros []).
  destruct (decide (length (indirects s (e :: path)) = 0%nat)) as [H0|H0].
  { exists d1. split_and!; [done|done|by apply Hat|done|]. rewrite (Heta d1), S1. apply Pr; [done|done|].
    intros t. split; [by left|]. intros [?|(Hne & l & -> & <-)]; [done|]. exfalso. apply Hne.
    unfold window. by apply nil_length_inv in H0 as ->. }
  set (t := rev (indirects s (e :: path))).
  assert (t <> []) as Hne.
  { intros Ht. apply H0. rewrite <- (length_rev (indirects s (e :: path))). fold t. by rewrite Ht. }
  destruct (last_edge_id_ok s t Hne) as [i Hi].
  { intros f Hf. apply (simple_ok s (e :: path)); [done|]. by apply (window_elem (e :: path) f). }
  rewrite S1. destruct (find_state_spec s t (q_set d) i Hset Hi) as (r & -> & Hr). cbn [mbind option_bind].
  destruct r as [u|].
  - exists d1. split_and!; [done|done|by apply Hat|done|]. rewrite (Heta d1), S1. apply Pr; [done|done|].
    intros t'. split; [by left|]. intros [?|(_ & l & -> & <-)]; [done|].
    destruct (decide (t ∈ ss_state (q_set d))) as [Hin|Hin]; [exact Hin|]. by apply Hr in Hin.
  - destruct (append_state_ok s t (q_set d) i Hset Hi) as (ss & -> & Hss & Hst & Hf); [by apply Hr|]. cbn [mbind option_bind].
    exists (q_states ss d1). split_and!; [done|done|by apply Hat|done|]. apply Pr; [done|done|].
    intros t'. rewrite Hst, elem_of_app, list_elem_of_singleton. split.
    + intros [?| ->]; [by left|]. right. split; [done|]. by exists (e :: path).
    + intros [?|(_ & l & -> & <-)]; [by left|by right].
Qed.

Lemma count_range i path : simple s path -> Z.of_nat (length (indirects s path)) <= 16 -> 0 <= count_id s i path <= 33.
Proof. intros Hs Hl. pose proof (count_simple s i path Hs). split; [unfold count_id; lia|lia]. Qed.

Lemma has_id_edge e x i : c_edges s !! e = Some x -> has_id s i e = bool_decide (e_id x = i).
Proof. intros He. unfold has_id. by rewrite He. Qed.

Lemma enter_edge_spec e x path d :
  c_edges s !! e = Some x -> at_path d path -> simple s path -> Z.of_nat (length (indirects s path)) < w ->
  exists lbr vis, enter_edge e x d = Some (q_path lbr (e :: q_edge d) vis d) /\ at_path (q_path lbr (e :: q_edge d) vis d) (e :: path).
Proof.
  intros He [P1 P2 P3 P4] Hs Hl. unfold enter_edge.
  set (vis := <[e_id x := u32 (q_visits d (e_id x) + 1)]> (q_visited d)).
  assert (forall i, default 0 (vis !! i) = count_id s i (e :: path)) as Hvis.
  { intros i. rewrite count_id_cons, (has_id_edge e x i He). subst vis.
    destruct (decide (e_id x = i)) as [<-|Hne].
    - rewrite lookup_insert_eq, bool_decide_eq_true_2, P3 by done. cbn.
      pose proof (count_range (e_id x) path Hs ltac:(lia)). unfold u32. rewrite Z.mod_small; lia.
    - rewrite lookup_insert_ne, bool_decide_eq_false_2 by done. rewrite <- P3. unfold q_visits. lia. }
  assert (indirect s e = edge_is_indirect x) as Hi by (unfold indirect; by rewrite He).
  destruct (edge_is_indirect x) eqn:Hx.
  - rewrite decide_True by (rewrite P2; unfold LBR_SIZE; lia). eexists _, vis. split; [reflexivity|].
    split; cbn [q_path q_edge q_lbr q_black]; [by rewrite P1| |exact Hvis|done]. by rewrite indirects_cons, Hi, P2.
  - eexists _, vis. split; [reflexivity|]. split; cbn [q_path q_edge q_lbr q_black]; [by rewrite P1| |exact Hvis|done]. by rewrite indirects_cons, Hi, P2.
Qed.

Lemma leave_edge_spec e x path d :
  c_edges s !! e = Some x -> at_path d (e :: path) -> simple s (e :: path) -> Z.of_nat (length (indirects s path)) < w ->
  at_path (leave_edge x d) path.
Proof.
  intros He [P1 P2 P3 P4] Hs Hl. assert (indirect s e = edge_is_indirect x) as Hi by (unfold indirect; by rewrite He).
  rewrite indirects_cons, Hi in P2. inversion Hs as [|? ? _ Hs' _]; subst.
  split; cbn [leave_edge q_path q_edge q_lbr q_black]; [by rewrite P1| | |done].
  - rewrite P2. by destruct (edge_is_indirect x).
  - intros i. unfold q_visits. cbn [leave_edge q_path q_visited]. destruct (decide (e_id x = i)) as [<-|Hne].
    + rewrite lookup_insert_eq, P3, count_id_cons, (has_id_edge e x (e_id x) He), bool_decide_eq_true_2 by done. cbn.
      pose proof (count_range (e_id x) path Hs' ltac:(lia)). unfold u32. rewrite Z.mod_small; lia.
    + rewrite lookup_insert_ne by done. fold (q_visits d i).
      rewrite P3, count_id_cons, (has_id_edge e x i He), bool_decide_eq_false_2 by done. lia.
Qed.

(** What the search of [e] behind [path] has to find. *)
Definition found (path : list Z) (e : Z) (l : list Z) : Prop :=
  ~ loops s path e /\ rtc (grows s w) (e :: path) l /\ complete s w l.

Definition finds (rec : Z -> DFSState -> outcome) (path : list Z) : Prop :=
  forall e d, edge_ok s e -> at_path d path -> set_ok s (q_set d) ->
  exists d', rec e d = Ok d' /\ at_path d' path /\ progress d d' (found path e).

Lemma search_sources_spec rec path fs d :
  finds rec path -> simple s path -> (forall f, f ∈ fs -> edge_ok s f) -> at_path d path -> set_ok s (q_set d) ->
  exists d', search_sources s rec fs d = Ok d' /\ at_path d' path /\
    progress d d' (fun l => exists f y, f ∈ fs /\ c_edges s !! f = Some y /\ e_hidden y = false /\ fits s y path /\ found path f l).
Proof.
  intros Hrec Hs. revert d. induction fs as [|f fs IH]; intros d Hok Hat Hset; cbn [search_sources].
  { exists d. split_and!; [done|done|]. eapply progress_ext; [|by apply progress_refl].
    intros l. split; [done|]. by intros (f & y & ?%not_elem_of_nil & _). }
  destruct (Hok f) as [y Hf]; [left|]. rewrite Hf.
  assert (forall g, g ∈ fs -> edge_ok s g) as Hok' by (intros g Hg; apply Hok; by right).
  destruct (traversable_spec s f y path Hwf Hf) as (ok & Htr & Hfit); [intros g; by apply simple_ok|].
  assert (forall d', e_hidden y = true \/ ok = false ->
    progress d d' (fun l => exists f y, f ∈ fs /\ c_edges s !! f = Some y /\ e_hidden y = false /\ fits s y path /\ found path f l) ->
    progress d d' (fun l => exists g y, g ∈ f :: fs /\ c_edges s !! g = Some y /\ e_hidden y = false /\ fits s y path /\ found path g l)) as Hskip.
  { intros d' Hno. apply progress_ext. intros l. split; intros (g & z & Hg & Hz & Hh & Hfi & Hfo).
    - exists g, z. split_and!; try done. by right.
    - exists g, z. split_and!; try done. apply elem_of_cons in Hg as [->|Hg]; [|done]. exfalso.
      rewrite Hf in Hz. apply (inj Some) in Hz as <-. destruct Hno as [?| ->]; [congruence|]. by apply Hfit in Hfi. }
  unfold edge_is_hidden. destruct (e_hidden y) eqn:Hh.
  { destruct (IH d Hok' Hat Hset) as (d' & -> & Hat' & Hpr). exists d'. split_and!; [done|done|]. apply Hskip; [by left|done]. }
  rewrite (ap_edge _ _ Hat), Htr. destruct ok.
  - destruct (Hrec f d (ex_intro _ y Hf) Hat Hset) as (d1 & -> & Hat1 & Hpr1). cbn [and_then].
    destruct (IH d1 Hok' Hat1 (pr_set _ _ _ Hpr1)) as (d2 & -> & Hat2 & Hpr2). exists d2. split_and!; [done|done|].
    eapply progress_ext; [|eapply progress_trans; [exact Hpr1|exact Hpr2]]. intros l. split.
    + intros [Hl|(g & z & Hg & ?)]; [|exists g, z; split; [by right|done]].
      exists f, y. split_and!; try done; [left|by apply Hfit].
    + intros (g & z & Hg & Hz & Hrest). apply elem_of_cons in Hg as [->|Hg]; [left; tauto|]. right. by exists g, z.
  - destruct (IH d Hok' Hat Hset) as (d' & -> & Hat' & Hpr). exists d'. split_and!; [done|done|]. apply Hskip; [by right|done].
Qed.

Lemma length_open path : simple s path -> Z.of_nat (length (indirects s path)) < w ->
  (length path < Z.to_nat w * S (size (c_edges s)))%nat.
Proof.
  intros Hs Hl. pose proof (length_simple s path Hs). pose proof (length_segment s path Hs).
  assert (S (length (indirects s path)) <= Z.to_nat w)%nat as Hle by lia.
  apply (Nat.mul_le_mono_r _ _ (S (size (c_edges s)))) in Hle. lia.
Qed.

Lemma search_spec fuel path :
  simple s path -> Z.of_nat (length (indirects s path)) < w ->
  (Z.to_nat w * S (size (c_edges s)) < fuel + length path)%nat -> finds (search_inbound_edges s w fuel) path.
Proof.
  revert path. induction fuel as [|fuel IH]; intros path Hs Hl Hfuel e d [x He] Hat Hset.
  { pose proof (length_open path Hs Hl). lia. }
  cbn [search_inbound_edges]. rewrite He, (ap_black _ _ Hat), (ap_visits _ _ Hat), (ap_edge _ _ Hat).
  rewrite decide_False by (apply not_elem_of_empty). change (too_deep d) with false. cbv iota.
  destruct (cycle_test_spec s e x path Hcol Hs He) as (sig & -> & Hloop).
  destruct (decide (sig <> 0)) as [Hsig|Hsig].
  { exists d. split_and!; [done|done|]. eapply progress_ext; [|by apply progress_refl].
    intros l. split; [done|]. intros [Hn _]. by apply Hn, Hloop. }
  assert (~ loops s path e) as Hnl by (by rewrite <- Hloop).
  destruct (enter_edge_spec e x path d He Hat Hs Hl) as (lbr & vis & -> & Hat1). cbn [mbind option_bind].
  set (d1 := q_path _ _ _ _) in *. assert (set_ok s (q_set d1)) as Hset1 by done.
  assert (simple s (e :: path)) as Hs1 by (constructor; [by exists x|done|done]).
  destruct (wf_ends _ Hwf e x He) as [[b Hb] _]. rewrite Hb.
  assert (forall d2 P, at_path d2 (e :: path) -> progress d1 d2 P -> (forall l, P l <-> rtc (grows s w) (e :: path) l /\ complete s w l) ->
    exists d', and_then (Ok d2) (fun d => Ok (leave_edge x d)) = Ok d' /\ at_path d' path /\ progress d d' (found path e)) as Hend.
  { intros d2 P Hat2 Hpr HP. eexists. split; [reflexivity|]. split; [by apply (leave_edge_spec e)|].
    eapply progress_ext; [|eapply progress_path; exact Hpr]. intros l. rewrite HP. unfold found. tauto. }
  destruct (finish_spec e x path d1 He Hat1 Hs1 Hset1) as (d2 & d3 & Hov & Hst & Hat3 & Hlen & Hpr3).
  rewrite Hov. destruct (decide (Z.of_nat (length (q_lbr d2)) = w \/ size (b_in b) = 0%nat)) as [Hc|Hc].
  - rewrite Hst. cbn [of_option]. apply (Hend d3 _ Hat3 Hpr3). intros l. symmetry. apply rtc_complete.
    rewrite Hlen, (ap_lbr _ _ Hat1) in Hc. destruct Hc as [Hc|Hc]; [by left|right; exists b; split; [|done]].
    by apply (begins_at_cons e x path b b).
  - rewrite Hlen, (ap_lbr _ _ Hat1) in Hc.
    assert (d2 = d1) as ->.
    { unfold overlap in Hov. rewrite (ap_lbr _ _ Hat1), decide_False in Hov; [congruence|]. intros [? _]. apply Hc. by left. }
    assert (Z.of_nat (length (indirects s (e :: path))) < w) as Hl1.
    { rewrite indirects_cons in *. destruct (indirect s e); cbn [length] in *; lia. }
    destruct (search_sources_spec (search_inbound_edges s w fuel) (e :: path) (in_order (b_in b)) d1) as (d4 & -> & Hat4 & Hpr4); try done.
    + apply IH; [done|done|cbn [length]; lia].
    + intros f Hf%elem_of_in_order. destruct (wf_in _ Hwf _ _ _ Hb Hf) as (y & Hy & _). by exists y.
    + apply (Hend d4 _ Hat4 Hpr4). intros l. symmetry. rewrite (rtc_incomplete e x path b l He Hb).
      * unfold found. split; intros (f & y & ?); exists f, y; tauto.
      * intros [Hf|(c & Hbc & Hsz)]; apply Hc; [by left|right]. by apply (begins_at_cons e x path b c He Hb) in Hbc as ->.
Qed.
End Search.

(** ** The queue *)

Definition bb_ids_distinct (s : CFG) : Prop :=
  forall p q b c, c_bbs s !! p = Some b -> c_bbs s !! q = Some c -> b_id b = b_id c -> p = q.

Section Queue.
Context (s : CFG) (w : Z) (x : ArmsFunction).
Context (Hwf : cfg_wf s) (Hcol : no_collision s) (Hw : 1 < w <= 16) (Hids : bb_ids_distinct s).
Context (Hentries : forall p, p ∈ f_entries x -> bb_ok s p).

Lemma search_all_spec es d :
  at_path s d [] -> set_ok s (q_set d) -> (forall e, e ∈ es -> edge_ok s e) ->
  exists d', search_all s w (depth_fuel s w) es d = Ok d' /\ at_path s d' [] /\
    progress s w d d' (fun l => exists e, e ∈ es /\ rtc (grows s w) [e] l /\ complete s w l).
Proof.
  revert d. induction es as [|e es IH]; intros d Hat Hset Hok; cbn [search_all].
  { exists d. split_and!; [done|done|]. eapply progress_ext; [|by apply progress_refl].
    intros l. split; [done|]. by intros (e & ?%not_elem_of_nil & _). }
  destruct (search_spec s w Hwf Hcol Hw (depth_fuel s w) [] (simple_nil s)) with (e := e) (d := d)
    as (d1 & -> & Hat1 & Hpr1); [cbn; lia|unfold depth_fuel; cbn [length]; lia|apply Hok; left|done|done|]. cbn [and_then].
  destruct (IH d1 Hat1 (pr_set _ _ _ _ _ Hpr1)) as (d2 & -> & Hat2 & Hpr2); [intros f Hf; apply Hok; by right|].
  exists d2. split_and!; [done|done|]. eapply progress_ext; [|eapply progress_trans; [exact Hpr1|exact Hpr2]].
  intros l. unfold found. setoid_rewrite elem_of_cons. split.
  - intros [(_ & ? & ?)|(f & ? & ?)]; eauto.
  - intros (f & [->|Hf] & ?); [left|right; eauto]. split; [|done]. by intros [_ (z & g & _ & ?%not_elem_of_nil & _)].
Qed.

(** Block [p] has been scheduled in round [k]. *)
Definition level (d : DFSState) (p k : Z) : Prop := exists b, c_bbs s !! p = Some b /\ q_bb d !! b_id b = Some k.

(** The search from [p], scheduled in round [k], is done. *)
Definition searched (d : DFSState) (p k : Z) : Prop :=
  (forall l, traces s w p l -> complete s w l -> window s l <> [] -> window s l ∈ ss_state (q_set d)) /\
  (forall l q, traces s w p l -> full s w l -> can_shift w (k + 1) -> ends_in s l q -> exists j, level d q j /\ j <= k + 1).

(** Breadth first: the queue has the rest of one round before the next. *)
Record queue_inv (d : DFSState) : Prop := {
  qi_path : at_path s d [];
  qi_set : set_ok s (q_set d);
  qi_shift : 0 <= q_shift d <= 15;
  qi_bb i k : q_bb d !! i = Some k -> 0 <= k <= q_shift d /\ k <= 14 /\
    exists p b, c_bbs s !! p = Some b /\ b_id b = i /\ root s w x k p /\ (p ∈ q_queue d \/ searched d p k);
  qi_queue : exists A B, q_queue d = A ++ B /\ (forall p, p ∈ A -> level d p (q_shift d - 1)) /\
    (forall p, p ∈ B -> level d p (q_shift d));
  qi_states t : t ∈ ss_state (q_set d) ->
    t <> [] /\ exists k p l, root s w x k p /\ traces s w p l /\ complete s w l /\ window s l = t;
  qi_entries p : p ∈ f_entries x -> level d p 0
}.

Lemma level_mono d d' p k : q_bb d ⊆ q_bb d' -> level d p k -> level d' p k.
Proof. intros Hsub (b & Hb & Hk). exists b. split; [done|]. by eapply lookup_weaken. Qed.

Lemma searched_mono d d' p k :
  q_bb d ⊆ q_bb d' -> (forall t, t ∈ ss_state (q_set d) -> t ∈ ss_state (q_set d')) -> searched d p k -> searched d' p k.
Proof.
  intros Hsub Hst [H1 H2]. split; [eauto|]. intros l q Ht Hf Hs He. destruct (H2 l q Ht Hf Hs He) as (j & Hj & Hle).
  exists j. split; [by eapply level_mono|done].
Qed.

Lemma level_root d p k : queue_inv d -> level d p k -> 0 <= k <= q_shift d /\ k <= 14 /\ root s w x k p.
Proof.
  intros Hi (b & Hb & Hk). destruct (qi_bb _ Hi _ _ Hk) as (? & ? & p' & b' & Hb' & Hid & Hr & _).
  by rewrite (Hids p p' b b' Hb Hb' (eq_sym Hid)).
Qed.

Lemma can_shift_bound k : can_shift w k -> k <= 14.
Proof. unfold can_shift, LBR_SIZE. intros H. destruct (decide (k <= 14)); [done|]. nia. Qed.

Lemma traces_ends l p q : traces s w p l -> ends_in s l q -> exists b, c_bbs s !! q = Some b.
Proof. intros _ (e & rest & z & _ & He & <-). by destruct (wf_ends _ Hwf e z He) as [_ [b Hb]]; exists b. Qed.

(** The front of the queue belongs to the current round or begins the next. *)
Lemma queue_front d p q k b :
  queue_inv d -> q_queue d = p :: q -> c_bbs s !! p = Some b -> q_bb d !! b_id b = Some k ->
  exists A B, q = A ++ B /\ (forall r, r ∈ A -> level d r k) /\ (forall r, r ∈ B -> level d r (k + 1)) /\ q_shift d <= k + 1.
Proof.
  intros Hi Hq Hb Hk. destruct (qi_queue _ Hi) as (A & B & HAB & HA & HB). rewrite Hq in HAB.
  assert (forall j, level d p j -> j = k) as Hlev.
  { intros j (b' & Hb' & Hk'). rewrite Hb in Hb'. apply (inj Some) in Hb' as <-. congruence. }
  destruct A as [|a A]; cbn in HAB.
  - assert (q_shift d = k) as Hs by (apply Hlev, HB; rewrite <- HAB; left).
    exists q, []. rewrite app_nil_r. split_and!; [done| | |lia]; [|by intros r ?%not_elem_of_nil].
    intros r Hr. rewrite <- Hs. apply HB. rewrite <- HAB. by right.
  - apply cons_inj in HAB as [<- ->]. assert (q_shift d - 1 = k) as Hs by (apply Hlev, HA; left).
    exists A, B. split_and!; [done| | |lia].
    + intros r Hr. rewrite <- Hs. apply HA. by right.
    + intros r Hr. replace (k + 1) with (q_shift d) by lia. by apply HB.
Qed.

Lemma queue_step d p q k b :
  queue_inv d -> q_queue d = p :: q -> c_bbs s !! p = Some b -> q_bb d !! b_id b = Some k ->
  exists d', search_all s w (depth_fuel s w) (in_order (b_in b)) (q_sched (k + 1) q (q_bb d) d) = Ok d' /\ queue_inv d' /\
    ss_func (q_set d') = ss_func (q_set d) /\
    (length (q_queue d') + size (q_bb d) = length q + size (q_bb d'))%nat.
Proof.
  intros Hi Hq Hb Hk. set (d0 := q_sched (k + 1) q (q_bb d) d).
  destruct (search_all_spec (in_order (b_in b)) d0) as (d' & Hrun & Hat & [P1 P2 P3 P4 (new & P5 & P6 & P7 & P8) P9 P10]).
  { destruct (qi_path _ Hi). by split. }
  { apply (qi_set _ Hi). }
  { intros e He%elem_of_in_order. destruct (wf_in _ Hwf _ _ _ Hb He) as (y & Hy & _). by exists y. }
  exists d'. split; [exact Hrun|]. cbn in P1, P2, P5, P6, P8, P9. fold d0 in Hrun.
  destruct (level_root d p k Hi ltac:(by exists b)) as (Hk1 & Hk2 & Hroot).
  assert (forall l, (exists e, e ∈ in_order (b_in b) /\ rtc (grows s w) [e] l /\ complete s w l) <-> traces s w p l /\ complete s w l) as HP.
  { intros l. setoid_rewrite elem_of_in_order. split.
    - intros (e & He & Hr & Hc). split; [by exists b, e|done].
    - intros [(b' & e & Hb' & He & Hr) Hc]. rewrite Hb in Hb'. apply (inj Some) in Hb' as <-. by exists e. }
  destruct (queue_front d p q k b Hi Hq Hb Hk) as (A & B & HAB & HA & HB & Hsh).
  assert (forall i j, q_bb d' !! i = Some j -> 0 <= j <= k + 1 /\ j <= 14) as Hbound.
  { intros i j [Hj|(-> & r & c & Hr & _)]%P8; [destruct (qi_bb _ Hi _ _ Hj); lia|]. cbn in *.
    destruct (P7 r Hr) as ((l & _ & _ & Hcs & _) & _). apply can_shift_bound in Hcs. cbn in Hcs. lia. }
  assert (forall t, t ∈ ss_state (q_set d) -> t ∈ ss_state (q_set d')) as Hmono by (intros t Ht; apply P4; by left).
  assert (searched d' p k) as Hdone.
  { split.
    - intros l Ht Hc Hne. apply P4. right. split; [done|]. exists l. split; [by apply HP|done].
    - intros l r Ht Hf Hcs He. destruct (traces_ends l p r Ht He) as [c Hc].
      destruct (P10 r c) as [j Hj]; [|done|].
      { exists l. split; [apply HP; split; [done|by left]|done]. }
      exists j. split; [by exists c|]. apply Hbound in Hj. lia. }
  split_and!; [|done|rewrite P5, P6, length_app; lia]. split; try done.
  - rewrite P1. lia.
  - intros i j Hj. destruct (Hbound i j Hj) as [Hb1 Hb2]. rewrite P1. split; [done|]. split; [done|].
    destruct (P8 i j Hj) as [Hold|(-> & r & c & Hr & Hc & Hid)].
    + destruct (qi_bb _ Hi _ _ Hold) as (_ & _ & r & c & Hc & Hid & Hrt & Hor). exists r, c. split_and!; try done.
      destruct Hor as [Hin|Hs]; [|right; by eapply searched_mono]. rewrite Hq in Hin.
      apply elem_of_cons in Hin as [->|Hin]; [|left; rewrite P5; set_solver].
      right. rewrite Hb in Hc. apply (inj Some) in Hc as <-. rewrite <- Hid, Hk in Hold. by apply (inj Some) in Hold as <-.
    + exists r, c. destruct (P7 r Hr) as ((l & Hl & Hf & Hcs & He) & _). apply HP in Hl as [Ht _].
      split_and!; try done; [|left; rewrite P5; set_solver]. by apply root_shift with p l.
  - rewrite P1. exists A, (B ++ new). split_and!; [by rewrite P5, HAB, <- app_assoc| |].
    + intros r Hr. apply (level_mono d); [done|]. replace (k + 1 - 1) with k by lia. by apply HA.
    + intros r [Hr|Hr]%elem_of_app; [apply (level_mono d); [done|by apply HB]|].
      destruct (P7 r Hr) as (_ & c & Hc & Hkc). by exists c.
  - intros t [Ht|(Hne & l & Hl & <-)]%P4; [by apply (qi_states _ Hi)|]. apply HP in Hl as [Ht Hc]. split; [done|].
    by exists k, p, l.
  - intros r Hr. apply (level_mono d); [done|]. by apply (qi_entries _ Hi).
Qed.

Lemma queue_size d : queue_inv d -> (size (q_bb d) <= size (c_bbs s))%nat.
Proof.
  intros Hi. rewrite <- !length_map_to_list.
  rewrite <- (length_fmap fst (map_to_list (q_bb d))), <- (length_fmap (fun p : Z * ArmsBasicBlock => b_id p.2) (map_to_list (c_bbs s))).
  apply submseteq_length, NoDup_submseteq; [apply NoDup_fst_map_to_list|].
  intros i ([i' k] & -> & Hk%elem_of_map_to_list)%list_elem_of_fmap. cbn.
  destruct (qi_bb _ Hi _ _ Hk) as (_ & _ & p & b & Hb & Hid & _). apply list_elem_of_fmap. exists (p, b).
  split; [done|]. by apply elem_of_map_to_list.
Qed.

Lemma search_queue_spec fuel d :
  queue_inv d -> (size (c_bbs s) + length (q_queue d) < fuel + size (q_bb d))%nat ->
  exists d', search_queue s w fuel (depth_fuel s w) d = Ok d' /\ queue_inv d' /\ q_queue d' = [] /\
    ss_func (q_set d') = ss_func (q_set d).
Proof.
  revert d. induction fuel as [|fuel IH]; intros d Hi Hfuel.
  { pose proof (queue_size d Hi). lia. }
  cbn [search_queue]. destruct (q_queue d) as [|p q] eqn:Hq; [by exists d|].
  destruct (qi_queue _ Hi) as (A & B & HAB & HA & HB).
  assert (exists k, level d p k) as (k & b & Hb & Hk).
  { rewrite Hq in HAB. assert (p ∈ A ++ B) as Hin by (rewrite <- HAB; left).
    apply elem_of_app in Hin as [Hin|Hin]; eauto. }
  unfold when_scheduled. rewrite Hb. cbn [mbind option_bind]. cbn [q_sched q_bb]. rewrite Hk.
  destruct (level_root d p k Hi ltac:(by exists b)) as (Hk1 & Hk2 & _).
  assert (u32 (k + 1) = k + 1) as -> by (unfold u32; rewrite Z.mod_small; lia).
  destruct (queue_step d p q k b Hi Hq Hb Hk) as (d' & Hrun & Hi' & Hf & Hsz).
  change (q_sched (k + 1) (q_queue (q_sched (q_shift d) q (q_bb d) d)) (q_bb d) (q_sched (q_shift d) q (q_bb d) d))
    with (q_sched (k + 1) q (q_bb d) d). rewrite Hrun. cbn [and_then].
  destruct (IH d' Hi') as (d2 & -> & Hi2 & Hq2 & Hf2); [cbn [length] in Hfuel; lia|]. exists d2. split_and!; try done. congruence.
Qed.

Lemma schedule_all_spec f l d :
  (forall p, p ∈ l -> p ∈ f_entries x) ->
  d = q_sched 0 (q_queue d) (q_bb d) (new_DFSState f) -> size (q_bb d) = length (q_queue d) ->
  (forall p, p ∈ q_queue d -> level d p 0) ->
  (forall i k, q_bb d !! i = Some k -> k = 0 /\ exists p b, p ∈ q_queue d /\ p ∈ f_entries x /\ c_bbs s !! p = Some b /\ b_id b = i) ->
  exists d', schedule_all s l d = Some d' /\ d' = q_sched 0 (q_queue d') (q_bb d') (new_DFSState f) /\ q_bb d ⊆ q_bb d' /\
    size (q_bb d') = length (q_queue d') /\ (forall p, p ∈ l -> level d' p 0) /\ (forall p, p ∈ q_queue d' -> level d' p 0) /\
    (forall i k, q_bb d' !! i = Some k -> k = 0 /\ exists p b, p ∈ q_queue d' /\ p ∈ f_entries x /\ c_bbs s !! p = Some b /\ b_id b = i).
Proof.
  revert d. induction l as [|p l IH]; intros d Hl Hd Hsz Hq Hbb; cbn [schedule_all].
  { exists d. split_and!; try done. by intros p ?%not_elem_of_nil. }
  destruct (Hentries p) as [b Hb]; [apply Hl; left|].
  assert (forall r, r ∈ l -> r ∈ f_entries x) as Hl' by (intros r Hr; apply Hl; by right).
  destruct (schedule_node_spec s p b d Hb) as (d1 & -> & E1 & E2 & E3 & E4 & E5 & E6 & Hor). cbn [mbind option_bind].
  assert (q_shift d = 0) as H0 by (by rewrite Hd).
  assert (d1 = q_sched 0 (q_queue d1) (q_bb d1) (new_DFSState f)) as Hd1.
  { destruct d1 as [l1 e1 s1 h1 q1 b1 v1 k1]. cbn in *. rewrite Hd in E1, E2, E3, E4, E5, E6. cbn in *. by subst. }
  assert (q_bb d ⊆ q_bb d1 /\ level d1 p 0) as [Hsub Hp].
  { destruct Hor as [(_ & Q2 & [k Hk])|(_ & Q2 & Hn)].
    - destruct (Hbb _ _ Hk) as [-> _]. rewrite <- Q2 in Hk. rewrite Q2. split; [done|]. by exists b.
    - rewrite Q2. split; [by apply insert_subseteq|]. exists b. split; [done|]. by rewrite Q2, lookup_insert_eq, H0. }
  destruct (IH d1 Hl' Hd1) as (d2 & -> & Hd2 & Hsub2 & Hsz2 & Hl2 & Hq2 & Hbb2).
  - destruct Hor as [(-> & -> & _)|(-> & -> & Hn)]; [done|].
    rewrite map_size_insert_None, length_app by done. cbn. lia.
  - intros r Hr. destruct Hor as [(Q1 & _)|(Q1 & _)]; rewrite Q1 in Hr.
    + apply (level_mono d); auto.
    + apply elem_of_app in Hr as [Hr| ->%list_elem_of_singleton]; [apply (level_mono d); auto|done].
  - intros i k Hk. destruct Hor as [(Q1 & Q2 & _)|(Q1 & Q2 & _)]; rewrite Q1, Q2 in *; [by apply Hbb|].
    apply lookup_insert_Some in Hk as [[<- <-]|[_ Hk]].
    + split; [done|]. exists p, b. split_and!; try done; [apply elem_of_app; right; by apply list_elem_of_singleton|apply Hl; left].
    + destruct (Hbb i k Hk) as (-> & r & c & Hr & ?). split; [done|]. exists r, c. split; [set_solver|done].
  - exists d2. split_and!; try done; [by transitivity (q_bb d1)|]. intros r [->|Hr]%elem_of_cons; [|by apply Hl2].
    by apply (level_mono d1).
Qed.

Lemma initial_inv f : exists d, schedule_all s (in_order (f_entries x)) (new_DFSState f) = Some d /\ queue_inv d /\
  size (q_bb d) = length (q_queue d) /\ ss_func (q_set d) = f.
Proof.
  destruct (schedule_all_spec f (in_order (f_entries x)) (new_DFSState f)) as (d & Hrun & Hd & _ & Hsz & Hl & Hq & Hbb); try done.
  { intros p. by rewrite elem_of_in_order. }
  { by intros p ?%not_elem_of_nil. }
  exists d. split; [done|]. split; [|by rewrite Hd].
  assert (q_shift d = 0) as H0 by (by rewrite Hd). assert (q_set d = new_state_set f) as Hs by (by rewrite Hd).
  split.
  - rewrite Hd. by split.
  - rewrite Hs. apply new_set_ok.
  - lia.
  - intros i k Hk. destruct (Hbb i k Hk) as (-> & p & b & Hp & He & Hb & Hid). split; [lia|]. split; [lia|].
    exists p, b. split_and!; try done; [by apply root_entry|by left].
  - exists [], (q_queue d). split_and!; [done|by intros p ?%not_elem_of_nil|]. rewrite H0. done.
  - rewrite Hs. by intros t ?%not_elem_of_nil.
  - intros p Hp. apply Hl. by apply elem_of_in_order.
Qed.

(** Every block a search can start from is scheduled, in its round or before. *)
Lemma root_scheduled d k p : queue_inv d -> q_queue d = [] -> root s w x k p -> exists j, level d p j /\ j <= k /\ searched d p j.
Proof.
  intros Hi Hq Hr.
  assert (forall p j, level d p j -> searched d p j) as Hall.
  { intros r j (b & Hb & Hj). destruct (qi_bb _ Hi _ _ Hj) as (_ & _ & r' & b' & Hb' & Hid & _ & [Hin|Hs]).
    - rewrite Hq in Hin. by apply not_elem_of_nil in Hin.
    - by rewrite (Hids r r' b b' Hb Hb' (eq_sym Hid)). }
  induction Hr as [p Hp|k p l q Hr IH Hcs Ht Hf He].
  - exists 0. split_and!; [by apply (qi_entries _ Hi)|done|]. by apply Hall, (qi_entries _ Hi).
  - destruct IH as (j & Hj & Hle & [_ Hs]). destruct (Hs l q Ht Hf) as (i & Hi' & Hle'); [|done|].
    + unfold can_shift in *. nia.
    + exists i. split_and!; [done|lia|by apply Hall].
Qed.

(** The states of one function. *)
Lemma func_states_spec f : exists d, func_states s w f x = Ok d /\ set_ok s (q_set d) /\ ss_func (q_set d) = f /\
  forall t, t ∈ ss_state (q_set d) <->
    t <> [] /\ exists k p l, root s w x k p /\ traces s w p l /\ complete s w l /\ window s l = t.
Proof.
  destruct (initial_inv f) as (d & Hrun & Hi & Hsz & Hf). unfold func_states. rewrite Hrun. cbn [of_option and_then].
  destruct (search_queue_spec (queue_fuel s) d Hi) as (d' & -> & Hi' & Hq & Hf'); [unfold queue_fuel; lia|].
  exists d'. split_and!; [done|apply (qi_set _ Hi')|congruence|]. intros t. split; [apply (qi_states _ Hi')|].
  intros (Hne & k & p & l & Hr & Ht & Hc & <-). destruct (root_scheduled d' k p Hi' Hq Hr) as (j & _ & _ & [Hs _]). by apply Hs.
Qed.
End Queue.

(** ** Properties *)

(** A library function of the black list. *)
Definition dangerous (s : CFG) (c : LBRConfig) (f : Z) : bool :=
  from_option (fun x => f_lib_dummy x && is_blacklisted (f_name x) c) false (c_fns s !! f).

Section Exact.
Context (s : CFG) (c : LBRConfig).
Context (Hwf : cfg_wf s) (Hids : bb_ids_distinct s) (Hcol : no_collision s) (Hw : 1 < cf_window c <= 16).

(** What a state set has to hold. *)
Definition exact (ss : LBRStateSet) : Prop :=
  NoDup (ss_state ss) /\ exists x, c_fns s !! ss_func ss = Some x /\
  forall t, t ∈ ss_state ss <-> t <> [] /\ exists k p l, root s (cf_window c) x k p /\ traces s (cf_window c) p l /\
    complete s (cf_window c) l /\ window s l = t.

Lemma traces_ok p l e : traces s (cf_window c) p l -> e ∈ l -> edge_ok s e.
Proof.
  intros (b & e0 & Hb & He0 & Hr). revert e.
  apply (rtc_ind_r (R := grows s (cf_window c)) (fun l => forall e, e ∈ l -> edge_ok s e) [e0]); [| |exact Hr].
  - intros e ->%list_elem_of_singleton. destruct (wf_in _ Hwf _ _ _ Hb He0) as (y & Hy & _). by exists y.
  - intros l1 l2 _ Hg IH. destruct Hg as [l1 b1 f y _ _ _ Hy _ _ _]. intros e [->|He]%elem_of_cons; [by exists y|auto].
Qed.

Lemma get_func_lbr_states_spec f x m :
  c_fns s !! f = Some x ->
  exists m', get_func_lbr_states s c f m = Some (m ++ m') /\
    (if dangerous s c f then exists ss, m' = [ss] /\ ss_func ss = f /\ exact ss else m' = []).
Proof.
  intros Hf. unfold get_func_lbr_states, dangerous. rewrite Hf. cbn [mbind option_bind from_option].
  destruct (f_lib_dummy x); cbn [negb andb]; [|by exists []; rewrite app_nil_r].
  destruct (is_blacklisted (f_name x) c); cbn [negb]; [|by exists []; rewrite app_nil_r].
  destruct (func_states_spec s (cf_window c) x Hwf Hcol Hw Hids) with (f := f) as (d & -> & Hset & Hfn & Hst).
  { intros p Hp. apply (wf_entries _ Hwf f x p Hf). by left. }
  unfold append_state_set. destruct (copy_set_ok s (q_set d) Hset) as (ss & -> & Hss & Hs1 & Hs2).
  { intros t (Hne & k & p & l & _ & Ht & _ & <-)%Hst. apply last_edge_id_ok; [done|].
    intros e He%window_elem. by apply (traces_ok p l). }
  cbn [mbind option_bind]. exists [ss]. split; [done|]. exists ss. split; [done|]. split; [congruence|].
  split; [apply (set_nodup _ _ Hss)|]. exists x. rewrite Hs2, Hfn, Hs1. done.
Qed.

Lemma get_states_of_spec fs m :
  Forall (fn_ok s) fs ->
  exists m', get_states_of s c fs m = Some (m ++ m') /\
    ss_func <$> m' = filter (fun f => dangerous s c f = true) fs /\ Forall exact m'.
Proof.
  intros Hfs. revert m. induction Hfs as [|f fs [x Hx] _ IH]; intros m; cbn [get_states_of].
  { exists []. rewrite app_nil_r. split_and!; [done|done|constructor]. }
  destruct (get_func_lbr_states_spec f x m Hx) as (m1 & -> & Hm1). cbn [mbind option_bind].
  destruct (IH (m ++ m1)) as (m2 & -> & Hm2 & Hex). exists (m1 ++ m2). rewrite <- app_assoc. split; [done|].
  rewrite fmap_app, filter_cons, Hm2. destruct (dangerous s c f).
  - destruct Hm1 as (ss & -> & <- & Hss). split; [done|]. by constructor.
  - subst m1. done.
Qed.

End Exact.


(** ** A concrete graph *)

(** [system] is entered by a jump from a block that loops (edges 5 and 6 are
    direct, 7 is the jump); the function around it is entered by indirect calls
    from the loader (edge 9) and from another block (edge 11). *)
Definition enum_cfg : CFG := default cfg_empty (run_ops
  [OpFunction "system" 0x8000; OpFlag 1 LibDummy; OpEdge 0x400100 0x400200; OpEdge 0x400200 0x400200;
   OpEdge 0x400200 0x8000; OpEdge 0x0 0x400100; OpEdge 0x400300 0x400100; OpSetType 7 arms_inter_indirect_jmp;
   OpSetType 9 arms_indirect_call; OpSetType 11 arms_indirect_call] cfg_empty).
Definition enum_config : LBRConfig := default (Config ∅ 2) (new_config true 16).

(** All lists of at most [n] elements of [l]. *)
Fixpoint lists_upto (n : nat) (l : list Z) : list (list Z) :=
  match n with
  | O => [[]]
  | S n => [] :: concat ((fun a => (fun k => a :: k) <$> lists_upto n l) <$> l)
  end.

Lemma lists_upto_spec n l k : (length k <= n)%nat -> (forall a, a ∈ k -> a ∈ l) -> k ∈ lists_upto n l.
Proof.
  revert k. induction n as [|n IH]; intros [|a k] Hn Hk; cbn in *; try lia; try (left; done).
  right. apply list_elem_of_In, in_concat. exists ((fun k => a :: k) <$> lists_upto n l). split.
  - apply list_elem_of_In, list_elem_of_fmap. exists a. split; [done|]. apply Hk. left.
  - apply list_elem_of_In, list_elem_of_fmap. exists k. split; [done|]. apply IH; [lia|]. intros b Hb. apply Hk. by right.
Qed.

Lemma no_collision_check s l :
  (forall f, edge_ok s f -> indirect s f = false -> f ∈ l) ->
  Forall (fun k => k = [] \/ sig_of k <> 0) (lists_upto (length l) l) -> no_collision s.
Proof.
  intros Hl Hall k Hne Hnd Hk. assert (forall a, a ∈ k -> a ∈ l) as Hsub by (intros a [H1 H2]%Hk; auto).
  assert (k ∈ lists_upto (length l) l) as Hin.
  { apply lists_upto_spec; [|done]. by apply submseteq_length, NoDup_submseteq. }
  by destruct (proj1 (Forall_forall _ _) Hall k Hin).
Qed.

Lemma bb_ids_check s :
  NoDup ((fun p : Z * ArmsBasicBlock => b_id p.2) <$> map_to_list (c_bbs s)) -> bb_ids_distinct s.
Proof.
  intros Hnd p q b c Hb Hc Hid. apply elem_of_map_to_list in Hb, Hc.
  apply list_elem_of_lookup in Hb as [i Hi], Hc as [j Hj]. assert (i = j) as ->; [|congruence].
  eapply (NoDup_lookup _ i j (b_id b)); [exact Hnd| |]; rewrite list_lookup_fmap, ?Hi, ?Hj; cbn; congruence.
Qed.

Lemma enum_cfg_wf : cfg_wf enum_cfg.
Proof. apply built_wf, run_ops_default. vm_compute. discriminate. Qed.

Lemma enum_cfg_ids : bb_ids_distinct enum_cfg.
Proof. apply bb_ids_check. vm_compute. repeat constructor; set_solver. Qed.

Lemma enum_cfg_no_collision : no_collision enum_cfg.
Proof.
  apply (no_collision_check _ [5; 6]).
  - assert (map_Forall (fun f x => edge_is_indirect x = true \/ f ∈ [5; 6]) (c_edges enum_cfg)) as Hall.
    { apply (bool_decide_eq_true_1 _). vm_compute. reflexivity. }
    intros f [x Hx] Hi. destruct (Hall f x Hx) as [Ht|Hin]; [|exact Hin]. unfold indirect in Hi. rewrite Hx in Hi. cbn in Hi. congruence.
  - apply (bool_decide_eq_true_1 _). vm_compute. reflexivity.
Qed.

