(* ===== verification/Kstates.v ===== *)
(** From enumerated LBR states to a state file and back: [LBRState::hash],
    [sort_by_hash], [generate_lbr_kstates], [read_lbr_kstates],
    [write_lbr_kstates] and [cmp_lbr_kstates] of dyninst-static/lbr_analysis.C.

    [generate_lbr_kstates] tags the addresses of the states, groups the states
    by the address the newest branch enters, drops states with a digest that
    was there before, and adds the empty state the kernel module expects.
    Memory allocation succeeds. *)

From stdpp Require Import sorting.
From S2P Require Import Prelude Slots Lbr LbrState StateFile Cfg CfgInv JitPath Enum.
Import Paths.

(** ** Digests *)

(** [LBRHash::compare]: the first byte that differs decides. *)
Fixpoint compare (a b : list Z) : Z :=
  match a, b with
  | x :: a, y :: b => if decide (x < y) then -1 else if decide (x > y) then 1 else compare a b
  | _, _ => 0
  end.

Section Kstates.
(** MD4 of OpenSSL. *)
Context (md4 : list Z -> list Z).

(** [source(i)] and [target(i)] of one edge of a state. *)
Definition branch_of (e : Z) : M (Z * Z) :=
  x ← edge_at e; b ← bb_at (e_source x); c ← bb_at (e_target x); mret (b_last b, b_start c).

(** The branch pairs that are hashed: sixteen, the missing ones empty. *)
Definition pad (es : list (Z * Z)) : list (Z * Z) := resize (Z.to_nat LBR_SIZE) (0, 0) es.

(** [LBRState::hash]; of an empty state there is none. *)
Definition hash (t : LBRState) : M (list Z) :=
  assert (bool_decide (length t <> 0%nat));;
  es ← mapM branch_of t; mret (md4 (concat (Digest.pair_bytes <$> pad es))).

(** The inner loop of [sort_by_hash] on the states from [i] on: from the end, a
    state moves in front of a greater one. *)
Fixpoint bubble (l : list LBRState) : M (list LBRState) :=
  match l with
  | [] => mret []
  | sl :: l =>
      k ← bubble l;
      match k with
      | [] => mret [sl]
      | sr :: k => a ← hash sl; b ← hash sr; mret (if decide (compare a b > 0) then sr :: sl :: k else sl :: sr :: k)
      end
  end.

(** The outer loop, [n] times. *)
Fixpoint sort_rounds (n : nat) (l : list LBRState) : M (list LBRState) :=
  match n with
  | O => mret l
  | S n => k ← bubble l; match k with [] => mret [] | t :: k => k ← sort_rounds n k; mret (t :: k) end
  end.

Definition sort_by_hash (ss : LBRStateSet) : M LBRStateSet :=
  l ← sort_rounds (length (ss_state ss)) (ss_state ss); mret (StateSet (ss_func ss) l (ss_by_last ss)).

(** [find_state_by_hash]. *)
Fixpoint find_by_hash (h : list Z) (l : list LBRState) : M (option LBRState) :=
  match l with
  | [] => mret None
  | t :: l => a ← hash t; if decide (compare a h = 0) then mret (Some t) else find_by_hash h l
  end.

(** ** Generation *)

Definition set_addr_flags (addr : Z) : M Z :=
  f ← find_function addr;
  x ← (if decide (f = NULL) then mret None else x ← fn_at f; mret (Some x));
  let lib := from_option f_lib_dummy false x in
  inside ← (if lib then mret false else addr_in_cfg addr);
  let a := if lib then Z.lor addr Tag.LIB_FLAG
           else if inside : bool then
             if decide (addr <> Tag.ADDRESS_TAKEN) then Z.lor addr Tag.TARG_FLAG else addr
           else addr in
  mret (if from_option f_main false x then Z.lor a Tag.MAIN_FLAG else a).

(** The addresses of an entry [j] of a state. *)
Definition flag_branch (e : Z) : M (Z * Z) :=
  p ← branch_of e; from ← set_addr_flags p.1; to ← set_addr_flags p.2; mret (from, to).

(** The digest is not set yet. *)
Definition new_kstate (es : list (Z * Z)) : lbr_valid_state :=
  VState (resize WINDOW_SIZE 0 es.*1) (resize WINDOW_SIZE 0 es.*2) [].

Definition set_kstates_map (to : Z) (sset : list LBRState) : M lbr_valid_state_map :=
  ss ← mapM (fun t => es ← mapM flag_branch t; mret (new_kstate es)) sset; mret (VMap to ss).

(** The empty state, 0x00 -> 0x00. *)
Definition add_dummy_kstates (sms : list lbr_valid_state_map) : list lbr_valid_state_map :=
  sms ++ [VMap 0 [new_kstate []]].

(** The functions whose address is taken, as [foreach_function(append_at_func)]
    collects them. *)
Fixpoint append_at_funcs (fs : list Z) : M (list Z) :=
  match fs with
  | [] => mret []
  | f :: fs => x ← fn_at f; l ← append_at_funcs fs; mret (if f_at x then f :: l else l)
  end.

(** [states_by_addr] and [state_lookup] (keyed by the digest in hexadecimal). *)
Record grouping := Grouping { g_by_addr : gmap Z (list LBRState); g_lookup : gset (list Z) }.

Definition group_state (t : LBRState) (g : grouping) : M grouping :=
  match t with
  | [] => undefined
  | e :: _ =>
      p ← branch_of e; h ← hash t;
      mret (if decide (h ∈ g_lookup g) then g else
        Grouping (<[p.2 := default [] (g_by_addr g !! p.2) ++ [t]]> (g_by_addr g)) ({[h]} ∪ g_lookup g))
  end.

Fixpoint group_states (ts : list LBRState) (g : grouping) : M grouping :=
  match ts with [] => mret g | t :: ts => g ← group_state t g; group_states ts g end.

Definition kstate_func (ss : LBRStateSet) : M lbr_function :=
  x ← fn_at (ss_func ss);
  assert (bool_decide (String.length (f_name x) < MAX_FNAME_LENGTH)%nat);;
  mret (LbrFunction (f_base x) (f_name x)).

Definition generate_lbr_kstates (smap : LBRStateMap) : M lbr_paths :=
  funcs ← mapM kstate_func smap;
  fs ← gets (fun s => map_in_order (c_functions s));
  ats ← append_at_funcs fs;
  ats ← mapM (fun f => x ← fn_at f; set_addr_flags (f_base x)) ats;
  g ← group_states (concat (ss_state <$> smap)) (Grouping ∅ ∅);
  sms ← mapM (fun a => set_kstates_map a (default [] (g_by_addr g !! a))) (in_order (dom (g_by_addr g)));
  mret (hash_paths md4 (LbrPaths funcs ats (add_dummy_kstates sms))).


(** ** Files *)

Definition write_lbr_kstates (base : Z) (packed : list Z) (p : lbr_paths) (y : layout) : option (list Z) :=
  bs ← lbr_pack_paths base packed p y; write_paths base bs.

(** The buffer is hashed in place; here it is given as its users see it. *)
Definition read_lbr_kstates (base : Z) (file : list Z) : option lbr_paths :=
  bs ← read_paths base file; p ← view_paths base bs; Some (hash_paths md4 p).

End Kstates.

(** ** Reading the graph *)

Lemma reads_mapM {A B} (f : A -> M B) (g : A -> B) l s :
  (forall x, x ∈ l -> reads (f x) s (g x)) -> reads (mapM f l) s (g <$> l).
Proof.
  induction l as [|x l IH]; intros Hf; cbn [mapM]; [apply reads_ret|].
  eapply reads_bind; [apply Hf; left|]. eapply reads_bind; [|apply reads_ret]. apply IH. intros y Hy. apply Hf. by right.
Qed.

Lemma reads_assert (b : bool) s : b = true -> reads (assert b) s tt.
Proof. by intros ->. Qed.

Lemma reads_fun {A} (m : M A) s a b : reads m s a -> reads m s b -> a = b.
Proof. unfold reads. congruence. Qed.

(** The value of a computation that only reads. *)
Definition value {A} (d : A) (m : M A) (s : CFG) : A := from_option fst d (m s).

Lemma reads_value {A} (d : A) (m : M A) s : (exists a, reads m s a) -> reads m s (value d m s).
Proof. intros [a Ha]. unfold value. pose proof Ha as Hr. unfold reads in Ha. by rewrite Ha. Qed.

Section Reading.
Context (md4 : list Z -> list Z) (s : CFG) (Hwf : cfg_wf s).

(** The branches of a state, and the address with its tags. *)
Definition branch (e : Z) : Z * Z := value (0, 0) (branch_of e) s.
Definition branches_of (t : LBRState) : list (Z * Z) := branch <$> t.
Definition flagged (a : Z) : Z := value 0 (set_addr_flags a) s.
Definition digest (t : LBRState) : list Z := md4 (concat (Digest.pair_bytes <$> pad (branches_of t))).

(** A state as the enumeration gives it. *)
Definition state_ok (t : LBRState) : Prop := t <> [] /\ (length t <= 16)%nat /\ forall e, e ∈ t -> edge_ok s e.

Lemma reads_branch e : edge_ok s e -> reads (branch_of e) s (branch e).
Proof.
  intros [x Hx]. apply (reads_value (0, 0)). destruct (wf_ends _ Hwf e x Hx) as [[b Hb] [c Hc]]. eexists.
  unfold branch_of. eauto 10 with reads.
Qed.

Lemma branch_spec e x b c : c_edges s !! e = Some x -> c_bbs s !! e_source x = Some b -> c_bbs s !! e_target x = Some c ->
  branch e = (b_last b, b_start c).
Proof.
  intros Hx Hb Hc. eapply reads_fun; [apply reads_branch; by exists x|]. unfold branch_of. eauto 10 with reads.
Qed.

Lemma reads_find_function a : exists f, reads (find_function a) s f /\ (f = NULL \/ f <> NULL /\ fn_ok s f).
Proof.
  eexists. split; [apply reads_gets|]. destruct (c_functions s !! a) as [f|] eqn:Hf; [|by left]. cbn.
  destruct (decide (f = NULL)); [by left|]. right. split; [done|].
  destruct (wf_functions _ Hwf a f Hf) as (x & Hx & _). by exists x.
Qed.

Lemma reads_addr_in_cfg a : exists b, reads (addr_in_cfg a) s b.
Proof.
  unfold addr_in_cfg. destruct (reads_find_function a) as (f & Hf & Hfn).
  destruct (decide (c_start_addr s <= a < c_end_addr s)) as [Hin|Hin].
  { exists true. eapply reads_bind; [apply reads_gets|]. eapply reads_bind; [apply reads_gets|]. by rewrite decide_True. }
  destruct Hfn as [->|[Hn [x Hx]]].
  - destruct (c_start2bb s !! a) as [p|] eqn:Hp.
    + destruct (wf_start2bb _ Hwf a p Hp) as (b & Hb & _).
      assert (p <> NULL) as Hpn by (eapply ok_not_null; [done|left; by exists b]).
      exists (negb (b_dummy b)). eapply reads_bind; [apply reads_gets|]. eapply reads_bind; [apply reads_gets|].
      rewrite decide_False by done. eapply reads_bind; [exact Hf|]. rewrite bool_decide_eq_true_2 by done. cbn [negb].
      eapply reads_bind; [apply reads_gets|]. rewrite Hp. cbn [default]. rewrite bool_decide_eq_false_2 by done. cbn [negb].
      eapply reads_bind; [by apply reads_bb_at|apply reads_ret].
    + exists false. eapply reads_bind; [apply reads_gets|]. eapply reads_bind; [apply reads_gets|].
      rewrite decide_False by done. eapply reads_bind; [exact Hf|]. rewrite bool_decide_eq_true_2 by done. cbn [negb].
      eapply reads_bind; [apply reads_gets|]. rewrite Hp. cbn [default from_option id].
      rewrite bool_decide_eq_true_2 by done. apply reads_ret.
  - exists (f_plt x). eapply reads_bind; [apply reads_gets|]. eapply reads_bind; [apply reads_gets|].
    rewrite decide_False by done. eapply reads_bind; [exact Hf|]. rewrite bool_decide_eq_false_2 by done. cbn [negb].
    eapply reads_bind; [by apply reads_fn_at|apply reads_ret].
Qed.

Lemma reads_flags a : reads (set_addr_flags a) s (flagged a).
Proof.
  apply (reads_value 0). unfold set_addr_flags. destruct (reads_find_function a) as (f & Hf & Hfn).
  assert (exists x, reads (if decide (f = NULL) then mret None else x ← fn_at f; mret (Some x)) s x) as [x Hx].
  { destruct Hfn as [->|[Hn [x Hx]]]; [exists None; by rewrite decide_True|]. exists (Some x). rewrite decide_False by done.
    eapply reads_bind; [by apply reads_fn_at|apply reads_ret]. }
  destruct (reads_addr_in_cfg a) as [b Hb].
  assert (exists i, reads (if from_option f_lib_dummy false x then mret false else addr_in_cfg a) s i) as [i Hi].
  { destruct (from_option f_lib_dummy false x); [by exists false|by exists b]. }
  eexists. eapply reads_bind; [exact Hf|]. eapply reads_bind; [exact Hx|]. eapply reads_bind; [exact Hi|apply reads_ret].
Qed.

Lemma reads_hash t : state_ok t -> reads (hash md4 t) s (digest t).
Proof.
  intros (Hne & _ & Hok). unfold hash. eapply reads_bind.
  { apply reads_assert, bool_decide_eq_true_2. by destruct t. }
  eapply reads_bind; [apply (reads_mapM _ branch)|apply reads_ret]. intros e He. by apply reads_branch, Hok.
Qed.

Lemma reads_flag_branch e : edge_ok s e -> reads (flag_branch e) s (flagged (branch e).1, flagged (branch e).2).
Proof.
  intros He. unfold flag_branch. eapply reads_bind; [by apply reads_branch|].
  eapply reads_bind; [apply reads_flags|]. eapply reads_bind; [apply reads_flags|apply reads_ret].
Qed.

(** ** Sorting *)

Lemma compare_refl a : compare a a = 0.
Proof. induction a as [|x a IH]; cbn; [done|]. by rewrite !decide_False by lia. Qed.

Lemma compare_trans a b c : length a = length b -> length b = length c ->
  compare a b <= 0 -> compare b c <= 0 -> compare a c <= 0.
Proof.
  revert b c. induction a as [|x a IH]; intros [|y b] [|z c] Hab Hbc; cbn in *; try lia.
  repeat case_decide; try lia. intros Hle1 Hle2. apply (IH b c); lia.
Qed.

Lemma compare_flip a b : compare a b = - compare b a.
Proof. revert b. induction a as [|x a IH]; intros [|y b]; cbn; try done. repeat case_decide; try lia. apply IH. Qed.

(** In the order of the digests. *)
Definition digest_le (t u : LBRState) : Prop := compare (digest t) (digest u) <= 0.

Context (Hlen : forall x, length (md4 x) = 16%nat).

#[local] Instance digest_le_trans : Transitive digest_le.
Proof. intros t u v. apply compare_trans; unfold digest; by rewrite !Hlen. Qed.

Lemma bubble_spec l : Forall state_ok l ->
  exists k, reads (bubble md4 l) s k /\ k ≡ₚ l /\ forall t k', k = t :: k' -> Forall (digest_le t) k'.
Proof.
  induction 1 as [|t l Ht Hl (k & Hk & Hp & Hmin)]; cbn [bubble].
  { exists []. split_and!; [apply reads_ret|done|done]. }
  destruct k as [|u k].
  { exists [t]. split_and!; [eapply reads_bind; [exact Hk|apply reads_ret]| |].
    - by rewrite <- Hp.
    - intros ? ? [= <- <-]. constructor. }
  assert (state_ok u) as Hu.
  { apply (proj1 (Forall_forall _ _) Hl). rewrite <- Hp. left. }
  specialize (Hmin u k eq_refl). eexists. split.
  { eapply reads_bind; [exact Hk|]. cbv beta iota. eapply reads_bind; [by apply reads_hash|].
    eapply reads_bind; [by apply reads_hash|apply reads_ret]. }
  destruct (decide (compare (digest t) (digest u) > 0)) as [Hgt|Hle].
  - assert (digest_le u t) as Hut by (unfold digest_le; rewrite compare_flip; lia). split.
    + rewrite <- Hp. apply Permutation_swap.
    + intros ? ? [= <- <-]. by constructor.
  - assert (digest_le t u) as Htu by (unfold digest_le; lia). split; [by rewrite <- Hp|].
    intros ? ? [= <- <-]. constructor; [done|]. eapply Forall_impl; [exact Hmin|]. intros v. by transitivity u.
Qed.

Lemma sort_rounds_spec n l : Forall state_ok l -> n = length l ->
  exists k, reads (sort_rounds md4 n l) s k /\ k ≡ₚ l /\ StronglySorted digest_le k.
Proof.
  revert l. induction n as [|n IH]; intros l Hl Hn; cbn [sort_rounds].
  { exists l. destruct l; [|done]. split_and!; [apply reads_ret|done|constructor]. }
  destruct (bubble_spec l Hl) as (k & Hk & Hp & Hmin). destruct k as [|t k].
  { apply Permutation_length in Hp. cbn in Hp. lia. }
  destruct (IH k) as (k' & Hk' & Hp' & Hs).
  { rewrite <- Hp in Hl. by inversion Hl. }
  { apply Permutation_length in Hp. cbn in Hp. lia. }
  exists (t :: k'). split_and!.
  - eapply reads_bind; [exact Hk|]. eapply reads_bind; [exact Hk'|apply reads_ret].
  - by rewrite Hp', Hp.
  - constructor; [done|]. rewrite Hp'. by apply (Hmin t k).
Qed.
End Reading.

(** ** Grouping *)

Section Groups.
Context (md4 : list Z -> list Z) (s : CFG) (Hwf : cfg_wf s).

(** What is hashed of a state, and the address its newest branch enters. *)
Definition padded (t : LBRState) : list (Z * Z) := pad (branches_of s t).
Definition target0 (t : LBRState) : Z := from_option snd 0 (head (branches_of s t)).

(** The bytes that are hashed of a state. *)
Definition hashed (t : LBRState) : list Z := concat (Digest.pair_bytes <$> padded t).

(** MD4 tells the states [P] apart. *)
Definition no_digest_collision (P : LBRState -> Prop) : Prop :=
  forall t u, P t -> P u -> md4 (hashed t) = md4 (hashed u) -> hashed t = hashed u.

Definition branches_u64 (t : LBRState) : Prop := Forall Digest.pair_u64 (branches_of s t).

Context (P : LBRState -> Prop) (Hmd4 : no_digest_collision P).

Lemma digest_inj t u : P t -> P u -> branches_u64 t -> branches_u64 u ->
  digest md4 s t = digest md4 s u <-> padded t = padded u.
Proof.
  intros Pt Pu Ht Hu. change (digest md4 s t) with (md4 (hashed t)). change (digest md4 s u) with (md4 (hashed u)).
  split; [|unfold hashed; by intros ->]. intros Heq%(Hmd4 t u Pt Pu).
  assert (forall v, branches_u64 v -> Forall Digest.pair_u64 (padded v)) as Hpad.
  { intros v Hv. apply Forall_resize; [split; unfold is_u64; cbn; lia|done]. }
  apply Digest.pairs_bytes_inj; [auto|auto|unfold padded, pad; by rewrite !length_resize|exact Heq].
Qed.

Lemma target0_padded t : t <> [] -> target0 t = from_option snd 0 (head (padded t)).
Proof. destruct t as [|e t]; [done|]. intros _. reflexivity. Qed.

Record grouped (ts : list LBRState) (g : grouping) : Prop := {
  gr_lookup h : h ∈ g_lookup g <-> exists t, t ∈ ts /\ digest md4 s t = h;
  gr_sound a t : t ∈ default [] (g_by_addr g !! a) -> t ∈ ts /\ target0 t = a;
  gr_complete t : t ∈ ts -> exists u, u ∈ default [] (g_by_addr g !! target0 t) /\ padded u = padded t;
  gr_nodup a : NoDup (padded <$> default [] (g_by_addr g !! a));
  gr_nonempty a : g_by_addr g !! a <> Some []
}.

Lemma grouped_nil : grouped [] (Grouping ∅ ∅).
Proof.
  split; cbn.
  - intros h. rewrite elem_of_empty. split; [done|]. by intros (t & ?%not_elem_of_nil & _).
  - intros a t. rewrite lookup_empty. by intros ?%not_elem_of_nil.
  - by intros t ?%not_elem_of_nil.
  - intros a. rewrite lookup_empty. constructor.
  - intros a. by rewrite lookup_empty.
Qed.

Lemma reads_group_state t g : state_ok s t ->
  reads (group_state md4 t g) s (if decide (digest md4 s t ∈ g_lookup g) then g else
    Grouping (<[target0 t := default [] (g_by_addr g !! target0 t) ++ [t]]> (g_by_addr g)) ({[digest md4 s t]} ∪ g_lookup g)).
Proof.
  intros Ht. destruct t as [|e t]; [by destruct Ht|]. cbn [group_state].
  eapply reads_bind; [apply (reads_branch s Hwf); apply Ht; left|].
  eapply reads_bind; [by apply (reads_hash md4 s Hwf)|]. apply reads_ret.
Qed.

Lemma grouped_step ts g t :
  Forall (fun t => P t /\ state_ok s t /\ branches_u64 t) (t :: ts) -> grouped ts g ->
  exists g', reads (group_state md4 t g) s g' /\ grouped (t :: ts) g'.
Proof.
  intros Hall Hg. apply Forall_cons in Hall as [(Pt & Ht & Htu) Hts].
  eexists. split; [by apply reads_group_state|].
  assert (forall u, u ∈ ts -> digest md4 s u = digest md4 s t <-> padded u = padded t) as Hinj.
  { intros u Hu. apply (proj1 (Forall_forall _ _) Hts) in Hu as (? & _ & Hu). by apply digest_inj. }
  assert (forall u, u ∈ ts -> padded u = padded t -> target0 u = target0 t) as Htgt.
  { intros u Hu Hp. apply (proj1 (Forall_forall _ _) Hts) in Hu as (_ & [Hne _] & _).
    rewrite !target0_padded, Hp; [done|by destruct Ht|done]. }
  destruct (decide (digest md4 s t ∈ g_lookup g)) as [Hin|Hnin].
  - apply (gr_lookup _ _ Hg) in Hin as (u & Hu & Heq). apply (Hinj u Hu) in Heq. split; try apply Hg.
    + intros h. rewrite (gr_lookup _ _ Hg). split; intros (v & Hv & <-); [exists v; split; [by right|done]|].
      apply elem_of_cons in Hv as [->|Hv]; [|by exists v]. exists u. split; [done|]. by apply Hinj.
    + intros a v Hv. destruct (gr_sound _ _ Hg a v Hv). split; [by right|done].
    + intros v [->|Hv]%elem_of_cons; [|by apply (gr_complete _ _ Hg)].
      destruct (gr_complete _ _ Hg u Hu) as (v & Hv & Hp). exists v. rewrite <- (Htgt u Hu Heq). split; [done|congruence].
  - split; cbn [g_lookup g_by_addr].
    + intros h. rewrite elem_of_union, elem_of_singleton, (gr_lookup _ _ Hg). setoid_rewrite elem_of_cons. naive_solver.
    + intros a v. destruct (decide (a = target0 t)) as [->|Hne].
      * rewrite lookup_insert_eq. cbn. rewrite elem_of_app, list_elem_of_singleton.
        intros [Hv| ->]; [|split; [by left|done]]. destruct (gr_sound _ _ Hg _ v Hv). split; [by right|done].
      * rewrite lookup_insert_ne by done. intros Hv. destruct (gr_sound _ _ Hg _ v Hv). split; [by right|done].
    + intros v Hv. destruct (decide (target0 v = target0 t)) as [Heq|Hne].
      * rewrite Heq, lookup_insert_eq. cbn. apply elem_of_cons in Hv as [->|Hv].
        -- exists t. split; [apply elem_of_app; right; by apply list_elem_of_singleton|done].
        -- destruct (gr_complete _ _ Hg v Hv) as (u & Hu & Hp). exists u. rewrite Heq in Hu. split; [apply elem_of_app; by left|done].
      * rewrite lookup_insert_ne by done. apply elem_of_cons in Hv as [->|Hv]; [done|]. by apply (gr_complete _ _ Hg).
    + intros a. destruct (decide (a = target0 t)) as [->|Hne]; [|rewrite lookup_insert_ne by done; apply (gr_nodup _ _ Hg)].
      rewrite lookup_insert_eq. cbn. rewrite fmap_app. apply NoDup_app. split; [apply (gr_nodup _ _ Hg)|].
      split; [|apply NoDup_singleton]. intros p (u & -> & Hu)%list_elem_of_fmap Hp%list_elem_of_singleton.
      apply Hnin, (gr_lookup _ _ Hg). destruct (gr_sound _ _ Hg _ u Hu) as [Hu' _]. exists u. split; [done|]. by apply Hinj.
    + intros a. destruct (decide (a = target0 t)) as [->|Hne].
      * rewrite lookup_insert_eq. intros [= Hnil]. by apply app_nil in Hnil as [_ ?].
      * rewrite lookup_insert_ne by done. apply (gr_nonempty _ _ Hg).
Qed.

Lemma grouped_perm ts ts' g : (forall t, t ∈ ts <-> t ∈ ts') -> grouped ts g -> grouped ts' g.
Proof.
  intros Heq [H1 H2 H3 H4 H5]. split; try done.
  - intros h. rewrite H1. by setoid_rewrite Heq.
  - intros a t Ht. rewrite <- Heq. auto.
  - intros t Ht. apply H3. by rewrite Heq.
Qed.

Lemma group_states_spec ts ts0 g :
  Forall (fun t => P t /\ state_ok s t /\ branches_u64 t) (ts ++ ts0) -> grouped ts0 g ->
  exists g', reads (group_states md4 ts g) s g' /\ grouped (ts ++ ts0) g'.
Proof.
  revert ts0 g. induction ts as [|t ts IH]; intros ts0 g Hall Hg; cbn [group_states app].
  { exists g. split; [apply reads_ret|done]. }
  apply Forall_app in Hall as [[Ht Hts]%Forall_cons Hts0].
  destruct (grouped_step ts0 g t) as (g1 & Hr & Hg1); [by constructor|done|].
  destruct (IH (t :: ts0) g1) as (g2 & Hr2 & Hg2); [apply Forall_app; split; [done|by constructor]|done|].
  exists g2. split; [by eapply reads_bind|]. eapply grouped_perm; [|exact Hg2]. intros u. set_solver.
Qed.

(** ** The generated structure *)

(** A state of the file: the branches with their tags, filled up with empty
    ones, and their digest. *)
Definition kstate (t : LBRState) : lbr_valid_state :=
  hash_state md4 (new_kstate ((fun p => (flagged s p.1, flagged s p.2)) <$> branches_of s t)).

(** A group of the states [ts] that enter [a] holds each of them once. *)
Definition is_group (ts : list LBRState) (a : Z) (grp : list LBRState) : Prop :=
  grp <> [] /\ NoDup (padded <$> grp) /\ (forall t, t ∈ grp -> t ∈ ts /\ target0 t = a) /\
  forall t, t ∈ ts -> target0 t = a -> exists u, u ∈ grp /\ padded u = padded t.

Lemma in_order_sorted X : StronglySorted Z.lt (in_order X).
Proof.
  assert (StronglySorted Z.le (in_order X)) as Hle by (apply (StronglySorted_merge_sort Z.le); apply _).
  assert (NoDup (in_order X)) as Hnd by (unfold in_order; rewrite merge_sort_Permutation; apply NoDup_elements).
  induction Hle as [|x l Hle IH Hx]; [constructor|]. apply NoDup_cons in Hnd as [Hn Hnd]. constructor; [auto|].
  apply Forall_forall. intros y Hy. pose proof (proj1 (Forall_forall _ _) Hx y Hy). assert (x <> y) by (by intros ->). lia.
Qed.

Lemma reads_kstates_map a ts : (forall t, t ∈ ts -> state_ok s t) ->
  reads (set_kstates_map a ts) s
    (VMap a ((fun t => new_kstate ((fun p => (flagged s p.1, flagged s p.2)) <$> branches_of s t)) <$> ts)).
Proof.
  intros Hts. unfold set_kstates_map. eapply reads_bind; [|apply reads_ret].
  apply reads_mapM. intros t Ht. eapply reads_bind; [|apply reads_ret]. unfold branches_of. rewrite <- list_fmap_compose.
  apply (reads_mapM _ (fun e => (flagged s (branch s e).1, flagged s (branch s e).2))).
  intros e He. apply reads_flag_branch; [done|]. by apply (Hts t Ht).
Qed.

Lemma reads_append_at fs : Forall (fn_ok s) fs ->
  reads (append_at_funcs fs) s (filter (fun f => from_option f_at false (c_fns s !! f) = true) fs).
Proof.
  induction 1 as [|f fs [x Hx] _ IH]; cbn [append_at_funcs]; [apply reads_ret|].
  eapply reads_bind; [by apply reads_fn_at|]. eapply reads_bind; [exact IH|]. rewrite filter_cons, Hx. cbn.
  destruct (f_at x); [rewrite decide_True by done|rewrite decide_False by done]; apply reads_ret.
Qed.

Definition fn_base (f : Z) : Z := from_option f_base 0 (c_fns s !! f).
Definition fn_name (f : Z) : string := from_option f_name "" (c_fns s !! f).

Lemma reads_kstate_func ss : fn_ok s (ss_func ss) -> (String.length (fn_name (ss_func ss)) < 16)%nat ->
  reads (kstate_func ss) s (LbrFunction (fn_base (ss_func ss)) (fn_name (ss_func ss))).
Proof.
  intros [x Hx] Hlen. unfold kstate_func, fn_base, fn_name in *. rewrite Hx in *.
  eapply reads_bind; [by apply reads_fn_at|]. eapply reads_bind; [|apply reads_ret].
  by apply reads_assert, bool_decide_eq_true_2.
Qed.
End Groups.

(** Each step reads the graph; the groups are those of [group_states]. *)
Lemma reads_generate md4 s smap g :
  cfg_wf s -> Forall (fun ss => fn_ok s (ss_func ss) /\ (String.length (fn_name s (ss_func ss)) < 16)%nat) smap ->
  Forall (fun t => state_ok s t /\ branches_u64 s t) (concat (ss_state <$> smap)) ->
  reads (group_states md4 (concat (ss_state <$> smap)) (Grouping ∅ ∅)) s g -> grouped md4 s (concat (ss_state <$> smap)) g ->
  let keys := in_order (dom (g_by_addr g)) in
  reads (generate_lbr_kstates md4 smap) s (LbrPaths
    ((fun ss => LbrFunction (fn_base s (ss_func ss)) (fn_name s (ss_func ss))) <$> smap)
    ((fun f => flagged s (fn_base s f)) <$>
       filter (fun f => from_option f_at false (c_fns s !! f) = true) (map_in_order (c_functions s)))
    (((fun g : Z * list LBRState => VMap g.1 (kstate md4 s <$> g.2)) <$>
       ((fun a => (a, default [] (g_by_addr g !! a))) <$> keys)) ++ [VMap 0 [kstate md4 s []]])).
Proof.
  intros Hwf Hfn Hst Hg Hgr keys. unfold generate_lbr_kstates.
  eapply reads_bind; [apply (reads_mapM _ (fun ss => LbrFunction (fn_base s (ss_func ss)) (fn_name s (ss_func ss))))|].
  { intros ss Hss. apply (proj1 (Forall_forall _ _) Hfn) in Hss as [? ?]. by apply reads_kstate_func. }
  eapply reads_bind; [apply reads_gets|].
  assert (Forall (fn_ok s) (map_in_order (c_functions s))) as Hfs.
  { apply Forall_forall. intros f (a & Ha)%elem_of_map_in_order. destruct (wf_functions _ Hwf a f Ha) as (x & Hx & _). by exists x. }
  eapply reads_bind; [by apply reads_append_at|].
  eapply reads_bind; [apply (reads_mapM _ (fun f => flagged s (fn_base s f)))|].
  { intros f [_ Hf]%list_elem_of_filter. apply (proj1 (Forall_forall _ _) Hfs) in Hf as [x Hx].
    unfold fn_base. rewrite Hx. eapply reads_bind; [by apply reads_fn_at|]. apply (reads_flags s Hwf). }
  eapply reads_bind; [exact Hg|]. fold keys. eapply reads_bind.
  { apply (reads_mapM _ (fun a => VMap a ((fun t => new_kstate ((fun p => (flagged s p.1, flagged s p.2)) <$> branches_of s t))
      <$> default [] (g_by_addr g !! a)))). intros a _. apply reads_kstates_map; [done|].
    intros t Ht. apply (gr_sound _ _ _ _ Hgr) in Ht as [Ht _]. by apply (proj1 (Forall_forall _ _) Hst) in Ht as [? _]. }
  unfold add_dummy_kstates. match goal with |- reads (mret ?p) s ?q => assert (p = q) as ->; [|apply reads_ret] end.
  unfold hash_paths. cbn [p_func p_address_taken p_state_map]. f_equal. rewrite fmap_app. f_equal.
  rewrite <- !list_fmap_compose. apply list_fmap_ext. intros i a _. cbn. f_equal. by rewrite <- list_fmap_compose.
Qed.

Lemma generate_groups md4 s smap :
  cfg_wf s -> no_digest_collision md4 s (fun t => t ∈ concat (ss_state <$> smap)) ->
  Forall (fun ss => fn_ok s (ss_func ss) /\ (String.length (fn_name s (ss_func ss)) < 16)%nat) smap ->
  Forall (fun t => state_ok s t /\ branches_u64 s t) (concat (ss_state <$> smap)) ->
  exists groups, reads (generate_lbr_kstates md4 smap) s (LbrPaths
      ((fun ss => LbrFunction (fn_base s (ss_func ss)) (fn_name s (ss_func ss))) <$> smap)
      ((fun f => flagged s (fn_base s f)) <$>
         filter (fun f => from_option f_at false (c_fns s !! f) = true) (map_in_order (c_functions s)))
      (((fun g : Z * list LBRState => VMap g.1 (kstate md4 s <$> g.2)) <$> groups) ++ [VMap 0 [kstate md4 s []]])) /\
    StronglySorted Z.lt groups.*1 /\
    (forall a grp, (a, grp) ∈ groups -> is_group s (concat (ss_state <$> smap)) a grp) /\
    (forall t, t ∈ concat (ss_state <$> smap) -> target0 s t ∈ groups.*1).
Proof.
  intros Hwf Hmd4 Hfn Hst. set (ts := concat (ss_state <$> smap)) in *.
  destruct (group_states_spec md4 s Hwf _ Hmd4 ts [] (Grouping ∅ ∅)) as (g & Hg & Hgr);
    [rewrite app_nil_r; apply Forall_forall; intros t Ht; split; [done|by apply (proj1 (Forall_forall _ _) Hst)]|apply grouped_nil|]. rewrite app_nil_r in Hgr.
  set (keys := in_order (dom (g_by_addr g))).
  exists ((fun a => (a, default [] (g_by_addr g !! a))) <$> keys).
  assert (((fun a => (a, default [] (g_by_addr g !! a))) <$> keys).*1 = keys) as Hkeys.
  { rewrite <- list_fmap_compose. apply list_fmap_id. }
  rewrite Hkeys. split_and!.
  - by apply reads_generate.
  - apply in_order_sorted.
  - intros a grp (b & [= -> ->] & Hb)%list_elem_of_fmap. subst keys. apply elem_of_in_order, elem_of_dom in Hb as [l Hl].
    split_and!.
    + rewrite Hl. cbn. intros ->. by apply (gr_nonempty _ _ _ _ Hgr b).
    + apply (gr_nodup _ _ _ _ Hgr).
    + intros t. apply (gr_sound _ _ _ _ Hgr).
    + intros t Ht <-. by apply (gr_complete _ _ _ _ Hgr).
  - intros t Ht. destruct (gr_complete _ _ _ _ Hgr t Ht) as (u & Hu & _). subst keys. rewrite elem_of_in_order, elem_of_dom.
    destruct (g_by_addr g !! target0 s t); [done|]. by apply not_elem_of_nil in Hu.
Qed.

(** [generate_lbr_kstates] writes down every state and nothing else.  For
    states of one to sixteen edges of a well-formed graph whose digests do not
    collide, it gives the name and address of every function searched, the
    tagged addresses of the functions whose address is taken, and one state
    map for each address a newest branch enters, in ascending order.  The
    map of an address holds, once each, the states that enter it: their
    branches with their tags, filled up to sixteen, and the digest.  One more map
    holds the empty state. *)
Theorem generate_lbr_kstates_exact md4 s smap :
  cfg_wf s -> no_digest_collision md4 s (fun t => t ∈ concat (ss_state <$> smap)) ->
  Forall (fun ss => fn_ok s (ss_func ss) /\ (String.length (fn_name s (ss_func ss)) < 16)%nat) smap ->
  Forall (fun t => state_ok s t /\ branches_u64 s t) (concat (ss_state <$> smap)) ->
  exists groups, reads (generate_lbr_kstates md4 smap) s (LbrPaths
      ((fun ss => LbrFunction (fn_base s (ss_func ss)) (fn_name s (ss_func ss))) <$> smap)
      ((fun f => flagged s (fn_base s f)) <$>
         filter (fun f => from_option f_at false (c_fns s !! f) = true) (map_in_order (c_functions s)))
      (((fun g : Z * list LBRState => VMap g.1 (kstate md4 s <$> g.2)) <$> groups) ++ [VMap 0 [kstate md4 s []]])) /\
    StronglySorted Z.lt groups.*1 /\
    (forall a grp, (a, grp) ∈ groups -> is_group s (concat (ss_state <$> smap)) a grp) /\
    (forall t, t ∈ concat (ss_state <$> smap) -> target0 s t ∈ groups.*1).
Proof. apply generate_groups. Qed.

(** [system], entered by a jump from a block that an indirect call enters. *)
Definition kstates_cfg : CFG := default cfg_empty (run_ops
  [OpFunction "system" 0x8000; OpFlag 1 LibDummy; OpEdge 0x400200 0x8000; OpEdge 0x400100 0x400200;
   OpSetType 4 arms_inter_indirect_jmp; OpSetType 6 arms_indirect_call] cfg_empty).

(** The same state twice. *)
Definition kstates_smap : LBRStateMap := [StateSet 1 [[4; 6]; [4; 6]; [6]] ∅].

Lemma kstates_ok t : t ∈ [[4; 6]; [4; 6]; [6]; [4]] -> state_ok kstates_cfg t.
Proof.
  intros Ht. assert (t <> [] /\ (length t <= 16)%nat /\ Forall (fun e => is_Some (c_edges kstates_cfg !! e)) t) as (? & ? & He).
  { revert t Ht. apply Forall_forall. apply (bool_decide_eq_true_1 _). vm_compute. reflexivity. }
  split_and!; [done|done|]. by apply Forall_forall.
Qed.

Lemma generate_lbr_kstates_exact_witness :
  let md4 x := x in
  let ts := [[4; 6]; [4; 6]; [6]] in
  exists groups, reads (generate_lbr_kstates md4 kstates_smap) kstates_cfg (LbrPaths
      [LbrFunction 0x8000 "system"] []
      (((fun g : Z * list LBRState => VMap g.1 (kstate md4 kstates_cfg <$> g.2)) <$> groups) ++ [VMap 0 [kstate md4 kstates_cfg []]])) /\
    StronglySorted Z.lt groups.*1 /\
    (forall a grp, (a, grp) ∈ groups -> is_group kstates_cfg ts a grp) /\
    (forall t, t ∈ ts -> target0 kstates_cfg t ∈ groups.*1).
Proof.
  intros md4 ts. apply (generate_lbr_kstates_exact md4 kstates_cfg kstates_smap).
  - apply built_wf, run_ops_default. vm_compute. discriminate.
  - intros t u _ _ Heq. exact Heq.
  - apply Forall_singleton. split; [by eexists|vm_compute; lia].
  - apply Forall_forall. intros t Ht. split; [apply kstates_ok, (elem_of_app ts [[4]]); by left|]. revert t Ht. apply Forall_forall.
    apply (bool_decide_eq_true_1 _). vm_compute. reflexivity.
Defined.

(** [sort_by_hash] sorts.  On states of a well-formed graph and for digests
    of sixteen bytes, the loops end with a permutation of the states, in
    the order of [LBRHash::compare]; the function and the index of the set
    stay, and the graph too. *)
Theorem sort_by_hash_sorts md4 s ss :
  cfg_wf s -> (forall x, length (md4 x) = 16%nat) -> Forall (state_ok s) (ss_state ss) ->
  exists l, reads (sort_by_hash md4 ss) s (StateSet (ss_func ss) l (ss_by_last ss)) /\
    l ≡ₚ ss_state ss /\ StronglySorted (digest_le md4 s) l.
Proof.
  intros Hwf Hlen Hok. destruct (sort_rounds_spec md4 s Hwf Hlen _ _ Hok eq_refl) as (l & Hl & Hp & Hs).
  exists l. split_and!; [eapply reads_bind; [exact Hl|apply reads_ret]|done|done].
Qed.

Lemma sort_by_hash_sorts_witness :
  let md4 x := resize 16 0 x in
  let ss := StateSet 1 [[6]; [4; 6]; [4]] ∅ in
  (exists l, reads (sort_by_hash md4 ss) kstates_cfg (StateSet 1 l ∅) /\ l ≡ₚ [[6]; [4; 6]; [4]] /\
    StronglySorted (digest_le md4 kstates_cfg) l) /\
  (fst <$> sort_by_hash md4 ss kstates_cfg) = Some (StateSet 1 [[6]; [4; 6]; [4]] ∅).
Proof.
  intros md4 ss. split; [|vm_compute; reflexivity].
  apply (sort_by_hash_sorts md4 kstates_cfg ss).
  - apply built_wf, run_ops_default. vm_compute. discriminate.
  - intros x. apply length_resize.
  - apply Forall_forall. intros t Ht. apply kstates_ok. revert t Ht. apply Forall_forall.
    apply (bool_decide_eq_true_1 _). vm_compute. reflexivity.
Defined.
