(* ===== verification/KstatesCmp.v ===== *)
(** Comparing two state files: [cmp_lbr_kstates] of
    dyninst-static/lbr_analysis.C with the comparison functions it gives to
    [qsort].

    The comparison sorts the arrays of both structures in place, so every
    function gives the structures back.  [qsort] is that of the C library: it
    permutes its array, and for a consistent comparison function the result is
    in order; nothing more is assumed. *)

From stdpp Require Import sorting.
From S2P Require Import Prelude Slots Lbr LbrState StateFile Cfg CfgInv JitPath Enum Kstates.
Import Paths.

(** A comparison function is consistent on the elements of an array. *)
Definition consistent {A} (cmp : A -> A -> Z) (l : list A) : Prop :=
  (forall a b, a ∈ l -> b ∈ l -> 0 < cmp a b <-> cmp b a < 0) /\
  forall a b c, a ∈ l -> b ∈ l -> c ∈ l -> cmp a b <= 0 -> cmp b c <= 0 -> cmp a c <= 0.

Class Qsort := {
  qsort : forall {A}, (A -> A -> Z) -> list A -> list A;
  qsort_perm : forall {A} (cmp : A -> A -> Z) l, qsort cmp l ≡ₚ l;
  qsort_sorted : forall {A} (cmp : A -> A -> Z) l, consistent cmp l -> StronglySorted (fun a b => cmp a b <= 0) (qsort cmp l)
}.

(** ** Order *)

(** The difference of two addresses, cut to an [int]. *)
Definition sort_kstate_funcs_by_addr (s t : lbr_function) : Z := s32 (u64 (fptr t - fptr s)).
Definition sort_kstate_maps_by_addr (s t : lbr_valid_state_map) : Z := s32 (u64 (sm_to t - sm_to s)).
Definition sort_kstate_sets_by_hash (s t : lbr_valid_state) : Z := compare (vs_hash s) (vs_hash t).

Section Compare.
Context `{Qsort}.

(** [!memcmp(s->hash, t->hash, DIGEST_LENGTH)]. *)
Definition same_hash (s t : lbr_valid_state) : bool := bool_decide (vs_hash s = vs_hash t).

(** ** Functions *)

(** The loop over both arrays, to the end of the longer one. *)
Fixpoint cmp_names (fs gs : list lbr_function) (ret : Z) : Z :=
  match fs, gs with
  | [], [] => ret
  | f :: fs, g :: gs => cmp_names fs gs (if decide (fname f = fname g) then ret else -1)
  | _, _ => -1
  end.

Definition set_func (fs : list lbr_function) (p : lbr_paths) : lbr_paths := LbrPaths fs (p_address_taken p) (p_state_map p).
Definition set_state_map (sms : list lbr_valid_state_map) (p : lbr_paths) : lbr_paths := LbrPaths (p_func p) (p_address_taken p) sms.

Definition cmp_lbr_kstate_funcs (s t : lbr_paths) : Z * lbr_paths * lbr_paths :=
  let fs := qsort sort_kstate_funcs_by_addr (p_func s) in
  let gs := qsort sort_kstate_funcs_by_addr (p_func t) in
  (cmp_names fs gs 0, set_func fs s, set_func gs t).

(** ** State maps *)

Definition sort_states (m : lbr_valid_state_map) : lbr_valid_state_map :=
  VMap (sm_to m) (qsort sort_kstate_sets_by_hash (sm_state m)).

Definition cmp_lbr_kstate_maps (m n : lbr_valid_state_map) : Z * lbr_valid_state_map * lbr_valid_state_map :=
  let m := sort_states m in
  let n := sort_states n in
  (if decide (length (sm_state m) <> length (sm_state n)) then -1
   else if forallb (fun p => same_hash p.1 p.2) (zip (sm_state m) (sm_state n)) then 0 else -1, m, n).

Fixpoint cmp_maps (ms ns : list lbr_valid_state_map) (ret : Z) : Z * list lbr_valid_state_map * list lbr_valid_state_map :=
  match ms, ns with
  | m :: ms, n :: ns =>
      let '(r, m, n) := cmp_lbr_kstate_maps m n in
      let '(ret, ms, ns) := cmp_maps ms ns (if decide (r < 0) then -1 else ret) in (ret, m :: ms, n :: ns)
  | [], [] => (ret, [], [])
  | _, _ => (-1, ms, ns)
  end.

Definition cmp_lbr_kstate_paths (s t : lbr_paths) : Z * lbr_paths * lbr_paths :=
  let ms := qsort sort_kstate_maps_by_addr (p_state_map s) in
  let ns := qsort sort_kstate_maps_by_addr (p_state_map t) in
  let '(ret, ms, ns) := cmp_maps ms ns 0 in (ret, set_state_map ms s, set_state_map ns t).

(** ** Supersets *)

Definition is_lbr_kstate_map_superset (m n : lbr_valid_state_map) : bool :=
  forallb (fun v => existsb (fun u => same_hash u v) (sm_state m)) (sm_state n).

(** The inner loop: the first map of [s] with the address decides. *)
Fixpoint covered (ms : list lbr_valid_state_map) (n : lbr_valid_state_map) : bool :=
  match ms with
  | [] => false
  | m :: ms => if decide (sm_to m = sm_to n) then is_lbr_kstate_map_superset m n else covered ms n
  end.

Definition is_lbr_kstate_superset (s t : lbr_paths) : bool := forallb (covered (p_state_map s)) (p_state_map t).

Definition cmp_lbr_kstates (s t : lbr_paths) : Z * lbr_paths * lbr_paths :=
  let '(r1, s, t) := cmp_lbr_kstate_funcs s t in
  let '(r2, s, t) := cmp_lbr_kstate_paths s t in
  let ret := if decide (r1 < 0 \/ r2 < 0) then -1 else 0 in
  (if decide (ret = 0) then ret else if is_lbr_kstate_superset s t then 0 else ret, s, t).

(** ** What the comparison decides *)

(** Every state of [t] has a state of [s] with its digest. *)
Definition digests_in (ms ns : list lbr_valid_state_map) : Prop :=
  forall n v, n ∈ ns -> v ∈ sm_state n -> exists m u, m ∈ ms /\ u ∈ sm_state m /\ vs_hash u = vs_hash v.

(** Every state map of [t] has a state map of [s] with its address and its
    digests. *)
Definition maps_in (ms ns : list lbr_valid_state_map) : Prop :=
  forall n, n ∈ ns -> exists m, m ∈ ms /\ sm_to m = sm_to n /\
    forall v, v ∈ sm_state n -> exists u, u ∈ sm_state m /\ vs_hash u = vs_hash v.

(** The same maps, with their states in another order. *)
Definition reordered (m m' : lbr_valid_state_map) : Prop := sm_to m' = sm_to m /\ sm_state m' ≡ₚ sm_state m.

Lemma map_superset_spec m n :
  is_lbr_kstate_map_superset m n = true <-> forall v, v ∈ sm_state n -> exists u, u ∈ sm_state m /\ vs_hash u = vs_hash v.
Proof.
  unfold is_lbr_kstate_map_superset. rewrite forallb_forall. setoid_rewrite existsb_exists.
  setoid_rewrite <- list_elem_of_In. unfold same_hash. by setoid_rewrite bool_decide_eq_true.
Qed.

Lemma covered_sound ms n : covered ms n = true ->
  exists m, m ∈ ms /\ sm_to m = sm_to n /\ is_lbr_kstate_map_superset m n = true.
Proof.
  induction ms as [|m ms IH]; cbn; [done|]. destruct (decide _) as [Ha|Ha].
  - intros Hs. exists m. split; [left|done].
  - intros (m' & Hm & ?)%IH. exists m'. split; [by right|done].
Qed.

Lemma covered_complete ms n m : NoDup (sm_to <$> ms) -> m ∈ ms -> sm_to m = sm_to n ->
  is_lbr_kstate_map_superset m n = true -> covered ms n = true.
Proof.
  induction ms as [|m' ms IH]; [by intros _ ?%not_elem_of_nil|]. rewrite fmap_cons. intros [Hn Hnd]%NoDup_cons Hm Ha Hs. cbn.
  apply elem_of_cons in Hm as [<-|Hm]; [by rewrite decide_True|]. rewrite decide_False; [by apply IH|].
  intros Ha'. apply Hn, list_elem_of_fmap. exists m. split; [congruence|done].
Qed.

Lemma superset_spec s t : NoDup (sm_to <$> p_state_map s) ->
  is_lbr_kstate_superset s t = true <-> maps_in (p_state_map s) (p_state_map t).
Proof.
  intros Hnd. unfold is_lbr_kstate_superset. rewrite forallb_forall. setoid_rewrite <- list_elem_of_In. split.
  - intros Hall n Hn. destruct (covered_sound _ _ (Hall n Hn)) as (m & Hm & Ha & Hs). exists m.
    split_and!; [done|done|]. by apply map_superset_spec.
  - intros Hall n Hn. destruct (Hall n Hn) as (m & Hm & Ha & Hs). apply (covered_complete _ _ m); try done.
    by apply map_superset_spec.
Qed.

(** Sorting changes the order only. *)
Lemma sort_states_reordered m : reordered m (sort_states m).
Proof. split; [done|]. cbn. apply qsort_perm. Qed.

Lemma cmp_maps_reordered ms ns ret ret' ms' ns' :
  cmp_maps ms ns ret = (ret', ms', ns') -> Forall2 reordered ms ms' /\ Forall2 reordered ns ns'.
Proof.
  assert (forall l, Forall2 reordered l l) as Hrefl by (induction l; constructor; [split; done|done]).
  revert ns ret ret' ms' ns'. induction ms as [|m ms IH]; intros [|n ns] ret ret' ms' ns' Hrun; cbn in Hrun;
    try (simplify_eq; split; apply Hrefl).
  destruct (cmp_maps ms ns _) as [[r k] l] eqn:Hr. apply IH in Hr as [H1 H2]. simplify_eq.
  split; (constructor; [apply sort_states_reordered|done]).
Qed.

(** The verdict of the first loop: every pair of maps agrees. *)
Lemma cmp_maps_neg ms ns ms' ns' ret' : cmp_maps ms ns (-1) = (ret', ms', ns') -> ret' = -1.
Proof.
  revert ns ms' ns' ret'. induction ms as [|m ms IH]; intros [|n ns] ms' ns' ret' Hrun; cbn in Hrun; try by simplify_eq.
  destruct (cmp_maps ms ns _) as [[r k] l] eqn:Hr. simplify_eq.
  destruct (decide _); by apply IH in Hr.
Qed.

Lemma cmp_maps_ret ms ns ret ms' ns' ret' : cmp_maps ms ns ret = (ret', ms', ns') -> ret' = ret \/ ret' = -1.
Proof.
  revert ns ret ms' ns' ret'. induction ms as [|m ms IH]; intros [|n ns] ret ms' ns' ret' Hrun; cbn in Hrun;
    try (simplify_eq; by auto).
  destruct (cmp_maps ms ns _) as [[r k] l] eqn:Hr. simplify_eq. apply IH in Hr as [->| ->]; [|by right].
  destruct (decide _ : {_} + {_}); auto.
Qed.

Lemma cmp_maps_sound ms ns ms' ns' : cmp_maps ms ns 0 = (0, ms', ns') -> digests_in ms ns.
Proof.
  revert ns ms' ns'. induction ms as [|m ms IH]; intros [|n ns] ms' ns' Hrun; cbn in Hrun; try done.
  { by intros ? ? ?%not_elem_of_nil. }
  set (r := if decide (length _ <> length _) then _ else _) in Hrun.
  destruct (decide (r < 0)) as [Hneg|Hpos]; cbn in Hrun.
  { destruct (cmp_maps ms ns (-1)) as [[r' k] l] eqn:Hr. apply cmp_maps_neg in Hr. simplify_eq. }
  destruct (cmp_maps ms ns 0) as [[r' k] l] eqn:Hr. simplify_eq. specialize (IH ns k l Hr).
  assert (forall v, v ∈ sm_state n -> exists u, u ∈ sm_state m /\ vs_hash u = vs_hash v) as Hmn.
  { subst r. destruct (decide _) as [Hl|Hl]; [lia|]. destruct (forallb _ _) eqn:Hall; [|lia]. clear -Hl Hall.
    intros v Hv. rewrite <- (qsort_perm sort_kstate_sets_by_hash) in Hv. apply list_elem_of_lookup in Hv as [i Hi].
    cbn in Hl, Hall. apply lookup_lt_Some in Hi as Hlt.
    destruct (lookup_lt_is_Some_2 (qsort sort_kstate_sets_by_hash (sm_state m)) i) as [u Hu]; [lia|].
    exists u. split; [rewrite <- (qsort_perm sort_kstate_sets_by_hash); by eapply list_elem_of_lookup_2|].
    rewrite forallb_forall in Hall. specialize (Hall (u, v)). cbn in Hall. apply (bool_decide_eq_true_1 _), Hall.
    apply list_elem_of_In, (list_elem_of_lookup_2 _ i), lookup_zip_with_Some. by exists u, v. }
  intros n' v [->|Hn]%elem_of_cons Hv.
  - destruct (Hmn v Hv) as (u & Hu & Heq). exists m, u. split; [left|done].
  - destruct (IH n' v Hn Hv) as (m' & u & Hm & ?). exists m', u. split; [by right|done].
Qed.

(** The state maps of a structure after the comparison. *)
Definition shuffled (ms ms' : list lbr_valid_state_map) : Prop := exists k, k ≡ₚ ms /\ Forall2 reordered k ms'.

Lemma shuffled_to ms ms' : shuffled ms ms' -> sm_to <$> ms' ≡ₚ sm_to <$> ms.
Proof.
  intros (k & Hp & H2). rewrite <- Hp. clear Hp. induction H2 as [|m m' k ms' [Ha _] _ IH]; [done|].
  rewrite !fmap_cons, Ha. by rewrite IH.
Qed.

Lemma shuffled_elem ms ms' : shuffled ms ms' ->
  (forall m, m ∈ ms -> exists m', m' ∈ ms' /\ reordered m m') /\ (forall m', m' ∈ ms' -> exists m, m ∈ ms /\ reordered m m').
Proof.
  intros (k & Hp & H2). split.
  - intros m Hm. rewrite <- Hp in Hm. apply list_elem_of_lookup in Hm as [i Hi].
    destruct (Forall2_lookup_l _ _ _ _ _ H2 Hi) as (m' & Hm' & Hr). exists m'. split; [by eapply list_elem_of_lookup_2|done].
  - intros m' Hm. apply list_elem_of_lookup in Hm as [i Hi].
    destruct (Forall2_lookup_r _ _ _ _ _ H2 Hi) as (m & Hm & Hr). exists m. rewrite <- Hp.
    split; [by eapply list_elem_of_lookup_2|done].
Qed.

Lemma maps_in_shuffled ms ms' ns ns' : shuffled ms ms' -> shuffled ns ns' -> maps_in ms' ns' <-> maps_in ms ns.
Proof.
  intros Hms Hns. destruct (shuffled_elem _ _ Hms) as [Mf Mb], (shuffled_elem _ _ Hns) as [Nf Nb]. split.
  - intros Hin n Hn. destruct (Nf n Hn) as (n' & Hn' & Ha & Hp). destruct (Hin n' Hn') as (m' & Hm' & Ham & Hs).
    destruct (Mb m' Hm') as (m & Hm & Ha' & Hp'). exists m. split_and!; [done|congruence|].
    intros v Hv. rewrite <- Hp in Hv. destruct (Hs v Hv) as (u & Hu & ?). exists u. by rewrite <- Hp'.
  - intros Hin n' Hn'. destruct (Nb n' Hn') as (n & Hn & Ha & Hp). destruct (Hin n Hn) as (m & Hm & Ham & Hs).
    destruct (Mf m Hm) as (m' & Hm' & Ha' & Hp'). exists m'. split_and!; [done|congruence|].
    intros v Hv. rewrite Hp in Hv. destruct (Hs v Hv) as (u & Hu & ?). exists u. by rewrite Hp'.
Qed.

Lemma maps_in_digests ms ns : maps_in ms ns -> digests_in ms ns.
Proof. intros Hin n v Hn Hv. destruct (Hin n Hn) as (m & Hm & _ & Hs). destruct (Hs v Hv) as (u & Hu & ?). by exists m, u. Qed.

Lemma digests_in_perm ms ms' ns ns' : ms ≡ₚ ms' -> ns ≡ₚ ns' -> digests_in ms ns -> digests_in ms' ns'.
Proof. intros Hm Hn Hin n v Hnn Hv. rewrite <- Hn in Hnn. destruct (Hin n v Hnn Hv) as (m & u & Hmm & ?). exists m, u. by rewrite <- Hm. Qed.
End Compare.

(** The soundness of [covered] needs no distinct addresses. *)
Lemma superset_maps_in `{Qsort} s t : is_lbr_kstate_superset s t = true -> maps_in (p_state_map s) (p_state_map t).
Proof.
  unfold is_lbr_kstate_superset. rewrite forallb_forall. setoid_rewrite <- list_elem_of_In.
  intros Hall n Hn. destruct (covered_sound _ _ (Hall n Hn)) as (m & Hm & Ha & Hs). exists m.
  split_and!; [done|done|]. by apply map_superset_spec.
Qed.


(** The comparison functions cut the difference to 32 bits: three addresses can
    go around in a circle, which [qsort] does not allow. *)
Lemma sort_kstate_maps_cyclic :
  let a := VMap 0 [] in let b := VMap 0x60000000 [] in let c := VMap 0xc0000000 [] in
  sort_kstate_maps_by_addr a b > 0 /\ sort_kstate_maps_by_addr b c > 0 /\ sort_kstate_maps_by_addr c a > 0.
Proof. vm_compute. done. Qed.

(** ** A concrete sort *)

Fixpoint insert_by {A} (cmp : A -> A -> Z) (a : A) (l : list A) : list A :=
  match l with [] => [a] | b :: l => if decide (cmp a b <= 0) then a :: b :: l else b :: insert_by cmp a l end.
Definition isort {A} (cmp : A -> A -> Z) (l : list A) : list A := foldr (insert_by cmp) [] l.

Lemma insert_by_perm {A} (cmp : A -> A -> Z) a l : insert_by cmp a l ≡ₚ a :: l.
Proof. induction l as [|b l IH]; cbn; [done|]. case_decide; [done|]. rewrite IH. apply Permutation_swap. Qed.

Lemma isort_perm {A} (cmp : A -> A -> Z) l : isort cmp l ≡ₚ l.
Proof. induction l as [|a l IH]; cbn; [done|]. by rewrite insert_by_perm, IH. Qed.

Lemma isort_sorted {A} (cmp : A -> A -> Z) l : consistent cmp l -> StronglySorted (fun a b => cmp a b <= 0) (isort cmp l).
Proof.
  intros [Hanti Htrans]. assert (forall k, (forall a, a ∈ k -> a ∈ l) -> StronglySorted (fun a b => cmp a b <= 0) (isort cmp k)) as Hgen; [|by apply Hgen].
  induction k as [|a k IH]; intros Hk; [constructor|]. change (isort cmp (a :: k)) with (insert_by cmp a (isort cmp k)).
  assert (StronglySorted (fun a b => cmp a b <= 0) (isort cmp k)) as Hs by (apply IH; intros b Hb; apply Hk; by right).
  assert (forall b, b ∈ isort cmp k -> b ∈ l) as Hsub by (intros b Hb; rewrite isort_perm in Hb; apply Hk; by right).
  assert (a ∈ l) as Ha by (apply Hk; left). clear IH Hk. revert Hs Hsub.
  generalize (isort cmp k). intros m Hs Hsub. induction Hs as [|b m Hs IH Hb]; cbn; [constructor; constructor|].
  assert (b ∈ l) as Hbl by (apply Hsub; left). case_decide as Hc.
  - constructor; [by constructor|]. constructor; [done|]. apply Forall_forall. intros c Hcm.
    apply (Htrans a b c); [done|done|apply Hsub; by right|done|]. by apply (proj1 (Forall_forall _ _) Hb).
  - constructor; [apply IH; intros c Hcm; apply Hsub; by right|]. apply Forall_forall. intros c Hcm. rewrite insert_by_perm in Hcm.
    apply elem_of_cons in Hcm as [->|Hcm]; [|by apply (proj1 (Forall_forall _ _) Hb)].
    assert (cmp b a < 0) by (apply (proj1 (Hanti a b Ha Hbl)); lia). lia.
Qed.

#[export] Instance isort_qsort : Qsort := {| qsort := @isort; qsort_perm := @isort_perm; qsort_sorted := @isort_sorted |}.

