(* ===== verification/Precompute.v ===== *)
(** The way from the control-flow graph to a state file: [get_lbr_states] and
    [generate_lbr_kstates] in sequence.  The contract of the two together: the
    state maps of the file hold the windows of the complete backward paths
    of the dangerous functions, and nothing else. *)

From stdpp Require Import sorting relations.
From S2P Require Import Prelude Slots Lbr LbrState StateFile Cfg CfgInv JitPath Enum EnumProps Kstates.
Import Paths.

Section Windows.
Context (s : CFG) (w : Z) (Hwf : cfg_wf s) (Hw : 1 < w <= 16).

(** [l] is a backward path that is written down for the function [f]. *)
Definition path_of (c : LBRConfig) (f : Z) (l : list Z) : Prop :=
  exists x k p, f ∈ map_in_order (c_functions s) /\ dangerous s c f = true /\ c_fns s !! f = Some x /\
    root s (cf_window c) x k p /\ traces s (cf_window c) p l /\ complete s (cf_window c) l /\ window s l <> [].

(** A path never has more indirect branches than the window. *)
Lemma traces_length p l : traces s w p l -> Z.of_nat (length (indirects s l)) <= w.
Proof.
  intros (b & e & _ & _ & Hr).
  apply (rtc_ind_r (R := grows s w) (fun l => Z.of_nat (length (indirects s l)) <= w) [e]); [| |exact Hr].
  - rewrite indirects_cons. change (indirects s []) with (@nil Z). destruct (indirect s e); cbn; lia.
  - intros l1 l2 _ Hg IH. destruct Hg as [l1 b1 f y _ Hf _ _ _ _ _]. unfold full in Hf. rewrite indirects_cons.
    destruct (indirect s f); cbn [length]; lia.
Qed.

Lemma window_length l : length (window s l) = length (indirects s l).
Proof. unfold window. apply length_rev. Qed.
End Windows.

(** From the graph to the file. *)
Lemma precompute_spec md4 s c :
  cfg_wf s -> bb_ids_distinct s -> no_collision s -> 1 < cf_window c <= 16 ->
  no_digest_collision md4 s (fun t => exists f l, path_of s c f l /\ window s l = t) ->
  (forall e, edge_ok s e -> Digest.pair_u64 (branch s e)) ->
  (forall f, dangerous s c f = true -> (String.length (fn_name s f) < 16)%nat) ->
  exists m ks, get_lbr_states s c = Some m /\ reads (generate_lbr_kstates md4 m) s ks /\
    (forall f l, path_of s c f l -> exists sm t, sm ∈ p_state_map ks /\ sm_to sm = target0 s (window s l) /\
       kstate md4 s t ∈ sm_state sm /\ padded s t = padded s (window s l)) /\
    (forall sm v, sm ∈ p_state_map ks -> v ∈ sm_state sm -> sm = VMap 0 [kstate md4 s []] \/
       exists f l, path_of s c f l /\ v = kstate md4 s (window s l) /\ sm_to sm = target0 s (window s l)).
Proof.
  intros Hwf Hids Hcol Hw Hmd4 Hu64 Hnames.
  destruct (get_states_of_spec s c Hwf Hids Hcol Hw (map_in_order (c_functions s)) []) as (m & Hm & Hfs & Hex).
  { apply Forall_forall. intros f (a & Ha)%elem_of_map_in_order.
    destruct (wf_functions _ Hwf a f Ha) as (x & Hx & _). by exists x. }
  cbn in Hm.
  assert (forall ss, ss ∈ m -> ss_func ss ∈ map_in_order (c_functions s) /\ dangerous s c (ss_func ss) = true) as Hdang.
  { intros ss Hss. assert (ss_func ss ∈ ss_func <$> m) as Hin by (apply list_elem_of_fmap; by exists ss).
    rewrite Hfs in Hin. apply list_elem_of_filter in Hin. tauto. }
  assert (forall t, t ∈ concat (ss_state <$> m) <-> exists f l, path_of s c f l /\ window s l = t) as Hts.
  { intros t. rewrite list_elem_of_In, in_concat. split.
    - intros (ts & Hss & Ht). apply list_elem_of_In in Hss, Ht. apply list_elem_of_fmap in Hss as (ss & -> & Hss).
      destruct (proj1 (Forall_forall _ _) Hex ss Hss) as (_ & x & Hx & Hiff).
      destruct (proj1 (Hiff t) Ht) as (Hne & k & p & l & Hr & Htr & Hc & Hwin). destruct (Hdang ss Hss) as [Hf Hd].
      exists (ss_func ss), l. split; [|exact Hwin]. exists x, k, p. by rewrite Hwin.
    - intros (f & l & (x & k & p & Hf & Hd & Hx & Hr & Htr & Hc & Hne) & <-).
      assert (f ∈ ss_func <$> m) as (ss & -> & Hss)%list_elem_of_fmap by (rewrite Hfs; by apply list_elem_of_filter).
      exists (ss_state ss). split; [apply list_elem_of_In, list_elem_of_fmap; by exists ss|]. apply list_elem_of_In.
      destruct (proj1 (Forall_forall _ _) Hex ss Hss) as (_ & x' & Hx' & Hiff). rewrite Hx in Hx'. apply (inj Some) in Hx' as <-.
      apply Hiff. split; [done|]. by exists k, p, l. }
  assert (Forall (fun t => state_ok s t /\ branches_u64 s t) (concat (ss_state <$> m))) as Hok.
  { apply Forall_forall. intros t (f & l & (x & k & p & _ & _ & _ & _ & Htr & _ & Hne) & <-)%Hts.
    assert (forall e, e ∈ window s l -> edge_ok s e) as He by (intros e He%window_elem; by eapply traces_ok).
    split; [split; [done|split; [|done]]|].
    - rewrite window_length. pose proof (traces_length s (cf_window c) Hw p l Htr). lia.
    - apply Forall_forall. intros pr (e & -> & Hin)%list_elem_of_fmap. auto. }
  assert (Forall (fun ss => fn_ok s (ss_func ss) /\ (String.length (fn_name s (ss_func ss)) < 16)%nat) m) as Hfn.
  { apply Forall_forall. intros ss Hss. destruct (Hdang ss Hss) as [_ Hd]. split; [|auto].
    destruct (proj1 (Forall_forall _ _) Hex ss Hss) as (_ & x & Hx & _). by exists x. }
  destruct (generate_groups md4 s m Hwf) as (groups & Hgen & _ & Hgrp & Hall);
    [intros t u Ht%Hts Hu%Hts; by apply Hmd4|exact Hfn|exact Hok|].
  exists m. eexists. split; [exact Hm|]. split; [exact Hgen|]. cbn [p_state_map]. split.
  - intros f l Hp. assert (window s l ∈ concat (ss_state <$> m)) as Hin by (apply Hts; eauto).
    pose proof (Hall _ Hin) as Hk. apply list_elem_of_fmap in Hk as ([a grp] & Ha & Hg). cbn in Ha. subst a.
    destruct (Hgrp _ _ Hg) as (_ & _ & _ & Hcomp). destruct (Hcomp _ Hin eq_refl) as (u & Hu & Hpad).
    exists (VMap (target0 s (window s l)) (kstate md4 s <$> grp)), u. split_and!; [|reflexivity| |done].
    + apply elem_of_app. left. apply list_elem_of_fmap. exists (target0 s (window s l), grp). split; [reflexivity|done].
    + cbn. apply list_elem_of_fmap. by exists u.
  - intros sm v [Hsm|Hsm]%elem_of_app Hv; [|left; by apply list_elem_of_singleton in Hsm]. right.
    apply list_elem_of_fmap in Hsm as ([a grp] & -> & Hg). cbn in Hv. apply list_elem_of_fmap in Hv as (t & -> & Ht).
    destruct (Hgrp _ _ Hg) as (_ & _ & Hsound & _). destruct (Hsound t Ht) as [Hin <-].
    apply Hts in Hin as (f & l & Hp & <-). exists f, l. done.
Qed.


(** Both conditions on the edges and functions of a graph are finite checks. *)
Lemma pair_u64_check s :
  map_Forall (fun e _ => Digest.pair_u64 (branch s e)) (c_edges s) -> forall e, edge_ok s e -> Digest.pair_u64 (branch s e).
Proof. intros Hall e [x Hx]. exact (Hall e x Hx). Qed.

Lemma names_check s :
  map_Forall (fun f x => (String.length (f_name x) < 16)%nat) (c_fns s) -> forall f, (String.length (fn_name s f) < 16)%nat.
Proof. intros Hall f. unfold fn_name. destruct (c_fns s !! f) as [x|] eqn:Hx; cbn; [exact (Hall f x Hx)|lia]. Qed.

