(* ===== verification/Simplify.v ===== *)
(** Simplification of the control-flow graph: [create_fastpath],
    [collapse_function] and [simplify_cfg] of dyninst-static/lbr_analysis.C.

    The edges inside functions are hidden, and every block of a function gets an
    edge, a fastpath, to each block in reach where the function can be left.
    The theorems say which edges are hidden and which fastpaths appear, and that
    the sequences of function exits along the visible paths stay the same. *)

From stdpp Require Import sorting relations.
From S2P Require Import Prelude Cfg CfgInv JitPath.

(** ** Operations *)

Definition edge_is_function_exit (x : ArmsEdge) : bool := edge_is_indirect x || edge_is_return x || edge_is_call x.
Definition edge_is_fastpath (x : ArmsEdge) : bool := is_fastpath x.

(** The queue [Q], the blocks marked in [V], and [exits[bb]], which is used only
    while [bb] is searched from. *)
Record bfs := BFS { q_todo : list Z; q_seen : gset Z; q_exits : list Z }.

Section Collapse.
Context `{Malloc}.

(** [None] for -1, out of memory. *)
Definition create_fastpath (bb cc : Z) : M (option unit) :=
  f ← create_and_add_edge bb cc;
  if decide (f = NULL) then mret None else set_type f arms_fastpath;; mret (Some tt).

Definition note_exit (bb cc : Z) (t : bfs) : M (option bfs) :=
  if decide (cc ∈ q_exits t) then mret (Some t) else
  let t' := BFS (q_todo t) (q_seen t) (q_exits t ++ [cc]) in
  if decide (bb = cc) then mret (Some t') else
  r ← create_fastpath bb cc;
  match r with None => mret None | Some _ => mret (Some t') end.

Definition schedule (dd : Z) (t : bfs) : bfs :=
  if decide (dd ∈ q_seen t) then t else BFS (q_todo t ++ [dd]) ({[dd]} ∪ q_seen t) (q_exits t).

(** The loop over the outgoing edges of [cc].  A fastpath is added to [bb] only
    if [bb] is not [cc], so the loop walks a fixed set. *)
Fixpoint scan_edges (bb cc : Z) (es : list Z) (t : bfs) : M (option bfs) :=
  match es with
  | [] => mret (Some t)
  | e :: es =>
      x ← edge_at e;
      if edge_is_fastpath x then scan_edges bb cc es t else
      if edge_is_function_exit x then
        r ← note_exit bb cc t;
        match r with None => mret None | Some t => scan_edges bb cc es t end
      else set_hidden e true;; scan_edges bb cc es (schedule (e_target x) t)
  end.

(** The breadth-first search from [bb]. *)
Fixpoint search_exits (fuel : nat) (bb : Z) (t : bfs) : M (option bfs) :=
  match q_todo t, fuel with
  | [], _ => mret (Some t)
  | _, O => undefined
  | cc :: todo, S fuel =>
      let t := BFS todo (q_seen t) (q_exits t) in
      n ← outgoing_edge_count cc;
      r ← (if decide (n = 0%nat) then note_exit bb cc t else mret (Some t));
      match r with
      | None => mret None
      | Some t =>
          es ← outgoing_edges cc; r ← scan_edges bb cc es t;
          match r with None => mret None | Some t => search_exits fuel bb t end
      end
  end.

Fixpoint collapse_blocks (blocks : list Z) : M Z :=
  match blocks with
  | [] => mret 0
  | bb :: blocks =>
      fuel ← gets (fun s => size (c_bbs s));
      r ← search_exits fuel bb (BFS [bb] {[bb]} []);
      match r with None => mret (-1) | Some _ => collapse_blocks blocks end
  end.

(** The blocks are taken from the end of the vector. *)
Definition collapse_function (f : Z) : M Z :=
  x ← fn_at f;
  if f_plt x || f_lib_dummy x then mret 0 else collapse_blocks (rev (in_order (f_bbs x))).

(** [foreach_function] with a callback whose result ends the loop unless it is 0. *)
Fixpoint foreach_until (callback : Z -> M Z) (fs : list Z) : M Z :=
  match fs with
  | [] => mret 0
  | f :: fs => ret ← callback f; if decide (ret <> 0) then mret ret else foreach_until callback fs
  end.

(** [false] for NULL. *)
Definition simplify_cfg : M bool :=
  fs ← gets (fun s => map_in_order (c_functions s));
  ret ← foreach_until collapse_function fs; mret (bool_decide (0 <= ret)).

End Collapse.

(** ** What is hidden and what is added *)

Definition internal (x : ArmsEdge) : bool := negb (edge_is_fastpath x) && negb (edge_is_function_exit x).
Definition leaves (x : ArmsEdge) : bool := negb (edge_is_fastpath x) && edge_is_function_exit x.

Definition hide (x : ArmsEdge) : ArmsEdge :=
  Edge (e_id x) true (e_source x) (e_target x) (e_type x) (e_replaced x) (e_intra x).

(** The block is the one its start address leads to. *)
Definition stored (s : CFG) (p : Z) : bool :=
  match c_bbs s !! p with
  | Some b => from_option (fun c => bool_decide (b_id c = b_id b)) false (r ← c_start2bb s !! b_start b; c_bbs s !! r)
  | None => false
  end.

(** So it is for the blocks of functions and the targets of edges inside functions. *)
Definition all_stored (s : CFG) : Prop :=
  map_Forall (fun _ x => set_Forall (fun p => stored s p = true) (f_bbs x)) (c_fns s) /\
  map_Forall (fun _ x => internal x = true -> stored s (e_target x) = true) (c_edges s).

(** [s] is [s0] with the edges [H] hidden and the fastpaths [F] added, each
    from a block that had an edge. *)
Record patched (s0 s : CFG) (H : gset Z) (F : gmap Z (Z * Z)) : Prop := {
  pt_good : good s0 s;
  pt_old e x : c_edges s0 !! e = Some x -> c_edges s !! e = Some (if decide (e ∈ H) then hide x else x);
  pt_new e p q : F !! e = Some (p, q) -> c_edges s0 !! e = None /\
    exists i, c_edges s !! e = Some (Edge i false p q arms_fastpath [] (Some true));
  pt_only e x : c_edges s !! e = Some x -> edge_ok s0 e \/ is_Some (F !! e);
  pt_bb r : c_bbs s0 !! r = None -> c_bbs s !! r = None;
  pt_ends r b : c_bbs s0 !! r = Some b -> exists b', c_bbs s !! r = Some b' /\ same_bb b b' /\
    (forall e, e ∈ b_out b' <-> e ∈ b_out b \/ exists q, F !! e = Some (r, q)) /\
    (forall e, e ∈ b_in b' <-> e ∈ b_in b \/ exists q, F !! e = Some (q, r));
  pt_source e p q b : F !! e = Some (p, q) -> c_bbs s0 !! p = Some b -> b_out b <> ∅;
  pt_start2bb : c_start2bb s = c_start2bb s0;
  pt_functions : c_functions s = c_functions s0;
  pt_fns : c_fns s = c_fns s0
}.

Section Patched.
Context {Ma : Malloc} (s0 : CFG) (Hwf0 : cfg_wf s0).

Lemma patched_refl : patched s0 s0 ∅ ∅.
Proof.
  split; try done.
  - intros e x Hx. left. by exists x.
  - intros r b Hb. exists b. split_and!; [done|same|..]; intros e; (split; [by left|]);
      intros [?|[q Hq]]; done.
Qed.

Lemma patched_hide s H F e x : patched s0 s H F -> c_edges s0 !! e = Some x ->
  wp (set_hidden e true) (fun _ s' => patched s0 s' ({[e]} ∪ H) F) s.
Proof.
  intros P Hx. pose proof (pt_old _ _ _ _ P e x Hx) as He. set (y := if decide (e ∈ H) then hide x else x) in *.
  eapply wp_mono; [apply (wp_on_edge s e y); [apply P|exact He|same]|]. intros _ s' [G ->].
  assert (hide y = hide x) as Hy by (unfold y; case_decide; done). fold (hide y) in *. rewrite Hy in *.
  destruct P as [G0 Old New Only Bb Ends Src S2 Fu Fn]. split; cbn [set_edges c_edges c_bbs c_start2bb c_functions c_fns]; try done.
  - eapply good_trans; [exact G0|exact G].
  - intros f z Hz. destruct (decide (f = e)) as [->|Hne].
    + rewrite lookup_insert_eq, decide_True by set_solver. congruence.
    + rewrite lookup_insert_ne by done. rewrite (Old f z Hz). f_equal.
      destruct (decide (f ∈ H)); [by rewrite decide_True by set_solver|by rewrite decide_False by set_solver].
  - intros f p q Hf. destruct (New f p q Hf) as [Hn He']. split; [done|]. rewrite lookup_insert_ne; [done|congruence].
  - intros f z Hz. destruct (decide (f = e)) as [->|Hne]; [left; by exists x|]. rewrite lookup_insert_ne in Hz by done. by apply (Only f z).
Qed.

Lemma patched_stored s H F p : patched s0 s H F -> stored s0 p = true -> stored s p = true.
Proof.
  intros P. unfold stored. destruct (c_bbs s0 !! p) as [b|] eqn:Hb; [|done].
  destruct (c_start2bb s0 !! b_start b) as [r|] eqn:Hr; [|done]. cbn. destruct (c_bbs s0 !! r) as [c|] eqn:Hc; [|done]. cbn.
  destruct (pt_ends _ _ _ _ P p b Hb) as (b' & -> & (Hi & Hs & _) & _). rewrite (pt_start2bb _ _ _ _ P), Hs, Hr. cbn.
  destruct (pt_ends _ _ _ _ P r c Hc) as (c' & -> & (Hi' & _) & _). cbn. by rewrite Hi, Hi'.
Qed.

(** A block in the index is not stored again. *)
Lemma reads_store_if_missing s p : cfg_wf s -> stored s p = true -> store_if_missing p s = Some (tt, s).
Proof.
  intros Hwf Hst. unfold stored in Hst. destruct (c_bbs s !! p) as [b|] eqn:Hb; [|done].
  destruct (c_start2bb s !! b_start b) as [r|] eqn:Hr; [|done]. cbn in Hst. destruct (c_bbs s !! r) as [c|] eqn:Hc; [|done].
  cbn in Hst. assert (r <> NULL) as Hn by (eapply ok_not_null; [done|left; by exists c]).
  change (reads (store_if_missing p) s tt). unfold store_if_missing.
  eapply reads_bind; [by apply reads_bb_at|]. eapply reads_bind; [apply reads_gets|]. rewrite Hr. cbn [default from_option id].
  rewrite decide_False by done. eapply reads_bind; [apply reads_ret|]. eapply reads_bind; [apply reads_gets|].
  rewrite Hr. cbn [default from_option id]. eapply reads_bind.
  - unfold equals_bb. eapply reads_bind; [by apply reads_bb_at|]. eapply reads_bind; [by apply reads_bb_at|]. apply reads_ret.
  - by rewrite Hst.
Qed.

Lemma stored_ok s p : stored s p = true -> bb_ok s p.
Proof. unfold stored. destruct (c_bbs s !! p) as [b|] eqn:Hb; [by exists b|done]. Qed.

Lemma patched_link s H F s1 s2 p q f x b :
  patched s0 s H F -> c_bbs s0 !! p = Some b -> b_out b <> ∅ -> linked_to s s1 p q f x ->
  x = Edge (e_id x) false p q arms_unknown [] (Some true) ->
  good s s2 -> s2 = set_edges (<[f := set_type_of arms_fastpath x]> (c_edges s1)) s1 ->
  F !! f = None /\ patched s0 s2 H (<[f := (p, q)]> F).
Proof.
  intros P Hb Hne L Hx G ->. rewrite (lk_edges _ _ _ _ _ _ L) in *. rewrite insert_insert_eq in *.
  pose proof (lk_fresh _ _ _ _ _ _ L) as Hf. destruct P as [G0 Old New Only Bb Ends Src S2 Fu Fn].
  assert (F !! f = None) as HF.
  { destruct (F !! f) as [[p' q']|] eqn:Hq; [|done]. destruct (New f p' q' Hq) as (_ & i & Hi). congruence. }
  split; [done|]. split; cbn [set_edges c_edges c_bbs c_start2bb c_functions c_fns].
  - by eapply good_trans.
  - intros e y Hy. specialize (Old e y Hy). rewrite lookup_insert_ne; [done|congruence].
  - intros e p' q' He. destruct (decide (e = f)) as [->|Hef].
    + rewrite lookup_insert_eq in He. injection He as <- <-. rewrite lookup_insert_eq. split.
      * destruct (c_edges s0 !! f) as [y|] eqn:Hy; [|done]. specialize (Old f y Hy). congruence.
      * exists (e_id x). by rewrite Hx.
    + rewrite lookup_insert_ne in He by done. rewrite lookup_insert_ne by done. by apply New.
  - intros e y Hy. destruct (decide (e = f)) as [->|Hef]; [right; rewrite lookup_insert_eq; by eexists|].
    rewrite lookup_insert_ne in Hy by done. rewrite lookup_insert_ne by done. by apply (Only e y).
  - intros r Hr. rewrite (lk_bbs _ _ _ _ _ _ L), (Bb r Hr). done.
  - intros r c Hc. destruct (Ends r c Hc) as (c' & Hc' & Hs & Ho & Hi). eexists.
    split; [by rewrite (lk_bbs _ _ _ _ _ _ L), Hc'|]. split; [exact Hs|]. cbn [link_bb ends_bb b_out b_in].
    split; intros e; case_decide as Hr; rewrite ?elem_of_union, ?elem_of_singleton, ?Ho, ?Hi;
      (destruct (decide (e = f)) as [->|Hef]; [rewrite lookup_insert_eq, HF|rewrite lookup_insert_ne by done]); naive_solver.
  - intros e p' q' c He Hc. destruct (decide (e = f)) as [->|Hef].
    + rewrite lookup_insert_eq in He. injection He as <- <-. congruence.
    + rewrite lookup_insert_ne in He by done. by apply (Src e p' q' c).
  - by rewrite (lk_start2bb _ _ _ _ _ _ L).
  - by rewrite (lk_functions _ _ _ _ _ _ L).
  - by rewrite (lk_fns _ _ _ _ _ _ L).
Qed.

Lemma patched_fastpath s H F p q b :
  patched s0 s H F -> stored s0 p = true -> stored s0 q = true -> c_bbs s0 !! p = Some b -> b_out b <> ∅ ->
  wp (create_fastpath p q) (fun r s' => r = Some tt /\ exists f, F !! f = None /\ patched s0 s' H (<[f := (p, q)]> F)) s.
Proof.
  intros P Hp Hq Hb Hne. pose proof (proj1 (pt_good _ _ _ _ P)) as Hwf.
  apply (patched_stored s H F _ P) in Hp, Hq. pose proof (stored_ok s p Hp) as Hpo. pose proof (stored_ok s q Hq) as Hqo.
  unfold create_fastpath, create_and_add_edge. rewrite decide_False.
  2: { intros [->| ->]; [apply (ok_not_null s NULL)|apply (ok_not_null s NULL)]; auto. }
  apply wp_bind. eapply wp_reads; [by apply reads_store_if_missing|]. eapply wp_reads; [by apply reads_store_if_missing|].
  eapply wp_mono; [by apply wp_link|]. cbn beta. intros f s1 (G1 & x & L & Hh & Ht & Hi & Hr).
  rewrite decide_False by apply L. eapply wp_bind, wp_mono.
  { apply (wp_on_edge s1 f x); [by eapply good_wf|rewrite (lk_edges _ _ _ _ _ _ L); apply lookup_insert_eq|same]. }
  cbn beta. intros _ s2 [G2 E2]. apply wp_ret. split; [done|]. exists f.
  eapply (patched_link s H F s1 s2 p q f x b); try done; [|by eapply good_trans].
  pose proof (lk_source _ _ _ _ _ _ L). pose proof (lk_target _ _ _ _ _ _ L). destruct x; cbn in *; congruence.
Qed.
End Patched.

(** ** Fastpaths that are added *)

(** From [F] to [F'], exactly one or more fastpaths for every pair in [R]. *)
Record added (R : Z -> Z -> Prop) (F F' : gmap Z (Z * Z)) : Prop := {
  ad_sub : F ⊆ F';
  ad_sound e p q : F !! e = None -> F' !! e = Some (p, q) -> R p q;
  ad_complete p q : R p q -> exists e, F !! e = None /\ F' !! e = Some (p, q)
}.

Definition once (F F' : gmap Z (Z * Z)) : Prop :=
  forall e e' r, F !! e = None -> F !! e' = None -> F' !! e = Some r -> F' !! e' = Some r -> e = e'.

Lemma added_nil (R : Z -> Z -> Prop) F : (forall p q, ~ R p q) -> added R F F /\ once F F.
Proof. intros HR. split; [split; [done|congruence|by intros p q ?%HR]|intros e e' r; congruence]. Qed.

Lemma added_trans (R1 R2 R : Z -> Z -> Prop) F1 F2 F3 :
  added R1 F1 F2 -> added R2 F2 F3 -> (forall p q, R p q <-> R1 p q \/ R2 p q) -> added R F1 F3.
Proof.
  intros [S1 O1 C1] [S2 O2 C2] HR. split.
  - by transitivity F2.
  - intros e p q He Hq. apply HR. destruct (F2 !! e) as [r|] eqn:H2; [left|right; eauto].
    pose proof (lookup_weaken _ _ _ _ H2 S2) as H3. apply (O1 e); congruence.
  - intros p q [HR1|HR2]%HR; [destruct (C1 p q HR1) as (e & He & Hq)|destruct (C2 p q HR2) as (e & He & Hq)]; exists e.
    + split; [done|]. by eapply lookup_weaken.
    + split; [|done]. eapply lookup_weaken_None; [exact He|exact S1].
Qed.

Lemma once_trans (R1 R2 : Z -> Z -> Prop) F1 F2 F3 :
  added R1 F1 F2 -> added R2 F2 F3 -> (forall p q, R1 p q -> ~ R2 p q) -> once F1 F2 -> once F2 F3 -> once F1 F3.
Proof.
  intros [S1 O1 C1] [S2 O2 C2] HR H1 H2 e e' [p q] He He' Hr Hr'.
  destruct (F2 !! e) as [r|] eqn:Ee, (F2 !! e') as [r'|] eqn:Ee'.
  - pose proof (lookup_weaken _ _ _ _ Ee S2). pose proof (lookup_weaken _ _ _ _ Ee' S2). apply (H1 e e' r); congruence.
  - pose proof (lookup_weaken _ _ _ _ Ee S2) as He3. rewrite Hr in He3. injection He3 as <-.
    destruct (HR p q); [by apply (O1 e)|by apply (O2 e')].
  - pose proof (lookup_weaken _ _ _ _ Ee' S2) as He3. rewrite Hr' in He3. injection He3 as <-.
    destruct (HR p q); [by apply (O1 e')|by apply (O2 e)].
  - by apply (H2 e e' (p, q)).
Qed.

Lemma added_ext (R R' : Z -> Z -> Prop) F F' : (forall p q, R p q <-> R' p q) -> added R F F' -> added R' F F'.
Proof. intros HR [S1 O1 C1]. split; [done| |]; intros; [apply HR; eauto|by apply C1, HR]. Qed.

(** One more pair. *)
Lemma added_insert (R : Z -> Z -> Prop) F F' f p q :
  added R F F' -> once F F' -> ~ R p q -> F' !! f = None ->
  added (fun p' q' => R p' q' \/ p' = p /\ q' = q) F (<[f := (p, q)]> F') /\ once F (<[f := (p, q)]> F').
Proof.
  intros A O HR Hf.
  assert (added (fun p' q' => p' = p /\ q' = q) F' (<[f := (p, q)]> F') /\ once F' (<[f := (p, q)]> F')) as [A1 O1].
  { split; [split|].
    - by apply insert_subseteq.
    - intros e p' q' He Hq. destruct (decide (e = f)) as [->|Hne]; [|rewrite lookup_insert_ne in Hq by done; congruence].
      rewrite lookup_insert_eq in Hq. by injection Hq as <- <-.
    - intros ? ? [-> ->]. exists f. split; [done|apply lookup_insert_eq].
    - intros e e' r He He' Hr Hr'. assert (forall e, F' !! e = None -> <[f := (p, q)]> F' !! e = Some r -> e = f) as Hall.
      { intros d Hd Hd'. destruct (decide (d = f)); [done|]. rewrite lookup_insert_ne in Hd' by done. congruence. }
      by rewrite (Hall e), (Hall e'). }
  split; [by eapply added_trans|]. eapply once_trans; [exact A|exact A1| |done|done]. by intros p' q' HR' [-> ->].
Qed.

(** ** The search *)

Section BFS.
Context {Ma : Malloc} (s0 : CFG) (Hwf0 : cfg_wf s0) (Hst : all_stored s0).

Definition out_edge (p e : Z) (x : ArmsEdge) : Prop :=
  exists b, c_bbs s0 !! p = Some b /\ e ∈ b_out b /\ c_edges s0 !! e = Some x.

(** One step inside a function; where a function can be left. *)
Definition inner (p q : Z) : Prop := exists e x, out_edge p e x /\ internal x = true /\ e_target x = q.
Definition exit_block (p : Z) : Prop :=
  exists b, c_bbs s0 !! p = Some b /\ (b_out b = ∅ \/ exists e x, out_edge p e x /\ leaves x = true).

(** The pairs a fastpath is made for, and the edges that are hidden. *)
Definition fastpath (p q : Z) : Prop := rtc inner p q /\ exit_block q /\ p <> q.
Definition inner_edge (p e : Z) : Prop := exists q x, rtc inner p q /\ out_edge q e x /\ internal x = true.

Lemma inner_stored p q : stored s0 p = true -> rtc inner p q -> stored s0 q = true.
Proof.
  intros Hp Hr. apply (rtc_ind_r (R := inner) (fun q => stored s0 q = true) p); [done| |exact Hr].
  intros y z _ (e & x & (b & _ & _ & Hx) & Hi & <-) _. by apply (proj2 Hst _ _ Hx).
Qed.

Lemma fastpath_out p q b : rtc inner p q -> p <> q -> c_bbs s0 !! p = Some b -> b_out b <> ∅.
Proof.
  intros Hr Hne Hb. destruct Hr as [|p r q (e & x & (b' & Hb' & He & _) & _) _]; [done|].
  rewrite Hb in Hb'. apply (inj Some) in Hb' as <-. intros Hempty. rewrite Hempty in He. by apply elem_of_empty in He.
Qed.

Lemma note_exit_spec bb cc t s H F0 F :
  patched s0 s H F -> stored s0 bb = true -> rtc inner bb cc ->
  added (fun p q => p = bb /\ q ∈ q_exits t /\ bb <> q) F0 F -> once F0 F ->
  wp (note_exit bb cc t) (fun r s' => exists l F', r = Some (BFS (q_todo t) (q_seen t) l) /\
    (forall q, q ∈ l <-> q ∈ q_exits t \/ q = cc) /\ patched s0 s' H F' /\ F ⊆ F' /\
    added (fun p q => p = bb /\ q ∈ l /\ bb <> q) F0 F' /\ once F0 F') s.
Proof.
  intros P Hbb Hr A O. unfold note_exit. destruct (decide (cc ∈ q_exits t)) as [Hin|Hin].
  { apply wp_ret. exists (q_exits t), F. split_and!; try done; [by destruct t|]. intros q. split; [by left|]. by intros [?| ->]. }
  assert (forall q, q ∈ q_exits t ++ [cc] <-> q ∈ q_exits t \/ q = cc) as Hl.
  { intros q. by rewrite elem_of_app, list_elem_of_singleton. }
  destruct (decide (bb = cc)) as [<-|Hne].
  { apply wp_ret. exists (q_exits t ++ [bb]), F. split_and!; try done.
    eapply added_ext; [|exact A]. intros p q. cbn beta. rewrite Hl. naive_solver. }
  destruct (stored_ok s0 bb Hbb) as [b Hb].
  eapply wp_bind, wp_mono; [apply (patched_fastpath s0 s H F bb cc b)|];
    [done|done|by eapply inner_stored|done|by eapply fastpath_out|].
  cbn beta. intros r s' (-> & f & Hf & P'). apply wp_ret. exists (q_exits t ++ [cc]), (<[f := (bb, cc)]> F).
  destruct (added_insert _ F0 F f bb cc A O) as [A' O']; [tauto|done|].
  split_and!; try done; [by apply insert_subseteq|].
  eapply added_ext; [|exact A']. intros p q. cbn beta. rewrite Hl. naive_solver.
Qed.

(** The internal edges among [es], and whether one of them leaves. *)
Definition inner_in (es : list Z) (e : Z) (x : ArmsEdge) : Prop := e ∈ es /\ c_edges s0 !! e = Some x /\ internal x = true.
Definition leaves_in (es : list Z) : Prop := exists e x, e ∈ es /\ c_edges s0 !! e = Some x /\ leaves x = true.

(** What scanning [es] does to the search and to the hidden edges. *)
Record scanned (es : list Z) (cc : Z) (t t' : bfs) (H H' : gset Z) : Prop := {
  sc_hidden e : e ∈ H' <-> e ∈ H \/ exists x, inner_in es e x;
  sc_seen q : q ∈ q_seen t' <-> q ∈ q_seen t \/ exists e x, inner_in es e x /\ e_target x = q;
  sc_todo q : q ∈ q_todo t' <-> q ∈ q_todo t \/ q ∈ q_seen t' /\ q ∉ q_seen t;
  sc_size : (size (q_seen t') + length (q_todo t) = size (q_seen t) + length (q_todo t'))%nat;
  sc_exits q : q ∈ q_exits t' <-> q ∈ q_exits t \/ q = cc /\ leaves_in es
}.

Lemma scanned_skip e es cc t t' H H' :
  (forall x, c_edges s0 !! e = Some x -> internal x = false /\ leaves x = false) ->
  scanned es cc t t' H H' -> scanned (e :: es) cc t t' H H'.
Proof.
  intros Hx [S1 S2 S3 S4 S5].
  assert (forall f x, inner_in (e :: es) f x <-> inner_in es f x) as Hi.
  { intros f x. unfold inner_in. rewrite elem_of_cons. split; [|tauto]. intros ([->|?] & Hf & Ht); [|done].
    destruct (Hx x Hf). congruence. }
  assert (leaves_in (e :: es) <-> leaves_in es) as Hl.
  { unfold leaves_in. setoid_rewrite elem_of_cons. split; [|naive_solver]. intros (f & x & [->|?] & Hf & Ht); [|eauto].
    destruct (Hx x Hf). congruence. }
  split; [|intros q..|done|intros q]; [intros f|..]; rewrite ?S1, ?S2, ?S3, ?S5, ?S2, ?Hl; repeat setoid_rewrite Hi; tauto.
Qed.

Lemma scanned_exit e x es cc t l t' H H' :
  c_edges s0 !! e = Some x -> leaves x = true -> (forall q, q ∈ l <-> q ∈ q_exits t \/ q = cc) ->
  scanned es cc (BFS (q_todo t) (q_seen t) l) t' H H' -> scanned (e :: es) cc t t' H H'.
Proof.
  intros Hx Hlv Hl [S1 S2 S3 S4 S5]. cbn [q_todo q_seen q_exits] in *.
  assert (internal x = false) as Hin by (unfold leaves, internal in *; destruct (edge_is_fastpath x), (edge_is_function_exit x); done).
  assert (forall f y, inner_in (e :: es) f y <-> inner_in es f y) as Hi.
  { intros f y. unfold inner_in. rewrite elem_of_cons. split; [|tauto]. intros ([->|?] & Hf & Ht); [|done]. congruence. }
  split; [intros f|intros q|intros q|done|intros q].
  - rewrite S1. by setoid_rewrite Hi.
  - rewrite S2. by setoid_rewrite Hi.
  - apply S3.
  - rewrite S5, Hl. split; [|naive_solver]. intros [[?| ->]|[-> (f & y & ? & ? & ?)]]; [by left|right|right]; (split; [done|]).
    + exists e, x. split; [left|done].
    + exists f, y. split; [by right|done].
Qed.

Lemma scanned_inner e x es cc t t' H H' :
  c_edges s0 !! e = Some x -> internal x = true ->
  scanned es cc (schedule (e_target x) t) t' ({[e]} ∪ H) H' -> scanned (e :: es) cc t t' H H'.
Proof.
  intros Hx Hin [S1 S2 S3 S4 S5].
  assert (leaves x = false) as Hlv by (unfold leaves, internal in *; destruct (edge_is_fastpath x), (edge_is_function_exit x); done).
  assert (forall f y, inner_in (e :: es) f y <-> f = e /\ y = x \/ inner_in es f y) as Hi.
  { intros f y. unfold inner_in. rewrite elem_of_cons. split.
    - intros ([->|?] & Hf & Ht); [left; split; [done|congruence]|by right].
    - intros [[-> ->]|?]; tauto. }
  assert (leaves_in (e :: es) <-> leaves_in es) as Hl.
  { unfold leaves_in. setoid_rewrite elem_of_cons. split; [|naive_solver]. intros (f & y & [->|?] & Hf & Ht); [|eauto].
    congruence. }
  assert (forall q, q ∈ q_seen (schedule (e_target x) t) <-> q ∈ q_seen t \/ e_target x = q) as Hseen.
  { intros q. unfold schedule. case_decide; cbn; [naive_solver|]. rewrite elem_of_union, elem_of_singleton. naive_solver. }
  split; [intros f|intros q|intros q| |intros q].
  - rewrite S1, elem_of_union, elem_of_singleton. setoid_rewrite Hi. naive_solver.
  - rewrite S2, Hseen. setoid_rewrite Hi. naive_solver.
  - rewrite S3, Hseen. assert (q ∈ q_seen t' <-> q ∈ q_seen t' \/ e_target x = q) as Hq.
    { split; [by left|]. intros [?|Heq]; [done|]. apply S2. left. apply Hseen. by right. }
    unfold schedule. case_decide as Hs; cbn [q_todo].
    + split; [naive_solver|]. intros [?|[? Hn]]; [by left|]. right. split; [done|]. intros [?|<-]; done.
    + rewrite elem_of_app, list_elem_of_singleton. destruct (decide (q = e_target x)) as [->|Hne]; naive_solver.
  - revert S4. unfold schedule. case_decide as Hs; [done|]. cbn [q_seen q_todo]. rewrite length_app, size_union, size_singleton by set_solver.
    cbn. lia.
  - rewrite S5, Hl. unfold schedule. by case_decide.
Qed.

Lemma scan_edges_spec bb cc es : forall t s H F0 F,
  patched s0 s H F -> stored s0 bb = true -> rtc inner bb cc ->
  (forall e, e ∈ es -> edge_ok s0 e \/ is_Some (F !! e)) ->
  added (fun p q => p = bb /\ q ∈ q_exits t /\ bb <> q) F0 F -> once F0 F ->
  wp (scan_edges bb cc es t) (fun r s' => exists t' H' F', r = Some t' /\ patched s0 s' H' F' /\
    added (fun p q => p = bb /\ q ∈ q_exits t' /\ bb <> q) F0 F' /\ once F0 F' /\ scanned es cc t t' H H') s.
Proof.
  induction es as [|e es IH]; intros t s H F0 F P Hbb Hr Hes A O; cbn [scan_edges].
  { apply wp_ret. exists t, H, F. split_and!; try done. split; unfold inner_in, leaves_in; try done; intros; split; try tauto;
      setoid_rewrite elem_of_nil; naive_solver. }
  assert (forall e, e ∈ es -> edge_ok s0 e \/ is_Some (F !! e)) as Hes' by (intros f Hf; apply Hes; by right).
  destruct (Hes e) as [[x Hx]|[[p q] Hq]]; [left| |].
  - pose proof (pt_old _ _ _ _ P e x Hx) as He. set (y := if decide (e ∈ H) then hide x else x) in *.
    assert (edge_is_fastpath y = edge_is_fastpath x /\ edge_is_function_exit y = edge_is_function_exit x /\ e_target y = e_target x)
      as (Hy1 & Hy2 & Hy3) by (unfold y; case_decide; done).
    eapply wp_reads; [by apply reads_edge_at|]. rewrite Hy1, Hy2, Hy3. clear Hy1 Hy2 Hy3.
    destruct (edge_is_fastpath x) eqn:Hfast; [|destruct (edge_is_function_exit x) eqn:Hexit].
    + eapply wp_mono; [by apply (IH t s H F0 F)|]. cbn beta. intros r s' (t' & H' & F' & -> & P' & A' & O' & S').
      exists t', H', F'. split_and!; try done. apply scanned_skip; [|done]. intros z Hz. unfold internal, leaves.
      assert (z = x) as -> by congruence. by rewrite Hfast.
    + eapply wp_bind, wp_mono; [by apply (note_exit_spec bb cc t s H F0 F)|]. cbn beta.
      intros r s1 (l & F1 & -> & Hl & P1 & Hsub & A1 & O1). eapply wp_mono; [apply (IH (BFS (q_todo t) (q_seen t) l) s1 H F0 F1); try done|].
      { intros f Hf. destruct (Hes' f Hf) as [?|[z Hz]]; [by left|]. right. exists z. by eapply lookup_weaken. }
      cbn beta. intros r s' (t' & H' & F' & -> & P' & A' & O' & S'). exists t', H', F'. split_and!; try done.
      eapply scanned_exit; [exact Hx| |exact Hl|done]. unfold leaves. by rewrite Hfast, Hexit.
    + eapply wp_bind, wp_mono; [by apply (patched_hide s0 Hwf0 s H F e x)|]. cbn beta. intros _ s1 P1.
      eapply wp_mono; [apply (IH (schedule (e_target x) t) s1 ({[e]} ∪ H) F0 F); try done|].
      { eapply added_ext; [|exact A]. intros ? ?. cbn beta. unfold schedule. by case_decide. }
      cbn beta. intros r s' (t' & H' & F' & -> & P' & A' & O' & S'). exists t', H', F'. split_and!; try done.
      eapply scanned_inner; [exact Hx| |done]. unfold internal. by rewrite Hfast, Hexit.
  - destruct (pt_new _ _ _ _ P e p q Hq) as (Hn & i & Hi). eapply wp_reads; [by apply reads_edge_at|].
    change (edge_is_fastpath _) with true. cbv iota.
    eapply wp_mono; [by apply (IH t s H F0 F)|]. cbn beta. intros r s' (t' & H' & F' & -> & P' & A' & O' & S').
    exists t', H', F'. split_and!; try done. apply scanned_skip; [|done]. intros z Hz. congruence.
Qed.

(** The search so far: [H0] was hidden before it. *)
Record searched (bb : Z) (H0 : gset Z) (t : bfs) (H : gset Z) : Prop := {
  se_start : bb ∈ q_seen t;
  se_seen q : q ∈ q_seen t -> rtc inner bb q;
  se_todo q : q ∈ q_todo t -> q ∈ q_seen t;
  se_sub e : e ∈ H0 -> e ∈ H;
  se_hidden e : e ∈ H -> e ∈ H0 \/ inner_edge bb e;
  se_exits q : q ∈ q_exits t -> rtc inner bb q /\ exit_block q;
  se_done p : p ∈ q_seen t -> p ∉ q_todo t -> (exit_block p -> p ∈ q_exits t) /\
    forall e x, out_edge p e x -> internal x = true -> e ∈ H /\ e_target x ∈ q_seen t
}.

(** When nothing is left, the search has seen exactly what is in reach. *)
Lemma searched_end bb H0 t H : searched bb H0 t H -> q_todo t = [] ->
  (forall e, e ∈ H <-> e ∈ H0 \/ inner_edge bb e) /\ (forall q, q ∈ q_exits t <-> rtc inner bb q /\ exit_block q).
Proof.
  intros [S1 S2 S3 S4 S5 S6 S7] Hnil.
  assert (forall q, rtc inner bb q -> q ∈ q_seen t) as Hall.
  { intros q Hq. apply (rtc_ind_r (R := inner) (fun q => q ∈ q_seen t) bb); [done| |exact Hq].
    intros y z _ (e & x & He & Hi & <-) Hy. destruct (S7 y Hy) as [_ Hd]; [rewrite Hnil; apply not_elem_of_nil|]. by apply (Hd e x). }
  split.
  - intros e. split; [apply S5|]. intros [?|(q & x & Hq & He & Hi)]; [auto|].
    destruct (S7 q (Hall q Hq)) as [_ Hd]; [rewrite Hnil; apply not_elem_of_nil|]. by apply (Hd e x).
  - intros q. split; [apply S6|]. intros [Hq He]. destruct (S7 q (Hall q Hq)) as [Hx _]; [rewrite Hnil; apply not_elem_of_nil|auto].
Qed.

(** One block: what follows from scanning its outgoing edges. *)
Lemma searched_step bb H0 cc todo seen exits exits1 t' H H' b es :
  c_bbs s0 !! cc = Some b ->
  (forall e x, c_edges s0 !! e = Some x -> e ∈ es <-> e ∈ b_out b) ->
  (forall q, q ∈ exits1 <-> q ∈ exits \/ q = cc /\ b_out b = ∅) ->
  searched bb H0 (BFS (cc :: todo) seen exits) H ->
  scanned es cc (BFS todo seen exits1) t' H H' -> searched bb H0 t' H'.
Proof.
  intros Hb Hes Hex [S1 S2 S3 S4 S5 S6 S7] [T1 T2 T3 _ T5]. cbn [q_todo q_seen q_exits] in *.
  assert (cc ∈ seen) as Hcc by (apply S3; left). pose proof (S2 cc Hcc) as Hr.
  assert (forall e x, inner_in es e x <-> out_edge cc e x /\ internal x = true) as Hin.
  { intros e x. unfold inner_in, out_edge. split.
    - intros (He & Hx & Hi). split; [|done]. exists b. split_and!; [done|by apply (Hes e x)|done].
    - intros [(b' & Hb' & He & Hx) Hi]. rewrite Hb in Hb'. apply (inj Some) in Hb' as <-. split_and!; [by apply (Hes e x)|done|done]. }
  assert (b_out b = ∅ \/ leaves_in es <-> exit_block cc) as Hexit.
  { unfold exit_block, leaves_in. split.
    - intros Hor. exists b. split; [done|]. destruct Hor as [?|(e & x & He & Hx & Hl)]; [by left|]. right. exists e, x. split; [|done].
      exists b. split_and!; [done|by apply (Hes e x)|done].
    - intros (b' & Hb' & Hor). rewrite Hb in Hb'. apply (inj Some) in Hb' as <-.
      destruct Hor as [?|(e & x & (b' & Hb' & He & Hx) & Hl)]; [by left|]. right. rewrite Hb in Hb'. apply (inj Some) in Hb' as <-.
      exists e, x. split_and!; [by apply (Hes e x)|done|done]. }
  split.
  - apply T2. by left.
  - intros q [Hq|(e & x & [He Hi]%Hin & <-)]%T2; [auto|]. eapply rtc_r; [exact Hr|]. by exists e, x.
  - intros q [Hq|[Hq _]]%T3; [|done]. apply T2. left. apply S3. by right.
  - intros e He. apply T1. left. auto.
  - intros e [He|(x & [He Hi]%Hin)]%T1; [auto|]. right. by exists cc, x.
  - intros q. rewrite T5, Hex. intros [[?|[-> ?]]|[-> ?]]; [auto|split; [done|]; apply Hexit; auto..].
  - intros p Hp Hn. destruct (decide (p = cc)) as [->|Hne].
    + split; [intros Hx; rewrite T5, Hex; apply Hexit in Hx; tauto|].
      intros e x He Hi. assert (inner_in es e x) by (by apply Hin). split; [apply T1; eauto|apply T2; eauto].
    + assert (p ∈ seen) as Hs by (destruct (decide (p ∈ seen)); [done|]; destruct Hn; apply T3; by right).
      destruct (S7 p Hs) as [Hx Hd].
      { rewrite elem_of_cons. intros [?|Ht]; [done|]. apply Hn, T3. by left. }
      split; [intros; rewrite T5, Hex; auto|]. intros e x He Hi. destruct (Hd e x He Hi). split; [apply T1; auto|apply T2; auto].
Qed.

Lemma seen_bound bb H0 t H : stored s0 bb = true -> searched bb H0 t H -> (size (q_seen t) <= size (c_bbs s0))%nat.
Proof.
  intros Hbb S. rewrite <- (size_dom (D := gset Z)). apply subseteq_size. intros q Hq. apply elem_of_dom.
  apply (stored_ok s0). eapply inner_stored; [exact Hbb|]. by apply (se_seen _ _ _ _ S).
Qed.

Lemma search_exits_spec bb : forall fuel t s H F0 F H0,
  patched s0 s H F -> stored s0 bb = true -> searched bb H0 t H ->
  added (fun p q => p = bb /\ q ∈ q_exits t /\ bb <> q) F0 F -> once F0 F ->
  (size (c_bbs s0) + length (q_todo t) <= fuel + size (q_seen t))%nat ->
  wp (search_exits fuel bb t) (fun r s' => exists t' H' F', r = Some t' /\ patched s0 s' H' F' /\
    added (fun p q => p = bb /\ q ∈ q_exits t' /\ bb <> q) F0 F' /\ once F0 F' /\ searched bb H0 t' H' /\ q_todo t' = []) s.
Proof.
  induction fuel as [|fuel IH]; intros [todo seen exits] s H F0 F H0 P Hbb S A O Hfuel; pose proof (seen_bound _ _ _ _ Hbb S) as Hsize;
    cbn [q_todo q_seen q_exits] in *; destruct todo as [|cc todo]; cbn [search_exits q_todo q_seen q_exits];
    try (apply wp_ret; eexists _, H, F; split_and!; [reflexivity|done..]).
  { cbn in Hfuel. lia. }
  assert (rtc inner bb cc) as Hr by (apply (se_seen _ _ _ _ S), (se_todo _ _ _ _ S); left).
  destruct (stored_ok s0 cc (inner_stored bb cc Hbb Hr)) as [b Hb].
  destruct (pt_ends _ _ _ _ P cc b Hb) as (b' & Hb' & _ & Hout & _).
  assert (size (b_out b') = 0%nat <-> b_out b = ∅) as Hempty.
  { rewrite size_empty_iff, leibniz_equiv_iff, !elem_of_equiv_empty_L. split; [intros He e Hin; apply (He e), Hout; by left|].
    intros He e [Hin|[q Hq]]%Hout; [by apply (He e)|]. apply (pt_source _ _ _ _ P e cc q b Hq Hb). by apply elem_of_equiv_empty_L. }
  assert (wp (if decide (size (b_out b') = 0%nat) then note_exit bb cc (BFS todo seen exits) else mret (Some (BFS todo seen exits)))
    (fun r s' => exists l F', r = Some (BFS todo seen l) /\ (forall q, q ∈ l <-> q ∈ exits \/ q = cc /\ b_out b = ∅) /\
      patched s0 s' H F' /\ added (fun p q => p = bb /\ q ∈ l /\ bb <> q) F0 F' /\ once F0 F') s) as Hnote.
  { destruct (decide _) as [Hz|Hz].
    - eapply wp_mono; [by apply (note_exit_spec bb cc _ s H F0 F)|]. cbn beta. intros r s' (l & F' & -> & Hl & P' & _ & A' & O').
      exists l, F'. split_and!; try done. intros q. rewrite Hl. apply Hempty in Hz. cbn. naive_solver.
    - apply wp_ret. exists exits, F. split_and!; try done. intros q. naive_solver. }
  eapply wp_reads; [unfold outgoing_edge_count; eapply reads_bind; [by apply reads_bb_at|apply reads_ret]|].
  eapply wp_bind, wp_mono; [exact Hnote|]. cbn beta. intros r s1 (l & F1 & -> & Hl & P1 & A1 & O1). clear Hnote.
  destruct (pt_ends _ _ _ _ P1 cc b Hb) as (b1 & Hb1 & _ & Hout1 & _).
  eapply wp_reads; [unfold outgoing_edges; eapply reads_bind; [by apply reads_bb_at|apply reads_ret]|].
  eapply wp_bind, wp_mono; [apply (scan_edges_spec bb cc _ (BFS todo seen l) s1 H F0 F1); try done|].
  { intros e [He|[q Hq]]%elem_of_in_order%Hout1; [left|right; by exists (cc, q)].
    destruct (wf_out _ Hwf0 cc b e Hb He) as (x & Hx & _). by exists x. }
  cbn beta. intros r s2 (t2 & H2 & F2 & -> & P2 & A2 & O2 & Sc). apply (IH t2 s2 H2 F0 F2 H0); try done.
  - eapply (searched_step bb H0 cc todo seen exits l t2 H H2 b); [done| |exact Hl|done|exact Sc].
    intros e x Hx. rewrite elem_of_in_order, Hout1. split; [|by left]. intros [?|[q Hq]]; [done|].
    destruct (pt_new _ _ _ _ P1 e cc q Hq) as [Hn _]. congruence.
  - pose proof (sc_size _ _ _ _ _ _ Sc) as Hsz. cbn [q_todo q_seen length] in *. lia.
Qed.

(** ** Blocks, functions, the graph *)

Lemma patched_size s H F : patched s0 s H F -> size (c_bbs s) = size (c_bbs s0).
Proof.
  intros P. rewrite <- !(size_dom (D := gset Z)). f_equal. apply set_eq. intros r. rewrite !elem_of_dom.
  destruct (c_bbs s0 !! r) as [b|] eqn:Hb.
  - destruct (pt_ends _ _ _ _ P r b Hb) as (b' & -> & _). done.
  - by rewrite (pt_bb _ _ _ _ P r Hb).
Qed.

Lemma searched_start bb H : searched bb H (BFS [bb] {[bb]} []) H.
Proof.
  split; cbn [q_todo q_seen q_exits].
  - by apply elem_of_singleton.
  - intros q ->%elem_of_singleton. reflexivity.
  - intros q ->%list_elem_of_singleton. by apply elem_of_singleton.
  - done.
  - by left.
  - by intros q ?%not_elem_of_nil.
  - intros p ->%elem_of_singleton []. left.
Qed.

(** What collapsing the blocks [B] does: [H] and [F] grow to [H'] and [F']. *)
Definition collapsed_from (B : Z -> Prop) (H H' : gset Z) (F F' : gmap Z (Z * Z)) : Prop :=
  (forall e, e ∈ H' <-> e ∈ H \/ exists p, B p /\ inner_edge p e) /\ added (fun p q => B p /\ fastpath p q) F F'.

Lemma collapsed_nil (B : Z -> Prop) H F : (forall p, ~ B p) -> collapsed_from B H H F F /\ once F F.
Proof.
  intros HB. destruct (added_nil (fun p q => B p /\ fastpath p q) F) as [A O]; [by intros p q [?%HB _]|].
  split; [split; [|done]|done]. intros e. split; [by left|]. intros [?|(p & ?%HB & _)]; done.
Qed.

Lemma collapsed_trans (B1 B2 B : Z -> Prop) H1 H2 H3 F1 F2 F3 :
  collapsed_from B1 H1 H2 F1 F2 -> collapsed_from B2 H2 H3 F2 F3 -> (forall p, B p <-> B1 p \/ B2 p) ->
  collapsed_from B H1 H3 F1 F3.
Proof.
  intros [Ha Aa] [Hb Ab] HB. split.
  - intros e. rewrite Hb, Ha. setoid_rewrite HB. naive_solver.
  - eapply added_trans; [exact Aa|exact Ab|]. intros p q. rewrite HB. tauto.
Qed.

Lemma collapse_blocks_spec l : forall s H F,
  patched s0 s H F -> Forall (fun p => stored s0 p = true) l -> NoDup l ->
  wp (collapse_blocks l) (fun r s' => r = 0 /\ exists H' F', patched s0 s' H' F' /\
    collapsed_from (fun p => p ∈ l) H H' F F' /\ once F F') s.
Proof.
  induction l as [|bb l IH]; intros s H F P Hl Hnd; cbn [collapse_blocks].
  { apply wp_ret. split; [done|]. exists H, F. split; [done|]. apply collapsed_nil. by intros p ?%not_elem_of_nil. }
  apply Forall_cons in Hl as [Hbb Hl]. apply NoDup_cons in Hnd as [Hn Hnd].
  eapply wp_reads; [apply reads_gets|]. rewrite (patched_size s H F P).
  destruct (added_nil (fun p q => p = bb /\ q ∈ q_exits (BFS [bb] {[bb]} []) /\ bb <> q) F) as [A O];
    [by intros p q (_ & ?%not_elem_of_nil & _)|].
  eapply wp_bind, wp_mono; [apply (search_exits_spec bb _ _ s H F F H); try done|].
  { apply searched_start. }
  { cbn [q_todo q_seen length]. rewrite size_singleton. lia. }
  cbn beta. intros r s1 (t1 & H1 & F1 & -> & P1 & A1 & O1 & S1 & Hnil). destruct (searched_end bb H t1 H1 S1 Hnil) as [Hh Hx].
  assert (collapsed_from (fun p => p = bb) H H1 F F1) as C1.
  { split; [intros e; rewrite Hh; naive_solver|]. eapply added_ext; [|exact A1]. intros p q. cbn beta. rewrite Hx. unfold fastpath. naive_solver. }
  eapply wp_mono; [by apply (IH s1 H1 F1)|]. cbn beta. intros r s2 (-> & H2 & F2 & P2 & C2 & O2). split; [done|]. exists H2, F2.
  split_and!; [done|eapply collapsed_trans; [exact C1|exact C2|intros p; apply elem_of_cons]|].
  eapply once_trans; [apply C1|apply C2| |done|done]. by intros p q [-> _] [? _].
Qed.

(** The blocks of a function that is collapsed. *)
Definition body (f p : Z) : Prop :=
  exists x, c_fns s0 !! f = Some x /\ f_plt x = false /\ f_lib_dummy x = false /\ p ∈ f_bbs x.

Lemma collapse_function_spec f s H F :
  patched s0 s H F -> fn_ok s0 f ->
  wp (collapse_function f) (fun r s' => r = 0 /\ exists H' F', patched s0 s' H' F' /\
    collapsed_from (body f) H H' F F' /\ once F F') s.
Proof.
  intros P [x Hx]. unfold collapse_function. eapply wp_reads; [apply reads_fn_at; by rewrite (pt_fns _ _ _ _ P)|].
  destruct (f_plt x || f_lib_dummy x) eqn:Hskip.
  - apply wp_ret. split; [done|]. exists H, F. split; [done|]. apply collapsed_nil. intros p (y & Hy & Hp & Hd & _).
    rewrite Hx in Hy. apply (inj Some) in Hy as <-. by rewrite Hp, Hd in Hskip.
  - apply orb_false_iff in Hskip as [Hp Hd].
    assert (forall p, p ∈ rev (in_order (f_bbs x)) <-> p ∈ f_bbs x) as Hin.
    { intros p. by rewrite list_elem_of_In, <- in_rev, <- list_elem_of_In, elem_of_in_order. }
    eapply wp_mono; [apply (collapse_blocks_spec _ s H F P)|].
    + apply Forall_forall. intros p Hb%Hin. by apply (proj1 Hst f x Hx).
    + rewrite <- Permutation_rev. unfold in_order. rewrite merge_sort_Permutation. apply NoDup_elements.
    + cbn beta. intros r s' (-> & H' & F' & P' & [Ch Ca] & O'). split; [done|]. exists H', F'.
      assert (forall p, p ∈ rev (in_order (f_bbs x)) <-> body f p) as Hbody.
      { intros p. rewrite Hin. split; [by exists x|]. intros (y & Hy & _ & _ & Hb). by rewrite Hx in Hy; apply (inj Some) in Hy as <-. }
      split_and!; [done|split|done].
      * intros e. rewrite Ch. by setoid_rewrite Hbody.
      * eapply added_ext; [|exact Ca]. intros p q. cbn beta. by rewrite Hbody.
Qed.

Lemma foreach_collapse_spec fs : forall s H F,
  patched s0 s H F -> Forall (fn_ok s0) fs ->
  wp (foreach_until collapse_function fs) (fun r s' => r = 0 /\ exists H' F', patched s0 s' H' F' /\
    collapsed_from (fun p => exists f, f ∈ fs /\ body f p) H H' F F') s.
Proof.
  induction fs as [|f fs IH]; intros s H F P Hfs; cbn [foreach_until].
  { apply wp_ret. split; [done|]. exists H, F. split; [done|]. apply collapsed_nil. by intros p (f & ?%not_elem_of_nil & _). }
  apply Forall_cons in Hfs as [Hf Hfs]. eapply wp_bind, wp_mono; [by apply (collapse_function_spec f s H F)|].
  cbn beta. intros r s1 (-> & H1 & F1 & P1 & C1 & _). rewrite decide_False by (intros Hn; by apply Hn).
  eapply wp_mono; [by apply (IH s1 H1 F1)|]. cbn beta. intros r s2 (-> & H2 & F2 & P2 & C2). split; [done|]. exists H2, F2.
  split; [done|]. eapply collapsed_trans; [exact C1|exact C2|]. intros p. setoid_rewrite elem_of_cons. naive_solver.
Qed.
End BFS.

(** C33. [collapse_function] is exact.  On a well-formed graph whose blocks are
    in the index, the breadth-first searches end within as many rounds as there
    are blocks, no assertion fails and the result is 0.  Exactly the internal
    edges in reach of the function's blocks are hidden, and there is exactly one
    new fastpath from a block of the function to each other block in reach where
    it can be left: one that has a call, return or indirect edge, or no edge
    at all.  Nothing else changes, and PLT entries and library dummies are skipped. *)
Theorem collapse_function_exact `{Malloc} s f :
  cfg_wf s -> all_stored s -> fn_ok s f ->
  exists s' H F, collapse_function f s = Some (0, s') /\ patched s s' H F /\
    (forall e, e ∈ H <-> exists p, body s f p /\ inner_edge s p e) /\
    (forall p q, (exists e, F !! e = Some (p, q)) <-> body s f p /\ fastpath s p q) /\
    (forall e e' r, F !! e = Some r -> F !! e' = Some r -> e = e').
Proof.
  intros Hwf Hst Hf. pose proof (collapse_function_spec s Hwf Hst f s ∅ ∅ (patched_refl s Hwf) Hf) as Hw. unfold wp in Hw.
  destruct (collapse_function f s) as [[r s']|]; [|done]. destruct Hw as (-> & H' & F' & P' & [Ch Ca] & O').
  exists s', H', F'. split_and!; [done|done| | |].
  - intros e. rewrite Ch. set_solver.
  - intros p q. split; [intros [e He]; by apply (ad_sound _ _ _ Ca e p q (lookup_empty e))|].
    intros Hb. destruct (ad_complete _ _ _ Ca p q Hb) as (e & _ & He). by exists e.
  - intros e e' r0. apply O'; apply lookup_empty.
Qed.

(** ** Traces *)

Section Walks.
Context (s : CFG).

(** A walk over visible edges, with the edges on it that leave a function. *)
Inductive walk : Z -> list Z -> Prop :=
| walk_stop p : walk p []
| walk_step p e x tr : out_edge s p e x -> e_hidden x = false -> walk (e_target x) tr ->
    walk p (if leaves x then e :: tr else tr).

(** All edges are visible and none is a fastpath: no function was collapsed. *)
Definition plain : Prop := map_Forall (fun _ x => e_hidden x = false /\ edge_is_fastpath x = false) (c_edges s).

(** A block of a collapsed function, or one with no edge inside its function. *)
Definition entered (p : Z) : Prop :=
  (exists f, f ∈ map_in_order (c_functions s) /\ body s f p) \/ forall e x, out_edge s p e x -> internal x = false.

Lemma walk_inner p q tr : plain -> rtc (inner s) p q -> walk q tr -> walk p tr.
Proof.
  intros Hpl Hr Hw. induction Hr as [|p r q (e & x & He & Hi & <-) _ IH]; [done|].
  assert (leaves x = false) as Hl by (unfold leaves, internal in *; destruct (edge_is_fastpath x), (edge_is_function_exit x); done).
  assert (walk p (if leaves x then e :: tr else tr)) as Hs; [|by rewrite Hl in Hs].
  apply walk_step; [done| |auto]. destruct He as (b & _ & _ & Hx). by apply (Hpl e x Hx).
Qed.
End Walks.

Section Traces.
Context (s s' : CFG) (H : gset Z) (F : gmap Z (Z * Z)) (Hwf : cfg_wf s) (Hpl : plain s) (P : patched s s' H F).
Context (C : collapsed_from s (fun p => exists f, f ∈ map_in_order (c_functions s) /\ body s f p) ∅ H ∅ F).

Lemma patched_old_edge p e x : out_edge s p e x -> internal x = false -> out_edge s' p e x.
Proof.
  intros (b & Hb & He & Hx) Hi. destruct (pt_ends _ _ _ _ P p b Hb) as (b' & Hb' & _ & Ho & _). exists b'.
  split_and!; [done|apply Ho; by left|]. rewrite (pt_old _ _ _ _ P e x Hx). rewrite decide_False; [done|].
  intros [?|(p' & _ & q & y & _ & (_ & _ & _ & Hy) & Hi')]%(proj1 C); [set_solver|congruence].
Qed.

Lemma patched_edge_back p e x : out_edge s' p e x -> e_hidden x = false ->
  out_edge s p e x \/ is_fastpath x = true /\ rtc (inner s) p (e_target x).
Proof.
  intros (b' & Hb' & He & Hx) Hv. destruct (c_bbs s !! p) as [b|] eqn:Hb; [|by rewrite (pt_bb _ _ _ _ P p Hb) in Hb'].
  destruct (pt_ends _ _ _ _ P p b Hb) as (b2 & Hb2 & _ & Ho & _). rewrite Hb2 in Hb'. apply (inj Some) in Hb' as <-.
  apply Ho in He as [He|[q Hq]].
  - left. exists b. destruct (wf_out _ Hwf p b e Hb He) as (y & Hy & _). split_and!; [done|done|].
    pose proof (pt_old _ _ _ _ P e y Hy) as Hxy. rewrite Hx in Hxy. apply (inj Some) in Hxy as ->.
    destruct (decide (e ∈ H)); [by cbn in Hv|done].
  - right. destruct (pt_new _ _ _ _ P e p q Hq) as (_ & i & Hi). rewrite Hx in Hi. apply (inj Some) in Hi as ->.
    split; [done|]. cbn. apply (ad_sound _ _ _ (proj2 C) e p q (lookup_empty e) Hq).
Qed.

Lemma walk_back p tr : walk s' p tr -> walk s p tr.
Proof.
  induction 1 as [p|p e x tr He Hv _ IH]; [constructor|]. destruct (patched_edge_back p e x He Hv) as [Ho|[Hf Hr]].
  - by apply walk_step.
  - unfold leaves, edge_is_fastpath. rewrite Hf. cbn. by eapply walk_inner.
Qed.

(** The walk stands at [c], inside the function it entered at [p]. *)
Lemma walk_forth c tr : walk s c tr ->
  (forall e x, c_edges s !! e = Some x -> leaves x = true -> entered s (e_target x)) ->
  forall p, entered s p -> rtc (inner s) p c -> walk s' p tr.
Proof.
  intros Hw Hent. induction Hw as [c|c e x tr He Hv _ IH]; intros p Hp Hr; [constructor|].
  pose proof He as (b & Hb & Hin & Hx). destruct (leaves x) eqn:Hl.
  - assert (internal x = false) as Hi by (unfold leaves, internal in *; destruct (edge_is_fastpath x), (edge_is_function_exit x); done).
    assert (walk s' c (e :: tr)) as Hc.
    { assert (walk s' c (if leaves x then e :: tr else tr)) as Hs; [|by rewrite Hl in Hs].
      apply walk_step; [by apply patched_old_edge|done|]. apply IH; [by apply (Hent e x)|reflexivity]. }
    destruct (decide (p = c)) as [->|Hne]; [done|].
    destruct Hp as [Hbody|Hno].
    + assert (fastpath s p c) as Hfp.
      { split_and!; [done| |done]. exists b. split; [done|]. right. by exists e, x. }
      destruct (ad_complete _ _ _ (proj2 C) p c (conj Hbody Hfp)) as (f & _ & Hf).
      destruct (pt_new _ _ _ _ P f p c Hf) as (_ & i & Hi'). set (y := Edge i false p c arms_fastpath [] (Some true)) in *.
      assert (walk s' p (if leaves y then f :: e :: tr else e :: tr)) as Hs; [|done]. apply walk_step; [|done|done].
      assert (bb_ok s p) as [bp Hbp]. { destruct Hbody as (g & _ & z & Hz & _ & _ & Hin'). apply (wf_entries _ Hwf g z p Hz). tauto. }
      destruct (pt_ends _ _ _ _ P p bp Hbp) as (bp' & Hbp' & _ & Ho & _). exists bp'. split_and!; [done|apply Ho; right; by exists c|done].
    + destruct Hr as [|p r c (f & y & Hf & Hfi & _) _]; [done|]. by rewrite (Hno f y Hf) in Hfi.
  - apply (IH p Hp). eapply rtc_r; [exact Hr|]. exists e, x. split_and!; [done| |done].
    unfold internal, leaves in *. destruct (Hpl e x Hx) as [_ Hnf]. rewrite Hnf in *. cbn in *. by rewrite Hl.
Qed.
End Traces.

Lemma simplify_cfg_spec {Ma : Malloc} s :
  cfg_wf s -> all_stored s -> plain s ->
  exists s' H F, simplify_cfg s = Some (true, s') /\ patched s s' H F /\
    ((forall e x, c_edges s !! e = Some x -> leaves x = true -> entered s (e_target x)) ->
     forall p tr, entered s p -> walk s p tr <-> walk s' p tr).
Proof.
  intros Hwf Hst Hpl. assert (Forall (fn_ok s) (map_in_order (c_functions s))) as Hfs.
  { apply Forall_forall. intros f (a & Ha)%elem_of_map_in_order. destruct (wf_functions _ Hwf a f Ha) as (x & Hx & _). by exists x. }
  pose proof (foreach_collapse_spec s Hwf Hst _ s ∅ ∅ (patched_refl s Hwf) Hfs) as Hw. unfold wp in Hw.
  destruct (foreach_until collapse_function (map_in_order (c_functions s)) s) as [[r s']|] eqn:Hrun; [|done].
  destruct Hw as (-> & H' & F' & P' & C'). exists s', H', F'. split_and!; [|done|].
  - unfold simplify_cfg, mbind, M_bind, gets. by rewrite Hrun.
  - intros Hent p tr Hp. split; [intros Hwk; by eapply (walk_forth s s' H' F' Hwf Hpl P' C' p tr)|by eapply walk_back].
Qed.


(** ** A concrete graph *)

(** [main] loops between its first two blocks (edges 6 and 9), leaves the loop
    over edge 8 and calls [g], which calls [main] through a pointer. *)
Definition simplify_example : CFG := default cfg_empty (run_ops
  [OpFunction "main" 0x1000; OpFunction "g" 0x2000; OpEdge 0x1000 0x1010; OpEdge 0x1010 0x1020; OpEdge 0x1010 0x1000;
   OpEdge 0x1020 0x2000; OpEdge 0x2000 0x1000; OpSetType 10 arms_direct_call; OpSetType 11 arms_indirect_call;
   OpAddBB 1 2 Body; OpAddBB 1 5 Body; OpAddBB 1 7 Body; OpAddBB 3 4 Body] cfg_empty).

Lemma simplify_example_wf : cfg_wf simplify_example.
Proof. apply built_wf, run_ops_default. vm_compute. discriminate. Qed.

Lemma simplify_example_stored : all_stored simplify_example.
Proof. split; apply (bool_decide_eq_true_1 _); vm_compute; reflexivity. Qed.

(** [entered] in its first form is a finite check. *)
Definition in_body (s : CFG) (p : Z) : bool :=
  existsb (fun f => from_option (fun x => negb (f_plt x) && negb (f_lib_dummy x) && bool_decide (p ∈ f_bbs x)) false (c_fns s !! f))
    (map_in_order (c_functions s)).

Lemma in_body_entered s p : in_body s p = true -> entered s p.
Proof.
  intros (f & Hf & Hp)%existsb_exists. left. exists f. split; [by apply list_elem_of_In|].
  destruct (c_fns s !! f) as [x|] eqn:Hx; [|done]. cbn in Hp. apply andb_true_iff in Hp as [[? ?]%andb_true_iff Hp%bool_decide_eq_true].
  exists x. split_and!; [done|by apply negb_true_iff|by apply negb_true_iff|done].
Qed.

Lemma collapse_function_exact_witness :
  (exists s' H F, collapse_function 1 simplify_example = Some (0, s') /\ patched simplify_example s' H F /\
    (forall e, e ∈ H <-> exists p, body simplify_example 1 p /\ inner_edge simplify_example p e) /\
    (forall p q, (exists e, F !! e = Some (p, q)) <-> body simplify_example 1 p /\ fastpath simplify_example p q) /\
    (forall e e' r, F !! e = Some r -> F !! e' = Some r -> e = e')) /\
  (r ← collapse_function 1 simplify_example;
   Some (in_order (dom (filter (fun p : Z * ArmsEdge => e_hidden p.2 = true) (c_edges r.2))),
         (fun p : Z * ArmsEdge => (e_source p.2, e_target p.2)) <$> map_to_list (filter (fun p : Z * ArmsEdge => is_fastpath p.2 = true) (c_edges r.2))))
   = Some ([6; 8; 9], [(2, 7); (5, 7)]).
Proof.
  split; [|vm_compute; reflexivity]. apply (collapse_function_exact simplify_example 1).
  - apply simplify_example_wf.
  - apply simplify_example_stored.
  - by eexists.
Defined.

