(* ===== verification/Dummies.v ===== *)
(** The dummy blocks the kernel module expects: [link_dummy_block_to_at_func],
    [insert_dummy_loader_block], [mark_main_function], [parse_bininfo_file] and
    [add_dummy_shlib_blocks] of dyninst-static/lbr_analysis.C.

    The file bin.info is a list of bytes; what the program uses of the C library
    (fgets, strchr, strtoul) is written out.  [is_library] is the flag of the
    graph with this name. *)

From S2P Require Import Prelude LbrState Cfg CfgInv JitPath.

(** ** C strings *)

(** Up to the first NUL. *)
Fixpoint c_str (l : list Z) : list Z :=
  match l with [] => [] | c :: l => if decide (c = 0) then [] else c :: c_str l end.

(** Up to the first character of [X]; what is before and what is after it. *)
Fixpoint cut (X : list Z) (l : list Z) : list Z * option (list Z) :=
  match l with
  | [] => ([], None)
  | c :: l => if decide (c ∈ X) then ([], Some l) else let '(a, b) := cut X l in (c :: a, b)
  end.

(** [fgets] with room for [n] characters: up to and with the end of a line. *)
Fixpoint fgets (n : nat) (f : list Z) : list Z * list Z :=
  match n, f with
  | S n, c :: f => if decide (c = 10) then ([c], f) else let '(l, r) := fgets n f in (c :: l, r)
  | _, _ => ([], f)
  end.

(** What [while(fgets(buf, sizeof(buf), f))] sees, with a buffer of 1024 bytes. *)
Fixpoint lines (fuel : nat) (f : list Z) : list (list Z) :=
  match fuel, f with
  | S fuel, _ :: _ => let '(l, r) := fgets 1023 f in l :: lines fuel r
  | _, _ => []
  end.

(** [strtoul] with base 0. *)
Definition digit_value (c : Z) : Z :=
  if decide (48 <= c <= 57) then c - 48 else
  if decide (97 <= c <= 122) then c - 87 else
  if decide (65 <= c <= 90) then c - 55 else 36.

Definition is_space (c : Z) : bool := bool_decide (c = 32 \/ 9 <= c <= 13).

Fixpoint skip_space (l : list Z) : list Z :=
  match l with c :: k => if is_space c then skip_space k else l | [] => [] end.

Fixpoint digits (base : Z) (l : list Z) (acc : Z) : Z :=
  match l with
  | c :: l => if decide (digit_value c < base) then digits base l (acc * base + digit_value c) else acc
  | [] => acc
  end.

(** An 0x counts only before a hexadecimal digit. *)
Definition number (l : list Z) : Z :=
  match l with
  | 48 :: x :: d :: k =>
      if decide ((x = 120 \/ x = 88) /\ digit_value d < 16) then digits 16 (d :: k) 0 else digits 8 (x :: d :: k) 0
  | 48 :: k => digits 8 k 0
  | _ => digits 10 l 0
  end.

Definition strtoul (l : list Z) : Z :=
  let l := skip_space l in
  let '(neg, l) := match l with 45 :: k => (true, k) | 43 :: k => (false, k) | _ => (false, l) end in
  let v := number l in
  if decide (v >= 2 ^ 64) then 2 ^ 64 - 1 else if neg : bool then u64 (- v) else v.

(** ** The file bin.info *)

(** One line: '#' is 35, '=' is 61, the ends of a line are 13 and 10. *)
Definition parse_line (buf : list Z) (infomap : gmap (list Z) (list Z)) : gmap (list Z) (list Z) :=
  let buf := c_str buf in
  if decide (head buf = Some 35 \/ (length buf < 2)%nat) then infomap else
  match cut [61] buf with
  | (_, None) => infomap
  | (key, Some value) => <[key := (cut [13; 10] value).1]> infomap
  end.

(** [None] when the file cannot be opened. *)
Definition parse_bininfo_file (f : option (list Z)) : option (gmap (list Z) (list Z)) :=
  f ← f; Some (fold_left (fun m l => parse_line l m) (lines (length f) f) ∅).

(** ** The blocks *)

Section Dummies.
Context `{Malloc}.

Definition link_dummy_block_to_at_func (at_ : Z) : M unit :=
  x ← fn_at at_;
  if negb (f_at x) then mret tt else
  bb ← create_dummy_basic_block_range Tag.ADDRESS_TAKEN Tag.ADDRESS_TAKEN NULL;
  b ← bb_at bb;
  edge ← create_and_add_edge_addr (b_last b) (f_base x);
  set_type edge arms_indirect_call;; set_interprocedural edge.

Definition insert_dummy_loader_block (mainaddr : Z) : M Z :=
  bb ← create_dummy_basic_block_range 0 0 NULL;
  cc ← find_bb mainaddr;
  if decide (cc = NULL) then mret (-1) else
  edge ← create_and_add_edge bb cc;
  set_type edge arms_indirect_call;; set_interprocedural edge;; mret 0.

Definition mark_main_function (mainaddr : Z) : M Z :=
  f ← find_function mainaddr;
  if decide (f = NULL) then mret (-1) else set_is_main f;; mret 0.

(** addr.func.main *)
Definition main_key : list Z := [97; 100; 100; 114; 46; 102; 117; 110; 99; 46; 109; 97; 105; 110].

(** [false] for NULL. *)
Definition add_dummy_shlib_blocks (is_library : bool) (bininfo : option (list Z)) : M bool :=
  if is_library then mret true else
  foreach_function link_dummy_block_to_at_func;;
  match parse_bininfo_file bininfo with
  | None => mret false
  | Some infomap =>
      match infomap !! main_key with
      | None => mret true
      | Some v =>
          let addr := strtoul v in
          r ← insert_dummy_loader_block addr;
          if decide (r < 0) then mret false else
          r ← mark_main_function addr;
          mret (negb (bool_decide (r < 0)))
      end
  end.

End Dummies.

(** ** Reading bin.info *)

(** The lines are the file, and [fgets] reads one line at a time. *)
Lemma fgets_app n f : (fgets n f).1 ++ (fgets n f).2 = f.
Proof.
  revert f. induction n as [|n IH]; intros [|c f]; cbn; try done. case_decide; [done|].
  specialize (IH f). destruct (fgets n f). cbn in *. by rewrite IH.
Qed.

Lemma fgets_nonempty n c f : (fgets (S n) (c :: f)).1 <> [].
Proof. cbn [fgets]. case_decide; [done|]. by destruct (fgets n f). Qed.

Lemma lines_concat fuel f : (length f <= fuel)%nat -> concat (lines fuel f) = f.
Proof.
  revert f. induction fuel as [|fuel IH]; intros [|c f] Hlen; cbn [lines] in *; try done; [cbn in Hlen; lia|].
  pose proof (fgets_app 1023 (c :: f)) as Hf. pose proof (fgets_nonempty 1022 c f) as Hn.
  destruct (fgets 1023 (c :: f)) as [l r]. cbn [concat fst snd] in *. rewrite IH; [exact Hf|].
  apply (f_equal length) in Hf. rewrite length_app in Hf. destruct l; [done|]. cbn in *. lia.
Qed.

(** *** Printing it *)

Definition print_line (kv : list Z * list Z) : list Z := kv.1 ++ 61 :: kv.2 ++ [10].

(** A key and a value that fit into a line and keep its structure. *)
Definition line_ok (kv : list Z * list Z) : Prop :=
  Forall (fun c => c <> 0 /\ c <> 61 /\ c <> 10) kv.1 /\ head kv.1 <> Some 35 /\
  Forall (fun c => c <> 0 /\ c <> 13 /\ c <> 10) kv.2 /\ (length kv.1 + length kv.2 <= 1021)%nat.

Lemma fgets_line n l f : Forall (fun c => c <> 10) l -> (length l < n)%nat -> fgets n (l ++ 10 :: f) = (l ++ [10], f).
Proof.
  revert n. induction l as [|c l IH]; intros [|n] Hl Hn; cbn in *; try lia; [by rewrite decide_True|].
  apply Forall_cons in Hl as [Hc Hl]. rewrite decide_False by done. by rewrite IH by (done || lia).
Qed.

Lemma cut_app X l r : Forall (fun c => c ∉ X) l ->
  cut X (l ++ r) = (l ++ (cut X r).1, (cut X r).2).
Proof.
  induction 1 as [|c l Hc _ IH]; cbn; [by destruct (cut X r)|]. by rewrite decide_False, IH by done.
Qed.

Lemma c_str_id l : Forall (fun c => c <> 0) l -> c_str l = l.
Proof. induction 1 as [|c l Hc _ IH]; cbn; [done|]. by rewrite decide_False, IH by done. Qed.

Lemma parse_print_line kv m : line_ok kv -> parse_line (print_line kv) m = <[kv.1 := kv.2]> m.
Proof.
  destruct kv as [k v]. intros (Hk & Hh & Hv & _). cbn [fst snd] in *. unfold parse_line, print_line. cbn [fst snd].
  rewrite c_str_id.
  2: { apply Forall_app. split; [eapply Forall_impl; [exact Hk|]; naive_solver|]. constructor; [done|].
       apply Forall_app. split; [eapply Forall_impl; [exact Hv|]; naive_solver|]. by repeat constructor. }
  rewrite decide_False.
  2: { intros [Hd|Hl]; [by destruct k; cbn in *|]. rewrite length_app in Hl. cbn in Hl. rewrite length_app in Hl. cbn in Hl. lia. }
  rewrite cut_app by (eapply Forall_impl; [exact Hk|]; intros c (? & ? & ?); by rewrite list_elem_of_singleton).
  cbn [cut fst snd]. rewrite decide_True by (by apply list_elem_of_singleton). cbn [fst snd]. rewrite app_nil_r.
  rewrite cut_app by (eapply Forall_impl; [exact Hv|]; intros c (? & ? & ?) [->|[->|[]%not_elem_of_nil]%elem_of_cons]%elem_of_cons; done).
  cbn. by rewrite app_nil_r.
Qed.

Lemma lines_print kvs fuel : Forall line_ok kvs -> (length (concat (print_line <$> kvs)) <= fuel)%nat ->
  lines fuel (concat (print_line <$> kvs)) = print_line <$> kvs.
Proof.
  intros Hok. revert fuel. induction Hok as [|[k v] kvs (Hk & _ & Hv & Hl) _ IH]; intros fuel Hf; [by destruct fuel|].
  cbn [fst snd] in *. cbn [fmap list_fmap concat] in *. unfold print_line at 1 in Hf. cbn [fst snd] in Hf.
  assert (print_line (k, v) ++ concat (print_line <$> kvs) = (k ++ 61 :: v) ++ 10 :: concat (print_line <$> kvs)) as ->.
  { unfold print_line. cbn [fst snd]. rewrite <- !app_assoc. cbn. by rewrite <- app_assoc. }
  assert (exists c f, (k ++ 61 :: v) ++ 10 :: concat (print_line <$> kvs) = c :: f) as (c & f & Hcf) by (destruct k; cbn; eauto).
  destruct fuel as [|fuel]; [rewrite !length_app in Hf; cbn in Hf; lia|]. cbn [lines]. rewrite Hcf. cbv iota. rewrite <- Hcf.
  rewrite fgets_line.
  - f_equal; [unfold print_line; cbn [fst snd]; by rewrite <- app_assoc|]. apply IH.
    rewrite !length_app in Hf. cbn in Hf. rewrite length_app in Hf. lia.
  - apply Forall_app. split; [eapply Forall_impl; [exact Hk|]; naive_solver|]. constructor; [done|].
    eapply Forall_impl; [exact Hv|]. naive_solver.
  - rewrite length_app. cbn. lia.
Qed.

(** *** Addresses *)

Definition hex_digit (d : Z) : Z := if decide (d < 10) then 48 + d else 87 + d.

(** The last [n] hexadecimal digits of [a]. *)
Fixpoint hex (n : nat) (a : Z) : list Z :=
  match n with O => [] | S n => hex n (a / 16) ++ [hex_digit (a mod 16)] end.

Lemma digit_value_hex d : 0 <= d < 16 -> digit_value (hex_digit d) = d.
Proof. intros Hd. unfold digit_value, hex_digit. repeat case_decide; lia. Qed.

Lemma digits_app base l k acc : Forall (fun c => digit_value c < base) l ->
  digits base (l ++ k) acc = digits base k (digits base l acc).
Proof. intros Hl. revert acc. induction Hl as [|c l Hc _ IH]; intros acc; cbn; [done|]. rewrite !decide_True by done. apply IH. Qed.

Lemma hex_ok n a : Forall (fun c => digit_value c < 16) (hex n a).
Proof.
  revert a. induction n as [|n IH]; intros a; cbn; [constructor|]. apply Forall_app. split; [apply IH|]. constructor; [|constructor].
  pose proof (Z.mod_pos_bound a 16). rewrite digit_value_hex; lia.
Qed.

Lemma digits_hex n a : 0 <= a < 16 ^ Z.of_nat n -> digits 16 (hex n a) 0 = a.
Proof.
  revert a. induction n as [|n IH]; intros a Ha; cbn [hex]; [cbn in *; lia|].
  rewrite Nat2Z.inj_succ, Z.pow_succ_r in Ha by lia. pose proof (Z.mod_pos_bound a 16). pose proof (Z.div_mod a 16).
  rewrite digits_app by apply hex_ok. rewrite IH by (split; [apply Z.div_pos; lia|apply Z.div_lt_upper_bound; lia]).
  cbn [digits]. rewrite digit_value_hex by lia. rewrite decide_True by lia. lia.
Qed.

Lemma strtoul_hex a : 0 <= a < 2 ^ 64 -> strtoul (48 :: 120 :: hex 16 a) = a.
Proof.
  intros Ha. unfold strtoul. cbn [skip_space]. change (is_space 48) with false. cbv iota beta zeta.
  assert (number (48 :: 120 :: hex 16 a) = a) as Hn.
  { unfold number. pose proof (hex_ok 16 a) as Hok. pose proof (digits_hex 16 a) as Hd.
    destruct (hex 16 a) as [|d k] eqn:Hh.
    - by apply (f_equal length) in Hh.
    - apply Forall_cons in Hok as [Hd16 _]. rewrite decide_True by (split; [by left|done]). apply Hd. cbn. lia. }
  rewrite Hn. by rewrite decide_False by lia.
Qed.

(** bin.info is read as it is written.  A file of lines key=value, with
    lines that fit into the buffer, no NUL, and no separators inside, gives a map in
    which the last line for a key counts; and a 64-bit address that is written in
    hexadecimal is the number [strtoul] finds. *)
Theorem bininfo_roundtrip kvs a :
  Forall line_ok kvs -> 0 <= a < 2 ^ 64 ->
  parse_bininfo_file (Some (concat (print_line <$> kvs))) = Some (fold_left (fun m kv => <[kv.1 := kv.2]> m) kvs ∅) /\
  strtoul (48 :: 120 :: hex 16 a) = a.
Proof.
  intros Hok Ha. split; [|by apply strtoul_hex]. unfold parse_bininfo_file. cbn [mbind option_bind]. f_equal.
  rewrite lines_print by done. generalize (∅ : gmap (list Z) (list Z)). induction Hok as [|kv kvs Hkv _ IH]; intros m; cbn; [done|].
  by rewrite parse_print_line, IH.
Qed.

(** ** What is added to the graph *)

(** Edges stay as they are, blocks keep theirs, and the index of blocks changes
    only for the addresses [K]. *)
Record grown (K : Z -> Prop) (s s' : CFG) : Prop := {
  gw_edges e x : c_edges s !! e = Some x -> c_edges s' !! e = Some x;
  gw_bbs p b : c_bbs s !! p = Some b -> exists b', c_bbs s' !! p = Some b' /\ same_bb b b' /\
    b_out b ⊆ b_out b' /\ b_in b ⊆ b_in b';
  gw_index k : ~ K k -> c_start2bb s' !! k = c_start2bb s !! k;
  gw_index_some k : is_Some (c_start2bb s !! k) -> is_Some (c_start2bb s' !! k);
  gw_functions : c_functions s' = c_functions s;
  gw_fns : c_fns s' = c_fns s
}.

#[export] Instance grown_preorder K : PreOrder (grown K).
Proof.
  split.
  - intros s. split; try done. intros p b Hb. exists b. split_and!; [done|same|done|done].
  - intros s1 s2 s3 [E1 B1 I1 J1 F1 G1] [E2 B2 I2 J2 F2 G2]. split; try congruence; auto.
    + intros p b Hb. destruct (B1 p b Hb) as (b1 & Hb1 & (? & ? & ? & ? & ?) & ? & ?).
      destruct (B2 p b1 Hb1) as (b2 & Hb2 & (? & ? & ? & ? & ?) & ? & ?). exists b2.
      split_and!; [done|split_and!; congruence|by transitivity (b_out b1)|by transitivity (b_in b1)].
    + intros k Hk. rewrite I2, I1 by done. done.
Qed.

Lemma grown_weaken (K K' : Z -> Prop) s s' : (forall k, K k -> K' k) -> grown K s s' -> grown K' s s'.
Proof. intros HK [E B I J F G]. split; auto. Qed.

Lemma edge_between_grown K s s' e a b : grown K s s' -> edge_between s e a b -> edge_between s' e a b.
Proof.
  intros [E B _ _ _ _] (x & p & q & Hx & Hp & Hq & Hl & Hs & Ho & Hi).
  destruct (B _ _ Hp) as (p' & Hp' & (_ & _ & _ & Hl' & _) & Ho' & _).
  destruct (B _ _ Hq) as (q' & Hq' & (_ & Hs' & _) & _ & Hi').
  exists x, p', q'. split_and!; [by apply E|done|done|congruence|congruence|by apply Ho'|by apply Hi'].
Qed.

Lemma grown_linked_to K s s' p q e x : linked_to s s' p q e x -> grown K s s'.
Proof.
  intros L. split; try apply L.
  - intros d y Hy. rewrite (lk_edges _ _ _ _ _ _ L), lookup_insert_ne; [done|]. pose proof (lk_fresh _ _ _ _ _ _ L). congruence.
  - intros r b Hb. eexists. rewrite (lk_bbs _ _ _ _ _ _ L), Hb. split; [done|]. split; [same|]. cbn. split; case_decide; set_solver.
  - intros k _. by rewrite (lk_start2bb _ _ _ _ _ _ L).
  - intros k. by rewrite (lk_start2bb _ _ _ _ _ _ L).
Qed.

(** The label of a new edge. *)
Lemma grown_relabel K s s' e y : grown K s s' -> c_edges s !! e = None -> grown K s (set_edges (<[e := y]> (c_edges s')) s').
Proof.
  intros [E B I J F G] He. split; try done. intros d x Hd. cbn. rewrite lookup_insert_ne; [auto|congruence].
Qed.

Section Grown.
Context {Ma : Malloc}.

Lemma grown_new_bb K s start end_ last g :
  wlp (new_bb start end_ last g) (fun p s' => grown K s s' /\ c_edges s' = c_edges s /\
    exists b, c_bbs s' !! p = Some b /\ b_start b = start) s.
Proof.
  intros p s' [= <- <-]. destruct (fresh_lookup s) as (_ & Hf & _).
  split_and!; [|done|eexists; cbn; by rewrite lookup_insert_eq]. split; try done.
  intros r b Hr. exists b. cbn. rewrite lookup_insert_ne by congruence. split_and!; [done|same|done|done].
Qed.

Lemma grown_on_bb K s p f :
  (forall b, same_bb b (f b) /\ b_out b ⊆ b_out (f b) /\ b_in b ⊆ b_in (f b)) ->
  wlp (on_bb p f) (fun _ s' => grown K s s' /\ c_edges s' = c_edges s) s.
Proof.
  intros Hf q s'. unfold on_bb, mbind, M_bind, bb_at, modify. cbn. destruct (c_bbs s !! p) as [b|] eqn:Hb; [|done]. cbn.
  intros [= <- <-]. split; [|done]. split; try done. intros r c Hc. cbn. destruct (decide (r = p)) as [->|Hne].
  - rewrite lookup_insert_eq. exists (f b). rewrite Hb in Hc. apply (inj Some) in Hc as <-. destruct (Hf b) as (? & ? & ?). done.
  - rewrite lookup_insert_ne by done. exists c. split_and!; [done|same|done|done].
Qed.

Lemma grown_store_bb (K : Z -> Prop) s p : (forall b, c_bbs s !! p = Some b -> K (b_start b)) ->
  wlp (store_bb p) (fun _ s' => grown K s s' /\ c_edges s' = c_edges s) s.
Proof.
  intros HK q s'. unfold store_bb, mbind, M_bind, bb_at, modify. cbn. destruct (c_bbs s !! p) as [b|] eqn:Hb; [|done]. cbn.
  intros [= <- <-]. split; [|done]. split; try done; cbn.
  - intros r c Hc. exists c. split_and!; [done|same|done|done].
  - intros k Hk. rewrite lookup_insert_ne; [done|]. intros <-. auto.
  - intros k Hk. apply lookup_insert_is_Some. destruct (decide (b_start b = k)); auto.
Qed.

Lemma grown_find_or_new s (g : CFG -> Z) a :
  wlp (find_or_new (gets g) a) (fun p s' => grown (fun k => k = a) s s' /\ c_edges s' = c_edges s) s.
Proof.
  unfold find_or_new. apply wlp_bind. intros p s1 [= <- <-]. destruct (negb _).
  { intros q s' [= <- <-]. split; [reflexivity|done]. }
  apply wlp_bind. eapply wlp_mono; [apply (grown_new_bb (fun k => k = a))|]. cbn beta. intros p s1 (G1 & E1 & b & Hb & Hs).
  apply wlp_bind. eapply wlp_mono; [apply (grown_store_bb (fun k => k = a)); congruence|]. cbn beta. intros _ s2 [G2 E2].
  apply wlp_ret. split; [by transitivity s1|congruence].
Qed.

Lemma grown_link K s p q : wlp (link p q) (fun e s' => grown K s s' /\ c_edges s !! e = None) s.
Proof.
  unfold link. apply wlp_bind. intros e s1 [= <- <-]. destruct (fresh_lookup s) as (Hf & _).
  match goal with |- wlp _ _ ?st => set (s1 := st) end.
  assert (grown K s s1) as G1.
  { split; try done; [|intros r b Hb; exists b; split_and!; [done|same|done|done]].
    intros d x Hd. cbn. rewrite lookup_insert_ne; congruence. }
  apply wlp_bind. eapply wlp_mono; [apply (grown_on_bb K); intros b; split; [same|cbn; set_solver]|]. cbn beta. intros _ s2 [G2 _].
  apply wlp_bind. eapply wlp_mono; [apply (grown_on_bb K); intros b; split; [same|cbn; set_solver]|]. cbn beta. intros _ s3 [G3 _].
  apply wlp_ret. split; [|done]. transitivity s1; [done|]. by transitivity s2.
Qed.

Lemma grown_create_edge s a b :
  wlp (create_and_add_edge_addr a b) (fun e s' => grown (fun k => k = a \/ k = b) s s' /\ c_edges s !! e = None) s.
Proof.
  unfold create_and_add_edge_addr. apply wlp_bind. eapply wlp_mono; [apply grown_find_or_new|]. cbn beta. intros p s1 [G1 E1].
  apply wlp_bind. eapply wlp_mono; [apply grown_find_or_new|]. cbn beta. intros q s2 [G2 E2].
  eapply wlp_mono; [apply (grown_link (fun k => k = a \/ k = b))|]. cbn beta. intros e s3 [G3 E3]. split; [|congruence].
  transitivity s1; [eapply grown_weaken; [|exact G1]; auto|]. transitivity s2; [eapply grown_weaken; [|exact G2]; auto|done].
Qed.

Lemma grown_dummy K s a b g :
  wlp (create_dummy_basic_block_range a b g) (fun p s' => grown K s s' /\ c_edges s' = c_edges s) s.
Proof.
  unfold create_dummy_basic_block_range. apply wlp_bind. intros d s1 [= <- <-].
  match goal with |- wlp _ _ ?st => set (s1 := st) end.
  assert (grown K s s1) as G1 by (split; try done; intros r c Hc; exists c; split_and!; [done|same|done|done]).
  apply wlp_bind. eapply wlp_mono; [apply (grown_new_bb K)|]. cbn beta. intros p s2 (G2 & E2 & _).
  apply wlp_bind. eapply wlp_mono; [apply (grown_on_bb K s2 p set_dummy); intros c; split; [same|done]|]. cbn beta. intros _ s3 [G3 E3].
  apply wlp_ret. split; [|by rewrite E3, E2]. transitivity s1; [done|]. by transitivity s2.
Qed.

(** An indirect call from [a] to [b] that was added. *)
Definition call_edge (s : CFG) (a b : Z) : Prop := exists e x, edge_between s e a b /\ c_edges s !! e = Some x /\
  e_type x = arms_indirect_call /\ e_hidden x = false /\ e_intra x = Some false.

Lemma call_edge_grown K s s' a b : grown K s s' -> call_edge s a b -> call_edge s' a b.
Proof.
  intros G (e & x & Hb & Hx & Ht). exists e, x. split; [by eapply edge_between_grown|]. split; [by apply (gw_edges _ _ _ G)|done].
Qed.

(** Labelling the new edge [e]. *)
Lemma wp_label_call K s s1 e a b x :
  good s s1 -> grown K s s1 -> c_edges s !! e = None -> edge_between s1 e a b -> c_edges s1 !! e = Some x -> e_hidden x = false ->
  wp (set_type e arms_indirect_call;; set_interprocedural e) (fun _ s' => good s s' /\ grown K s s' /\ call_edge s' a b) s1.
Proof.
  intros G1 W1 Hn (y & p & q & Hy & Hp & Hq & Hl & Hs & Ho & Hi) Hx Hh. rewrite Hx in Hy. apply (inj Some) in Hy as <-.
  eapply wp_bind, wp_mono; [apply (wp_on_edge s1 e x); [apply G1|done|same]|]. cbn beta. intros _ s2 [G2 ->].
  match type of G2 with good _ ?st => set (s2 := st) in * end.
  assert (c_edges s2 !! e = Some (set_type_of arms_indirect_call x)) as Hx2 by apply lookup_insert_eq.
  eapply wp_mono; [apply (wp_on_edge s2 e _ _ (good_wf _ _ G2) Hx2); same|]. cbn beta. intros _ s3 [G3 ->].
  split_and!; [by eapply good_trans; [|eapply good_trans]| |].
  - apply grown_relabel; [|done]. by apply grown_relabel.
  - exists e. eexists. split; [|split; [apply lookup_insert_eq|done]].
    eexists _, p, q. split; [apply lookup_insert_eq|]. done.
Qed.

(** ** The operations *)

Lemma wp_seq_ret {A} (m n : M unit) (a : A) s (P : CFG -> Prop) (Q : A -> CFG -> Prop) :
  wp (m;; n) (fun _ s' => P s') s -> (forall s', P s' -> Q a s') -> wp (m;; n;; mret a) Q s.
Proof.
  unfold wp, mbind, M_bind. destruct (m s) as [[[] s1]|]; [|done]. destruct (n s1) as [[[] s2]|]; [|done]. cbn. auto.
Qed.

Lemma wp_link_dummy (K : Z -> Prop) s f x :
  cfg_wf s -> c_fns s !! f = Some x -> K Tag.ADDRESS_TAKEN -> K (f_base x) ->
  wp (link_dummy_block_to_at_func f) (fun _ s' => good s s' /\ grown K s s' /\
    (f_at x = true -> call_edge s' Tag.ADDRESS_TAKEN (f_base x))) s.
Proof.
  intros Hwf Hx K1 K2. unfold link_dummy_block_to_at_func. eapply wp_reads; [by apply reads_fn_at|].
  destruct (f_at x); cbn [negb]; [|apply wp_ret; split_and!; [by apply good_refl|reflexivity|done]].
  eapply wp_bind, wp_mono; [apply wp_and_wlp; [apply (wp_dummy_body s Tag.ADDRESS_TAKEN _ NULL); auto|apply (grown_dummy K)]|].
  cbn beta. intros p s1 ((G1 & Hp & (b & Hb & _ & Hl & _) & _) & W1 & E1). eapply wp_reads; [by apply reads_bb_at|]. rewrite Hl.
  eapply wp_bind, wp_mono; [apply wp_and_wlp; [apply wp_create_and_add_edge_addr; by eapply good_wf|apply grown_create_edge]|].
  cbn beta. intros e s2 ((G2 & _ & Hbt & y & Hy & Hh & _) & W2 & E2).
  assert (grown K s s2) as W.
  { transitivity s1; [done|]. eapply grown_weaken; [|exact W2]. intros k [->| ->]; done. }
  eapply wp_mono; [apply (wp_label_call K s s2 e Tag.ADDRESS_TAKEN (f_base x) y); try done; [by eapply good_trans|congruence]|].
  cbn beta. intros _ s3 (G3 & W3 & C3). done.
Qed.

Lemma wp_link_all (K : Z -> Prop) fs : forall s,
  cfg_wf s -> K Tag.ADDRESS_TAKEN -> (forall f x, f ∈ fs -> c_fns s !! f = Some x -> K (f_base x)) -> Forall (fn_ok s) fs ->
  wp (for_each link_dummy_block_to_at_func fs) (fun _ s' => good s s' /\ grown K s s' /\
    forall f x, f ∈ fs -> c_fns s !! f = Some x -> f_at x = true -> call_edge s' Tag.ADDRESS_TAKEN (f_base x)) s.
Proof.
  induction fs as [|f fs IH]; intros s Hwf K1 K2 Hfs; cbn [for_each].
  { apply wp_ret. split_and!; [by apply good_refl|reflexivity|]. by intros f x ?%not_elem_of_nil. }
  apply Forall_cons in Hfs as [[x Hx] Hfs]. eapply wp_bind, wp_mono; [apply (wp_link_dummy K s f x); try done; apply (K2 f x); [left|done]|].
  cbn beta. intros _ s1 (G1 & W1 & C1). pose proof (gw_fns _ _ _ W1) as F1.
  eapply wp_mono; [apply IH; [by eapply good_wf|done|rewrite F1; intros g y Hg; apply K2; by right|]|].
  { eapply Forall_impl; [exact Hfs|]. unfold fn_ok. by rewrite F1. }
  cbn beta. intros _ s2 (G2 & W2 & C2). rewrite F1 in C2. split_and!; [by eapply good_trans|by transitivity s1|].
  intros g y [->|Hg]%elem_of_cons Hy Hat; [|by apply (C2 g y)]. rewrite Hx in Hy. apply (inj Some) in Hy as <-.
  eapply call_edge_grown; [exact W2|]. auto.
Qed.

Lemma grown_store_if_missing (K : Z -> Prop) s p : (forall b, c_bbs s !! p = Some b -> K (b_start b)) ->
  wlp (store_if_missing p) (fun _ s' => grown K s s' /\ c_edges s' = c_edges s) s.
Proof.
  intros HK q s'. unfold store_if_missing. unfold mbind at 1, M_bind at 1, bb_at at 1.
  destruct (c_bbs s !! p) as [b|] eqn:Hb; [|done]. cbn. revert q s'.
  match goal with |- forall q s', ?m s = _ -> ?Q => change (wlp m (fun _ s' => grown K s s' /\ c_edges s' = c_edges s) s) end.
  apply wlp_bind. intros r s1 [= <- <-].
  apply wlp_bind with (Q := fun _ s' => grown K s s' /\ c_edges s' = c_edges s).
  eapply wlp_mono with (P := fun _ s' => grown K s s' /\ c_edges s' = c_edges s).
  { case_decide; [apply grown_store_bb; intros c Hc; apply HK; congruence|apply wlp_ret; by split]. }
  intros _ s1 H1. apply wlp_bind. intros r s2 [= <- <-]. apply wlp_bind. intros same s2.
  unfold equals_bb, mbind, M_bind, bb_at. cbn. destruct (c_bbs s1 !! _); [|done]. cbn. destruct (c_bbs s1 !! p); [|done]. cbn.
  intros [= <- <-]. unfold assert. destruct (bool_decide _); [by apply wlp_ret|by intros ? ?].
Qed.

Definition anywhere (k : Z) : Prop := True.

Lemma grown_create_edge_bb s p q :
  wlp (create_and_add_edge p q) (fun e s' => e <> NULL -> grown anywhere s s' /\ c_edges s !! e = None) s.
Proof.
  unfold create_and_add_edge. case_decide; [by apply wlp_ret|].
  apply wlp_bind. eapply wlp_mono; [by apply (grown_store_if_missing anywhere)|]. cbn beta. intros _ s1 [W1 E1].
  apply wlp_bind. eapply wlp_mono; [by apply (grown_store_if_missing anywhere)|]. cbn beta. intros _ s2 [W2 E2].
  eapply wlp_mono; [apply (grown_link anywhere)|]. cbn beta. intros e s3 [W3 E3] _. split; [|congruence].
  transitivity s1; [done|]. by transitivity s2.
Qed.

Lemma wp_insert_dummy_loader_block s a :
  cfg_wf s -> c_start2bb s !! 0 = None ->
  wp (insert_dummy_loader_block a) (fun r s' => good s s' /\ grown anywhere s s' /\
    (c_start2bb s !! a = None /\ r = -1 \/ is_Some (c_start2bb s !! a) /\ r = 0 /\ call_edge s' 0 a)) s.
Proof.
  intros Hwf H0. unfold insert_dummy_loader_block.
  eapply wp_bind, wp_mono; [apply wp_and_wlp; [apply (wp_dummy_body s 0 _ NULL); auto|apply (grown_dummy anywhere)]|].
  cbn beta. intros p s1 ((G1 & Hp & (b & Hb & Hs & Hl & _) & _ & S1 & _) & W1 & E1).
  pose proof (good_wf _ _ G1) as Hwf1.
  destruct (find_bb_spec s1 a Hwf1) as (q & Hq & [[-> Ha]|(Hne & Ha & c & Hc & Hca)]); eapply wp_reads; try exact Hq.
  { rewrite decide_True by done. apply wp_ret. rewrite S1 in Ha. auto. }
  rewrite decide_False by done. rewrite S1 in Ha. assert (a <> 0) as Ha0 by congruence.
  eapply wp_bind, wp_mono; [apply wp_and_wlp; [apply (wp_create_and_add_edge s1 p q b c Hwf1 Hb Hc)|apply grown_create_edge_bb]|].
  { intros r d. rewrite S1, Hs, H0. done. }
  { intros r d. rewrite S1, Hca, Ha. intros [= <-]. congruence. }
  { rewrite Hs, Hca. congruence. }
  cbn beta. intros e s2 ((G2 & Hbt & x & Hx & Hh) & W2). rewrite Hl, Hca in Hbt.
  assert (e <> NULL) as He by (eapply ok_not_null; [by eapply good_wf|right; left; by exists x]).
  destruct (W2 He) as [W2' E2].
  eapply wp_seq_ret; [apply (wp_label_call anywhere s s2 e 0 a x); try done|].
  { by eapply good_trans. }
  { by transitivity s1. }
  { congruence. }
  cbn beta. intros s3 (G3 & W3 & C3). split_and!; [done|done|]. right. split_and!; [by exists q|done|done].
Qed.
End Grown.

(** The graph after the blocks were added: callbacks can enter every function whose
    address is taken. *)
Definition callbacks_linked (s s' : CFG) : Prop :=
  forall a f x, c_functions s !! a = Some f -> c_fns s !! f = Some x -> f_at x = true -> call_edge s' Tag.ADDRESS_TAKEN a.

(** The loader calls [a], where [main] is. *)
Definition main_linked (s' : CFG) (a : Z) : Prop :=
  call_edge s' 0 a /\ exists f x, c_functions s' !! a = Some f /\ c_fns s' !! f = Some x /\ f_main x = true.

Lemma wp_mark_main `{Malloc} s a :
  cfg_wf s ->
  wp (mark_main_function a) (fun r s' => good s s' /\ (forall b c, call_edge s b c -> call_edge s' b c) /\
    (c_functions s !! a = None /\ r = -1 \/
     r = 0 /\ exists f x, c_functions s !! a = Some f /\ c_functions s' !! a = Some f /\ c_fns s' !! f = Some x /\ f_main x = true)) s.
Proof.
  intros Hwf. unfold mark_main_function. destruct (find_function_spec s a Hwf) as (f & Hf & [[-> Ha]|(Hne & Ha & x & Hx & _)]);
    (eapply wp_reads; [exact Hf|]).
  { rewrite decide_True by done. apply wp_ret. split_and!; [by apply good_refl|done|by left]. }
  rewrite decide_False by done. eapply wp_bind, wp_mono.
  { apply (wp_on_fn s f x); [done|done|same|]. cbn. intros p Hp. by apply (wf_entries _ Hwf f x p Hx). }
  cbn beta. intros _ s1 [G1 ->]. apply wp_ret. split_and!; [done|done|]. right. split; [done|].
  exists f. eexists. split_and!; [done|done|apply lookup_insert_eq|done].
Qed.

Lemma add_dummy_spec {Ma : Malloc} s bininfo :
  cfg_wf s -> c_start2bb s !! 0 = None -> c_functions s !! 0 = None ->
  exists r s', add_dummy_shlib_blocks false bininfo s = Some (r, s') /\ good s s' /\ callbacks_linked s s' /\
    match (m ← parse_bininfo_file bininfo; Some (strtoul <$> m !! main_key)) with
    | None => r = false
    | Some None => r = true
    | Some (Some a) =>
        (r = true -> main_linked s' a) /\ (c_functions s !! a = None -> r = false) /\
        (is_Some (c_start2bb s !! a) -> is_Some (c_functions s !! a) -> r = true)
    end.
Proof.
  intros Hwf Hb0 Hf0. set (K k := k = Tag.ADDRESS_TAKEN \/ is_Some (c_functions s !! k)).
  set (fs := map_in_order (c_functions s)).
  assert (forall a f x, c_functions s !! a = Some f -> c_fns s !! f = Some x -> f_base x = a) as Hbase.
  { intros a f x Ha Hx. destruct (wf_functions _ Hwf a f Ha) as (y & Hy & Hb). congruence. }
  assert (wp (foreach_function link_dummy_block_to_at_func) (fun _ s' => good s s' /\ grown K s s' /\ callbacks_linked s s') s) as Hlink.
  { unfold foreach_function. eapply wp_reads; [apply reads_gets|]. fold fs. eapply wp_mono; [apply (wp_link_all K fs s Hwf)|].
    - by left.
    - intros f x (a & Ha)%elem_of_map_in_order Hx. right. rewrite (Hbase a f x Ha Hx). by exists f.
    - apply Forall_forall. intros f (a & Ha)%elem_of_map_in_order. destruct (wf_functions _ Hwf a f Ha) as (x & Hx & _). by exists x.
    - cbn beta. intros _ s1 (G1 & W1 & C1). split_and!; [done|done|]. intros a f x Ha Hx Hat. rewrite <- (Hbase a f x Ha Hx).
      apply (C1 f x); [|done|done]. apply elem_of_map_in_order. by exists a. }
  unfold wp in Hlink. unfold add_dummy_shlib_blocks. unfold mbind at 1, M_bind at 1.
  destruct (foreach_function link_dummy_block_to_at_func s) as [[[] s1]|]; [|done]. destruct Hlink as (G1 & W1 & C1).
  destruct (parse_bininfo_file bininfo) as [m|]; cbn [mbind option_bind]; [|by exists false, s1].
  destruct (m !! main_key) as [v|]; cbn [fmap option_fmap option_map]; [|by exists true, s1].
  set (a := strtoul v). cbv zeta. pose proof (good_wf _ _ G1) as Hwf1. pose proof (gw_functions _ _ _ W1) as F1.
  assert (c_start2bb s1 !! 0 = None) as Hb1.
  { rewrite (gw_index _ _ _ W1); [done|]. intros [Heq|[f Hf]]; [discriminate|congruence]. }
  pose proof (wp_insert_dummy_loader_block s1 a Hwf1 Hb1) as Hins. unfold wp in Hins. unfold mbind at 1, M_bind at 1.
  destruct (insert_dummy_loader_block a s1) as [[r2 s2]|]; [|done]. destruct Hins as (G2 & W2 & Hins).
  assert (callbacks_linked s s2) as C2 by (intros b f x Hb Hx Hat; eapply call_edge_grown; [exact W2|]; by apply (C1 b f x)).
  assert (good s s2) as G by (by eapply good_trans).
  pose proof (gw_functions _ _ _ W2) as F2. destruct Hins as [[Hna ->]|(Hsa & -> & Hc)].
  { exists false, s2. split_and!; try done. intros Hsb _. destruct (gw_index_some _ _ _ W1 a Hsb). congruence. }
  rewrite decide_False by lia. pose proof (wp_mark_main s2 a (good_wf _ _ G2)) as Hmk. unfold wp in Hmk. unfold mbind at 1, M_bind at 1.
  destruct (mark_main_function a s2) as [[r3 s3]|]; [|done]. destruct Hmk as (G3 & C3 & Hmk). rewrite F2, F1 in Hmk.
  exists (negb (bool_decide (r3 < 0))), s3. split; [done|]. split; [by eapply good_trans|].
  split; [intros b f x Hb Hx Hat; by apply C3, (C2 b f x)|].
  destruct Hmk as [[Hnf ->]|(-> & f & x & Hf & Hf' & Hx & Hm)]; cbn.
  - split_and!; [done|done|]. intros _ [f Hf]. congruence.
  - split_and!; [|congruence|done]. intros _. split; [by apply C3|]. by exists f, x.
Qed.


(** ** A concrete program *)

(** [main] at 0x1000, a callback at 0x2000, and the line addr.func.main=0x1000. *)
Definition dummies_cfg : CFG := default cfg_empty (run_ops
  [OpFunction "main" 0x1000; OpFunction "callback" 0x2000; OpFlag 3 AddrTaken] cfg_empty).
Definition dummies_bininfo : list Z := concat (print_line <$> [([35; 35], [49]); (main_key, 48 :: 120 :: hex 4 0x1000)]).

Lemma bininfo_roundtrip_witness :
  parse_bininfo_file (Some (concat (print_line <$> [(main_key, 48 :: 120 :: hex 16 0x1000)]))) =
    Some {[main_key := 48 :: 120 :: hex 16 0x1000]} /\ strtoul (48 :: 120 :: hex 16 0x1000) = 0x1000.
Proof.
  apply (bininfo_roundtrip [(main_key, 48 :: 120 :: hex 16 0x1000)] 0x1000).
  - apply Forall_singleton. split_and!; try discriminate; apply (bool_decide_eq_true_1 _); vm_compute; reflexivity.
  - lia.
Defined.

