(* ===== verification/Handshake.v ===== *)
(** The handshake between the kernel module and the analyzer:
    [run_lbr_state_analysis_daemon] of dyninst-static/lbr_analysis_pass.C, the
    process that asks for work with an ioctl, validates the LBR it gets and
    answers with another ioctl, together with the handlers of Armor.v.

    The daemon is a state machine: what it asks for next and where it goes with the
    reply.  Its memory allocations and its opening of the device succeed, and
    the buffers it passes are valid; nobody interrupts it.  Over the analysis the
    machine and its properties are parametric, as a function of the set-up, the
    LBR and the graph; [jit_analysis] is the one of Jit.v.  *)

From stdpp Require Import relations.
From S2P Require Import Prelude Slots Lbr LbrState StateFile Cfg CfgInv JitPath Jit Wrappers Kernel Armor ArmorInv.

(** ** The daemon *)

(** What it fetches before the loop. *)
Record setup := Setup {
  su_offsets : offsets_t;
  su_plt_got : plt_got_copy_t;
  su_plts : list Z;
  su_gots : list Z;
  su_simples : simples_t;
  su_exits : list Z
}.

Inductive dpc :=
| DOffsets
| DPltCopy (o : offsets_t)
| DPlts0 (o : offsets_t) (p : plt_got_copy_t)
| DGots0 (o : offsets_t) (p : plt_got_copy_t) (plts : list Z)
| DExits (o : offsets_t) (p : plt_got_copy_t) (plts gots : list Z)
| DExitsData (o : offsets_t) (p : plt_got_copy_t) (plts gots : list Z) (simples : simples_t)
| DGet (u : setup)
| DPlts (u : setup) (l : lbr_t)
| DGots (u : setup) (l : lbr_t) (plts : list Z)
| DPut (u : setup) (is_valid : Z)
| DExit (ret : Z).

(** The next ioctl, command and argument; pointers to buffers are 0. *)
Definition request (pc : dpc) : option (Z * Z) :=
  match pc with
  | DOffsets => Some (ARMOR_IOC_GET_OFFSETS, 0)
  | DPltCopy _ => Some (ARMOR_IOC_PULL_PLT_COPY, 0)
  | DPlts0 _ _ | DPlts _ _ => Some (ARMOR_IOC_PULL_PLTS, 0)
  | DGots0 _ _ _ | DGots _ _ _ => Some (ARMOR_IOC_PULL_GOTS, 0)
  | DExits _ _ _ _ => Some (ARMOR_IOC_PULL_EXITS, 0)
  | DExitsData _ _ _ _ _ => Some (ARMOR_IOC_PULL_EXITS_DATA, 0)
  | DGet _ => Some (ARMOR_IOC_GET_JIT_WORK, 0)
  | DPut _ v => Some (ARMOR_IOC_PUT_JIT_WORK, v)
  | DExit _ => None
  end.

(** [!memcmp(a, b, size)]. *)
Definition same_bytes (size : Z) (a b : list Z) : bool := bool_decide (take (Z.to_nat size) a = take (Z.to_nat size) b).

Section Daemon.
Context {G : Type} (validate : setup -> lbr_t -> G -> option (Z * G)).

(** Where the reply leads; [None] if the analysis does not return, or the kernel
    copies from a pointer it was not given. *)
Definition resume (pc : dpc) (g : G) (r : reply) : option (dpc * G) :=
  if decide (r.1 <> 0) then Some (DExit (-1), g) else
  match pc, r.2 with
  | DOffsets, OutOffsets o => Some (DPltCopy o, g)
  | DPltCopy o, OutPltGot p => Some (DPlts0 o p, g)
  | DPlts0 o p, OutBuffer (KernelBuf plts) _ => Some (DGots0 o p plts, g)
  | DGots0 o p plts, OutBuffer (KernelBuf gots) _ => Some (DExits o p plts gots, g)
  | DExits o p plts gots, OutSimples simples => Some (DExitsData o p plts gots simples, g)
  | DExitsData o p plts gots simples, OutBuffer (KernelBuf exits) _ => Some (DGet (Setup o p plts gots simples exits), g)
  | DGet u, OutLbr l => Some (DPlts u l, g)
  | DPlts u l, OutBuffer (KernelBuf plts) _ => Some (DGots u l plts, g)
  | DGots u l plts, OutBuffer (KernelBuf gots) _ =>
      if negb (same_bytes (pg_size (su_plt_got u)) plts (su_plts u)) then Some (DExit (-1), g) else
      if negb (same_bytes (pg_size (su_plt_got u)) gots (su_gots u)) then Some (DExit (-1), g) else
      '(v, g) ← validate u l g; Some (DPut u v, g)
  | DPut u _, _ => Some (DGet u, g)
  | _, _ => None
  end.
End Daemon.

(** The call of [jit_validate_lbr], with the tables as the words in the buffers;
    the graph comes with [last_lib_call]. *)
Definition jit_analysis `{Malloc} (retouch : Z -> M unit) (fuel : nat) (u : setup) (l : lbr_t) (g : Z * CFG) : option (Z * (Z * CFG)) :=
  let items := Z.to_nat (pg_items (su_plt_got u)) in
  let plt_got := zip (dec_words items (su_plts u)) (dec_words items (su_gots u)) in
  let exits := dec_words (Z.to_nat (sp_items (su_simples u))) (su_exits u) in
  '(v, last, cfg) ← jit_validate_lbr retouch (su_offsets u) fuel exits plt_got l g.1 g.2;
  Some (v, (last, cfg)).

(** ** What the other handlers leave alone *)

(** The state of the handshake: both semaphores, the work, the result and the
    tables the daemon compares. *)
Record hands := Hands { h_work_cond : Z; h_result_cond : Z; h_work : option lbr_t; h_result : Z; h_plt_got : plt_got_copy_t }.

Definition hs (s : kstate) : hands :=
  let j := k_jit s in Hands (j_work_cond j) (j_result_cond j) (j_work j) (j_result j) (d_plt_got (k_dev s)).

Definition posted (l : lbr_t) (h : hands) : hands :=
  Hands (h_work_cond h + 1) (h_result_cond h) (Some l) (h_result h) (h_plt_got h).

(** A handler that keeps the state [h], except that it may, under the lock, post
    work and wait for the result; it never waits for work. *)
Inductive keeps {A} : hands -> proc A -> Prop :=
| keeps_done h a s : hs s = h -> keeps h (Done a s)
| keeps_lock h s k : hs s = h -> (forall d s', keeps (hs s') (k (Granted d) s')) -> keeps h (Wait WLock s k)
| keeps_ask h l s k : hs s = posted l h -> (forall d s', keeps (hs s') (k (Granted d) s')) -> keeps h (Wait WResult s k)
| keeps_wait h w s k : w = WStarted \/ w = WPlt \/ w = WExits -> hs s = h -> (forall o s', keeps (hs s') (k o s')) -> keeps h (Wait w s k)
| keeps_oops h : keeps h Oops.

Definition calm {A} (m : K A) : Prop := forall s, keeps (hs s) (m s).

Lemma keeps_bind {A B} h (p : proc A) (f : A -> K B) : keeps h p -> (forall a, calm (f a)) -> keeps h (proc_bind p f).
Proof.
  intros Hp Hf. induction Hp as [h a s <-|h s k Hs _ IH|h l s k Hs _ IH|h w s k Hw Hs _ IH|h]; cbn; [apply Hf|..].
  - by constructor.
  - by econstructor.
  - by constructor.
  - constructor.
Qed.

Lemma calm_bind {A B} (m : K A) (f : A -> K B) : calm m -> (forall a, calm (f a)) -> calm (m ≫= f).
Proof. intros Hm Hf s. by apply keeps_bind. Qed.
Lemma calm_ret {A} (a : A) : calm (mret a).
Proof. intros s. by constructor. Qed.
Lemma calm_gets {A} (f : kstate -> A) : calm (gets f).
Proof. intros s. by constructor. Qed.
Lemma calm_modify f : (forall s, hs (f s) = hs s) -> calm (modify f).
Proof. intros Hf s. by constructor. Qed.
Lemma calm_oops {A} : calm (@oops A).
Proof. intros s. constructor. Qed.
Lemma calm_when b m : calm m -> calm (when_ b m).
Proof. intros. destruct b; [done|apply calm_ret]. Qed.
Lemma calm_if {A} (b : bool) (m n : K A) : calm m -> calm n -> calm (if b then m else n).
Proof. by destruct b. Qed.
Lemma calm_decide {A} P `{Decision P} (m n : K A) : calm m -> calm n -> calm (if decide P then m else n).
Proof. by case_decide. Qed.
Lemma calm_sleep w : w = WStarted \/ w = WPlt \/ w = WExits -> calm (sleep w).
Proof. intros Hw s. constructor; [done|done|]. intros o s'. by constructor. Qed.

(** A pure step that gives a value and a state. *)
Lemma calm_step {A} (m : K A) : (forall s, exists a s', m s = Done a s' /\ hs s' = hs s) -> calm m.
Proof. intros Hm s. destruct (Hm s) as (a & s' & -> & Hs). by constructor. Qed.

Create HintDb calm.
#[export] Hint Resolve calm_ret calm_gets calm_oops calm_when calm_if calm_sleep : calm.
#[export] Hint Extern 1 (calm (_ ≫= _)) => apply calm_bind; [|intros ?] : calm.
#[export] Hint Extern 1 (calm (if decide _ then _ else _)) => apply calm_decide : calm.
#[export] Hint Extern 1 (calm (modify _)) => apply calm_modify; reflexivity : calm.
#[export] Hint Extern 1 (calm (ARMOR_STAT _)) => apply calm_modify; reflexivity : calm.
#[export] Hint Extern 1 (calm (wrmsrl _ _)) => apply calm_modify; reflexivity : calm.
#[export] Hint Extern 1 (calm (kill_pid _)) => apply calm_modify; reflexivity : calm.
#[export] Hint Extern 1 (calm (put_user _ _ _)) => apply calm_modify; reflexivity : calm.
#[export] Hint Extern 2 (calm (match ?x with _ => _ end)) => destruct x : calm.

Ltac calm_auto := auto 60 with calm.

Section Calm.
Context (md4 : list Z -> list Z) (jiffies_to_timeval : Z -> Z * Z).

Lemma calm_validate_result hash : calm (validate_result hash).
Proof.
  unfold validate_result. apply calm_bind; [apply calm_gets|]. intros r.
  assert (calm (j ← gets (fun s => jit_insert hash (k_jit s));
    match j with Some j => modify (on_jit (fun _ => j)) | None => oops end)) as Hadd.
  { intros s. unfold mbind, K_bind, gets. cbn [proc_bind]. unfold jit_insert.
    repeat (case_decide || case_match); try constructor; done. }
  calm_auto.
Qed.

Lemma calm_validate_lbr : calm (validate_lbr md4 jiffies_to_timeval).
Proof.
  unfold validate_lbr. apply calm_bind; [apply calm_gets|]. intros l. apply calm_bind; [apply calm_gets|]. intros [|]; [apply calm_ret|].
  intros s. apply keeps_lock; [done|]. intros d s1. unfold validate_locked.
  unfold mbind at 1, K_bind at 1, ARMOR_STAT at 1, modify. cbn [proc_bind].
  unfold mbind at 1, K_bind at 1. destruct (Digest.hash_lbr md4 l _) as [hash st]. cbn [proc_bind].
  unfold mbind at 1, K_bind at 1, gets. cbn [proc_bind]. destruct (jit_cached hash _).
  - unfold mbind, K_bind, ARMOR_STAT, modify. cbn. by constructor.
  - unfold mbind, K_bind, ARMOR_STAT, modify, sleep. cbn [proc_bind]. apply (keeps_ask _ l); [done|].
    intros d2 s2. unfold validate_reply. cbn [proc_bind].
    assert (calm (modify (on_stats (jit_account jiffies_to_timeval d2));; validate_result hash;; modify (on_jit (set_lock false)))) as Hc; [|apply Hc].
    pose proof (calm_validate_result hash). calm_auto.
Qed.
Hint Resolve calm_validate_lbr : calm.

(** The operations on the tables. *)
Lemma calm_tables t x p :
  calm (do_lib_init t x) /\ calm (do_cbk_init t x) /\ calm (do_sig_init t x) /\ calm (do_lib_exit t) /\ calm (do_cbk_exit t) /\
  calm (do_sig_exit t) /\ calm (copy_tables t p) /\ calm (copy_lbr t p).
Proof.
  split_and!; unfold do_lib_init, do_cbk_init, do_sig_init, do_lib_exit, do_cbk_exit, do_sig_exit, copy_tables, copy_lbr;
    repeat (apply calm_bind; [|intros ?]); try (by calm_auto);
    apply calm_step; intros s; repeat case_match; eexists _, _; split; reflexivity.
Qed.

Lemma calm_ioctl t cmd arg e :
  cmd <> ARMOR_IOC_GET_JIT_WORK -> cmd <> ARMOR_IOC_PUT_JIT_WORK -> cmd <> ARMOR_IOC_PUSH_PLTS ->
  calm (armor_ioctl md4 jiffies_to_timeval t cmd arg e).
Proof.
  intros H1 H2 H3. destruct (calm_tables t arg NULL) as (? & ? & ? & ? & ? & ? & _). unfold armor_ioctl.
  repeat (case_decide; [first [congruence|unfold ioctl_lib_enter, ioctl_lib_exit, ioctl_callback_enter, ioctl_callback_exit,
    ioctl_copy_paths, ioctl_init, ioctl_push_exits, ioctl_pull_plt_copy, ioctl_pull_exits, armor_ioctl_get_offsets; by calm_auto]|]).
  apply calm_ret.
Qed.

(** The calls that are not the analyzer's, and do not replace the tables. *)
Definition modest (c : Sys.call) : Prop :=
  match c with
  | Sys.CIoctl cmd _ _ => cmd <> ARMOR_IOC_GET_JIT_WORK /\ cmd <> ARMOR_IOC_PUT_JIT_WORK /\ cmd <> ARMOR_IOC_PUSH_PLTS
  | _ => True
  end.

(** Opening the device resets the semaphores, unless it is in use. *)
Lemma keeps_open b s : d_initialized (k_dev s) = true \/ h_work_cond (hs s) = 0 /\ h_result_cond (hs s) = 0 ->
  keeps (hs s) (armor_open b s).
Proof.
  intros Hs. unfold armor_open, mbind, K_bind, modify, gets. cbn [proc_bind on_dev k_dev set_opens d_initialized].
  destruct (d_initialized (k_dev s)); [by constructor|]. destruct Hs as [Hs|[Hw Hr]]; [done|]. destruct b; cbn; [|by constructor].
  constructor. unfold hs in *. cbn in *. by rewrite Hw, Hr.
Qed.

Lemma keeps_call t c s :
  modest c ->
  (forall b, c = Sys.COpen b -> d_initialized (k_dev s) = true \/ h_work_cond (hs s) = 0 /\ h_result_cond (hs s) = 0) ->
  keeps (hs s) (Sys.run_call md4 jiffies_to_timeval t c s).
Proof.
  intros Hc Hs. destruct (calm_tables t NULL NULL) as (_ & _ & _ & _ & _ & H6 & _).
  assert (forall h, calm (do_sig_init t h)) as H3 by (intros h; by destruct (calm_tables t h NULL) as (_ & _ & ? & _)).
  assert (forall p, calm (copy_tables t p) /\ calm (copy_lbr t p)) as H7
    by (intros p; by destruct (calm_tables t NULL p) as (_ & _ & _ & _ & _ & _ & ? & ?)).
  destruct c as [h| |p| | |rv|prot|prot| | | |b| |cmd arg e]; cbn [Sys.run_call];
    [..|by apply keeps_open, (Hs b)| |destruct Hc as (? & ? & ?); by apply calm_ioctl].
  all: lazymatch goal with |- keeps (hs ?s) (?m ?s) => assert (calm m) as Hm; [|apply Hm] end.
  all: unfold new_signal_delivered, new_sys_rt_sigreturn, new_wake_up_new_task, new_do_exit, new_sys_execve,
    new_sys_execve_ret, new_sys_mmap_pgoff, new_sys_mprotect, new_sys_read, new_sys_write, new_sys_rt_sigaction, armor_close.
  all: try (destruct (H7 p)); calm_auto.
Qed.
End Calm.

(** ** The module and the daemon together *)

Section System.
Context (md4 : list Z -> list Z) (jiffies_to_timeval : Z -> Z * Z).
Context {G : Type} (validate : setup -> lbr_t -> G -> option (Z * G)).
Context (dt : Z) (Hdt : dt <> NULL).

(** The kernel with its sleeping tasks, and the daemon, task [dt], with its graph. *)
Definition config : Type := Sys.sys * (dpc * G).

(** Who moves: the daemon, the task whose validation is answered, or another. *)
Inductive mover := Daemon | Answer (t : Z) | Other.

#[local] Notation run_call := (Sys.run_call md4 jiffies_to_timeval).

(** The other tasks make modest calls, and no sleep for a result ends without
    one (a time-out switches validation off). *)
Inductive moves : mover -> config -> config -> Prop :=
| m_call s pool d t cpu c S' :
    t <> NULL -> t <> dt -> pool !! t = None -> Sys.call_ok t c s -> modest c ->
    Sys.settle t (run_call t c (on_cpu cpu s)) pool = Some S' -> moves Other ((s, pool), d) (S', d)
| m_grant s pool d t cpu w k s1 j S' :
    t <> dt -> pool !! t = Some (w, k) -> w <> WResult -> Sys.acquire w s = Some s1 ->
    Sys.settle t (k (Granted j) (on_cpu cpu s1)) (delete t pool) = Some S' -> moves Other ((s, pool), d) (S', d)
| m_expire s pool d t cpu w k S' :
    t <> dt -> pool !! t = Some (w, k) -> w <> WResult -> w <> WLock ->
    Sys.settle t (k Expired (on_cpu cpu s)) (delete t pool) = Some S' -> moves Other ((s, pool), d) (S', d)
| m_sched_out s pool d t cpu s' :
    t_hooked (task_of t s) = true -> sched_out t (on_cpu cpu s) = Done tt s' -> moves Other ((s, pool), d) ((s', pool), d)
| m_sched_in s pool d t cpu s' :
    t_hooked (task_of t s) = true -> sched_in t (on_cpu cpu s) = Done tt s' -> moves Other ((s, pool), d) ((s', pool), d)
| m_work s pool d old q s' :
    k_exitq s = old :: q -> do_deferred_exit old (on_exitq (fun _ => q) s) = Done tt s' ->
    moves Other ((s, pool), d) ((s', pool), d)
| m_user s pool d msr tasks :
    mmaps_small (on_tasks (fun _ => tasks) s) ->
    moves Other ((s, pool), d) ((on_msr msr (on_tasks (fun _ => tasks) s), pool), d)
| m_answer s pool d t cpu k s1 j S' :
    t <> dt -> pool !! t = Some (WResult, k) -> Sys.acquire WResult s = Some s1 ->
    Sys.settle t (k (Granted j) (on_cpu cpu s1)) (delete t pool) = Some S' -> moves (Answer t) ((s, pool), d) (S', d)
| m_ask s pool pc g cpu cmd arg e r s' d' :
    pool !! dt = None -> request pc = Some (cmd, arg) -> e_copy_to_user e = 0 ->
    run_call dt (Sys.CIoctl cmd arg e) (on_cpu cpu s) = Done r s' -> resume validate pc g r = Some d' ->
    moves Daemon ((s, pool), (pc, g)) ((s', pool), d')
| m_block s pool pc g cpu cmd arg e w s' k :
    pool !! dt = None -> request pc = Some (cmd, arg) -> e_copy_to_user e = 0 ->
    run_call dt (Sys.CIoctl cmd arg e) (on_cpu cpu s) = Wait w s' k ->
    moves Daemon ((s, pool), (pc, g)) ((s', <[dt := (w, k)]> pool), (pc, g))
| m_wake s pool pc g cpu w k s1 j r s' d' :
    pool !! dt = Some (w, k) -> Sys.acquire w s = Some s1 -> k (Granted j) (on_cpu cpu s1) = Done r s' ->
    resume validate pc g r = Some d' -> moves Daemon ((s, pool), (pc, g)) ((s', delete dt pool), d').

Lemma moves_step m S d S' d' : moves m (S, d) (S', d') -> Sys.step md4 jiffies_to_timeval S (Some S').
Proof.
  intros Hm. inversion Hm as [s pool ? t cpu c ? ? ? ? ? ? Hset|s pool ? t cpu w k s1 j ? ? Hp ? Ha Hset|s pool ? t cpu w k ? ? Hp ? ? Hset
    | | | | |s pool ? t cpu k s1 j ? ? Hp Ha Hset|s pool pc g cpu cmd arg e r s' ? Hp Hr He Hrun _
    |s pool pc g cpu cmd arg e w s' k Hp Hr He Hrun|s pool pc g cpu w k s1 j r s' ? Hp Ha Hk _]; subst.
  - rewrite <- Hset. by constructor.
  - rewrite <- Hset. by eapply Sys.step_grant.
  - rewrite <- Hset. by eapply Sys.step_expire.
  - by eapply Sys.step_sched_out.
  - by eapply Sys.step_sched_in.
  - by eapply Sys.step_work.
  - by apply Sys.step_user.
  - rewrite <- Hset. by eapply Sys.step_grant.
  - pose proof (Sys.step_call md4 jiffies_to_timeval s pool dt cpu (Sys.CIoctl cmd arg e) Hdt Hp I) as Hs.
    rewrite Hrun in Hs. exact Hs.
  - pose proof (Sys.step_call md4 jiffies_to_timeval s pool dt cpu (Sys.CIoctl cmd arg e) Hdt Hp I) as Hs.
    rewrite Hrun in Hs. exact Hs.
  - pose proof (Sys.step_grant md4 jiffies_to_timeval s pool dt cpu w k s1 j Hp Ha) as Hs. rewrite Hk in Hs. exact Hs.
Qed.

(** ** The invariant of the handshake *)

(** How the sleeping tasks go on. *)
Definition thread_keeps (th : Sys.thread) : Prop :=
  match th.1 with
  | WWork => False
  | WLock | WResult => forall j s, keeps (hs s) (th.2 (Granted j) s)
  | _ => forall o s, keeps (hs s) (th.2 o s)
  end.

Definition others_keep (pool : gmap Z Sys.thread) : Prop := forall t th, t <> dt -> pool !! t = Some th -> thread_keeps th.

(** The daemon sleeps in GET_JIT_WORK. *)
Definition getting (th : option Sys.thread) : Prop :=
  match th with
  | None => True
  | Some (w, k) => w = WWork /\ forall j s l, j_work (k_jit s) = Some l -> k (Granted j) s = Done (0, OutLbr l) s
  end.

(** The tables the kernel has are those of the set-up. *)
Definition tables_match (u : setup) (p : plt_got_copy_t) : Prop :=
  pg_plts p = KernelBuf (su_plts u) /\ pg_gots p = KernelBuf (su_gots u).

(** [n] moves of the daemon until the answer [v] is there for the LBR [l]; [None]
    where the analysis does not return. *)
Definition phase (n : nat) (l : lbr_t) (v : option Z) (C : config) : Prop :=
  let '((s, pool), (pc, g)) := C in
  let h := hs s in
  match n with
  | 5%nat | 4%nat => exists u, pc = DGet u /\ tables_match u (h_plt_got h) /\ h_work_cond h = 1 /\ h_result_cond h = 0 /\
      h_work h = Some l /\ v = fst <$> validate u l g /\
      match n with 4%nat => is_Some (pool !! dt) /\ getting (pool !! dt) | _ => pool !! dt = None end
  | 3%nat => exists u, pc = DPlts u l /\ tables_match u (h_plt_got h) /\ h_work_cond h = 0 /\ h_result_cond h = 0 /\
      v = fst <$> validate u l g /\ pool !! dt = None
  | 2%nat => exists u, pc = DGots u l (su_plts u) /\ tables_match u (h_plt_got h) /\ h_work_cond h = 0 /\ h_result_cond h = 0 /\
      v = fst <$> validate u l g /\ pool !! dt = None
  | 1%nat => exists u r, pc = DPut u r /\ tables_match u (h_plt_got h) /\ h_work_cond h = 0 /\ h_result_cond h = 0 /\
      v = Some r /\ pool !! dt = None
  | 0%nat => exists u, pc = DGet u /\ tables_match u (h_plt_got h) /\ h_work_cond h = 0 /\ h_result_cond h = 1 /\
      v = Some (h_result h) /\ getting (pool !! dt)
  | _ => False
  end.

(** No validation is under way. *)
Definition idle (C : config) : Prop :=
  let '((s, pool), (pc, g)) := C in
  exists u, pc = DGet u /\ tables_match u (h_plt_got (hs s)) /\ h_work_cond (hs s) = 0 /\ h_result_cond (hs s) = 0 /\ getting (pool !! dt).

Definition inv (C : config) : Prop :=
  Sys.sys_inv C.1 /\ others_keep C.1.2 /\
  ((forall t, ~ Sys.asks C.1.2 t) -> idle C) /\
  (forall t, Sys.asks C.1.2 t -> t <> dt /\ exists n l v, phase n l v C).

Lemma phase_ext n l v s s' pool pool' d :
  hs s' = hs s -> pool' !! dt = pool !! dt -> phase n l v ((s, pool), d) -> phase n l v ((s', pool'), d).
Proof. destruct d as [pc g]. intros Hs Hp. unfold phase. by rewrite Hs, Hp. Qed.

Lemma idle_ext s s' pool pool' d : hs s' = hs s -> pool' !! dt = pool !! dt -> idle ((s, pool), d) -> idle ((s', pool'), d).
Proof. destruct d as [pc g]. intros Hs Hp. unfold idle. by rewrite Hs, Hp. Qed.

(** Work is posted. *)
Lemma phase_post l s s' pool pool' d :
  idle ((s, pool), d) -> hs s' = posted l (hs s) -> pool' !! dt = pool !! dt -> exists n v, phase n l v ((s', pool'), d).
Proof.
  destruct d as [pc g]. intros (u & -> & Ht & Hw & Hr & Hg) Hs Hp. unfold phase. rewrite Hs, Hp.
  generalize dependent (hs s). intros h Ht Hw Hr _. cbn [posted h_work_cond h_result_cond h_work h_plt_got]. rewrite Hw, Hr.
  destruct (pool !! dt) as [th|] eqn:Hth; [exists 4%nat|exists 5%nat]; eexists; exists u; split_and!; try done; by exists th.
Qed.

(** At most one validation, at most one posted work: the handshake alone. *)
Definition hand (C : config) : Prop :=
  ((forall t, ~ Sys.asks C.1.2 t) -> idle C) /\ (forall t, Sys.asks C.1.2 t -> t <> dt /\ exists n l v, phase n l v C).

Lemma asks_insert pool t w k u : pool !! t = None ->
  Sys.asks (<[t := (w, k)]> pool) u <-> Sys.asks pool u \/ u = t /\ w = WResult.
Proof.
  intros Hn. unfold Sys.asks. destruct (decide (u = t)) as [->|Hne].
  - rewrite lookup_insert_eq. split; [intros [k' [= -> _]]; auto|]. intros [[k' Hk']|[_ ->]]; [|eauto].
    by pose proof (eq_trans (eq_sym Hn) Hk').
  - rewrite lookup_insert_ne by done. split; [auto|]. by intros [?|[? _]].
Qed.

Lemma others_insert pool t w k : others_keep pool -> thread_keeps (w, k) -> others_keep (<[t := (w, k)]> pool).
Proof.
  intros Ho Ht u th Hu Hth. destruct (decide (u = t)) as [->|Hne].
  - rewrite lookup_insert_eq in Hth. by injection Hth as <-.
  - rewrite lookup_insert_ne in Hth by done. by apply (Ho u).
Qed.

(** A segment of another task. *)
Lemma settle_keeps h t p pool S' :
  keeps h p -> t <> dt -> pool !! t = None -> others_keep pool -> Sys.settle t p pool = Some S' ->
  others_keep S'.2 /\ S'.2 !! dt = pool !! dt /\
  ((hs S'.1 = h /\ forall u, Sys.asks S'.2 u <-> Sys.asks pool u) \/
   (exists l, hs S'.1 = posted l h /\ forall u, Sys.asks S'.2 u <-> Sys.asks pool u \/ u = t)).
Proof.
  intros Hk Ht Hn Ho Hset. destruct Hk as [h a s <-|h s k Hs Hk|h l s k Hs Hk|h w s k Hw Hs Hk|h]; cbn in Hset;
    try (injection Hset as <-); cbn [fst snd]; [auto|..|done].
  - split_and!; [by apply others_insert|by rewrite lookup_insert_ne|]. left. split; [done|]. intros u. rewrite asks_insert by done. naive_solver.
  - split_and!; [by apply others_insert|by rewrite lookup_insert_ne|]. right. exists l. split; [done|]. intros u. rewrite asks_insert by done. naive_solver.
  - split_and!; [apply others_insert; [done|]; destruct Hw as [->|[->| ->]]; done|by rewrite lookup_insert_ne|].
    left. split; [done|]. intros u. rewrite asks_insert by done. naive_solver.
Qed.

Lemma hand_settle s pool d t p S' :
  hand ((s, pool), d) -> keeps (hs s) p -> t <> dt -> pool !! t = None -> others_keep pool -> Sys.settle t p pool = Some S' ->
  Sys.sys_inv S' ->
  others_keep S'.2 /\ hand (S', d) /\ (forall u, Sys.asks pool u -> Sys.asks S'.2 u) /\
  (forall u n l v, Sys.asks pool u -> phase n l v ((s, pool), d) -> phase n l v (S', d)).
Proof.
  intros [Hidle Hask] Hk Ht Hn Ho Hset (_ & _ & Huniq & _).
  destruct (settle_keeps (hs s) t p pool S' Hk Ht Hn Ho Hset) as (Ho' & Hdt' & Hcase). destruct S' as [s' pool']. cbn [fst snd] in *.
  split; [done|]. destruct Hcase as [[Hs Has]|(l & Hs & Has)].
  - split_and!; [split|by intros u; rewrite Has|by intros u n l v _; apply phase_ext]; cbn [fst snd].
    + intros Hno. eapply idle_ext; [exact Hs|exact Hdt'|]. apply Hidle. intros u Hu. by apply (Hno u), Has.
    + intros u Hu%Has. destruct (Hask u Hu) as [? (n & l & v & Hp)]. split; [done|]. exists n, l, v. by eapply phase_ext.
  - assert (forall u, ~ Sys.asks pool u) as Hno.
    { intros u Hu. assert (u = t) as ->.
      { apply Huniq; apply Has; auto. }
      destruct Hu as [k Hk']. by pose proof (eq_trans (eq_sym Hn) Hk'). }
    split_and!; [split|by intros u Hu%Hno|by intros u n l' v Hu%Hno]; cbn [fst snd].
    + intros Hno'. destruct (Hno' t). apply Has. by right.
    + intros u [Hu| ->]%Has; [by apply Hno in Hu|]. split; [done|].
      destruct (phase_post l s s' pool pool' d (Hidle Hno) Hs Hdt') as (n & v & Hp). by exists n, l, v.
Qed.

(** *** The ioctls of the daemon *)

Lemma run_get arg e s : e_copy_to_user e = 0 -> exists k,
  run_call dt (Sys.CIoctl ARMOR_IOC_GET_JIT_WORK arg e) s = Wait WWork s k /\ getting (Some (WWork, k)).
Proof.
  intros He. eexists. split; [reflexivity|]. split; [done|]. intros j s' l Hl. cbn. unfold mbind, K_bind, gets. cbn. rewrite Hl. cbn. by rewrite He.
Qed.

Lemma run_plts arg e s : e_copy_to_user e = 0 ->
  run_call dt (Sys.CIoctl ARMOR_IOC_PULL_PLTS arg e) s =
    Done (0, OutBuffer (pg_plts (d_plt_got (k_dev s))) (pg_size (d_plt_got (k_dev s)))) s.
Proof. intros He. transitivity (Done (e_copy_to_user e, OutBuffer (pg_plts (d_plt_got (k_dev s))) (pg_size (d_plt_got (k_dev s)))) s); [reflexivity|by rewrite He]. Qed.

Lemma run_gots arg e s : e_copy_to_user e = 0 ->
  run_call dt (Sys.CIoctl ARMOR_IOC_PULL_GOTS arg e) s =
    Done (0, OutBuffer (pg_gots (d_plt_got (k_dev s))) (pg_size (d_plt_got (k_dev s)))) s.
Proof. intros He. transitivity (Done (e_copy_to_user e, OutBuffer (pg_gots (d_plt_got (k_dev s))) (pg_size (d_plt_got (k_dev s)))) s); [reflexivity|by rewrite He]. Qed.

Lemma run_put v e s :
  run_call dt (Sys.CIoctl ARMOR_IOC_PUT_JIT_WORK v e) s =
    Done ok (on_jit (fun j => set_result_cond (j_result_cond j + 1) j) (on_jit (set_result v) s)).
Proof. done. Qed.

Lemma same_bytes_refl n a : same_bytes n a a = true.
Proof. by apply bool_decide_eq_true_2. Qed.

Lemma acquire_work s s1 : Sys.acquire WWork s = Some s1 -> 0 < h_work_cond (hs s) /\
  hs s1 = Hands (h_work_cond (hs s) - 1) (h_result_cond (hs s)) (h_work (hs s)) (h_result (hs s)) (h_plt_got (hs s)).
Proof. cbn. case_decide; [|done]. by intros [= <-]. Qed.

Lemma acquire_result s s1 : Sys.acquire WResult s = Some s1 -> 0 < h_result_cond (hs s) /\
  hs s1 = Hands (h_work_cond (hs s)) (h_result_cond (hs s) - 1) (h_work (hs s)) (h_result (hs s)) (h_plt_got (hs s)).
Proof. cbn. case_decide; [|done]. by intros [= <-]. Qed.

Lemma acquire_other w s s1 : Sys.acquire w s = Some s1 -> w <> WWork -> w <> WResult -> hs s1 = hs s.
Proof. intros Ha H1 H2. destruct w; try done; cbn in Ha; repeat (case_match || case_decide); try done; by injection Ha as <-. Qed.

Lemma getting_some o w k : getting o -> o = Some (w, k) ->
  w = WWork /\ forall j s l, j_work (k_jit s) = Some l -> k (Granted j) s = Done (0, OutLbr l) s.
Proof. by intros Hg ->. Qed.

(** The daemon in the loop: what it waits for and what it does next. *)
Lemma daemon_idle C C' : idle C -> moves Daemon C C' -> idle C' /\ C'.1.2 = C.1.2 \/
  idle C' /\ exists k, C'.1.2 = <[dt := (WWork, k)]> C.1.2 /\ C.1.2 !! dt = None.
Proof.
  intros Hi Hm. inversion Hm as [| | | | | | | |s pool pc g cpu cmd arg e r s' d' Hp Hr He Hrun Hres
    |s pool pc g cpu cmd arg e w s' k Hp Hr He Hrun|s pool pc g cpu w k s1 j r s' d' Hp Ha Hk Hres]; subst;
    destruct Hi as (u & -> & Ht & Hw & Hrc & Hg).
  - injection Hr as <- <-. destruct (run_get 0 e (on_cpu cpu s) He) as (k & Hk & _). by rewrite Hk in Hrun.
  - injection Hr as <- <-. destruct (run_get 0 e (on_cpu cpu s) He) as (k' & Hk & Hk'). rewrite Hk in Hrun. injection Hrun as <- <- <-.
    right. split; [|by exists k']. exists u. cbn [fst snd]. rewrite lookup_insert_eq. by split_and!.
  - destruct (getting_some _ w k Hg Hp) as [-> _]. apply acquire_work in Ha as [? _]. lia.
Qed.

Lemma daemon_phase n l v C C' : phase n l v C -> moves Daemon C C' ->
  phase (pred n) l v C' /\ (C'.1.2 = C.1.2 \/ C'.1.2 = delete dt C.1.2 \/ exists k, C'.1.2 = <[dt := (WWork, k)]> C.1.2).
Proof.
  intros Hph Hm. inversion Hm as [| | | | | | | |s pool pc g cpu cmd arg e r s' d' Hp Hr He Hrun Hres
    |s pool pc g cpu cmd arg e w s' k Hp Hr He Hrun|s pool pc g cpu w k s1 j r s' d' Hp Ha Hk Hres]; subst; cbn [fst snd].
  - split; [|by left]. destruct n as [|[|[|[|[|[|n]]]]]]; cbn [phase pred] in *.
    + destruct Hph as (u & -> & _). injection Hr as <- <-. destruct (run_get 0 e (on_cpu cpu s) He) as (k & Hk & _). by rewrite Hk in Hrun.
    + destruct Hph as (u & r0 & -> & Ht & Hw & Hrc & -> & Hn). injection Hr as <- <-. rewrite run_put in Hrun. injection Hrun as <- <-.
      cbn in Hres. injection Hres as <-. exists u. split_and!; try done; [|by rewrite Hn]. cbn in *. lia.
    + destruct Hph as (u & -> & Ht & Hw & Hrc & -> & Hn). injection Hr as <- <-. rewrite run_gots in Hrun by done. injection Hrun as <- <-.
      pose proof Ht as [_ Htg]. cbn in Htg. unfold resume in Hres. cbn in Hres. rewrite Htg, !same_bytes_refl in Hres. cbn in Hres.
      destruct (validate u l g) as [[r0 g']|]; [|done]. cbn in Hres. injection Hres as <-. by exists u, r0.
    + destruct Hph as (u & -> & Ht & Hw & Hrc & -> & Hn). injection Hr as <- <-. rewrite run_plts in Hrun by done. injection Hrun as <- <-.
      pose proof Ht as [Htp _]. cbn in Htp. unfold resume in Hres. cbn in Hres. rewrite Htp in Hres. injection Hres as <-. by exists u.
    + destruct Hph as (u & -> & _). injection Hr as <- <-. destruct (run_get 0 e (on_cpu cpu s) He) as (k & Hk & _). by rewrite Hk in Hrun.
    + destruct Hph as (u & -> & _). injection Hr as <- <-. destruct (run_get 0 e (on_cpu cpu s) He) as (k & Hk & _). by rewrite Hk in Hrun.
    + done.
  - destruct n as [|[|[|[|[|[|n]]]]]]; cbn [phase pred] in *.
    + destruct Hph as (u & -> & Ht & Hw & Hrc & -> & Hg). injection Hr as <- <-.
      destruct (run_get 0 e (on_cpu cpu s) He) as (k' & Hk & Hk'). rewrite Hk in Hrun. injection Hrun as <- <- <-.
      split; [|eauto]. exists u. rewrite lookup_insert_eq. by split_and!.
    + destruct Hph as (u & r0 & -> & _). injection Hr as <- <-. by rewrite run_put in Hrun.
    + destruct Hph as (u & -> & _). injection Hr as <- <-. by rewrite run_gots in Hrun.
    + destruct Hph as (u & -> & _). injection Hr as <- <-. by rewrite run_plts in Hrun.
    + destruct Hph as (u & _ & _ & _ & _ & _ & _ & [th Hth] & _). by pose proof (eq_trans (eq_sym Hp) Hth).
    + destruct Hph as (u & -> & Ht & Hw & Hrc & Hl & Hv & Hn). injection Hr as <- <-.
      destruct (run_get 0 e (on_cpu cpu s) He) as (k' & Hk & Hk'). rewrite Hk in Hrun. injection Hrun as <- <- <-.
      split; [|eauto]. exists u. rewrite lookup_insert_eq. by split_and!.
    + done.
  - destruct n as [|[|[|[|[|[|n]]]]]]; cbn [phase pred] in *.
    + destruct Hph as (u & _ & _ & Hw & _ & _ & Hg). destruct (getting_some _ w k Hg Hp) as [-> _]. apply acquire_work in Ha as [? _]. lia.
    + destruct Hph as (u & r0 & _ & _ & _ & _ & _ & Hn). by pose proof (eq_trans (eq_sym Hp) Hn).
    + destruct Hph as (u & _ & _ & _ & _ & _ & Hn). by pose proof (eq_trans (eq_sym Hp) Hn).
    + destruct Hph as (u & _ & _ & _ & _ & _ & Hn). by pose proof (eq_trans (eq_sym Hp) Hn).
    + destruct Hph as (u & -> & Ht & Hw & Hrc & Hl & Hv & _ & Hg). destruct (getting_some _ w k Hg Hp) as [-> Hgk].
      apply acquire_work in Ha as [_ Hs1]. assert (j_work (k_jit (on_cpu cpu s1)) = Some l) as Hwk.
      { change (h_work (hs s1) = Some l). by rewrite Hs1. }
      rewrite (Hgk j _ l Hwk) in Hk. injection Hk as <- <-. cbn in Hres. injection Hres as <-.
      split; [|eauto]. exists u. change (hs (on_cpu cpu s1)) with (hs s1). rewrite Hs1, lookup_delete_eq. cbn [h_work_cond h_result_cond h_plt_got].
      rewrite Hw, Hrc. by split_and!.
    + destruct Hph as (u & _ & _ & _ & _ & _ & _ & Hn). by pose proof (eq_trans (eq_sym Hp) Hn).
    + done.
Qed.

(** *** Every move *)

Lemma others_delete pool t : others_keep pool -> others_keep (delete t pool).
Proof. intros Ho u th Hu Hth. apply lookup_delete_Some in Hth as [_ Hth]. by apply (Ho u). Qed.

Lemma asks_daemon pool pool' : ~ Sys.asks pool dt ->
  pool' = pool \/ pool' = delete dt pool \/ (exists k, pool' = <[dt := (WWork, k)]> pool) ->
  (forall u, Sys.asks pool' u <-> Sys.asks pool u) /\ (others_keep pool -> others_keep pool').
Proof.
  intros Hn [->|[->|[k ->]]]; [done|split|split].
  - intros u. rewrite (Sys.asks_delete jiffies_to_timeval). split; [by intros []|]. intros Hu. split; [|done]. intros ->. by destruct (Hn Hu).
  - apply others_delete.
  - intros u. unfold Sys.asks. destruct (decide (u = dt)) as [->|Hne]; [|by rewrite lookup_insert_ne].
    rewrite lookup_insert_eq. split; [by intros [k' ?]|]. intros Hu. by destruct (Hn Hu).
  - intros Ho u th Hu Hth. rewrite lookup_insert_ne in Hth by done. by apply (Ho u).
Qed.

(** What a move does: [inv] stays, and while the validation of [t] is not answered
    it comes closer by the moves of the daemon. *)
Definition advances (m : mover) (C C' : config) : Prop :=
  inv C' /\ forall t n l v, Sys.asks C.1.2 t -> m <> Answer t -> phase n l v C ->
    Sys.asks C'.1.2 t /\ phase (match m with Daemon => pred n | _ => n end) l v C'.

Lemma inv_settle (m : mover) s pool d t p S' s0 pool0 :
  m <> Daemon -> hand ((s, pool), d) -> keeps (hs s) p -> t <> dt -> pool !! t = None -> others_keep pool ->
  Sys.settle t p pool = Some S' -> Sys.sys_inv S' ->
  (forall u n l v, Sys.asks pool0 u -> m <> Answer u -> phase n l v ((s0, pool0), d) ->
     Sys.asks pool u /\ phase n l v ((s, pool), d)) ->
  advances m ((s0, pool0), d) (S', d).
Proof.
  intros Hd Hh Hk Ht Hn Ho Hset Hinv Hkeep.
  destruct (hand_settle s pool d t p S' Hh Hk Ht Hn Ho Hset Hinv) as (Ho' & Hh' & Has & Hph).
  split; [split_and!; [done|done|apply Hh'|apply Hh']|]. cbn [fst snd]. intros u n l v Hu Hm Hp.
  destruct (Hkeep u n l v Hu Hm Hp) as [Hu' Hp']. split; [auto|]. destruct m; [done|by eapply Hph..].
Qed.

(** A segment that is one atomic update of something else. *)
Lemma inv_quiet s s' pool d : inv ((s, pool), d) -> Sys.sys_inv (s', pool) -> hs s' = hs s ->
  advances Other ((s, pool), d) ((s', pool), d).
Proof.
  intros (_ & Ho & Hi & Ha) Hinv Hs. split; [split_and!; cbn [fst snd] in *; try done|].
  - intros Hno. eapply idle_ext; [exact Hs|reflexivity|auto].
  - intros u Hu. destruct (Ha u Hu) as [? (n & l & v & Hp)]. split; [done|]. exists n, l, v. by eapply phase_ext.
  - cbn. intros u n l v Hu _ Hp. split; [done|]. by eapply phase_ext.
Qed.

Lemma hand_same_asks s s' pool pool' d :
  hand ((s, pool), d) -> hs s' = hs s -> pool' !! dt = pool !! dt -> (forall u, Sys.asks pool' u <-> Sys.asks pool u) ->
  hand ((s', pool'), d).
Proof.
  intros [Hi Ha] Hs Hp Has. split; cbn [fst snd] in *.
  - intros Hno. eapply idle_ext; [exact Hs|exact Hp|]. apply Hi. intros u Hu. by apply (Hno u), Has.
  - intros u Hu%Has. destruct (Ha u Hu) as [? (n & l & v & Hph)]. split; [done|]. exists n, l, v. by eapply phase_ext.
Qed.

(** Waking a task that does not wait for a result. *)
Lemma asks_delete_other pool t w k u : pool !! t = Some (w, k) -> w <> WResult ->
  Sys.asks (delete t pool) u <-> Sys.asks pool u.
Proof.
  intros Hp Hw. rewrite (Sys.asks_delete jiffies_to_timeval). split; [by intros []|]. intros Hu. split; [|done]. intros ->.
  destruct Hu as [k' Hk']. pose proof (eq_trans (eq_sym Hp) Hk'). congruence.
Qed.

Lemma calm_hs (m : K unit) s s' : calm m -> m s = Done tt s' -> hs s' = hs s.
Proof. intros Hm Hd. specialize (Hm s). rewrite Hd in Hm. by inversion Hm. Qed.

Lemma calm_sched t old : calm (sched_in t) /\ calm (sched_out t) /\ calm (do_deferred_exit old).
Proof.
  unfold sched_in, sched_out, do_deferred_exit. split_and!; calm_auto.
  all: apply calm_bind; [calm_auto|intros _]; apply calm_modify; intros s; repeat case_match; reflexivity.
Qed.

Lemma inv_hand C : inv C -> hand C.
Proof. intros (_ & _ & ? & ?). by split. Qed.

(** While a validation is under way the device is in use, and otherwise both
    semaphores are 0. *)
Lemma open_harmless s pool d t c b :
  inv ((s, pool), d) -> Sys.call_ok t c s -> c = Sys.COpen b ->
  d_initialized (k_dev s) = true \/ h_work_cond (hs s) = 0 /\ h_result_cond (hs s) = 0.
Proof.
  intros ((_ & _ & _ & Hl) & _ & Hi & _) Hok ->. cbn [fst snd] in *. destruct Hok as [?|Hlock]; [by left|]. right.
  destruct d as [pc g]. destruct Hi as (u & _ & _ & Hw & Hr & _); [|done].
  intros u Hu. assert (locked s = true); [|congruence]. apply Hl. by exists u.
Qed.

Lemma phase_answered n l v s pool d : phase n l v ((s, pool), d) -> 0 < h_result_cond (hs s) -> n = 0%nat.
Proof.
  destruct d as [pc g]. intros Hp Hr. destruct n as [|[|[|[|[|[|n]]]]]]; cbn [phase] in Hp; [done| | | | | |done].
  - destruct Hp as (u & r & _ & _ & _ & H0 & _). lia.
  - destruct Hp as (u & _ & _ & _ & H0 & _). lia.
  - destruct Hp as (u & _ & _ & _ & H0 & _). lia.
  - destruct Hp as (u & _ & _ & _ & H0 & _). lia.
  - destruct Hp as (u & _ & _ & _ & H0 & _). lia.
Qed.

Lemma daemon_advance C C' : inv C -> Sys.sys_inv C'.1 -> moves Daemon C C' -> advances Daemon C C'.
Proof.
  intros (Hsys & Ho & Hi & Ha) Hsys' Hm. assert (~ Sys.asks C.1.2 dt) as Hnd by (intros Hd; by destruct (Ha dt Hd)).
  pose proof (proj2 (proj2 (proj2 Hsys))) as Hl. destruct (locked C.1.1).
  - destruct (proj1 Hl eq_refl) as [t Ht]. destruct (Ha t Ht) as [_ (n & l & v & Hph)].
    destruct (daemon_phase n l v C C' Hph Hm) as [Hph' Hpool]. destruct (asks_daemon _ _ Hnd Hpool) as [Has Hok].
    split; [split_and!; [done|auto| |]|].
    + intros Hno. destruct (Hno t). by apply Has.
    + intros u Hu%Has. destruct (Ha u Hu) as [? _]. eauto.
    + intros u n' l' v' Hu _ Hp. split; [by apply Has|]. by eapply daemon_phase.
  - assert (forall t, ~ Sys.asks C.1.2 t) as Hno by (intros t Ht; by discriminate (proj2 Hl (ex_intro _ t Ht))).
    assert (idle C' /\ (C'.1.2 = C.1.2 \/ C'.1.2 = delete dt C.1.2 \/ exists k, C'.1.2 = <[dt := (WWork, k)]> C.1.2)) as [Hidle Hpool].
    { destruct (daemon_idle C C' (Hi Hno) Hm) as [[? ?]|(? & k & ? & _)]; eauto. }
    destruct (asks_daemon _ _ Hnd Hpool) as [Has Hok]. split; [split_and!; [done|auto|done|]|].
    + intros u Hu%Has. by destruct (Hno u).
    + intros u n l v Hu. by destruct (Hno u).
Qed.

(** A task other than the daemon goes on after a sleep that is not for a result. *)
Lemma advance_woken s s1 pool d t w k p S' :
  inv ((s, pool), d) -> Sys.sys_inv S' -> t <> dt -> pool !! t = Some (w, k) -> w <> WResult -> hs s1 = hs s -> keeps (hs s1) p ->
  Sys.settle t p (delete t pool) = Some S' -> advances Other ((s, pool), d) (S', d).
Proof.
  intros Hinv Hsys' Hne Hp Hw Hs1 Hk Hset. pose proof Hinv as (Hsys & Ho & Hi & Ha). pose proof (inv_hand _ Hinv) as Hh.
  assert (delete t pool !! dt = pool !! dt) as Hdt' by (by rewrite lookup_delete_ne).
  pose proof (asks_delete_other pool t w k) as Has.
  eapply (inv_settle Other s1 (delete t pool) d t p S'); try done.
  - eapply hand_same_asks; [exact Hh|done|done|]. intros u. by apply Has.
  - by rewrite lookup_delete_eq.
  - by apply others_delete.
  - intros u n l v Hu _ Hph. split; [by apply Has|]. by eapply phase_ext.
Qed.

Lemma moves_advance m C C' : inv C -> moves m C C' -> advances m C C'.
Proof.
  intros Hinv Hm. pose proof Hinv as (Hsys & Ho & Hi & Ha).
  assert (Sys.sys_inv C'.1) as Hsys'.
  { destruct C as [S d], C' as [S' d']. destruct (Sys.step_inv _ _ _ _ Hsys (moves_step _ _ _ _ _ Hm)) as (S'' & [= ->] & ?). done. }
  pose proof (inv_hand _ Hinv) as Hh. pose proof Hm as Hmove.
  destruct Hm as [s pool d t cpu c S' Ht Hne Hn Hok Hmod Hset|s pool d t cpu w k s1 j S' Hne Hp Hw Hacq Hset
    |s pool d t cpu w k S' Hne Hp Hw Hw' Hset|s pool d t cpu s' _ Hd|s pool d t cpu s' _ Hd|s pool d old q s' _ Hd|s pool d msr tasks _
    |s pool d t cpu k s1 j S' Hne Hp Hacq Hset|s pool pc g cpu cmd arg e r s' d' Hp Hr He Hrun Hres
    |s pool pc g cpu cmd arg e w s' k Hp Hr He Hrun|s pool pc g cpu w k s1 j r s' d' Hp Hacq Hk Hres]; cbn [fst snd] in *.
  - eapply (inv_settle Other s pool d t _ S'); try done. apply (keeps_call md4 jiffies_to_timeval t c (on_cpu cpu s)); [done|].
    intros b Hb. by eapply (open_harmless s pool d t c b).
  - pose proof (Ho t _ Hne Hp) as Hth. assert (w <> WWork) as Hww by (by intros ->).
    eapply (advance_woken s s1 pool d t w k); try done; [by eapply acquire_other|]. destruct w; try done; apply (Hth _ (on_cpu cpu s1)).
  - pose proof (Ho t _ Hne Hp) as Hth. assert (w <> WWork) as Hww by (by intros ->).
    eapply (advance_woken s s pool d t w k); try done. destruct w; try done; apply (Hth _ (on_cpu cpu s)).
  - apply inv_quiet; [done|done|]. destruct (calm_sched t NULL) as (_ & Hc & _). by apply (calm_hs _ _ _ Hc) in Hd.
  - apply inv_quiet; [done|done|]. destruct (calm_sched t NULL) as (Hc & _ & _). by apply (calm_hs _ _ _ Hc) in Hd.
  - apply inv_quiet; [done|done|]. destruct (calm_sched NULL old) as (_ & _ & Hc). by apply (calm_hs _ _ _ Hc) in Hd.
  - by apply inv_quiet.
  - assert (Sys.asks pool t) as Hask by (by exists k). destruct (Ha t Hask) as [_ (n & l & v & Hph)].
    pose proof (Ho t _ Hne Hp) as Hth. apply acquire_result in Hacq as [Hpos Hs1].
    assert (forall u, ~ Sys.asks (delete t pool) u) as Hno.
    { intros u [Hut Hu]%(Sys.asks_delete jiffies_to_timeval). apply Hut. by apply (proj1 (proj2 (proj2 Hsys))). }
    assert (delete t pool !! dt = pool !! dt) as Hdt' by (by rewrite lookup_delete_ne).
    eapply (inv_settle (Answer t) s1 (delete t pool) d t _ S'); try done.
    + split; cbn [fst snd]; [|by intros u Hu%Hno]. intros _. destruct d as [pc g].
      rewrite (phase_answered n l v s pool (pc, g) Hph Hpos) in Hph. destruct Hph as (u & -> & Ht & Hw & Hr & _ & Hg). exists u. rewrite Hs1, Hdt'. cbn [h_work_cond h_result_cond h_plt_got].
      split_and!; try done. lia.
    + apply (Hth j (on_cpu cpu s1)).
    + by rewrite lookup_delete_eq.
    + by apply others_delete.
    + intros u n' l' v' Hu Hmu _. assert (u = t) as -> by (by apply (proj1 (proj2 (proj2 Hsys)))). done.
  - by apply daemon_advance.
  - by apply daemon_advance.
  - by apply daemon_advance.
Qed.

(** ** Progress *)

Definition any_env : env := Env (fun _ => true) (fun _ => true) (KernelCopy 0 0 0 0 0 0 0 0, true)
  (PltGot 0 0 (UserPtr 0) (UserPtr 0), true) (Simples 0 0 (UserPtr 0), true) (fun _ _ => ([], true)) 0.

(** As long as the answer is not there, the daemon can move. *)
Lemma daemon_enabled n l r C : phase (S n) l (Some r) C -> exists C', moves Daemon C C'.
Proof.
  destruct C as [[s pool] [pc g]]. destruct n as [|[|[|[|[|n]]]]]; cbn [phase].
  - intros (u & r0 & -> & _ & _ & _ & _ & Hn). eexists. by eapply (m_ask s pool _ g 0 _ _ any_env); [exact Hn|reflexivity..].
  - intros (u & -> & [_ Htg] & _ & _ & Hv & Hn). cbn in Htg. symmetry in Hv. apply fmap_Some in Hv as ([v g'] & Hv & _).
    eexists. eapply (m_ask s pool _ g 0 _ _ any_env); [exact Hn|reflexivity|reflexivity|by apply run_gots|].
    unfold resume. cbn. rewrite Htg, !same_bytes_refl. cbn. by rewrite Hv.
  - intros (u & -> & [Htp _] & _ & _ & _ & Hn). cbn in Htp.
    eexists. eapply (m_ask s pool _ g 0 _ _ any_env); [exact Hn|reflexivity|reflexivity|by apply run_plts|].
    unfold resume. cbn. by rewrite Htp.
  - intros (u & -> & _ & Hw & _ & Hl & _ & [[w k] Hth] & Hg). destruct (getting_some _ w k Hg Hth) as [-> Hk].
    set (s1 := on_jit (fun j => set_work_cond (j_work_cond j - 1) j) s). exists ((on_cpu 0 s1, delete dt pool), (DPlts u l, g)).
    eapply (m_wake s pool _ g 0 WWork k s1 0 (0, OutLbr l)); [exact Hth| |by apply Hk|reflexivity].
    cbn. cbn in Hw. by rewrite decide_True by lia.
  - intros (u & -> & _ & _ & _ & _ & _ & Hn). destruct (run_get 0 any_env (on_cpu 0 s) eq_refl) as (k & Hk & _).
    eexists. by eapply (m_block s pool _ g 0 _ _ any_env); [exact Hn|reflexivity|reflexivity|].
  - done.
Qed.

(** When it is there, the validation can go on. *)
Lemma answer_enabled l v t C : inv C -> Sys.asks C.1.2 t -> phase 0 l v C -> exists C', moves (Answer t) C C'.
Proof.
  destruct C as [[s pool] [pc g]]. intros (Hsys & _ & _ & Ha) Hask (u & -> & _ & _ & Hr & _).
  destruct (Ha t Hask) as [Hne _]. destruct Hask as [k Hk]. cbn [fst snd] in *.
  assert (exists s1, Sys.acquire WResult s = Some s1) as [s1 Hs1] by (cbn; cbn in Hr; rewrite decide_True by lia; eauto).
  pose proof (Sys.step_grant md4 jiffies_to_timeval s pool t 0 WResult k s1 0 Hk Hs1) as Hstep.
  destruct (Sys.step_inv _ _ _ _ Hsys Hstep) as (S' & Hset & _). exists (S', (DGet u, g)). by eapply m_answer.
Qed.

Inductive run : list mover -> config -> config -> Prop :=
| run_nil C : run [] C C
| run_cons m ms C C1 C2 : moves m C C1 -> run ms C1 C2 -> run (m :: ms) C C2.

#[local] Instance mover_eq_dec : EqDecision mover.
Proof. solve_decision. Defined.

(** How often the daemon moved. *)
Definition turns (ms : list mover) : nat := length (filter (fun m => m = Daemon) ms).

Lemma run_inv ms C C' : inv C -> run ms C C' -> inv C'.
Proof. intros Hi Hr. induction Hr as [|m ms C C1 C2 Hm _ IH]; [done|]. by apply IH, (moves_advance m C C1). Qed.

Lemma run_phase ms C C' t n l v :
  inv C -> run ms C C' -> Answer t ∉ ms -> Sys.asks C.1.2 t -> phase n l v C ->
  Sys.asks C'.1.2 t /\ phase (n - turns ms) l v C'.
Proof.
  intros Hi Hr. revert n Hi. induction Hr as [C|m ms C C1 C2 Hm _ IH]; intros n Hi Hn Ha Hp.
  { split; [done|]. unfold turns. cbn. by rewrite Nat.sub_0_r. }
  apply not_elem_of_cons in Hn as [Hn1 Hn2]. destruct (moves_advance m C C1 Hi Hm) as [Hi1 Hadv].
  destruct (Hadv t n l v Ha) as [Ha1 Hp1]; [congruence|done|]. destruct (IH _ Hi1 Hn2 Ha1 Hp1) as [Ha2 Hp2]. split; [done|].
  revert Hp2. unfold turns. rewrite filter_cons. destruct m; [rewrite decide_True by done|rewrite decide_False by done..]; [|done..].
  cbn [length]. by replace (pred n - length (filter (fun m => m = Daemon) ms))%nat with (n - S (length (filter (fun m => m = Daemon) ms)))%nat by lia.
Qed.

(** The daemon is in its loop and no validation is under way. *)
Definition ready (C : config) : Prop :=
  Sys.sys_inv C.1 /\ others_keep C.1.2 /\ (forall t, ~ Sys.asks C.1.2 t) /\ idle C.

Lemma ready_inv C : ready C -> inv C.
Proof. intros (? & ? & Hno & ?). split_and!; [done|done|done|]. intros t Ht. by destruct (Hno t). Qed.

End System.

(** ** A run *)

(** The module just loaded and the tables empty, with the branches of
    [demo_call_lbr] in the registers; the daemon in its loop, as task 3. *)
Definition demo_msr : gmap Z Z := Hw.put_lbr demo_call_lbr ∅.
Definition demo_setup : setup := Setup demo_offsets (PltGot 0 0 (UserPtr 0) (UserPtr 0)) [] [] (Simples 0 0 (UserPtr 0)) [].
Definition demo_loaded : kstate := on_dev (set_plt_got (PltGot 0 0 (KernelBuf []) (KernelBuf []))) (loaded [demo_msr] ∅).

Definition demo_md4 : list Z -> list Z := fun _ => replicate Digest.DIGEST_LENGTH 1.
Definition demo_time : Z -> Z * Z := fun d => (d, 0).
Definition demo_analysis : setup -> lbr_t -> Z * CFG -> option (Z * (Z * CFG)) := jit_analysis no_retouch 9.

Definition demo_start : config := ((demo_loaded, ∅), (DGet demo_setup, (JIT_ADDR_UNKNOWN, demo_graph))).

Lemma demo_ready : ready 3 demo_start.
Proof.
  split_and!.
  - cbn [fst demo_start]. assert (mmaps_small (loaded [demo_msr] ∅)) as Hm by (intros t; vm_compute; lia).
    destruct (Sys.loaded_inv [demo_msr] ∅ Hm) as ((? & ? & (? & ? & ?) & ?) & ? & ? & ?). done.
  - intros t th _ Ht. by pose proof (eq_trans (eq_sym (lookup_empty t)) Ht).
  - intros t [k Hk]. by pose proof (eq_trans (eq_sym (lookup_empty t)) Hk).
  - exists demo_setup. by split_and!.
Qed.

(** A call of validation takes the lock and then asks, if the LBR is new. *)
Lemma call_asks md4 jiffies t e s : j_disable (k_jit s) = false -> exists k,
  Sys.run_call md4 jiffies t (Sys.CIoctl ARMOR_IOC_VALIDATE 0 e) s = Wait WLock s k /\
  forall d s', (forall st, jit_cached (Digest.hash_lbr md4 (Hw.get_lbr (cpu_msr s) lbr_zero) st).1 (k_jit s') = false) ->
    exists s2 k2, k (Granted d) s' = Wait WResult s2 k2.
Proof.
  intros Hd. exists (fun _ s' => proc_bind (validate_locked md4 jiffies (Hw.get_lbr (cpu_msr s) lbr_zero) s') (fun _ => mret ok)). split.
  - change (proc_bind (validate_lbr md4 jiffies s) (fun _ => mret ok) =
      Wait WLock s (fun _ s' => proc_bind (validate_locked md4 jiffies (Hw.get_lbr (cpu_msr s) lbr_zero) s') (fun _ => mret ok))).
    unfold validate_lbr, mbind, K_bind, gets. cbn [proc_bind]. rewrite Hd. reflexivity.
  - intros d s' Hc. specialize (Hc (k_stats (on_stats (ARMOR_STAT_INC St_jit_lookups) s'))). unfold validate_locked.
    unfold mbind, K_bind, ARMOR_STAT, modify, gets. cbn [proc_bind]. destruct (Digest.hash_lbr _ _ _) as [hash st]. cbn [fst proc_bind] in *.
    change (k_jit (on_stats (fun _ => st) (on_stats (ARMOR_STAT_INC St_jit_lookups) s'))) with (k_jit s').
    rewrite Hc. by eexists _, _.
Qed.

Lemma demo_run : exists S, run demo_md4 demo_time demo_analysis 3 [Other; Other] demo_start (S, demo_start.2) /\ Sys.asks S.2 7.
Proof.
  destruct (call_asks demo_md4 demo_time 7 any_env (on_cpu 0 demo_loaded) eq_refl) as (k & Hk & Hask).
  destruct (Hask 0 (on_cpu 0 (on_jit (set_lock true) (on_cpu 0 demo_loaded)))) as (s2 & k2 & Hk2); [intros st; vm_compute; reflexivity|].
  exists (s2, <[7 := (WResult, k2)]> (delete 7 {[7 := (WLock, k)]})). split; [|eexists; apply lookup_insert_eq].
  eapply run_cons; [|eapply run_cons; [|apply run_nil]].
  - apply (m_call _ _ _ _ demo_loaded ∅ _ 7 0 (Sys.CIoctl ARMOR_IOC_VALIDATE 0 any_env) (on_cpu 0 demo_loaded, {[7 := (WLock, k)]}));
      [done|done|done|exact I|done|by rewrite Hk].
  - apply (m_grant _ _ _ _ (on_cpu 0 demo_loaded) {[7 := (WLock, k)]} _ 7 0 WLock k (on_jit (set_lock true) (on_cpu 0 demo_loaded)) 0);
      [done|by rewrite lookup_singleton_eq|done|reflexivity|by rewrite Hk2].
Qed.


(** The verdict the daemon reports for the branches of the demo. *)
Example demo_verdict : fst <$> demo_analysis demo_setup (Hw.get_lbr demo_msr lbr_zero) demo_start.2.2 = Some 1.
Proof. vm_compute. reflexivity. Qed.
