(* ===== verification/Tidy.v ===== *)
(** Graphs before simplification: every block of a function and every target of an
    edge is the one its address leads to, no edge is hidden or a fastpath, and
    every edge knows whether it stays in its function.  The operations that
    build a graph and add the dummies keep it so. *)

From S2P Require Import Prelude LbrState Cfg CfgInv JitPath Simplify Dummies.

(** An edge as the graph has it before it is simplified. *)
Definition fresh_edge (x : ArmsEdge) : Prop := e_hidden x = false /\ edge_is_fastpath x = false /\ is_Some (e_intra x).

Record tidy (s : CFG) : Prop := {
  td_wf : cfg_wf s;
  td_stored : all_stored s;
  td_edges : map_Forall (fun _ x => fresh_edge x) (c_edges s)
}.

Lemma tidy_plain s : tidy s -> plain s.
Proof. intros [_ _ H] e x Hx. destruct (H e x Hx) as (? & ? & _). done. Qed.

(** The index keeps what it has. *)
Definition steady (s s' : CFG) : Prop := grown (fun k => c_start2bb s !! k = None) s s'.

Lemma steady_grown s s' : grown (fun _ => False) s s' -> steady s s'.
Proof. apply grown_weaken. done. Qed.

#[export] Instance steady_preorder : PreOrder steady.
Proof.
  split; [intros s; unfold steady; reflexivity|]. intros s1 s2 s3 H1 H2. unfold steady in *.
  transitivity s2; [done|]. eapply grown_weaken; [|exact H2]. intros k Hk. cbn in Hk.
  destruct (c_start2bb s1 !! k) eqn:Hs; [|done]. destruct (gw_index_some _ _ _ H1 k) as [p Hp]; [by eexists|]. congruence.
Qed.

Lemma stored_steady s s' p : steady s s' -> stored s p = true -> stored s' p = true.
Proof.
  intros W. unfold stored. destruct (c_bbs s !! p) as [b|] eqn:Hb; [|done].
  destruct (gw_bbs _ _ _ W p b Hb) as (b' & -> & (Hi & Hs & _) & _). rewrite Hs.
  destruct (c_start2bb s !! b_start b) as [r|] eqn:Hr; [|done]. rewrite (gw_index _ _ _ W), Hr by congruence. cbn.
  destruct (c_bbs s !! r) as [c|] eqn:Hc; [|done]. destruct (gw_bbs _ _ _ W r c Hc) as (c' & -> & (Hic & _) & _). cbn. by rewrite Hic, Hi.
Qed.

Lemma tidy_steady s s' : tidy s -> cfg_wf s' -> steady s s' ->
  (forall e x, c_edges s' !! e = Some x -> c_edges s !! e = Some x \/ fresh_edge x /\ (internal x = true -> stored s' (e_target x) = true)) -> tidy s'.
Proof.
  intros [_ [St1 St2] Ed] Hwf W Hnew. split; [done|split|].
  - intros f x Hx p Hp. rewrite (gw_fns _ _ _ W) in Hx. eapply stored_steady; [exact W|]. by apply (St1 f x).
  - intros e x Hx Hi. destruct (Hnew e x Hx) as [Ho|[_ Hst]]; [|auto]. eapply stored_steady; [exact W|]. by apply (St2 e x).
  - intros e x Hx. destruct (Hnew e x Hx) as [Ho|[? _]]; [|done]. by apply (Ed e x).
Qed.

(** A block the index leads to. *)
Lemma stored_found s a p : cfg_wf s -> c_start2bb s !! a = Some p -> stored s p = true.
Proof.
  intros Hwf Ha. destruct (wf_start2bb _ Hwf a p Ha) as (b & Hb & Hs). unfold stored. rewrite Hb, Hs, Ha. cbn. rewrite Hb. cbn.
  by rewrite bool_decide_eq_true_2.
Qed.

(** A new edge that was labelled. *)
Lemma tidy_new_edge s s' e x : tidy s -> cfg_wf s' -> steady s s' -> c_edges s' = <[e := x]> (c_edges s) ->
  fresh_edge x -> (internal x = true -> stored s' (e_target x) = true) -> tidy s'.
Proof.
  intros Ht Hwf W He Hx Hst. eapply tidy_steady; [done|done|done|]. intros d y. rewrite He. intros [[<- <-]|[_ ?]]%lookup_insert_Some; auto.
Qed.

Section Steps.
Context {Ma : Malloc}.

(** A block found in the index, or a new one that is stored there. *)
Lemma wp_find_or_new_steady s find a :
  cfg_wf s ->
  (exists p, reads find s p /\ (p = NULL /\ c_start2bb s !! a = None \/ p <> NULL /\ bb_ok s p)) ->
  wp (find_or_new find a) (fun p s' => good s s' /\ steady s s' /\ c_edges s' = c_edges s /\ bb_ok s' p /\
    (forall k, is_Some (c_last2bb s !! k) -> is_Some (c_last2bb s' !! k)) /\
    (reads find s p /\ p <> NULL /\ s' = s \/ c_start2bb s' !! a = Some p /\ c_last2bb s' !! a = Some p)) s.
Proof.
  intros Hwf (p & Hp & Hcase). unfold find_or_new. eapply wp_reads; [done|].
  destruct Hcase as [[-> Hn]|[Hne HP]].
  2: { rewrite bool_decide_eq_false_2 by done. apply wp_ret. split_and!; [by apply good_refl|reflexivity|done|done|done|by left]. }
  cbn [negb bool_decide decide_rel].
  eapply wp_bind, wp_mono; [apply wp_and_wlp; [by apply wp_new_bb; [|left]|apply (grown_new_bb (fun _ => False))]|]. cbn beta.
  intros p s1 ((Hg1 & Hp0 & _ & [i Hb] & _ & E2 & E3 & _) & W1 & D1 & _).
  eapply wp_bind, wp_mono; [apply wp_and_wlp; [apply (wp_store_bb _ _ _ (good_wf _ _ Hg1) Hb)|apply (grown_store_bb (fun k => k = a))]|].
  { intros b' Hb'. rewrite Hb in Hb'. by injection Hb' as <-. }
  cbn beta. intros _ s2 ((Hg2 & B2 & _ & _ & _ & E4 & E5) & W2 & D2). cbn [b_start b_last] in E4, E5. rewrite E2 in E4. rewrite E3 in E5.
  apply wp_ret. split_and!.
  - by eapply good_trans.
  - transitivity s1; [by apply steady_grown|]. eapply grown_weaken; [|exact W2]. cbn. intros k ->. by rewrite E2.
  - by rewrite D2, D1.
  - eexists. rewrite B2. exact Hb.
  - intros k Hk. rewrite E5. apply lookup_insert_is_Some. destruct (decide (a = k)); auto.
  - right. rewrite E4, E5, !lookup_insert_eq. done.
Qed.

Lemma found_bb s a p : reads (find_bb a) s p -> p <> NULL -> c_start2bb s !! a = Some p.
Proof. intros [= <-]. by destruct (c_start2bb s !! a). Qed.
Lemma found_last s a p : reads (find_bb_by_last_insn_address a) s p -> p <> NULL -> c_last2bb s !! a = Some p.
Proof. intros [= <-]. by destruct (c_last2bb s !! a). Qed.

(** Labelling the edge that was just added. *)
Lemma wp_label s s1 e x f :
  cfg_wf s1 -> c_edges s !! e = None -> c_edges s1 = <[e := x]> (c_edges s) -> steady s s1 -> same_edge x (f x) ->
  wp (on_edge e f) (fun _ s2 => good s1 s2 /\ steady s s2 /\ c_edges s2 = <[e := f x]> (c_edges s) /\
    s2 = set_edges (c_edges s2) s1) s1.
Proof.
  intros Hwf Hn He W Hs. eapply wp_mono; [apply (wp_on_edge s1 e x); [done|by rewrite He, lookup_insert_eq|done]|].
  cbn beta. intros _ s2 [G ->]. split_and!; [done|by apply grown_relabel| |done]. cbn. by rewrite He, insert_insert_eq.
Qed.

(** A new indirect call edge into a stored block. *)
Lemma wp_link_call s0 s p q :
  tidy s0 -> cfg_wf s -> steady s0 s -> c_edges s = c_edges s0 -> bb_ok s p -> stored s q = true ->
  wp (link p q) (fun e => wp (set_type e arms_indirect_call;; set_interprocedural e) (fun _ s' =>
    tidy s' /\ steady s0 s' /\ c_start2bb s' = c_start2bb s /\ c_last2bb s' = c_last2bb s)) s.
Proof.
  intros Ht Hwf W He Hp Hq. assert (tidy s) as Ht' by (eapply tidy_steady; [done|done|done|]; intros e x; rewrite He; auto).
  eapply wp_mono; [apply (wp_link s p q Hwf Hp); by apply stored_ok|]. cbn beta. intros e s1 (G1 & x & L & Hh & _ & Hi & _).
  pose proof (lk_edges _ _ _ _ _ _ L) as E1. pose proof (lk_fresh _ _ _ _ _ _ L) as Hn.
  pose proof (steady_grown _ _ (grown_linked_to (fun _ => False) _ _ _ _ _ _ L)) as W1.
  eapply wp_bind, wp_mono; [apply (wp_label s s1 e x); [by eapply good_wf|done|done|done|same]|].
  cbn beta. intros _ s2 (G2 & W2 & E2 & S2).
  eapply wp_mono; [apply (wp_label s s2 e _ (set_intra false) (good_wf _ _ G2) Hn E2 W2); same|].
  cbn beta. intros _ s3 (G3 & W3 & E3 & S3). split_and!.
  - apply (tidy_new_edge s s3 e _ Ht' (good_wf _ _ G3) W3 E3); [split_and!; [done|done|by eexists]|done].
  - by transitivity s.
  - rewrite S3, S2. cbn. apply (lk_start2bb _ _ _ _ _ _ L).
  - rewrite S3, S2. cbn. apply (lk_last2bb _ _ _ _ _ _ L).
Qed.

(** No block starts at ADDRESS_TAKEN without ending there. *)
Definition at_free (s : CFG) : Prop := c_last2bb s !! Tag.ADDRESS_TAKEN = None -> c_start2bb s !! Tag.ADDRESS_TAKEN = None.

Lemma wp_link_dummy_tidy s f :
  tidy s -> at_free s -> fn_ok s f ->
  wp (link_dummy_block_to_at_func f) (fun _ s' => tidy s' /\ at_free s' /\ steady s s') s.
Proof.
  intros Ht Hat [x Hx]. pose proof (td_wf _ Ht) as Hwf. unfold link_dummy_block_to_at_func. eapply wp_reads; [by apply reads_fn_at|].
  destruct (f_at x); cbn [negb]; [|apply wp_ret; split_and!; [done|done|reflexivity]].
  eapply wp_bind, wp_mono; [apply wp_and_wlp; [apply (wp_dummy_body s Tag.ADDRESS_TAKEN _ NULL); auto|apply (grown_dummy (fun _ => False))]|].
  cbn beta. intros p s1 ((G1 & Hp & (b & Hb & _ & Hl & _) & _ & I1 & J1 & _) & W1 & E1). apply steady_grown in W1.
  eapply wp_reads; [by apply reads_bb_at|]. rewrite Hl. apply wp_bind. unfold create_and_add_edge_addr.
  pose proof (good_wf _ _ G1) as Hwf1.
  eapply wp_bind, wp_mono; [apply (wp_find_or_new_steady s1); [done|]|].
  { destruct (find_bb_by_last_spec s1 Tag.ADDRESS_TAKEN Hwf1) as (r & Hr & [[-> Hn]|(Hne & _ & c & Hc & _)]); (eexists; split; [exact Hr|]).
    - left. split; [done|]. rewrite I1. apply Hat. by rewrite <- J1.
    - right. split; [done|]. by exists c. }
  cbn beta. intros p2 s2 (G2 & W2 & E2 & Hp2 & M2 & C2). pose proof (good_wf _ _ G2) as Hwf2.
  eapply wp_bind, wp_mono; [apply (wp_find_or_new_steady s2); [done|]|].
  { destruct (find_bb_spec s2 (f_base x) Hwf2) as (r & Hr & [[-> Hn]|(Hne & _ & c & Hc & _)]); (eexists; split; [exact Hr|]); [by left|].
    right. split; [done|]. by exists c. }
  cbn beta. intros q s3 (G3 & W3 & E3 & _ & M3 & C3). pose proof (good_wf _ _ G3) as Hwf3.
  assert (steady s s3) as W by (transitivity s1; [done|by transitivity s2]).
  assert (stored s3 q = true) as Hq.
  { destruct C3 as [(Hr & Hne & ->)|[Hi _]]; [|by eapply stored_found]. eapply stored_found; [done|]. by apply found_bb. }
  assert (is_Some (c_last2bb s3 !! Tag.ADDRESS_TAKEN)) as [r Hr].
  { apply M3. destruct C2 as [(Hr & Hne & ->)|[_ Hi]]; [|by exists p2]. exists p2. by apply found_last. }
  eapply wp_mono; [apply (wp_link_call s s3 p2 q Ht Hwf3 W); [congruence| |done]|].
  { eapply extends_bb_ok; [by apply good_extends|done]. }
  cbn beta. intros e s4 Hw. eapply wp_mono; [exact Hw|]. cbn beta. intros _ s5 (T5 & W5 & _ & L5). split_and!; [done| |done].
  intros Hn. congruence.
Qed.

Lemma wp_link_all_tidy fs : forall s,
  tidy s -> at_free s -> Forall (fn_ok s) fs -> wp (for_each link_dummy_block_to_at_func fs) (fun _ s' => tidy s' /\ at_free s') s.
Proof.
  induction fs as [|f fs IH]; intros s Ht Hat Hfs; cbn [for_each]; [by apply wp_ret|].
  apply Forall_cons in Hfs as [Hf Hfs]. eapply wp_bind, wp_mono; [by apply wp_link_dummy_tidy|].
  cbn beta. intros _ s1 (T1 & A1 & W1). apply IH; [done|done|]. eapply Forall_impl; [exact Hfs|].
  unfold fn_ok. by rewrite (gw_fns _ _ _ W1).
Qed.

(** A block that is stored unless its address leads to it already. *)
Lemma wp_store_if_missing_steady s p b :
  cfg_wf s -> c_bbs s !! p = Some b -> indexed_as s p b ->
  wp (store_if_missing p) (fun _ s' => good s s' /\ steady s s' /\ c_edges s' = c_edges s /\ c_bbs s' = c_bbs s /\ stored s' p = true /\
    c_start2bb s' = if c_start2bb s !! b_start b then c_start2bb s else <[b_start b := p]> (c_start2bb s)) s.
Proof.
  intros Hwf Hp Hix.
  assert (stored s p = true -> reads (store_if_missing p) s tt) as Hread by (intros Hst; by apply reads_store_if_missing).
  destruct (c_start2bb s !! b_start b) as [r|] eqn:Hr.
  { destruct (wf_start2bb _ Hwf _ _ Hr) as (c & Hc & _). assert (stored s p = true) as Hst.
    { unfold stored. rewrite Hp, Hr. cbn. rewrite Hc. cbn. apply bool_decide_eq_true_2. by apply (Hix r). }
    eapply wp_eq; [by apply Hread|]. split_and!; [by apply good_refl|reflexivity|done..]. }
  unfold store_if_missing. eapply wp_reads; [by apply reads_bb_at|]. eapply wp_reads; [apply reads_gets|]. rewrite Hr. cbn [default from_option].
  rewrite decide_True by done.
  eapply wp_bind, wp_mono; [apply wp_and_wlp; [by apply wp_store_bb|apply (grown_store_bb (fun k => k = b_start b))]|].
  { intros c Hc. rewrite Hp in Hc. by injection Hc as <-. }
  cbn beta. intros _ s1 ((G1 & B1 & _ & D1 & _ & E1 & _) & W1 & _).
  eapply wp_reads; [apply reads_gets|]. rewrite E1, lookup_insert_eq. cbn [default from_option].
  eapply wp_reads.
  { eapply reads_bind; [apply (reads_bb_at _ _ b); by rewrite B1|]. eapply reads_bind; [apply (reads_bb_at _ _ b); by rewrite B1|]. apply reads_ret. }
  rewrite bool_decide_eq_true_2 by done. apply wp_ret. split_and!; [done| |done|done| |done].
  - eapply grown_weaken; [|exact W1]. cbn. by intros k ->.
  - eapply (stored_found s1 (b_start b)); [by eapply good_wf|]. by rewrite E1, lookup_insert_eq.
Qed.

Lemma wp_insert_loader_tidy s a :
  tidy s -> c_start2bb s !! 0 = None -> wp (insert_dummy_loader_block a) (fun _ s' => tidy s') s.
Proof.
  intros Ht H0. pose proof (td_wf _ Ht) as Hwf. unfold insert_dummy_loader_block.
  eapply wp_bind, wp_mono; [apply wp_and_wlp; [apply (wp_dummy_body s 0 _ NULL); auto|apply (grown_dummy (fun _ => False))]|].
  cbn beta. intros p s1 ((G1 & Hp & (b & Hb & Hs & Hl & _) & _ & I1 & _) & W1 & E1). apply steady_grown in W1.
  pose proof (good_wf _ _ G1) as Hwf1.
  destruct (find_bb_spec s1 a Hwf1) as (q & Hq & [[-> Ha]|(Hne & Ha & c & Hc & Hca)]); eapply wp_reads; try exact Hq.
  { rewrite decide_True by done. apply wp_ret. eapply tidy_steady; [done|done|done|]. intros e x. rewrite E1. auto. }
  rewrite decide_False by done. assert (a <> 0) as Ha0 by (rewrite I1 in Ha; congruence).
  unfold create_and_add_edge. rewrite decide_False by naive_solver. apply wp_bind.
  eapply wp_bind, wp_mono; [apply (wp_store_if_missing_steady s1 p b Hwf1 Hb)|].
  { intros r d. rewrite I1, Hs, H0. done. }
  cbn beta. intros _ s2 (G2 & W2 & E2 & B2 & _ & I2). pose proof (good_wf _ _ G2) as Hwf2.
  assert (c_start2bb s2 !! a = Some q) as Ha2 by (rewrite (gw_index _ _ _ W2); [done|]; congruence).
  eapply wp_bind, wp_mono; [apply (wp_store_if_missing_steady s2 q c Hwf2); [by rewrite B2|]|].
  { intros r d. rewrite Hca, Ha2, B2. intros [= <-]. congruence. }
  cbn beta. intros _ s3 (G3 & W3 & E3 & B3 & St3 & _). pose proof (good_wf _ _ G3) as Hwf3.
  assert (steady s s3) as W by (transitivity s1; [done|by transitivity s2]).
  eapply wp_mono; [apply (wp_link_call s s3 p q Ht Hwf3 W); [congruence| |done]|].
  { exists b. by rewrite B3, B2. }
  cbn beta. intros e s4 Hw. eapply wp_seq_ret; [exact Hw|]. cbn beta. tauto.
Qed.

(** A flag of a function. *)
Lemma tidy_fns s h : tidy s -> cfg_wf (set_fns h s) ->
  (forall f x, h !! f = Some x -> exists y, c_fns s !! f = Some y /\ f_bbs x = f_bbs y) -> tidy (set_fns h s).
Proof.
  intros [_ [S1 S2] E] Hwf Hh. split; [done|split|done].
  - intros f x Hx p Hp. destruct (Hh f x Hx) as (y & Hy & Hb). rewrite Hb in Hp. by apply (S1 f y).
  - intros e x Hx. by apply (S2 e x).
Qed.

Lemma wp_mark_main_tidy s a : tidy s -> wp (mark_main_function a) (fun _ s' => tidy s') s.
Proof.
  intros Ht. pose proof (td_wf _ Ht) as Hwf. unfold mark_main_function.
  destruct (find_function_spec s a Hwf) as (f & Hf & [[-> Ha]|(Hne & Ha & x & Hx & _)]); (eapply wp_reads; [exact Hf|]).
  { by rewrite decide_True. }
  rewrite decide_False by done. eapply wp_bind, wp_mono.
  { apply (wp_on_fn s f x); [done|done|same|]. cbn. intros p Hp. by apply (wf_entries _ Hwf f x p Hx). }
  cbn beta. intros _ s1 [G1 ->]. apply wp_ret. apply tidy_fns; [done|by eapply good_wf|].
  intros g y [[<- <-]|[_ Hy]]%lookup_insert_Some; [by exists x|by exists y].
Qed.

(** All dummies. *)
Lemma wp_add_dummy_tidy s is_library bininfo :
  tidy s -> at_free s -> c_start2bb s !! 0 = None -> c_functions s !! 0 = None ->
  wp (add_dummy_shlib_blocks is_library bininfo) (fun _ s' => tidy s') s.
Proof.
  intros Ht Hat H0 F0. pose proof (td_wf _ Ht) as Hwf. unfold add_dummy_shlib_blocks. destruct is_library; [by apply wp_ret|].
  set (K k := k = Tag.ADDRESS_TAKEN \/ is_Some (c_functions s !! k)). set (fs := map_in_order (c_functions s)).
  assert (Forall (fn_ok s) fs) as Hfs.
  { apply Forall_forall. intros f (b & Hb)%elem_of_map_in_order. destruct (wf_functions _ Hwf b f Hb) as (x & Hx & _). by exists x. }
  eapply wp_bind, wp_mono.
  { unfold foreach_function. eapply wp_reads; [apply reads_gets|]. fold fs.
    apply wp_and_wlp; [by apply wp_link_all_tidy|apply wp_wlp, (wp_link_all K fs s Hwf); [by left| |done]].
    intros f x (b & Hb)%elem_of_map_in_order Hx. right. destruct (wf_functions _ Hwf b f Hb) as (y & Hy & Hbase).
    exists f. congruence. }
  cbn beta. intros _ s1 ([T1 _] & _ & W1 & _). destruct (parse_bininfo_file bininfo) as [m|]; [|by apply wp_ret].
  destruct (m !! main_key) as [v|]; [|by apply wp_ret]. cbv zeta.
  eapply wp_bind, wp_mono; [apply wp_insert_loader_tidy; [done|]|].
  { rewrite (gw_index _ _ _ W1); [done|]. intros [Heq|[f Hf]]; [discriminate|congruence]. }
  cbn beta. intros r s2 T2. case_decide; [by apply wp_ret|].
  eapply wp_bind, wp_mono; [by apply wp_mark_main_tidy|]. cbn beta. intros r2 s3 T3. by apply wp_ret.
Qed.
End Steps.
