(* ===== verification/AddressTaken.v ===== *)
(** Address-taken policies: dyninst-static/address_taken_parser.C.

    The policy [cfg], also the default, reads call sites and taken addresses off
    the graph; [lockdown] gives nothing; [bin-cfi] scans the binary with Dyninst
    and is in BinCfi.v.  The policy is chosen once and then stays. *)

From S2P Require Import Prelude LbrState Cfg CfgInv.

(** ** AddressTakenParserCFG *)

Definition is_indirect_call (x : ArmsEdge) : bool := edge_type_is_indirect_call (e_type x).

(** [_callSites] and [_addressesTaken]. *)
Record at_sets := AtSets { callSites : gset Z; addressesTaken : gset Z }.

(** A loop that inserts into a set. *)
Fixpoint collect (body : Z -> gset Z -> M (gset Z)) (l : list Z) (acc : gset Z) : M (gset Z) :=
  match l with
  | [] => mret acc
  | x :: l => acc ← body x acc; collect body l acc
  end.

Definition count_call (e : Z) (acc : gset Z) : M (gset Z) :=
  x ← edge_at e;
  if e_hidden x then mret acc else
  if decide (e_source x = NULL) then mret acc else
  if negb (is_indirect_call x) then mret acc else
  b ← bb_at (e_source x); mret ({[b_end b]} ∪ acc).

Definition fct_count_calls (f : Z) (acc : gset Z) : M (gset Z) :=
  x ← fn_at f;
  if f_lib_dummy x then mret acc else
  collect (fun p acc => es ← incoming_edges p; collect count_call es acc) (in_order (f_entries x)) acc.

Definition insert_at (e : Z) (acc : gset Z) : M (gset Z) :=
  x ← edge_at e;
  if e_hidden x then mret acc else
  intra ← is_intraprocedural x;
  if intra : bool then mret acc else
  if negb (is_indirect_call x) then mret acc else
  if decide (e_target x = NULL) then mret acc else
  b ← bb_at (e_target x);
  if decide (Z.land (b_start b) 0xff00 = 0x2900) then mret acc else mret ({[b_start b]} ∪ acc).

Definition insertATsFromCFG (p : Z) (acc : gset Z) : M (gset Z) := es ← outgoing_edges p; collect insert_at es acc.

Definition fct_count_at (f : Z) (acc : gset Z) : M (gset Z) :=
  x ← fn_at f; if f_lib_dummy x then mret acc else collect insertATsFromCFG (in_order (f_bbs x)) acc.

Definition cfg_reset : M at_sets :=
  fs ← gets (fun s => map_in_order (c_functions s)); calls ← collect fct_count_calls fs ∅;
  fs ← gets (fun s => map_in_order (c_functions s)); ats ← collect fct_count_at fs ∅;
  mret (AtSets calls ats).

Definition lockdown_reset : M at_sets := mret (AtSets ∅ ∅).

(** ** The choice of a policy *)

Inductive policy := BinCFI | LockDown | CFGCount.

(** [p] is the policy chosen before, NULL at first. *)
Definition getAddressTakenParser (policy_name : string) (p : option policy) : policy :=
  match p with
  | Some p => p
  | None =>
      if decide (policy_name = "bin-cfi") then BinCFI else
      if decide (policy_name = "lockdown") then LockDown else
      if decide (policy_name = "cfg") then CFGCount else CFGCount
  end.

(** [AddressTakenParserBase::set]. *)
Definition reset (bin_cfi : M at_sets) (p : policy) : M at_sets :=
  match p with
  | BinCFI => bin_cfi
  | LockDown => lockdown_reset
  | CFGCount => cfg_reset
  end.

(** ** Properties *)

(** A computation that reads the graph and inserts exactly the addresses in [R]. *)
Definition inserts (m : gset Z -> M (gset Z)) (s : CFG) (R : Z -> Prop) : Prop :=
  exists X, (forall acc, reads (m acc) s (X ∪ acc)) /\ forall a, a ∈ X <-> R a.

Lemma inserts_none (m : gset Z -> M (gset Z)) s (R : Z -> Prop) :
  (forall acc, reads (m acc) s acc) -> (forall a, ~ R a) -> inserts m s R.
Proof.
  intros Hm HR. exists ∅. split; [intros acc; by rewrite (left_id_L ∅ (∪))|]. intros a. split; [set_solver|]. intros Ha. by destruct (HR a).
Qed.

Lemma inserts_ext (m m' : gset Z -> M (gset Z)) s (R R' : Z -> Prop) :
  (forall acc, m acc s = m' acc s) -> (forall a, R a <-> R' a) -> inserts m s R -> inserts m' s R'.
Proof. intros Hm HR (X & HX & Hiff). exists X. split; [intros acc; red; rewrite <- Hm; apply HX|]. intros a. by rewrite Hiff. Qed.

Lemma inserts_collect body l s (R : Z -> Z -> Prop) :
  (forall x, x ∈ l -> inserts (body x) s (R x)) -> inserts (collect body l) s (fun a => exists x, x ∈ l /\ R x a).
Proof.
  induction l as [|x l IH]; intros Hb; cbn [collect].
  { apply inserts_none; [done|]. by intros a (x & ?%not_elem_of_nil & _). }
  destruct (Hb x) as (X & HX & HRX); [by left|]. destruct IH as (Y & HY & HRY); [intros y Hy; apply Hb; by right|].
  exists (X ∪ Y). split.
  - intros acc. eapply reads_bind; [apply HX|]. replace (X ∪ Y ∪ acc) with (Y ∪ (X ∪ acc)) by set_solver. apply HY.
  - intros a. rewrite elem_of_union, HRX, HRY. setoid_rewrite elem_of_cons. naive_solver.
Qed.

(** An indirect call that is visible. *)
Definition visible_call (x : ArmsEdge) : Prop := e_hidden x = false /\ e_type x = arms_indirect_call.

Section Exact.
Context (s : CFG) (Hwf : cfg_wf s).

(** Whether an edge stays in its function was set. *)
Definition intra_known : Prop := map_Forall (fun _ x => is_Some (e_intra x)) (c_edges s).

Lemma inserts_count_call e x : c_edges s !! e = Some x ->
  inserts (count_call e) s (fun a => visible_call x /\ exists b, c_bbs s !! e_source x = Some b /\ b_end b = a).
Proof.
  intros Hx. destruct (wf_ends _ Hwf e x Hx) as [[b Hb] _].
  assert (e_source x <> NULL) as Hn by (eapply ok_not_null; [done|left; by exists b]).
  unfold count_call, visible_call. destruct (e_hidden x) eqn:Hh.
  { apply inserts_none; [intros acc; eapply reads_bind; [by apply reads_edge_at|]; by rewrite Hh|naive_solver]. }
  destruct (decide (e_type x = arms_indirect_call)) as [Ht|Ht].
  - exists {[b_end b]}. split.
    + intros acc. eapply reads_bind; [by apply reads_edge_at|]. rewrite Hh, decide_False by done. unfold is_indirect_call, edge_type_is_indirect_call.
      rewrite bool_decide_eq_true_2 by done. cbn [negb]. eapply reads_bind; [by apply reads_bb_at|done].
    + intros a. rewrite elem_of_singleton. naive_solver.
  - apply inserts_none; [|naive_solver]. intros acc. eapply reads_bind; [by apply reads_edge_at|]. rewrite Hh, decide_False by done.
    unfold is_indirect_call, edge_type_is_indirect_call. by rewrite bool_decide_eq_false_2.
Qed.

(** The addresses the filter lets pass. *)
Definition not_filtered (a : Z) : Prop := Z.land a 0xff00 <> 0x2900.

Lemma inserts_insert_at e x i : c_edges s !! e = Some x -> e_intra x = Some i ->
  inserts (insert_at e) s (fun a => visible_call x /\ i = false /\ not_filtered a /\ exists b, c_bbs s !! e_target x = Some b /\ b_start b = a).
Proof.
  intros Hx Hi. destruct (wf_ends _ Hwf e x Hx) as [_ [b Hb]].
  assert (e_target x <> NULL) as Hn by (eapply ok_not_null; [done|left; by exists b]).
  assert (forall acc, reads (insert_at e acc) s (if decide (visible_call x /\ i = false /\ not_filtered (b_start b)) then {[b_start b]} ∪ acc else acc)) as Hr.
  { intros acc. unfold insert_at, visible_call, not_filtered. eapply reads_bind; [by apply reads_edge_at|].
    destruct (e_hidden x); [rewrite (decide_False (P := _ /\ _)) by naive_solver; done|].
    eapply reads_bind; [unfold reads, is_intraprocedural; by rewrite Hi|]. destruct i; [rewrite (decide_False (P := _ /\ _)) by naive_solver; done|].
    unfold is_indirect_call, edge_type_is_indirect_call. destruct (decide (e_type x = arms_indirect_call)) as [Ht|Ht].
    2: { rewrite bool_decide_eq_false_2, (decide_False (P := _ /\ _)) by naive_solver. done. }
    rewrite bool_decide_eq_true_2 by done. cbn [negb]. rewrite (decide_False (P := e_target x = NULL)) by done.
    eapply reads_bind; [by apply reads_bb_at|]. destruct (decide (Z.land _ _ = _)) as [Hf|Hf];
      [rewrite (decide_False (P := _ /\ _)) by naive_solver|rewrite (decide_True (P := _ /\ _)) by naive_solver]; done. }
  case_decide as Hc; [exists {[b_start b]}|exists ∅]; (split; [intros acc; specialize (Hr acc)|]).
  - exact Hr.
  - intros a. rewrite elem_of_singleton. naive_solver.
  - by rewrite (left_id_L ∅ (∪)).
  - intros a. split; [set_solver|]. intros (H1 & H2 & H3 & c & Hb' & Ha). naive_solver.
Qed.

(** A stored function that does not stand for a library function. *)
Definition own_function (f : Z) (x : ArmsFunction) : Prop :=
  f ∈ map_in_order (c_functions s) /\ c_fns s !! f = Some x /\ f_lib_dummy x = false.

(** A loop over the functions that skips those that stand for library functions. *)
Lemma inserts_functions (body : ArmsFunction -> gset Z -> M (gset Z)) (R : ArmsFunction -> Z -> Prop) :
  (forall f x, own_function f x -> inserts (body x) s (R x)) ->
  inserts (collect (fun f acc => x ← fn_at f; if f_lib_dummy x then mret acc else body x acc) (map_in_order (c_functions s))) s
    (fun a => exists f x, own_function f x /\ R x a).
Proof.
  intros Hb. assert (forall f, f ∈ map_in_order (c_functions s) -> exists x, c_fns s !! f = Some x) as Hok.
  { intros f (a & Ha)%elem_of_map_in_order. destruct (wf_functions _ Hwf a f Ha) as (x & Hx & _). by exists x. }
  eapply (inserts_ext _ _ s (fun a => exists f, f ∈ map_in_order (c_functions s) /\ exists x, own_function f x /\ R x a)); [done| |].
  { intros a. split; [intros (f & _ & x & Hx); by exists f, x|intros (f & x & Hx & Ha); exists f; split; [apply Hx|by exists x]]. }
  apply inserts_collect. intros f Hf. destruct (Hok f Hf) as [x Hx]. destruct (f_lib_dummy x) eqn:Hd.
  - apply inserts_none; [intros acc; eapply reads_bind; [by apply reads_fn_at|]; by rewrite Hd|].
    intros a (y & (_ & Hy & Hdy) & _). congruence.
  - destruct (Hb f x) as (X & HX & HR); [done|]. exists X. split.
    + intros acc. eapply reads_bind; [by apply reads_fn_at|]. rewrite Hd. apply HX.
    + intros a. rewrite HR. split; [intros Ha; by exists x|]. intros (y & (_ & Hy & _) & Ha). congruence.
Qed.

(** The end addresses of the blocks that call an entry block through a pointer. *)
Definition call_site (a : Z) : Prop :=
  exists f x p b e y c, own_function f x /\ p ∈ f_entries x /\ c_bbs s !! p = Some b /\ e ∈ b_in b /\
    c_edges s !! e = Some y /\ visible_call y /\ c_bbs s !! e_source y = Some c /\ b_end c = a.

(** The start addresses of the blocks called through a pointer from a function,
    without those whose second byte is 0x29. *)
Definition taken_address (a : Z) : Prop :=
  exists f x p b e y c, own_function f x /\ p ∈ f_bbs x /\ c_bbs s !! p = Some b /\ e ∈ b_out b /\
    c_edges s !! e = Some y /\ visible_call y /\ e_intra y = Some false /\ c_bbs s !! e_target y = Some c /\ b_start c = a /\ not_filtered a.

Lemma inserts_calls : inserts (collect fct_count_calls (map_in_order (c_functions s))) s call_site.
Proof.
  eapply inserts_ext; [reflexivity| |apply (inserts_functions
    (fun x => collect (fun p acc => es ← incoming_edges p; collect count_call es acc) (in_order (f_entries x)))
    (fun x a => exists p, p ∈ in_order (f_entries x) /\ exists e, (exists b, c_bbs s !! p = Some b /\ e ∈ b_in b) /\
       exists y, c_edges s !! e = Some y /\ visible_call y /\ exists c, c_bbs s !! e_source y = Some c /\ b_end c = a))].
  - intros a. unfold call_site. setoid_rewrite elem_of_in_order. naive_solver.
  - intros f x (Hf & Hx & _). apply inserts_collect. intros p Hp%elem_of_in_order.
    destruct (wf_entries _ Hwf f x p Hx) as [b Hb]; [by left|].
    destruct (inserts_collect count_call (in_order (b_in b)) s (fun e a => exists y, c_edges s !! e = Some y /\ visible_call y /\
      exists c, c_bbs s !! e_source y = Some c /\ b_end c = a)) as (X & HX & HR).
    { intros e He%elem_of_in_order. destruct (wf_in _ Hwf p b e Hb He) as (y & Hy & _).
      eapply inserts_ext; [reflexivity| |by apply (inserts_count_call e y)]. naive_solver. }
    exists X. split; [intros acc; eapply reads_bind; [eapply reads_bind; [by apply reads_bb_at|apply reads_ret]|apply HX]|].
    intros a. rewrite HR. setoid_rewrite elem_of_in_order. naive_solver.
Qed.

Lemma inserts_ats : intra_known -> inserts (collect fct_count_at (map_in_order (c_functions s))) s taken_address.
Proof.
  intros Hi. eapply inserts_ext; [reflexivity| |apply (inserts_functions
    (fun x => collect insertATsFromCFG (in_order (f_bbs x)))
    (fun x a => exists p, p ∈ in_order (f_bbs x) /\ exists e, (exists b, c_bbs s !! p = Some b /\ e ∈ b_out b) /\
       exists y, c_edges s !! e = Some y /\ visible_call y /\ e_intra y = Some false /\ not_filtered a /\ exists c, c_bbs s !! e_target y = Some c /\ b_start c = a))].
  - intros a. unfold taken_address. setoid_rewrite elem_of_in_order. naive_solver.
  - intros f x (Hf & Hx & _). apply inserts_collect. intros p Hp%elem_of_in_order.
    destruct (wf_entries _ Hwf f x p Hx) as [b Hb]; [by right; right|].
    destruct (inserts_collect insert_at (in_order (b_out b)) s (fun e a => exists y, c_edges s !! e = Some y /\ visible_call y /\
      e_intra y = Some false /\ not_filtered a /\ exists c, c_bbs s !! e_target y = Some c /\ b_start c = a)) as (X & HX & HR).
    { intros e He%elem_of_in_order. destruct (wf_out _ Hwf p b e Hb He) as (y & Hy & _). destruct (Hi e y Hy) as [i Hiy].
      eapply inserts_ext; [reflexivity| |by apply (inserts_insert_at e y i)]. naive_solver. }
    exists X. split; [intros acc; eapply reads_bind; [eapply reads_bind; [by apply reads_bb_at|apply reads_ret]|apply HX]|].
    intros a. rewrite HR. setoid_rewrite elem_of_in_order. naive_solver.
Qed.

Lemma cfg_reset_spec : intra_known -> exists at_, reads cfg_reset s at_ /\
  (forall a, a ∈ callSites at_ <-> call_site a) /\ (forall a, a ∈ addressesTaken at_ <-> taken_address a).
Proof.
  intros Hi. destruct inserts_calls as (X & HX & HRX), (inserts_ats Hi) as (Y & HY & HRY).
  exists (AtSets (X ∪ ∅) (Y ∪ ∅)). split.
  - eapply reads_bind; [apply reads_gets|]. eapply reads_bind; [apply HX|].
    eapply reads_bind; [apply reads_gets|]. eapply reads_bind; [apply HY|done].
  - cbn [callSites addressesTaken]. rewrite !(right_id_L ∅ (∪)). done.
Qed.
End Exact.

(** ** What a policy promises *)

Section Policies.
Context (bin_cfi : M at_sets).

(** The policy runs on every graph and leaves it alone.  Only [bin-cfi] may fail, so
    it has to show this; it does not look at the graph. *)
Definition policy_reads (p : policy) : Prop := p = BinCFI -> exists at_, forall s, reads bin_cfi s at_.

(** The sets of the policy on the graph [s]. *)
Definition policy_sets (p : policy) (s : CFG) (at_ : at_sets) : Prop :=
  match p with
  | BinCFI => reads bin_cfi s at_
  | LockDown => at_ = AtSets ∅ ∅
  | CFGCount => (forall a, a ∈ callSites at_ <-> call_site s a) /\ (forall a, a ∈ addressesTaken at_ <-> taken_address s a)
  end.

Lemma reset_spec p s : cfg_wf s -> intra_known s -> policy_reads p -> exists at_, reads (reset bin_cfi p) s at_ /\ policy_sets p s at_.
Proof.
  intros Hwf Hi Hp. destruct p; cbn.
  - destruct Hp as [at_ Hat]; [done|]. exists at_. by split.
  - by eexists.
  - by apply cfg_reset_spec.
Qed.
End Policies.
