(* ===== verification/Builder.v ===== *)
(** Construction of the graph from the binary: the ParseAPI half of
    dyninst-static/arms_dyninst_cfg.c and arms_icall_resolver.h.

    What Dyninst parsed is data: the functions of the code object with their blocks
    and the edges between them.  The script that resolves indirect calls is a
    function from the address of the call to the bytes it prints.  The methods
    on BPatch objects, which nothing calls, are left out. *)

From S2P Require Import Prelude LbrState Cfg CfgInv JitPath Simplify Dummies Tidy.

(** ** What ParseAPI gives *)

(** [ParseAPI::EdgeTypeEnum]. *)
Inductive edge_type :=
| CALL
| COND_TAKEN
| COND_NOT_TAKEN
| INDIRECT
| DIRECT
| FALLTHROUGH
| CATCH
| CALL_FT
| RET
| NOEDGE
| edgetype_end.

#[global] Instance edge_type_eq_dec : EqDecision edge_type.
Proof. solve_decision. Defined.

(** An edge with the start of its target block; [sink] stands for unknown. *)
Record pedge := PEdge { pe_type : edge_type; pe_interproc : bool; pe_trg : Z }.
Definition sink : Z := 2 ^ 64 - 1.

(** A block, with the addresses of the functions that contain it. *)
Record pblock := PBlock { pb_start : Z; pb_end : Z; pb_last : Z; pb_funcs : list Z; pb_targets : list pedge }.

(** A function, with the starts of its entry and return blocks. *)
Record pfunc := PFunc { pf_addr : Z; pf_name : string; pf_blocks : list pblock; pf_entry : Z; pf_returns : list Z }.

(** ** Resolving indirect calls *)

(** The pieces between separators; there is always one. *)
Fixpoint split (sep : Z) (text : list Z) : list (list Z) :=
  match text with
  | [] => [[]]
  | c :: text =>
      if decide (c = sep) then [] :: split sep text else
      match split sep text with [] => [[c]] | t :: ts => (c :: t) :: ts end
  end.

(** [strtoll] with base 16, converted to a pointer. *)
Definition strtoll16 (l : list Z) : Z :=
  let l := skip_space (c_str l) in
  let '(neg, l) := match l with 45 :: k => (true, k) | 43 :: k => (false, k) | _ => (false, l) end in
  let l := match l with
           | 48 :: x :: d :: k => if decide ((x = 120 \/ x = 88) /\ digit_value d < 16) then d :: k else l
           | _ => l
           end in
  let v := digits 16 l 0 in
  u64 (if neg : bool then Z.max (- v) (- 2 ^ 63) else Z.min v (2 ^ 63 - 1)).

(** The script prints addresses separated by commas (44). *)
Definition arms_icall_resolver (script : Z -> list Z) (callSiteAddr : Z) : list Z :=
  strtoll16 <$> split 44 (script callSiteAddr).

(** ** Functions and blocks *)

Section Build.
Context `{Malloc} (script : Z -> list Z).

Fixpoint each {A} (body : A -> M unit) (l : list A) : M unit :=
  match l with
  | [] => mret tt
  | x :: l => body x;; each body l
  end.

Definition insert_function (f : pfunc) : M unit :=
  p ← find_function (pf_addr f);
  if negb (bool_decide (p = NULL)) then mret tt else
  p ← new_fn (pf_addr f) (pf_name f); store_function p.

Definition add_containing_function (p cf : Z) : M unit := on_bb p (fun b =>
  BB (b_id b) (b_in b) (b_out b) (b_start b) (b_end b) (b_last b) (b_entry b) (b_exit b) (b_dummy b) (b_funcs b ++ [cf])).

Definition insert_block (b : pblock) : M unit :=
  p ← find_bb (pb_start b);
  if negb (bool_decide (p = NULL)) then mret tt else
  p ← new_bb (pb_start b) (pb_end b) (pb_last b) NULL;
  store_bb p;;
  each (fun a => cf ← find_function a; add_containing_function p cf;; add_bb cf p) (pb_funcs b).

Definition set_is_entry_block (p : Z) : M unit := on_bb p (fun b =>
  BB (b_id b) (b_in b) (b_out b) (b_start b) (b_end b) (b_last b) true (b_exit b) (b_dummy b) (b_funcs b)).
Definition set_is_exit_block (p : Z) : M unit := on_bb p (fun b =>
  BB (b_id b) (b_in b) (b_out b) (b_start b) (b_end b) (b_last b) (b_entry b) true (b_dummy b) (b_funcs b)).

Definition mark_entry_and_exits (f : pfunc) : M unit :=
  g ← find_function (pf_addr f);
  p ← find_bb (pf_entry f);
  set_is_entry_block p;; add_entry_block g p;;
  each (fun a => q ← find_bb a; set_is_exit_block q;; add_exit_block g q) (pf_returns f).

Definition insert_functions_and_bbs (funcs : list pfunc) : M unit :=
  each insert_function funcs;;
  each (fun f => each insert_block (pf_blocks f)) funcs;;
  each mark_entry_and_exits funcs.

(** ** Edges *)

(** [None] for the failed assertion. *)
Definition copied_type (e : pedge) (indirect : bool) : option arms_edge_type :=
  match pe_type e with
  | CALL => Some (if indirect then arms_indirect_call else arms_direct_call)
  | COND_TAKEN => Some arms_cond_taken
  | COND_NOT_TAKEN => Some arms_cond_not_taken
  | INDIRECT => Some (if pe_interproc e then arms_inter_indirect_jmp else arms_indirect_jmp)
  | DIRECT => Some (if pe_interproc e then arms_inter_direct_jmp else arms_direct_jmp)
  | FALLTHROUGH => Some arms_fallthrough
  | CATCH => Some arms_catch
  | CALL_FT => Some arms_call_ft
  | RET => Some arms_ret
  | NOEDGE | edgetype_end => None
  end.

Definition copy_edge_type (arms_edge : Z) (e : pedge) (indirect : bool) : M unit :=
  match copied_type e indirect with Some t => set_type arms_edge t | None => undefined end.

(** The edge from block [p] of the function [f]. *)
Definition insert_edge (f p : Z) (b : pblock) (e : pedge) : M unit :=
  let unknown := bool_decide (pe_trg e = sink) in
  if decide (pe_type e = CALL_FT) then mret tt else
  if bool_decide (pe_type e = RET) && unknown then mret tt else
  q ← (if unknown then mret NULL else find_bb (pe_trg e));
  resolved ← (if bool_decide (q = NULL) && bool_decide (pe_type e = CALL) then
    let targets := arms_icall_resolver script (pb_last b) in
    each (fun a => handle_interprocedural p a arms_indirect_call) targets;;
    mret (bool_decide (0 < length targets)%nat)
  else mret false);
  if resolved : bool then mret tt else
  q ← (if decide (q = NULL) then create_dummy_basic_block f else mret q);
  x ← new_ArmsEdge p q;
  copy_edge_type x e unknown;;
  add_outgoing_edge p x;;
  add_incoming_edge q x.

Fixpoint insert_block_edges (f : Z) (blocks : list pblock) (seen : gset Z) : M (gset Z) :=
  match blocks with
  | [] => mret seen
  | b :: blocks =>
      p ← find_bb (pb_start b);
      if decide (pb_start b ∈ seen) then insert_block_edges f blocks seen else
      each (insert_edge f p b) (pb_targets b);;
      insert_block_edges f blocks ({[pb_start b]} ∪ seen)
  end.

Fixpoint insert_function_edges (funcs : list pfunc) (seen : gset Z) : M unit :=
  match funcs with
  | [] => mret tt
  | f :: funcs =>
      g ← find_function (pf_addr f);
      seen ← insert_block_edges g (pf_blocks f) seen;
      insert_function_edges funcs seen
  end.

Definition insert_edges (funcs : list pfunc) : M unit := insert_function_edges funcs ∅.

(** ** The whole binary *)

(** The interval of the program's addresses is widened. *)
Definition widen (lo hi : Z) : M unit := modify (fun s =>
  let start := if decide (c_start_addr s = 0 \/ lo < c_start_addr s) then lo else c_start_addr s in
  let end_ := if decide (c_end_addr s = 0 \/ hi > c_end_addr s) then hi else c_end_addr s in
  set_addrs start end_ s).

(** Modules with base and size, the targets of the function binding table, and
    the functions of the code object after the parse. *)
Definition parse_all (modules : list (Z * Z)) (fbt : list Z) (funcs : list pfunc) : M unit :=
  each (fun m => widen m.1 (u64 (m.1 + m.2))) modules;;
  insert_functions_and_bbs funcs;;
  each (fun a => widen a a;; mark_function_as_plt a) fbt.

(** [funcs'] is what the code object has after the parse at [entrypoint]. *)
Definition retouch (modules : list (Z * Z)) (fbt : list Z) (funcs funcs' : Z -> list pfunc) (entrypoint : Z) : M unit :=
  parse_all modules fbt (funcs entrypoint);;
  insert_functions_and_bbs (funcs' entrypoint);;
  insert_edges (funcs' entrypoint).

(** [try_ParseAPI], and [dyninst_build_cfg], which calls it, on the new graph. *)
Definition dyninst_build_cfg (modules : list (Z * Z)) (fbt : list Z) (funcs : list pfunc) : M unit :=
  parse_all modules fbt funcs;; insert_edges funcs.

End Build.
