(* ===== verification/Frame.v ===== *)
(** What the operations on the graph leave alone.

    A relation between graphs is a frame if it is a preorder, holds between graphs
    with the same functions, and holds when a function is changed other than in
    its library flag.  Every operation but the creation of functions stays in every
    frame; that the functions of a graph are those of the view and that none stands for a
    library are the two frames used. *)

From S2P Require Import Prelude LbrState Cfg CfgInv Simplify Dummies Builder.

Class Frame (R : CFG -> CFG -> Prop) : Prop := {
  frame_refl s : R s s;
  frame_trans s1 s2 s3 : R s1 s2 -> R s2 s3 -> R s1 s3;
  frame_same s s' : c_functions s' = c_functions s -> c_fns s' = c_fns s -> R s s';
  frame_fn s p x y : c_fns s !! p = Some x -> f_lib_dummy y = f_lib_dummy x -> R s (set_fns (<[p := y]> (c_fns s)) s)
}.

(** The index of functions stays. *)
Definition same_functions (s s' : CFG) : Prop := c_functions s' = c_functions s.

#[export] Instance frame_functions : Frame same_functions.
Proof. unfold same_functions. split; try done. congruence. Qed.

(** No function stands for a library. *)
Definition no_lib (s : CFG) : Prop := map_Forall (fun _ x => f_lib_dummy x = false) (c_fns s).
Definition keeps_no_lib (s s' : CFG) : Prop := no_lib s -> no_lib s'.

#[export] Instance frame_no_lib : Frame keeps_no_lib.
Proof.
  unfold keeps_no_lib. split; [done|auto| |].
  - intros s s' _ Hf. unfold no_lib. by rewrite Hf.
  - intros s p x y Hx Hy Hn. apply map_Forall_insert_2; [|done]. rewrite Hy. by apply (Hn p x).
Qed.

Definition framed (R : CFG -> CFG -> Prop) {A} (m : M A) : Prop := forall s a s', m s = Some (a, s') -> R s s'.

Create HintDb framed.

Section Framed.
Context (R : CFG -> CFG -> Prop) {HR : Frame R}.

Lemma framed_ret {A} (a : A) : framed R (mret a).
Proof. intros s b s' [= _ <-]. apply frame_refl. Qed.
Lemma framed_gets {A} (f : CFG -> A) : framed R (gets f).
Proof. intros s b s' [= _ <-]. apply frame_refl. Qed.
Lemma framed_modify f : (forall s, c_functions (f s) = c_functions s /\ c_fns (f s) = c_fns s) -> framed R (modify f).
Proof. intros Hf s b s' [= _ <-]. destruct (Hf s). by apply frame_same. Qed.
Lemma framed_undefined {A} : framed R (@undefined A).
Proof. done. Qed.

Lemma framed_bind {A B} (m : M A) (f : A -> M B) : framed R m -> (forall a, framed R (f a)) -> framed R (m ≫= f).
Proof.
  intros Hm Hf s b s'. unfold mbind, M_bind. destruct (m s) as [[a s1]|] eqn:H1; [|done]. intros H2.
  eapply frame_trans; [by apply (Hm _ _ _ H1)|by apply (Hf a _ _ _ H2)].
Qed.

Lemma framed_each {A} (body : A -> M unit) l : (forall x, framed R (body x)) -> framed R (each body l).
Proof. intros Hb. induction l as [|x l IH]; cbn [each]; [apply framed_ret|]. by apply framed_bind. Qed.
Lemma framed_for_each body l : (forall x, framed R (body x)) -> framed R (for_each body l).
Proof. intros Hb. induction l as [|x l IH]; cbn [for_each]; [apply framed_ret|]. by apply framed_bind. Qed.

Lemma framed_bb_at p : framed R (bb_at p).
Proof. intros s b s'. unfold bb_at. destruct (c_bbs s !! p); [|done]. intros [= _ <-]. apply frame_refl. Qed.
Lemma framed_edge_at p : framed R (edge_at p).
Proof. intros s b s'. unfold edge_at. destruct (c_edges s !! p); [|done]. intros [= _ <-]. apply frame_refl. Qed.
Lemma framed_fn_at p : framed R (fn_at p).
Proof. intros s b s'. unfold fn_at. destruct (c_fns s !! p); [|done]. intros [= _ <-]. apply frame_refl. Qed.

Lemma framed_on_fn p f : (forall x, f_lib_dummy (f x) = f_lib_dummy x) -> framed R (on_fn p f).
Proof.
  intros Hf s a s'. unfold on_fn, fn_at, modify, mbind, M_bind. destruct (c_fns s !! p) as [x|] eqn:Hx; [|done]. cbn. intros [= _ <-].
  by eapply frame_fn.
Qed.

Context {Ma : Malloc}.

Lemma framed_new_bb a b c f : framed R (new_bb a b c f).
Proof. intros s x s' [= _ <-]. by apply frame_same. Qed.
Lemma framed_new_edge a b t i : framed R (new_edge a b t i).
Proof. intros s x s' [= _ <-]. by apply frame_same. Qed.
Lemma framed_count_dummy : framed R count_dummy.
Proof. intros s x s' [= _ <-]. by apply frame_same. Qed.
End Framed.

(** Runs through the operations, to the changes of the store. *)
Ltac framed :=
  repeat (intros; cbv beta zeta; lazymatch goal with
    | |- framed _ (mret _) => apply framed_ret
    | |- framed _ (gets _) => apply framed_gets
    | |- framed _ undefined => apply framed_undefined
    | |- framed _ (_ ≫= _) => apply framed_bind
    | |- framed _ (modify _) => apply framed_modify; done
    | |- framed _ (on_fn _ _) => apply framed_on_fn; done
    | |- framed _ (bb_at _) => apply framed_bb_at
    | |- framed _ (edge_at _) => apply framed_edge_at
    | |- framed _ (fn_at _) => apply framed_fn_at
    | |- framed _ (new_bb _ _ _ _) => apply framed_new_bb
    | |- framed _ (new_edge _ _ _ _) => apply framed_new_edge
    | |- framed _ count_dummy => apply framed_count_dummy
    | |- framed _ (each _ _) => apply framed_each
    | |- framed _ (for_each _ _) => apply framed_for_each
    | |- framed _ (if ?c then _ else _) => destruct c
    | |- framed _ (match ?c with _ => _ end) => destruct c
    | |- framed _ (on_bb _ _) => unfold on_bb
    | |- framed _ (on_edge _ _) => unfold on_edge
    | |- framed _ (find_bb _) => unfold find_bb
    | |- framed _ (find_function _) => unfold find_function
    | |- framed _ (find_bb_by_last_insn_address _) => unfold find_bb_by_last_insn_address
    | |- framed _ (store_bb _) => unfold store_bb
    | |- framed _ (set_type _ _) => unfold set_type
    | |- framed _ (set_interprocedural _) => unfold set_interprocedural
    | |- framed _ (add_outgoing_edge _ _) => unfold add_outgoing_edge
    | |- framed _ (add_incoming_edge _ _) => unfold add_incoming_edge
    | |- _ => solve [eauto with framed typeclass_instances nocore]
    end).

(** ** Construction *)

Section Construction.
Context (R : CFG -> CFG -> Prop) {HR : Frame R} {Ma : Malloc} (script : Z -> list Z).

Lemma framed_link_typed p q t : framed R (link_typed p q t).
Proof. unfold link_typed, new_ArmsEdge_typed. framed. Qed.
#[local] Hint Resolve framed_link_typed : framed.

Lemma framed_handle p a : framed R (handle_interprocedural p a arms_indirect_call).
Proof.
  unfold handle_interprocedural. cbn [edge_type_is_direct_call edge_type_is_indirect_call].
  unfold handle_interprocedural_call, create_call_edge, create_ret_edges, callback_create_ret_edges, add_external_call. framed.
Qed.
#[local] Hint Resolve framed_handle : framed.

Lemma framed_insert_block b : framed R (insert_block b).
Proof. unfold insert_block, add_containing_function, add_bb. framed. Qed.

Lemma framed_mark_entry_and_exits f : framed R (mark_entry_and_exits f).
Proof. unfold mark_entry_and_exits, set_is_entry_block, add_entry_block, set_is_exit_block, add_exit_block. framed. Qed.

Lemma framed_insert_edge f p b e : framed R (insert_edge script f p b e).
Proof. unfold insert_edge, create_dummy_basic_block, new_ArmsEdge, copy_edge_type. framed. Qed.

Lemma framed_widen lo hi : framed R (widen lo hi).
Proof. unfold widen. framed. Qed.

Lemma framed_mark_plt a : framed R (mark_function_as_plt a).
Proof. unfold mark_function_as_plt, set_is_plt. framed. Qed.
#[local] Hint Resolve framed_insert_edge : framed.

Lemma framed_insert_edges funcs : framed R (insert_edges script funcs).
Proof.
  unfold insert_edges. generalize (∅ : gset Z). induction funcs as [|f funcs IH]; intros seen; cbn [insert_function_edges]; [framed|].
  apply framed_bind; [done|framed|]. intros g. apply framed_bind; [done| |done].
  revert seen. induction (pf_blocks f) as [|b l IHl]; intros seen; cbn [insert_block_edges]; framed.
Qed.

(** ** Dummies *)

Lemma framed_link p q : framed R (link p q).
Proof. unfold link, new_ArmsEdge. framed. Qed.
#[local] Hint Resolve framed_link : framed.

Lemma framed_add_dummy is_library bininfo : framed R (add_dummy_shlib_blocks is_library bininfo).
Proof.
  unfold add_dummy_shlib_blocks, foreach_function, link_dummy_block_to_at_func, create_and_add_edge_addr, find_or_new, insert_dummy_loader_block,
    mark_main_function, create_dummy_basic_block_range, create_and_add_edge, store_if_missing, equals_bb, assert, set_is_main.
  framed.
Qed.
End Construction.

#[export] Hint Resolve framed_insert_block framed_mark_entry_and_exits framed_widen framed_mark_plt framed_insert_edges : framed.
