(* ===== verification/Driver.v ===== *)
(** Preparing the graph: [preprocess_cfg] of dyninst-static/lbr_analysis_pass.C and
    the naive address-taken analysis of arms_dyninst_cfg.c.

    The functions whose address is taken are marked, the blocks the kernel module
    needs are added, functions are collapsed, and the address-taken policy reads
    the result.  What Dyninst finds in the binary is an argument: the immediate
    operands of the instructions; so is the policy [bin-cfi], which is in BinCfi.v. *)

From S2P Require Import Prelude LbrState Cfg CfgInv JitPath Simplify Dummies Tidy AddressTaken Builder Frame.

(** ** The naive analysis *)

(** The value of an immediate operand, by its type. *)
Inductive immediate :=
| imm_s32 (v : Z)
| imm_u32 (v : Z)
| imm_s64 (v : Z)
| imm_u64 (v : Z)
| imm_other.

(** Converted to an unsigned 64-bit address; [None] for the default case. *)
Definition operand_address (op : immediate) : option Z :=
  match op with
  | imm_s32 v | imm_u32 v | imm_s64 v | imm_u64 v => Some (u64 v)
  | imm_other => None
  end.

Definition visit (op : immediate) : M unit :=
  match operand_address op with
  | None => mret tt
  | Some addr =>
      func ← find_function addr;
      if decide (func = NULL) then mret tt else set_addr_taken func
  end.

Fixpoint dyninst_analyze_address_taken (ops : list immediate) : M unit :=
  match ops with
  | [] => mret tt
  | op :: ops => visit op;; dyninst_analyze_address_taken ops
  end.

(** ** [preprocess_cfg] *)

Section Preprocess.
Context `{Malloc} (ops : list immediate) (bin_cfi : M at_sets).

(** The result, and the sets of the policy where the end is reached. *)
Definition preprocess_cfg (icall_map_type policy_name : string) (is_library : bool) (bininfo : option (list Z)) (p : option policy) :
  M (Z * option at_sets) :=
  (if decide (icall_map_type = "naive") then dyninst_analyze_address_taken ops else mret tt);;
  mark_at_functions;;
  ok ← add_dummy_shlib_blocks is_library bininfo;
  if negb ok then mret (-1, None) else
  ok ← simplify_cfg;
  if negb ok then mret (-1, None) else
  at_ ← reset bin_cfi (getAddressTakenParser policy_name p);
  mret (0, Some at_).
End Preprocess.


(** ** Which functions are marked *)

(** The graph with the functions in [R] marked. *)
Definition mark_set (R : Z -> bool) (s : CFG) : CFG := set_fns (map_imap (fun f x => Some (at_or (R f) x)) (c_fns s)) s.

Lemma lookup_mark_set R s f : c_fns (mark_set R s) !! f = at_or (R f) <$> c_fns s !! f.
Proof. cbn. rewrite map_lookup_imap. by destruct (c_fns s !! f). Qed.

Lemma mark_set_ext R R' s : (forall f, R f = R' f) -> mark_set R s = mark_set R' s.
Proof.
  intros HR. unfold mark_set. f_equal. apply map_eq. intros f. rewrite !map_lookup_imap. destruct (c_fns s !! f); cbn; [by rewrite HR|done].
Qed.

Lemma mark_set_id R s : (forall f, R f = false) -> mark_set R s = s.
Proof.
  intros HR. unfold mark_set. rewrite <- (set_fns_id s) at 3. f_equal. apply map_eq. intros f. rewrite map_lookup_imap.
  destruct (c_fns s !! f); cbn; [by rewrite HR, at_or_false|done].
Qed.

Lemma mark_set_or R R' s : mark_set R' (mark_set R s) = mark_set (fun f => R f || R' f) s.
Proof.
  transitivity (set_fns (map_imap (fun f x => Some (at_or (R' f) x)) (map_imap (fun f x => Some (at_or (R f) x)) (c_fns s))) s); [done|].
  unfold mark_set. f_equal. apply map_eq. intros f. rewrite !map_lookup_imap. destruct (c_fns s !! f); cbn; [by rewrite at_or_or|done].
Qed.

Lemma good_mark_set R s : cfg_wf s -> good s (mark_set R s).
Proof.
  intros [H0 Ho Hi Hends Hsb Hlb Hf Hen Hfu]. pose proof (lookup_mark_set R s) as Hl. split_and!; [| |done].
  - split; cbn [mark_set set_fns c_bbs c_edges c_start2bb c_last2bb c_functions]; try done.
    + unfold allocated. cbn. assert (dom (map_imap (fun f x => Some (at_or (R f) x)) (c_fns s)) = dom (c_fns s)) as ->; [|done].
      apply set_eq. intros f. rewrite !elem_of_dom, map_lookup_imap. by destruct (c_fns s !! f).
    + intros a f Ha. destruct (Hf a f Ha) as (x & Hx & Hb). rewrite Hl, Hx. by eexists.
    + intros f x' p Hx Hp. rewrite Hl in Hx. apply fmap_Some in Hx as (x & Hx & ->). by apply (Hen f x).
    + intros p b f Hb Hin. unfold fn_ok. rewrite Hl, fmap_is_Some. by apply (Hfu p b f).
  - split; cbn [mark_set set_fns c_bbs c_edges]; try (intros ? y ?; exists y; (split; [done|same])).
    intros f x Hx. rewrite Hl, Hx. eexists. split; [done|same].
Qed.

Lemma tidy_mark_set R s : tidy s -> tidy (mark_set R s).
Proof.
  intros Ht. apply tidy_fns; [done|apply good_mark_set, Ht|]. intros f x Hx.
  change (c_fns (mark_set R s) !! f = Some x) in Hx. rewrite lookup_mark_set in Hx. apply fmap_Some in Hx as (y & Hy & ->). by exists y.
Qed.

(** The operand is the address of [f]. *)
Definition refers (s : CFG) (f : Z) (op : immediate) : bool := bool_decide ((a ← operand_address op; c_functions s !! a) = Some f).

Lemma visit_run s op : cfg_wf s -> visit op s = Some (tt, mark_set (fun f => refers s f op) s).
Proof.
  intros Hwf. unfold visit, refers. destruct (operand_address op) as [a|]; cbn [mbind option_bind].
  2: { by rewrite (mark_set_id (fun f => _)). }
  destruct (find_function_spec s a Hwf) as (g & Hg & [[-> Ha]|(Hne & Ha & x & Hx & _)]); rewrite Ha.
  { unfold mbind, M_bind. rewrite Hg. rewrite decide_True by done. by rewrite (mark_set_id (fun f => _)). }
  unfold mbind at 1, M_bind at 1. rewrite Hg. rewrite decide_False by done.
  unfold set_addr_taken, on_fn, mbind, M_bind, fn_at, modify. rewrite Hx. cbn. unfold mark_set. do 3 f_equal.
  apply map_eq. intros f. rewrite map_lookup_imap. destruct (decide (f = g)) as [->|Hfg].
  - rewrite lookup_insert_eq, Hx. cbn. rewrite bool_decide_eq_true_2 by done. unfold at_or, fn_sets. by rewrite orb_true_r.
  - rewrite lookup_insert_ne by done. destruct (c_fns s !! f); cbn; [|done]. rewrite bool_decide_eq_false_2 by congruence. by rewrite at_or_false.
Qed.

Lemma naive_run s ops : cfg_wf s -> dyninst_analyze_address_taken ops s = Some (tt, mark_set (fun f => existsb (refers s f) ops) s).
Proof.
  revert s. induction ops as [|op ops IH]; intros s Hwf; cbn [dyninst_analyze_address_taken existsb].
  { by rewrite mark_set_id. }
  unfold mbind, M_bind. rewrite visit_run by done. rewrite IH by (apply good_mark_set, Hwf). do 2 f_equal. apply mark_set_or.
Qed.

Lemma mark_at_run s : cfg_wf s -> exists R, mark_at_functions s = Some (tt, mark_set R s) /\
  forall a f x, c_functions s !! a = Some f -> c_fns s !! f = Some x -> f_at x || R f = f_at x || taken s x.
Proof.
  intros Hwf. assert (forall f, f ∈ map_in_order (c_functions s) -> fn_ok s f) as Hok.
  { intros f (a & Ha)%elem_of_map_in_order. destruct (wf_functions _ Hwf a f Ha) as (x & Hx & _). by exists x. }
  destruct (mark_all_run s (map_in_order (c_functions s)) (c_fns s) [] Hwf) as (h & Hrun & Hm); [by apply Forall_forall| |].
  { intros f. exists false. split; [|intros x _; cbn; by rewrite !orb_false_r]. destruct (c_fns s !! f); [|done]. cbn. by rewrite at_or_false. }
  rewrite set_fns_id in Hrun. exists (fun f => match h !! f with Some y => f_at y | None => false end). split.
  - unfold mark_at_functions, foreach_function, mbind, M_bind, gets. rewrite Hrun. unfold mark_set. do 3 f_equal.
    apply map_eq. intros f. rewrite map_lookup_imap. destruct (Hm f) as (b & -> & _). destruct (c_fns s !! f) as [x|]; [|done].
    cbn. unfold at_or. do 2 f_equal. by destruct (f_at x), b.
  - intros a f x Ha Hx. destruct (Hm f) as (b & -> & Hb). rewrite Hx. cbn. specialize (Hb x Hx).
    rewrite bool_decide_eq_true_2 in Hb by (apply elem_of_map_in_order; eauto). rewrite andb_true_l in Hb. rewrite <- Hb. by destruct (f_at x), b.
Qed.

(** Some edge into an entry block of the function is indirect. *)
Definition entered_indirectly (s : CFG) (x : ArmsFunction) : Prop :=
  f_lib_dummy x = false /\ exists p b e y, p ∈ f_entries x /\ c_bbs s !! p = Some b /\ e ∈ b_in b /\ c_edges s !! e = Some y /\ is_indirect y = true.

(** [s1] is [s] with exactly these functions marked: those that were, those whose
    address is an operand if the naive analysis runs, those entered indirectly. *)
Definition marked_exactly (naive : bool) (ops : list immediate) (s s1 : CFG) : Prop :=
  exists R, s1 = mark_set R s /\ forall a f x, c_functions s !! a = Some f -> c_fns s !! f = Some x ->
    (f_at x || R f = true <-> f_at x = true \/ (naive = true /\ exists op, op ∈ ops /\ operand_address op = Some a) \/ entered_indirectly s x).

Section Preprocessed.
Context {Ma : Malloc} (ops : list immediate) (bin_cfi : M at_sets).

Lemma marking_spec s icall_map_type : cfg_wf s -> exists s1,
  ((if decide (icall_map_type = "naive"%string) then dyninst_analyze_address_taken ops else mret tt);; mark_at_functions) s = Some (tt, s1) /\
  marked_exactly (bool_decide (icall_map_type = "naive"%string)) ops s s1.
Proof.
  intros Hwf. set (naive := bool_decide (icall_map_type = "naive"%string)).
  set (R0 f := naive && existsb (refers s f) ops).
  assert ((if decide (icall_map_type = "naive"%string) then dyninst_analyze_address_taken ops else mret tt) s = Some (tt, mark_set R0 s)) as H0.
  { unfold R0, naive. case_decide as Hd; [rewrite bool_decide_eq_true_2 by done; by apply naive_run|].
    rewrite bool_decide_eq_false_2 by done. by rewrite mark_set_id. }
  destruct (mark_at_run (mark_set R0 s)) as (R1 & H1 & HR1); [by apply good_mark_set|].
  exists (mark_set (fun f => R0 f || R1 f) s). split.
  { unfold mbind, M_bind. rewrite H0, H1. by rewrite mark_set_or. }
  exists (fun f => R0 f || R1 f). split; [done|]. intros a f x Ha Hx.
  specialize (HR1 a f (at_or (R0 f) x) Ha). rewrite lookup_mark_set, Hx in HR1. specialize (HR1 eq_refl). cbn in HR1.
  change (taken (mark_set R0 s) (at_or (R0 f) x)) with (taken s x) in HR1. rewrite orb_assoc, HR1, !orb_true_iff, (taken_spec s x Hwf).
  assert (R0 f = true <-> naive = true /\ exists op, op ∈ ops /\ operand_address op = Some a) as ->; [|unfold entered_indirectly; tauto].
  unfold R0. rewrite andb_true_iff, existsb_exists. apply and_iff_compat_l. unfold refers. setoid_rewrite <- list_elem_of_In.
  split; intros (op & Hop & Hr); exists op; (split; [done|]).
  - apply bool_decide_eq_true in Hr. destruct (operand_address op) as [b|]; [|done]. cbn in Hr. f_equal.
    destruct (wf_functions _ Hwf a f Ha) as (y & Hy & <-), (wf_functions _ Hwf b f Hr) as (z & Hz & <-). congruence.
  - rewrite Hr. by apply bool_decide_eq_true_2.
Qed.

(** What simplification leaves is known to the policy. *)
Lemma patched_intra s s' H F : patched s s' H F -> tidy s -> intra_known s'.
Proof.
  intros P Ht e x Hx. destruct (pt_only _ _ _ _ P e x Hx) as [[y Hy]|[[p q] Hf]].
  - rewrite (pt_old _ _ _ _ P e y Hy) in Hx. injection Hx as <-. destruct (td_edges _ Ht e y Hy) as (_ & _ & Hi). by case_decide.
  - destruct (pt_new _ _ _ _ P e p q Hf) as (_ & i & Hn). rewrite Hn in Hx. injection Hx as <-. by eexists.
Qed.

Lemma no_lib_mark_set R s : no_lib s -> no_lib (mark_set R s).
Proof.
  intros Hn f x. rewrite lookup_mark_set. destruct (c_fns s !! f) as [y|] eqn:Hy; [|done]. cbn. intros [= <-]. by apply (Hn f y).
Qed.

(** The result, the graph and the sets of the policy. *)
Lemma preprocess_cfg_spec s icall_map_type policy_name bininfo p :
  tidy s -> at_free s -> c_start2bb s !! 0 = None -> c_functions s !! 0 = None ->
  policy_reads bin_cfi (getAddressTakenParser policy_name p) ->
  exists r at_ s' s1 s2,
    preprocess_cfg ops bin_cfi icall_map_type policy_name false bininfo p s = Some ((r, at_), s') /\ keeps_no_lib s s' /\ good s s' /\
    marked_exactly (bool_decide (icall_map_type = "naive"%string)) ops s s1 /\ good s1 s2 /\ callbacks_linked s1 s2 /\
    match (m ← parse_bininfo_file bininfo; Some (strtoul <$> m !! main_key)) with
    | None => r = -1
    | Some None => r = 0
    | Some (Some a) =>
        (r = 0 -> main_linked s2 a) /\ (c_functions s !! a = None -> r = -1) /\
        (is_Some (c_start2bb s !! a) -> is_Some (c_functions s !! a) -> r = 0)
    end /\
    (r = -1 \/ r = 0 /\
      ((forall e x, c_edges s2 !! e = Some x -> leaves x = true -> entered s2 (e_target x)) ->
       forall q tr, entered s2 q -> walk s2 q tr <-> walk s' q tr) /\
      exists sets, at_ = Some sets /\ policy_sets bin_cfi (getAddressTakenParser policy_name p) s' sets).
Proof.
  intros Ht Hat H0 F0 Hpol. pose proof (td_wf _ Ht) as Hwf.
  destruct (marking_spec s icall_map_type Hwf) as (s1 & Hrun1 & Hmark). pose proof Hmark as (R & HR & _).
  assert (tidy s1) as T1 by (rewrite HR; by apply tidy_mark_set). assert (good s s1) as G1 by (rewrite HR; by apply good_mark_set).
  destruct (add_dummy_spec s1 bininfo) as (ok & s2 & Hrun2 & G2 & Hcb & Hcase); [apply T1|by rewrite HR|by rewrite HR|].
  pose proof (wp_add_dummy_tidy s1 false bininfo T1) as T2. unfold wp in T2. rewrite Hrun2 in T2.
  assert (tidy s2) as Ht2 by (apply T2; by rewrite HR).
  assert (forall a, c_functions s1 !! a = c_functions s !! a) as Ef by (by rewrite HR).
  assert (forall a, c_start2bb s1 !! a = c_start2bb s !! a) as Eb by (by rewrite HR).
  assert (forall k : bool -> M (Z * option at_sets),
    ((if decide (icall_map_type = "naive"%string) then dyninst_analyze_address_taken ops else mret tt);;
     mark_at_functions;; (ok ← add_dummy_shlib_blocks false bininfo; k ok)) s = k ok s2) as Hpre.
  { intros k. unfold mbind, M_bind in *. 
    destruct ((if decide (icall_map_type = "naive"%string) then dyninst_analyze_address_taken ops else mret tt) s) as [[[] s0]|]; [|done].
    by rewrite Hrun1, Hrun2. }
  assert (keeps_no_lib s s2) as K2.
  { intros Hn. refine (framed_add_dummy keeps_no_lib _ _ _ _ _ Hrun2 _). rewrite HR. by apply no_lib_mark_set. }
  unfold preprocess_cfg. rewrite Hpre. destruct ok; cbn [negb].
  2: { exists (-1), None, s2, s1, s2. split_and!; [done|done|by eapply good_trans|done|done|done| |by left].
       destruct (parse_bininfo_file bininfo) as [m|]; [|done]. cbn in *. destruct (m !! main_key); [|done]. cbn in *.
       rewrite Ef, Eb in Hcase. destruct Hcase as (_ & ? & Hboth). split_and!; [done|done|]. intros ? ?. by discriminate Hboth. }
  destruct (simplify_cfg_spec s2) as (s3 & H & F & Hrun3 & P & Htr); [apply Ht2|apply Ht2|by apply tidy_plain|].
  destruct (reset_spec bin_cfi (getAddressTakenParser policy_name p) s3) as (sets & Hread & Hsets); [apply P|by eapply patched_intra|done|].
  exists 0, (Some sets), s3, s1, s2. split_and!; [|intros Hn; red; rewrite (pt_fns _ _ _ _ P); by apply K2|by eapply good_trans; [|eapply good_trans; [|apply P]]|done|done|done| |].
  - unfold mbind at 1, M_bind at 1. rewrite Hrun3. cbn [negb]. unfold mbind, M_bind. rewrite Hread. done.
  - destruct (parse_bininfo_file bininfo) as [m|]; [|done]. cbn in *. destruct (m !! main_key); [|done]. cbn in *.
    rewrite Ef, Eb in Hcase. destruct Hcase as (Hm & Hno & _). split_and!; [intros _; by apply Hm| |done]. intros Hn. by discriminate (Hno Hn).
  - right. split_and!; [done|done|]. by exists sets.
Qed.

End Preprocessed.

(** ** A concrete program *)

(** [simplify_example] with the line addr.func.main=0x1000; an instruction has the
    address of [g], 0x2000, as an operand. *)
Lemma simplify_example_tidy : tidy simplify_example.
Proof.
  split; [apply simplify_example_wf|apply simplify_example_stored|].
  unfold fresh_edge. apply (bool_decide_eq_true_1 _). vm_compute. reflexivity.
Qed.

