(* ===== verification/BinCfi.v ===== *)
(** The address-taken policy [bin-cfi]: the class AddressTakenParserBinCFI of
    dyninst-static/address_taken_parser.C.

    What Dyninst knows of the binary is the record [binary]: regions with their
    contents, functions, blocks and instructions.  The operands are expression
    trees, visited the way InstructionAPI visits them.  The parser keeps raw
    pointers found in the sections, call sites and taken addresses. *)

From S2P Require Import Prelude LbrState Cfg CfgInv AddressTaken Driver.

(** ** What Dyninst gives *)

(** InstructionAPI: an expression and the order in which a visitor sees its nodes. *)
Inductive Expression :=
| BinaryFunction (arg1 arg2 : Expression)
| Dereference (address : Expression)
| RegisterAST (id : Z)
| Immediate (value : immediate).

Record Visitor (S : Type) := {
  visit_BinaryFunction : S -> S;
  visit_Dereference : S -> S;
  visit_RegisterAST : Z -> S -> S;
  visit_Immediate : immediate -> S -> S
}.
Arguments visit_BinaryFunction {S}.
Arguments visit_Dereference {S}.
Arguments visit_RegisterAST {S}.
Arguments visit_Immediate {S}.

Fixpoint apply_visitor {S} (v : Visitor S) (e : Expression) (s : S) : S :=
  match e with
  | BinaryFunction a b => visit_BinaryFunction v (apply_visitor v b (apply_visitor v a s))
  | Dereference a => visit_Dereference v (apply_visitor v a s)
  | RegisterAST id => visit_RegisterAST v id s
  | Immediate i => visit_Immediate v i s
  end.

(** The number of the instruction pointer. *)
Definition irip : Z := Z.lor 0x10 0x18000000.

Inductive region_type := UNKNOWN | CODE | DATA.

#[global] Instance region_type_eq_dec : EqDecision region_type.
Proof. solve_decision. Defined.

Record Region := MkRegion { rg_base : Z; rg_size : Z; rg_type : region_type }.

(** [i_call] is whether the operation is [e_call]. *)
Record Instruction := MkInstruction { i_call : bool; i_operands : list Expression }.
Record BPatch_basicBlock := MkBlock { bk_start : Z; bk_end : Z; bk_instructions : list Instruction }.
Record BPatch_function := MkFunction { fc_start : Z; fc_blocks : list BPatch_basicBlock }.
Record relocationEntry := MkReloc { target_addr : Z; rel_addr : Z }.
Record BPatch_module := MkModule { md_name : string; md_fbt : list relocationEntry; md_procedures : list BPatch_function }.

(** [findFunction] gives the starts of the functions at an address.  The two reads
    give the contents of the buffer.  [distance n] is the difference of two pointers
    to 64-bit words that are [n] bytes apart; C leaves it open where 8 does not
    divide [n].  [uninitialised] is what the memory of a new parser holds for the
    base and the size of the data. *)
Record binary := Binary {
  objects : list (list Region);
  modules : list BPatch_module;
  findFunction : Z -> list Z;
  readTextSpace : Z -> Z -> list Z;
  readDataSpace : Z -> Z -> list Z;
  malloc_ok : Z -> bool;
  distance : Z -> Z;
  uninitialised : Z * Z
}.

(** ** The state of the parser *)

Inductive ref_type := ABS | OFFSET | BASE_OFFSET | REL_OFFSET | PLT_OFFSET | GOT_OFFSET.
Record ref_at := Ref { location : Z; ref_value : Z; ref_kind : ref_type }.

Record parser := Parser {
  textBase : Z; textSize : Z;
  dataBase : Z; dataSize : Z;
  raw_CK : list ref_at;
  raw_CC : list ref_at;
  plt : list relocationEntry;
  addressesTakenMaybe : gset Z;
  sets : at_sets
}.

(** The constructor leaves the base and the size of the data as they are in memory. *)
Definition new_parser (bin : binary) : parser := Parser 0 0 (uninitialised bin).1 (uninitialised bin).2 [] [] [] ∅ (AtSets ∅ ∅).

Definition set_text b n (st : parser) : parser :=
  Parser b n (dataBase st) (dataSize st) (raw_CK st) (raw_CC st) (plt st) (addressesTakenMaybe st) (sets st).
Definition set_data b n (st : parser) : parser :=
  Parser (textBase st) (textSize st) b n (raw_CK st) (raw_CC st) (plt st) (addressesTakenMaybe st) (sets st).
Definition set_CK l (st : parser) : parser :=
  Parser (textBase st) (textSize st) (dataBase st) (dataSize st) l (raw_CC st) (plt st) (addressesTakenMaybe st) (sets st).
Definition set_CC l (st : parser) : parser :=
  Parser (textBase st) (textSize st) (dataBase st) (dataSize st) (raw_CK st) l (plt st) (addressesTakenMaybe st) (sets st).
Definition set_plt l (st : parser) : parser :=
  Parser (textBase st) (textSize st) (dataBase st) (dataSize st) (raw_CK st) (raw_CC st) l (addressesTakenMaybe st) (sets st).
Definition set_maybe x (st : parser) : parser :=
  Parser (textBase st) (textSize st) (dataBase st) (dataSize st) (raw_CK st) (raw_CC st) (plt st) x (sets st).
Definition set_sets x (st : parser) : parser :=
  Parser (textBase st) (textSize st) (dataBase st) (dataSize st) (raw_CK st) (raw_CC st) (plt st) (addressesTakenMaybe st) x.
Definition insert_taken a (st : parser) : parser := set_sets (AtSets (callSites (sets st)) ({[a]} ∪ addressesTaken (sets st))) st.
Definition insert_call a (st : parser) : parser := set_sets (AtSets ({[a]} ∪ callSites (sets st)) (addressesTaken (sets st))) st.

(** Whether [a] is in [lo, lo + n), computed in 64 bits. *)
Definition within (lo n a : Z) : bool := (lo <=? a) && (a <? u64 (lo + n)).

(** A loop that may fail an assertion. *)
Fixpoint each_or_abort {A} (body : A -> parser -> option parser) (l : list A) (st : parser) : option parser :=
  match l with
  | [] => Some st
  | x :: l => st ← body x st; each_or_abort body l st
  end.

(** ** Operands *)

(** OperandAnalyzerIsIndirect; the state is [_isIndirect] and [_isPIC]. *)
Definition OperandAnalyzerIsIndirect : Visitor (bool * bool) := {|
  visit_BinaryFunction s := s;
  visit_Dereference s := (true, s.2);
  visit_RegisterAST id s := let pic := s.2 || bool_decide (id = irip) in (negb pic, pic);
  visit_Immediate _ s := s
|}.

(** OperandAnalyzerIsPossibleAT. *)
Record possible := Possible { p_CK : Z; p_CC : Z; accumulator : Z; nbImmediates : Z }.

(** ~0LLU. *)
Definition nothing : Z := 2 ^ 64 - 1.

Section Operands.
Context (textBase textSize dataBase dataSize start : Z).

Definition isPossibleValues (base : Z) (s : possible) : possible :=
  let a := u64 (accumulator s + base) in
  let CK := p_CK s in
  let CK := if decide (nbImmediates s = 1) then
      (let CK := if within textBase textSize a then accumulator s else CK in
       if within dataBase dataSize a then accumulator s else CK)
    else CK in
  let CK := if decide (1 < nbImmediates s) then nothing else CK in
  Possible CK (accumulator s) (accumulator s) (nbImmediates s).

Definition OperandAnalyzerIsPossibleAT : Visitor possible := {|
  visit_BinaryFunction s := s;
  visit_Dereference s := s;
  visit_RegisterAST id s := if decide (id = irip) then isPossibleValues start s else s;
  visit_Immediate i s :=
    match operand_address i with
    | None => s
    | Some addr => isPossibleValues 0 (Possible (p_CK s) (p_CC s) (u64 (accumulator s + addr)) (nbImmediates s + 1))
    end
|}.

(** The loop over the operands: [isIndirect], [isPIC], CK and CC. *)
Fixpoint analyze_operands (ops : list Expression) (isIndirect isPIC : bool) (CK CC : Z) : bool * bool * Z * Z :=
  match ops with
  | [] => (isIndirect, isPIC, CK, CC)
  | expr :: ops =>
      if isIndirect then (isIndirect, isPIC, CK, CC) else
      let '(isIndirect, isPIC) := apply_visitor OperandAnalyzerIsIndirect expr (isIndirect, isPIC) in
      let s := apply_visitor OperandAnalyzerIsPossibleAT expr (Possible CK CC 0 0) in
      analyze_operands ops isIndirect isPIC (p_CK s) (p_CC s)
  end.
End Operands.

(** ** Instructions, blocks and functions *)

(** The loop over [_raw_CK]: what stays, and the parser that had the values inserted. *)
Fixpoint erase_CK (loc : Z) (l : list ref_at) (st : parser) : list ref_at * parser :=
  match l with
  | [] => ([], st)
  | r :: l =>
      if decide (location r = loc) then erase_CK loc l (insert_taken (ref_value r) st)
      else let '(l', st) := erase_CK loc l st in (r :: l', st)
  end.

(** [value] points to 64-bit words. *)
Definition validateRawCK (value base : Z) (st : parser) : bool * parser :=
  let '(l, st) := erase_CK (u64 (value + 8 * base)) (raw_CK st) st in (false, set_CK l st).

Definition validateRawCC (value base rip : Z) : bool := false.

Definition parseInstruction (start end_ : Z) (st : parser) (i : Instruction) : parser :=
  let '(isIndirect, isPIC, CK, CC) :=
    analyze_operands (textBase st) (textSize st) (dataBase st) (dataSize st) start (i_operands i) false false nothing nothing in
  let st :=
    if negb (bool_decide (CK = nothing)) && negb (bool_decide (raw_CK st = [])) then
      let '(targetFound, st) := validateRawCK CK start st in
      let '(targetFound, st) := if targetFound then (true, st) else validateRawCK CK (textBase st) st in
      let '(targetFound, st) := if targetFound then (true, st) else validateRawCK CK (dataBase st) st in
      let targetFound := targetFound || validateRawCC CK 0 start in
      st
    else st in
  if i_call i then
    if negb isIndirect && negb isPIC then st else
    if isPIC then st else
    insert_call end_ st
  else st.

Definition parseBlock (st : parser) (b : BPatch_basicBlock) : parser :=
  foldl (parseInstruction (bk_start b) (bk_end b)) st (bk_instructions b).

Definition parseProcedure (st : parser) (f : BPatch_function) : parser :=
  let st := set_maybe ({[fc_start f]} ∪ addressesTakenMaybe st) st in
  foldl parseBlock st (fc_blocks f).

Definition parseModule (st : parser) (m : BPatch_module) : parser := foldl parseProcedure st (md_procedures m).

Definition getPLT (m : BPatch_module) (st : parser) : parser := set_plt (md_fbt m) st.

(** ** Sections *)

Section Image.
Context (bin : binary).

Definition isFunctionStart (v : Z) : bool := existsb (fun start => bool_decide (start = v)) (findFunction bin v).

(** The word at [buf + p], in the buffer of the region at [base]. *)
Definition parse_word (base : Z) (buf : list Z) (st : parser) (p : nat) : parser :=
  let val := le_word (take 8 (drop p buf)) in
  let pos := u64 (base + 8 * distance bin (Z.of_nat p)) in
  let st := if within (textBase st) (textSize st) val && isFunctionStart val then set_CK (Ref pos val ABS :: raw_CK st) st else st in
  if val <? textSize st then set_CC (Ref pos val OFFSET :: raw_CC st) st else st.

Definition parseRaw (base size : Z) (type : region_type) (st : parser) : option parser :=
  if decide (textBase st = 0) then None else
  if decide (textSize st = 0) then None else
  if negb (malloc_ok bin size) then None else
  let buf := if decide (type = CODE) then readTextSpace bin base size else readDataSpace bin base size in
  Some (foldl (parse_word base buf) st (seq 0 (Z.to_nat (size - 8)))).

Definition findCKs (objs : list (list Region)) (st : parser) : option parser :=
  each_or_abort (fun regions => each_or_abort (fun r st =>
    match rg_type r with
    | CODE | DATA => parseRaw (rg_base r) (rg_size r) (rg_type r) st
    | UNKNOWN => Some st
    end) regions) objs st.

Definition setTextInfo (objs : list (list Region)) (st : parser) : parser :=
  foldl (fun st regions => foldl (fun st r =>
    match rg_type r with
    | CODE => set_text (rg_base r) (rg_size r) st
    | DATA => set_data (rg_base r) (rg_size r) st
    | UNKNOWN => st
    end) st regions) st objs.

Definition skipped_module (modname : string) : bool :=
  bool_decide (modname = "libwrappers.so"%string) || bool_decide (modname = "libdyninstAPI_RT.so.8.2"%string) ||
  bool_decide (modname = "libdl.so.2"%string).

Definition parse_module_of (st : parser) (m : BPatch_module) : parser :=
  if skipped_module (md_name m) then st else parseModule (getPLT m st) m.

Definition parseImage (st : parser) : option parser :=
  let st := setTextInfo (objects bin) st in
  st ← findCKs (objects bin) st;
  Some (foldl parse_module_of st (modules bin)).

Definition bin_cfi_reset (st : parser) : option parser :=
  let st := set_maybe ∅ (set_plt [] (set_CK [] (set_CC [] (set_sets (AtSets ∅ ∅) st)))) in
  st ← parseImage st;
  Some (set_sets (AtSets (callSites (sets st)) (addressesTakenMaybe st)) st).

(** The policy as [preprocess_cfg] uses it: a new parser, set once. *)
Definition bin_cfi_policy : M at_sets := fun s => st ← bin_cfi_reset (new_parser bin); Some (sets st, s).
End Image.

(** ** Operands, classified *)

(** Whether the expression uses the instruction pointer; whether it uses neither a
    register nor memory. *)
Fixpoint mentions_rip (e : Expression) : bool :=
  match e with
  | BinaryFunction a b => mentions_rip a || mentions_rip b
  | Dereference a => mentions_rip a
  | RegisterAST id => bool_decide (id = irip)
  | Immediate _ => false
  end.

Fixpoint constant (e : Expression) : bool :=
  match e with
  | BinaryFunction a b => constant a && constant b
  | Immediate _ => true
  | _ => false
  end.

(** The first operand that is not constant is not relative to the instruction pointer. *)
Definition through_pointer (ops : list Expression) : Prop :=
  exists pre o post, ops = pre ++ o :: post /\ Forall (fun e => constant e = true) pre /\ constant o = false /\ mentions_rip o = false.

Lemma constant_no_rip e : constant e = true -> mentions_rip e = false.
Proof. induction e; cbn; rewrite ?andb_true_iff; try done. intros [? ?]. by rewrite IHe1, IHe2. Qed.

Lemma is_indirect_pic e s : (apply_visitor OperandAnalyzerIsIndirect e s).2 = s.2 || mentions_rip e.
Proof.
  revert s. induction e as [a IHa b IHb|a IHa|id|i]; intros s; cbn; [by rewrite IHb, IHa, orb_assoc|by rewrite IHa|done|by rewrite orb_false_r].
Qed.

Lemma is_indirect_not_pic e ind : mentions_rip e = false ->
  apply_visitor OperandAnalyzerIsIndirect e (ind, false) = (ind || negb (constant e), false).
Proof.
  revert ind. induction e as [a IHa b IHb|a IHa|id|i]; intros ind; cbn.
  - intros [Ha Hb]%orb_false_iff. rewrite IHa, IHb by done. by rewrite negb_andb, orb_assoc.
  - intros Ha. rewrite IHa by done. cbn. by rewrite orb_true_r.
  - intros ->. by rewrite orb_true_r.
  - by rewrite orb_false_r.
Qed.

Section Info.
Context (tb ts db ds : Z).

Definition classified (start : Z) (i : Instruction) : bool * bool * Z * Z :=
  analyze_operands tb ts db ds start (i_operands i) false false nothing nothing.

(** The constant an instruction may point with; [nothing] for none. *)
Definition pointed (start : Z) (i : Instruction) : Z := (classified start i).1.2.

Lemma analyze_pic start ops ind CK CC : (analyze_operands tb ts db ds start ops ind true CK CC).1.1.2 = true.
Proof.
  revert ind CK CC. induction ops as [|e ops IH]; intros ind CK CC; cbn; [done|]. destruct ind; [done|].
  pose proof (is_indirect_pic e (false, true)) as Hp. destruct (apply_visitor _ e (false, true)) as [i p]. cbn in Hp. subst p. apply IH.
Qed.

Lemma analyze_indirect start ops pic CK CC :
  analyze_operands tb ts db ds start ops true pic CK CC = (true, pic, CK, CC).
Proof. by destruct ops. Qed.

(** What the loop over the operands decides of a call. *)
Lemma analyze_call start ops CK CC :
  (let '(ind, pic, _, _) := analyze_operands tb ts db ds start ops false false CK CC in ind = true /\ pic = false) <-> through_pointer ops.
Proof.
  revert CK CC. induction ops as [|e ops IH]; intros CK CC; cbn [analyze_operands].
  { split; [naive_solver|]. by intros (pre & o & post & ?%symmetry%app_nil & _); naive_solver. }
  pose proof (is_indirect_pic e (false, false)) as Hp. destruct (mentions_rip e) eqn:Hr.
  - destruct (apply_visitor _ e (false, false)) as [i p]. cbn in Hp. subst p.
    set (s := apply_visitor _ e (Possible CK CC 0 0)). pose proof (analyze_pic start ops i (p_CK s) (p_CC s)) as Hpic.
    destruct (analyze_operands _ _ _ _ _ ops i true _ _) as [[[i' p'] CK'] CC']. cbn in Hpic. subst p'.
    split; [naive_solver|]. intros (pre & o & post & Heq & Hpre & Ho & Hm). exfalso. destruct pre as [|x pre]; injection Heq as <- ->; [congruence|].
    apply Forall_cons in Hpre as [Hx%constant_no_rip _]. congruence.
  - rewrite is_indirect_not_pic by done. destruct (constant e) eqn:Hc; cbn [negb orb].
    + etrans; [apply IH|]. split; intros (pre & o & post & Heq & Hpre & Ho).
      * exists (e :: pre), o, post. rewrite Heq. split; [done|]. split; [by constructor|done].
      * destruct pre as [|x pre]; injection Heq as <- ->; [destruct Ho; congruence|]. apply Forall_cons in Hpre as [_ Hpre]. by exists pre, o, post.
    + rewrite analyze_indirect. split; [intros _|done]. by exists [], e, ops.
Qed.

(** The words an instruction at [start] reads a pointer from. *)
Definition points_to (start : Z) (i : Instruction) (loc : Z) : bool :=
  negb (bool_decide (pointed start i = nothing)) &&
  (bool_decide (loc = u64 (pointed start i + 8 * start)) || bool_decide (loc = u64 (pointed start i + 8 * tb)) ||
   bool_decide (loc = u64 (pointed start i + 8 * db))).

(** ** The effect of the scan of the code *)

Definition info_is (st : parser) : Prop := textBase st = tb /\ textSize st = ts /\ dataBase st = db /\ dataSize st = ds.

(** Call sites in [C] are inserted, functions in [F] may be taken, and the raw
    pointers at [L] move to the taken addresses. *)
Record effect (C F : Z -> Prop) (L : Z -> bool) (st st' : parser) : Prop := {
  ef_info : info_is st';
  ef_CC : raw_CC st' = raw_CC st;
  ef_calls : forall a, a ∈ callSites (sets st') <-> a ∈ callSites (sets st) \/ C a;
  ef_maybe : forall a, a ∈ addressesTakenMaybe st' <-> a ∈ addressesTakenMaybe st \/ F a;
  ef_CK : forall r, r ∈ raw_CK st' <-> r ∈ raw_CK st /\ L (location r) = false;
  ef_taken : forall a, a ∈ addressesTaken (sets st') <->
    a ∈ addressesTaken (sets st) \/ exists r, r ∈ raw_CK st /\ L (location r) = true /\ ref_value r = a
}.

Lemma effect_none st : info_is st -> effect (fun _ => False) (fun _ => False) (fun _ => false) st st.
Proof. split; naive_solver. Qed.

Lemma effect_trans C C' F F' L L' st st1 st2 : effect C F L st st1 -> effect C' F' L' st1 st2 ->
  effect (fun a => C a \/ C' a) (fun a => F a \/ F' a) (fun l => L l || L' l) st st2.
Proof.
  intros [i1 c1 C1 M1 K1 T1] [i2 c2 C2 M2 K2 T2]. split; [done|congruence| | | |].
  - intros a. rewrite C2, C1. tauto.
  - intros a. rewrite M2, M1. tauto.
  - intros r. rewrite K2, K1, orb_false_iff. tauto.
  - intros a. rewrite T2, T1. setoid_rewrite K1. setoid_rewrite orb_true_iff. split; [naive_solver|].
    intros [?|(r & Hr & Hl & Hv)]; [auto|]. destruct (L (location r)) eqn:HL; [left; right|right]; exists r; naive_solver.
Qed.

Lemma effect_ext C C' F F' L L' st st' : (forall a, C a <-> C' a) -> (forall a, F a <-> F' a) -> (forall l, L l = L' l) ->
  effect C F L st st' -> effect C' F' L' st st'.
Proof.
  intros HC HF HL [i c E1 E2 E3 E4]. split; [done|done|..].
  - intros a. by rewrite E1, HC.
  - intros a. by rewrite E2, HF.
  - intros r. by rewrite E3, HL.
  - intros a. rewrite E4. by setoid_rewrite HL.
Qed.

Lemma effect_foldl {A} (body : parser -> A -> parser) (C F : A -> Z -> Prop) (L : A -> Z -> bool) l st :
  (forall x st, info_is st -> effect (C x) (F x) (L x) st (body st x)) -> info_is st ->
  effect (fun a => exists x, x ∈ l /\ C x a) (fun a => exists x, x ∈ l /\ F x a) (fun a => existsb (fun x => L x a) l) st (foldl body st l).
Proof.
  intros Hb. revert st. induction l as [|x l IH]; intros st Hi; cbn [foldl existsb].
  - eapply effect_ext; [..|by apply effect_none]; [..|done]; intros a; (split; [done|by intros (x & ?%not_elem_of_nil & _)]).
  - pose proof (Hb x st Hi) as H1. eapply effect_ext; [..|eapply effect_trans; [exact H1|apply IH, H1]]; [..|done];
      intros a; setoid_rewrite elem_of_cons; naive_solver.
Qed.

Lemma erase_CK_spec loc l st : exists l' X, erase_CK loc l st = (l', set_sets (AtSets (callSites (sets st)) (X ∪ addressesTaken (sets st))) st) /\
  (forall r, r ∈ l' <-> r ∈ l /\ location r <> loc) /\ forall a, a ∈ X <-> exists r, r ∈ l /\ location r = loc /\ ref_value r = a.
Proof.
  revert st. induction l as [|r l IH]; intros st; cbn [erase_CK].
  { exists [], ∅. rewrite (left_id_L ∅ (∪)). split_and!; [by destruct st as [? ? ? ? ? ? ? ? []]|set_solver|set_solver]. }
  case_decide as Hl.
  - destruct (IH (insert_taken (ref_value r) st)) as (l' & X & -> & Hl' & HX). exists l', ({[ref_value r]} ∪ X). split_and!.
    + replace ({[ref_value r]} ∪ X ∪ addressesTaken (sets st)) with (X ∪ ({[ref_value r]} ∪ addressesTaken (sets st))) by set_solver. done.
    + intros q. rewrite Hl', elem_of_cons. naive_solver.
    + intros a. rewrite elem_of_union, elem_of_singleton, HX. setoid_rewrite elem_of_cons. naive_solver.
  - destruct (IH st) as (l' & X & -> & Hl' & HX). exists (r :: l'), X. split_and!; [done| |].
    + intros q. rewrite !elem_of_cons, Hl'. naive_solver.
    + intros a. rewrite HX. setoid_rewrite elem_of_cons. naive_solver.
Qed.

(** It never says that it found anything. *)
Lemma validateRawCK_effect value base st : info_is st -> exists st', validateRawCK value base st = (false, st') /\
  effect (fun _ => False) (fun _ => False) (fun l => bool_decide (l = u64 (value + 8 * base))) st st'.
Proof.
  intros Hi. unfold validateRawCK. destruct (erase_CK_spec (u64 (value + 8 * base)) (raw_CK st) st) as (l & X & -> & Hl & HX).
  eexists. split; [reflexivity|]. split; cbn; [done|done|tauto|tauto| |].
  - intros r. by rewrite Hl, bool_decide_eq_false.
  - intros a. rewrite elem_of_union, HX. setoid_rewrite bool_decide_eq_true. tauto.
Qed.

(** No raw pointer is left: nothing can move. *)
Lemma effect_no_CK st L : info_is st -> raw_CK st = [] -> effect (fun _ => False) (fun _ => False) L st st.
Proof. intros Hi Hn. split; [done|done|tauto|tauto|..]; rewrite Hn; set_solver. Qed.

Definition calls_pointer (i : Instruction) : Prop := i_call i = true /\ through_pointer (i_operands i).

Lemma parseInstruction_effect start end_ st i : info_is st ->
  effect (fun a => a = end_ /\ calls_pointer i) (fun _ => False) (points_to start i) st (parseInstruction start end_ st i).
Proof.
  intros Hi. unfold parseInstruction. destruct Hi as (Ht & Hts & Hd & Hds) eqn:Hinfo. clear Hinfo. rewrite Ht, Hts, Hd, Hds.
  pose proof (analyze_call start (i_operands i) nothing nothing) as Hcall. fold (classified start i) in *.
  assert (pointed start i = (classified start i).1.2) as Hck by done. destruct (classified start i) as [[[ind pic] CK] CC]. cbn in Hck.
  set (st1 := if negb (bool_decide (CK = nothing)) && _ then _ else st).
  assert (effect (fun _ => False) (fun _ => False) (points_to start i) st st1) as H1.
  { unfold st1, points_to. rewrite Hck. destruct (bool_decide_reflect (CK = nothing)); cbn [negb andb]; [by apply effect_none|].
    destruct (bool_decide_reflect (raw_CK st = [])); cbn [negb]; [by apply effect_no_CK|].
    destruct (validateRawCK_effect CK start st) as (s1 & -> & E1); [done|]. rewrite (proj1 (ef_info _ _ _ _ _ E1)).
    destruct (validateRawCK_effect CK tb s1) as (s2 & -> & E2); [apply E1|]. destruct (ef_info _ _ _ _ _ E2) as (_ & _ & -> & _).
    destruct (validateRawCK_effect CK db s2) as (s3 & -> & E3); [apply E2|].
    eapply effect_ext; [..|eapply effect_trans; [eapply effect_trans; [exact E1|exact E2]|exact E3]]; [naive_solver|naive_solver|done]. }
  clearbody st1. unfold calls_pointer. destruct (i_call i); [|eapply effect_ext; [..|exact H1]; naive_solver].
  destruct ind, pic; cbn [negb andb]; try (eapply effect_ext; [..|exact H1]; naive_solver).
  destruct H1 as [j c E1 E2 E3 E4]. split; cbn; [done|done| |done|done|done].
  intros a. rewrite elem_of_union, elem_of_singleton, E1. naive_solver.
Qed.

(** The instructions of a function, with the start and the end of their blocks. *)
Definition code_of_block (b : BPatch_basicBlock) : list (Z * Z * Instruction) := (fun i => (bk_start b, bk_end b, i)) <$> bk_instructions b.
Definition code_of (f : BPatch_function) : list (Z * Z * Instruction) := fc_blocks f ≫= code_of_block.

Definition call_in (code : list (Z * Z * Instruction)) (a : Z) : Prop := exists start i, (start, a, i) ∈ code /\ calls_pointer i.
Definition pointed_in (code : list (Z * Z * Instruction)) (loc : Z) : bool := existsb (fun x => points_to x.1.1 x.2 loc) code.

Lemma call_in_bind {A} (g : A -> list (Z * Z * Instruction)) l a : call_in (l ≫= g) a <-> exists x, x ∈ l /\ call_in (g x) a.
Proof. unfold call_in. setoid_rewrite list_elem_of_bind. naive_solver. Qed.

Lemma pointed_in_bind {A} (g : A -> list (Z * Z * Instruction)) l loc :
  pointed_in (l ≫= g) loc = existsb (fun x => pointed_in (g x) loc) l.
Proof.
  unfold pointed_in. induction l as [|x l IH]; [done|]. change ((x :: l) ≫= g) with (g x ++ (l ≫= g)). rewrite existsb_app, IH. done.
Qed.

Lemma parseBlock_effect st b : info_is st ->
  effect (call_in (code_of_block b)) (fun _ => False) (pointed_in (code_of_block b)) st (parseBlock st b).
Proof.
  intros Hi. unfold parseBlock. eapply effect_ext; [..|apply effect_foldl; [intros x s Hs; by apply parseInstruction_effect|done]].
  - intros a. unfold call_in, code_of_block. setoid_rewrite list_elem_of_fmap. naive_solver.
  - naive_solver.
  - intros l. unfold pointed_in, code_of_block. induction (bk_instructions b) as [|x q IH]; [done|]. cbn. by rewrite IH.
Qed.

Lemma parseProcedure_effect st f : info_is st ->
  effect (call_in (code_of f)) (fun a => a = fc_start f) (pointed_in (code_of f)) st (parseProcedure st f).
Proof.
  intros Hi. unfold parseProcedure. set (st1 := set_maybe _ st).
  assert (effect (fun _ => False) (fun a => a = fc_start f) (fun _ => false) st st1) as H1 by (split; cbn; [done|done|..]; set_solver).
  eapply effect_ext; [..|eapply effect_trans; [exact H1|apply effect_foldl; [intros x s Hs; by apply parseBlock_effect|done]]].
  - intros a. unfold code_of. rewrite call_in_bind. tauto.
  - naive_solver.
  - intros l. unfold code_of. by rewrite pointed_in_bind.
Qed.

(** The functions of the modules that are not skipped. *)
Definition procedures (ms : list BPatch_module) : list BPatch_function :=
  filter (fun m => skipped_module (md_name m) = false) ms ≫= md_procedures.

Lemma parse_modules_effect ms st : info_is st ->
  effect (call_in (procedures ms ≫= code_of)) (fun a => exists f, f ∈ procedures ms /\ a = fc_start f)
    (pointed_in (procedures ms ≫= code_of)) st (foldl parse_module_of st ms).
Proof.
  revert st. induction ms as [|m ms IH]; intros st Hi; cbn [foldl].
  { eapply effect_ext; [..|by apply effect_none]; [..|done]; intros a; unfold call_in; cbn; set_solver. }
  unfold procedures. unfold parse_module_of at 2. rewrite filter_cons. case_decide as Hs.
  2: { apply not_false_is_true in Hs. rewrite Hs. by apply IH. }
  rewrite Hs. assert (effect (fun a => exists f, f ∈ md_procedures m /\ call_in (code_of f) a) (fun a => exists f, f ∈ md_procedures m /\ a = fc_start f)
    (fun l => existsb (fun f => pointed_in (code_of f) l) (md_procedures m)) st (parseModule (getPLT m st) m)) as H1.
  { unfold parseModule. destruct (effect_foldl parseProcedure (fun f => call_in (code_of f)) (fun f a => a = fc_start f)
      (fun f => pointed_in (code_of f)) (md_procedures m) (getPLT m st)) as [? ? ? ? ? ?]; [intros; by apply parseProcedure_effect|done|].
    by split. }
  eapply effect_ext; [..|eapply effect_trans; [exact H1|apply IH, H1]].
  - intros a. change ((m :: ?l) ≫= ?g) with (g m ++ (l ≫= g)). rewrite !call_in_bind. fold (procedures ms). setoid_rewrite elem_of_app. naive_solver.
  - intros a. fold (procedures ms). cbn. setoid_rewrite elem_of_app. naive_solver.
  - intros l. rewrite !pointed_in_bind. fold (procedures ms). cbn. by rewrite existsb_app.
Qed.
End Info.

(** ** The scan of the sections *)

Section Scan.
Context (bin : binary).

(** The regions that are searched. *)
Definition searched (objs : list (list Region)) : list Region := filter (fun r => rg_type r <> UNKNOWN) (concat objs).

(** The last region of type [t], or what was there before. *)
Definition last_region (t : region_type) (before : Z * Z) (objs : list (list Region)) : Z * Z :=
  from_option (fun r => (rg_base r, rg_size r)) before (last (filter (fun r => rg_type r = t) (concat objs))).

Lemma each_or_abort_app {A} (body : A -> parser -> option parser) l l' st :
  each_or_abort body (l ++ l') st = (st ← each_or_abort body l st; each_or_abort body l' st).
Proof. revert st. induction l as [|x l IH]; intros st; [done|]. cbn. destruct (body x st); [apply IH|done]. Qed.

Lemma findCKs_searched objs st :
  findCKs bin objs st = each_or_abort (fun r => parseRaw bin (rg_base r) (rg_size r) (rg_type r)) (searched objs) st.
Proof.
  unfold findCKs, searched. revert st. induction objs as [|rs objs IH]; intros st; [done|]. cbn [concat each_or_abort].
  rewrite filter_app, each_or_abort_app. assert (forall st, each_or_abort (fun r st => match rg_type r with
    | CODE | DATA => parseRaw bin (rg_base r) (rg_size r) (rg_type r) st | UNKNOWN => Some st end) rs st =
    each_or_abort (fun r => parseRaw bin (rg_base r) (rg_size r) (rg_type r)) (filter (fun r => rg_type r <> UNKNOWN) rs) st) as ->.
  { clear. induction rs as [|r rs IH]; intros st; [done|]. cbn [each_or_abort]. rewrite filter_cons.
    destruct (rg_type r) eqn:Ht; case_decide; try done; cbn [each_or_abort]; rewrite ?Ht; [apply IH|..];
      (destruct (parseRaw _ _ _ _ _); [apply IH|done]). }
  destruct (each_or_abort _ _ st); [apply IH|done].
Qed.

Lemma last_filter_snoc (t : region_type) l r : last (filter (fun r => rg_type r = t) (l ++ [r])) =
  if decide (rg_type r = t) then Some r else last (filter (fun r => rg_type r = t) l).
Proof. rewrite filter_app, filter_cons. case_decide; [rewrite filter_nil; by rewrite last_snoc|rewrite filter_nil; by rewrite app_nil_r]. Qed.

Lemma setTextInfo_last objs st :
  let text := last_region CODE (textBase st, textSize st) objs in
  let data := last_region DATA (dataBase st, dataSize st) objs in
  setTextInfo objs st = set_text text.1 text.2 (set_data data.1 data.2 st).
Proof.
  cbn zeta. unfold setTextInfo, last_region. set (set_info st r := match rg_type r with CODE => _ | DATA => _ | UNKNOWN => _ end).
  assert (foldl (fun st regions => foldl set_info st regions) st objs = foldl set_info st (concat objs)) as ->.
  { revert st. induction objs as [|rs objs IH]; intros st; [done|]. cbn. by rewrite foldl_app, IH. }
  induction (concat objs) as [|r l IH] using rev_ind; [by destruct st|]. rewrite foldl_app, !last_filter_snoc, IH. cbn [foldl].
  unfold set_info at 1. destruct (rg_type r); cbn; repeat case_decide; done.
Qed.

(** A raw pointer at the word [p] of the region: to a function, inside the text. *)
Definition region_buffer (r : Region) : list Z :=
  if decide (rg_type r = CODE) then readTextSpace bin (rg_base r) (rg_size r) else readDataSpace bin (rg_base r) (rg_size r).
Definition region_word (r : Region) (p : nat) : Z := le_word (take 8 (drop p (region_buffer r))).
Definition region_location (r : Region) (p : nat) : Z := u64 (rg_base r + 8 * distance bin (Z.of_nat p)).

Section Text.
Context (tb ts : Z).

Definition pointer_at (r : Region) (p : nat) (x : ref_at) : Prop :=
  x = Ref (region_location r p) (region_word r p) ABS /\ within tb ts (region_word r p) = true /\ isFunctionStart bin (region_word r p) = true.
Definition offset_at (r : Region) (p : nat) (x : ref_at) : Prop := x = Ref (region_location r p) (region_word r p) OFFSET /\ region_word r p < ts.

(** Over the offsets [l] of a region, and over whole regions. *)
Definition in_region (at_ : Region -> nat -> ref_at -> Prop) (r : Region) (x : ref_at) : Prop :=
  exists p, Z.of_nat p < rg_size r - 8 /\ at_ r p x.
Definition in_regions (at_ : Region -> nat -> ref_at -> Prop) (rs : list Region) (x : ref_at) : Prop := exists r, r ∈ rs /\ in_region at_ r x.

(** Only the raw lists grow, by [K] and [C]. *)
Definition scanned (K C : ref_at -> Prop) (st st' : parser) : Prop := exists k c, st' = set_CK k (set_CC c st) /\
  (forall x, x ∈ k <-> x ∈ raw_CK st \/ K x) /\ (forall x, x ∈ c <-> x ∈ raw_CC st \/ C x).

Lemma scanned_none st : scanned (fun _ => False) (fun _ => False) st st.
Proof. exists (raw_CK st), (raw_CC st). split_and!; [by destruct st|tauto|tauto]. Qed.

Lemma scanned_trans K K' C C' st st1 st2 : scanned K C st st1 -> scanned K' C' st1 st2 ->
  scanned (fun x => K x \/ K' x) (fun x => C x \/ C' x) st st2.
Proof.
  intros (k & c & -> & Hk & Hc) (k' & c' & -> & Hk' & Hc'). exists k', c'. split_and!; [done|..]; intros x; rewrite ?Hk', ?Hc'; cbn; rewrite ?Hk, ?Hc; tauto.
Qed.

Lemma scanned_ext K K' C C' st st' : (forall x, K x <-> K' x) -> (forall x, C x <-> C' x) -> scanned K C st st' -> scanned K' C' st st'.
Proof. intros HK HC (k & c & -> & Hk & Hc). exists k, c. split_and!; [done|..]; intros x; by rewrite ?Hk, ?Hc, ?HK, ?HC. Qed.

Lemma scanned_text K C st st' : scanned K C st st' -> textBase st' = textBase st /\ textSize st' = textSize st.
Proof. by intros (k & c & -> & _). Qed.

Lemma parse_word_scanned r st p : textBase st = tb -> textSize st = ts ->
  scanned (pointer_at r p) (offset_at r p) st (parse_word bin (rg_base r) (region_buffer r) st p).
Proof.
  intros Hb Hs. unfold parse_word, pointer_at, offset_at. fold (region_word r p) (region_location r p). rewrite Hb, Hs.
  assert (forall l, textSize (set_CK l st) = ts) as Hs' by done.
  destruct (within tb ts _ && isFunctionStart _ _) eqn:Hk; rewrite ?Hs', ?Hs; destruct (Z.ltb_spec (region_word r p) ts) as [Hc|Hc];
    (rewrite andb_true_iff in Hk || rewrite andb_false_iff in Hk).
  - exists (Ref (region_location r p) (region_word r p) ABS :: raw_CK st), (Ref (region_location r p) (region_word r p) OFFSET :: raw_CC st).
    split_and!; [done|..]; intros x; rewrite elem_of_cons; naive_solver.
  - exists (Ref (region_location r p) (region_word r p) ABS :: raw_CK st), (raw_CC st).
    split_and!; [by destruct st|..]; intros x; rewrite ?elem_of_cons; [naive_solver|]. split; [tauto|]. intros [?|[_ ?]]; [done|lia].
  - exists (raw_CK st), (Ref (region_location r p) (region_word r p) OFFSET :: raw_CC st).
    split_and!; [by destruct st|..]; intros x; rewrite ?elem_of_cons; [|naive_solver]. split; [tauto|]. intros [?|(_ & ? & ?)]; [done|].
    destruct Hk; congruence.
  - exists (raw_CK st), (raw_CC st). split_and!; [by destruct st|..]; intros x; (split; [tauto|]); [intros [?|(_ & ? & ?)]|intros [?|[_ ?]]];
      [done|destruct Hk; congruence|done|lia].
Qed.

Lemma parse_words_scanned r l st : textBase st = tb -> textSize st = ts ->
  scanned (fun x => exists p, p ∈ l /\ pointer_at r p x) (fun x => exists p, p ∈ l /\ offset_at r p x) st
    (foldl (parse_word bin (rg_base r) (region_buffer r)) st l).
Proof.
  revert st. induction l as [|p l IH]; intros st Hb Hs; cbn [foldl].
  { eapply scanned_ext; [..|apply scanned_none]; set_solver. }
  pose proof (parse_word_scanned r st p Hb Hs) as H1. destruct (scanned_text _ _ _ _ H1) as [Hb1 Hs1].
  eapply scanned_ext; [..|eapply scanned_trans; [exact H1|apply IH; congruence]]; intros x; setoid_rewrite elem_of_cons; naive_solver.
Qed.

(** What keeps [parseRaw] from failing an assertion. *)
Definition readable (r : Region) : Prop := tb <> 0 /\ ts <> 0 /\ malloc_ok bin (rg_size r) = true.

#[global] Instance readable_dec r : Decision (readable r).
Proof. unfold readable. apply _. Defined.

Lemma parseRaw_spec r st : textBase st = tb -> textSize st = ts ->
  match parseRaw bin (rg_base r) (rg_size r) (rg_type r) st with
  | None => ~ readable r
  | Some st' => readable r /\ scanned (in_region pointer_at r) (in_region offset_at r) st st'
  end.
Proof.
  intros Hb Hs. unfold parseRaw, readable. rewrite Hb, Hs. case_decide; [naive_solver|]. case_decide; [naive_solver|].
  destruct (malloc_ok bin (rg_size r)) eqn:Hm; cbn [negb]; [|naive_solver]. split; [done|]. fold (region_buffer r).
  eapply scanned_ext; [..|by apply parse_words_scanned]; intros x; unfold in_region; setoid_rewrite elem_of_seq;
    (split; intros (p & ? & ?); exists p; (split; [lia|done])).
Qed.

Lemma parse_regions_spec rs st : textBase st = tb -> textSize st = ts ->
  match each_or_abort (fun r => parseRaw bin (rg_base r) (rg_size r) (rg_type r)) rs st with
  | None => ~ Forall readable rs
  | Some st' => Forall readable rs /\ scanned (in_regions pointer_at rs) (in_regions offset_at rs) st st'
  end.
Proof.
  revert st. induction rs as [|r rs IH]; intros st Hb Hs; cbn [each_or_abort].
  { split; [done|]. eapply scanned_ext; [..|apply scanned_none]; unfold in_regions; set_solver. }
  pose proof (parseRaw_spec r st Hb Hs) as H1. destruct (parseRaw _ _ _ _ st) as [st1|]; cbn; [|by rewrite Forall_cons; naive_solver].
  destruct H1 as [Hr H1], (scanned_text _ _ _ _ H1) as [Hb1 Hs1]. specialize (IH st1). destruct (each_or_abort _ rs st1) as [st2|].
  - destruct IH as [Hrs H2]; [congruence..|]. split; [by constructor|]. eapply scanned_ext; [..|eapply scanned_trans; [exact H1|exact H2]];
      intros x; unfold in_regions; setoid_rewrite elem_of_cons; naive_solver.
  - rewrite Forall_cons. intros [_ ?]. apply IH; [congruence..|done].
Qed.
End Text.

(** ** What the policy finds *)

(** The text and the data the parser works with. *)
Definition text_of (st : parser) : Z * Z := last_region CODE (textBase st, textSize st) (objects bin).
Definition data_of (st : parser) : Z * Z := last_region DATA (dataBase st, dataSize st) (objects bin).

(** No assertion fails. *)
Definition scannable (text : Z * Z) : Prop := Forall (readable text.1 text.2) (searched (objects bin)).

#[global] Instance scannable_dec text : Decision (scannable text).
Proof. unfold scannable. apply _. Defined.

(** The functions that are looked at, and their instructions. *)
Definition all_functions : list BPatch_function := procedures (modules bin).
Definition all_code : list (Z * Z * Instruction) := all_functions ≫= code_of.

(** A raw pointer of the sections, and one an instruction uses. *)
Definition found (text : Z * Z) : ref_at -> Prop := in_regions (pointer_at text.1 text.2) (searched (objects bin)).
Definition used (text data : Z * Z) (x : ref_at) : bool := pointed_in text.1 text.2 data.1 data.2 all_code (location x).

(** The parser after the image: [taken] is [_addressesTaken]. *)
Record parsed (text data : Z * Z) (taken : Z -> Prop) (st : parser) : Prop := {
  pd_text : (textBase st, textSize st) = text;
  pd_data : (dataBase st, dataSize st) = data;
  pd_calls : forall a, a ∈ callSites (sets st) <-> call_in all_code a;
  pd_maybe : forall a, a ∈ addressesTakenMaybe st <-> exists f, f ∈ all_functions /\ fc_start f = a;
  pd_taken : forall a, a ∈ addressesTaken (sets st) <-> taken a;
  pd_CK : forall x, x ∈ raw_CK st <-> found text x /\ used text data x = false;
  pd_CC : forall x, x ∈ raw_CC st <-> in_regions (offset_at text.2) (searched (objects bin)) x
}.

Definition cleared (st : parser) : Prop :=
  raw_CK st = [] /\ raw_CC st = [] /\ addressesTakenMaybe st = ∅ /\ sets st = AtSets ∅ ∅.

Lemma parseImage_spec st : cleared st ->
  match parseImage bin st with
  | None => ~ scannable (text_of st)
  | Some st' => scannable (text_of st) /\
      parsed (text_of st) (data_of st) (fun a => exists x, found (text_of st) x /\ used (text_of st) (data_of st) x = true /\ ref_value x = a) st'
  end.
Proof.
  intros (HK & HC & HM & HS). unfold parseImage. rewrite findCKs_searched, setTextInfo_last.
  fold (text_of st) (data_of st). set (text := text_of st). set (data := data_of st). unfold scannable.
  set (st0 := set_text _ _ _). pose proof (parse_regions_spec text.1 text.2 (searched (objects bin)) st0 eq_refl eq_refl) as Hscan.
  destruct (each_or_abort _ _ st0) as [st1|]; cbn; [|done]. destruct Hscan as [Hr (k & c & -> & Hk & Hc)]. split; [done|].
  destruct (parse_modules_effect text.1 text.2 data.1 data.2 (modules bin) (set_CK k (set_CC c st0))) as [Hi E0 E1 E2 E3 E4]; [done|].
  destruct Hi as (H1 & H2 & H3 & H4). cbn in *. rewrite HK in Hk. rewrite HC in Hc.
  assert (forall x, x ∈ k <-> found text x) as Hk' by (intros x; rewrite Hk; set_solver).
  split.
  - rewrite H1, H2. by destruct text.
  - rewrite H3, H4. by destruct data.
  - intros a. rewrite E1, HS. set_solver.
  - intros a. rewrite E2, HM. set_solver.
  - intros a. rewrite E4, HS. setoid_rewrite Hk'. set_solver.
  - intros x. by rewrite E3, Hk'.
  - intros x. rewrite E0, Hc. set_solver.
Qed.

Lemma bin_cfi_reset_spec st :
  match bin_cfi_reset bin st with
  | None => ~ scannable (text_of st)
  | Some st' => scannable (text_of st) /\ parsed (text_of st) (data_of st) (fun a => exists f, f ∈ all_functions /\ fc_start f = a) st'
  end.
Proof.
  unfold bin_cfi_reset. set (st0 := set_maybe ∅ _). pose proof (parseImage_spec st0) as H.
  change (text_of st0) with (text_of st) in H. change (data_of st0) with (data_of st) in H.
  destruct (parseImage bin st0) as [st1|]; cbn; [|by apply H]. destruct H as (Hr & [E1 E2 E3 E4 _ E6 E7]); [done|]. split; [done|]. by split.
Qed.

(** A new parser fails no assertion. *)
Definition scans : Prop := scannable (text_of (new_parser bin)).

(** The policy reads no graph, and fails only where an assertion does. *)
Lemma bin_cfi_reads : scans -> exists at_, (forall s, reads (bin_cfi_policy bin) s at_) /\ (forall a, a ∈ callSites at_ <-> call_in all_code a) /\
  (forall a, a ∈ addressesTaken at_ <-> exists f, f ∈ all_functions /\ fc_start f = a).
Proof.
  intros Hs. pose proof (bin_cfi_reset_spec (new_parser bin)) as H. unfold reads, bin_cfi_policy.
  destruct (bin_cfi_reset bin (new_parser bin)) as [st|]; [|done]. exists (sets st). destruct H as [_ P]. split; [done|]. split; apply P.
Qed.

Lemma bin_cfi_policy_reads p : (p = BinCFI -> scans) -> policy_reads (bin_cfi_policy bin) p.
Proof. intros Hs Hp. destruct (bin_cfi_reads (Hs Hp)) as (at_ & Hr & _). by exists at_. Qed.

(** C20. [AddressTakenParserBinCFI::reset] is exact.  It fails only an assertion of
    [parseRaw]: there is a section to search, and the last code section has
    address or size 0 or the buffer cannot be had.  Else the text and the data
    are the last code and the last data section.  The call sites are the ends of the
    blocks with a call whose first operand that is not a constant is not
    relative to the instruction pointer.  The addresses taken are the starts of all functions of the modules that are
    not skipped.  The raw pointers left are those words of the sections that
    lie in the text, are the start of a function and are used by no
    instruction; the raw offsets are the words below the size of the text.  None of this
    depends on what the parser held before, but for sections that are not
    there. *)
Theorem bin_cfi_reset_exact st :
  match bin_cfi_reset bin st with
  | None => ~ scannable (text_of st)
  | Some st' => scannable (text_of st) /\ (textBase st', textSize st') = text_of st /\ (dataBase st', dataSize st') = data_of st /\
      (forall a, a ∈ callSites (sets st') <->
        exists start i, (start, a, i) ∈ all_code /\ i_call i = true /\ through_pointer (i_operands i)) /\
      (forall a, a ∈ addressesTaken (sets st') <-> exists f, f ∈ all_functions /\ fc_start f = a) /\
      (forall x, x ∈ raw_CK st' <-> found (text_of st) x /\ used (text_of st) (data_of st) x = false) /\
      (forall x, x ∈ raw_CC st' <-> in_regions (offset_at (text_of st).2) (searched (objects bin)) x)
  end.
Proof.
  pose proof (bin_cfi_reset_spec st) as H. destruct (bin_cfi_reset bin st) as [st'|]; [|done].
  destruct H as [Hs [E1 E2 E3 E4 E5 E6 E7]]. split_and!; done.
Qed.

(** What the search for pointers had collected when the last assignment of [reset]
    replaces it: the targets of the pointers an instruction uses. *)
Corollary parseImage_collects st st' : cleared st -> parseImage bin st = Some st' ->
  forall a, a ∈ addressesTaken (sets st') <-> exists x, found (text_of st) x /\ used (text_of st) (data_of st) x = true /\ ref_value x = a.
Proof. intros Hc Hrun. pose proof (parseImage_spec st Hc) as H. rewrite Hrun in H. apply H. Qed.
End Scan.

(** ** A concrete binary *)

(** Text at 0x1000 with functions at 0x1000 and 0x1010, data at 0x2000 with a pointer
    to the second; a call through rax and one through rip. *)
Definition bin_example : binary := Binary
  [[MkRegion 0x1000 0x40 CODE; MkRegion 0x2000 24 DATA]]
  [MkModule "prog" [] [MkFunction 0x1000 [MkBlock 0x1000 0x1008 [MkInstruction true [RegisterAST 0x18010000]];
      MkBlock 0x1008 0x1010 [MkInstruction true [Dereference (BinaryFunction (RegisterAST irip) (Immediate (imm_s32 8)))]]];
    MkFunction 0x1010 [MkBlock 0x1010 0x1018 [MkInstruction false [Immediate (imm_u64 0x2008)]]]];
   MkModule "libdl.so.2" [] [MkFunction 0x5000 []]]
  (fun a => if decide (a = 0x1010) then [0x1010] else [])
  (fun _ n => replicate (Z.to_nat n) 0)
  (fun _ _ => replicate 8 0 ++ le_bytes 8 0x1010 ++ replicate 8 0)
  (fun _ => true) (fun n => n / 8) (0, 0).

Lemma bin_example_scans : scans bin_example.
Proof. apply (bool_decide_eq_true_1 (scannable _ _)). vm_compute. reflexivity. Qed.

Example bin_example_sets :
  (st ← bin_cfi_reset bin_example (new_parser bin_example); Some (in_order (callSites (sets st)), in_order (addressesTaken (sets st)), raw_CK st)) =
  Some ([0x1008], [0x1000; 0x1010], [Ref 0x2008 0x1010 ABS]).
Proof. vm_compute. reflexivity. Qed.
