(* ===== verification/BuilderProps.v ===== *)
(** The graph that is built from what ParseAPI gives: it is well-formed and
    ready for simplification, it has every function, block and edge, and no edge
    that is not explained. *)

From S2P Require Import Prelude LbrState Cfg CfgInv JitPath Jit Simplify Dummies Tidy Builder Frame.

(** ** Growth *)

(** Nothing is lost: edges stay as they are, blocks keep their edges, indexes their
    entries, functions their blocks. *)
Record kept (s s' : CFG) : Prop := {
  kp_edges e x : c_edges s !! e = Some x -> c_edges s' !! e = Some x;
  kp_bbs p b : c_bbs s !! p = Some b -> exists b', c_bbs s' !! p = Some b' /\ same_bb b b' /\
    b_out b ⊆ b_out b' /\ b_in b ⊆ b_in b';
  kp_index k p : c_start2bb s !! k = Some p -> c_start2bb s' !! k = Some p;
  kp_functions k f : c_functions s !! k = Some f -> c_functions s' !! k = Some f;
  kp_fns f x : c_fns s !! f = Some x -> exists x', c_fns s' !! f = Some x' /\ same_fn x x' /\
    f_bbs x ⊆ f_bbs x' /\ f_entries x ⊆ f_entries x' /\ f_exits x ⊆ f_exits x' /\ (f_plt x = true -> f_plt x' = true)
}.

#[export] Instance kept_preorder : PreOrder kept.
Proof.
  split.
  - intros s. split; try done; intros ? y ?; exists y; split_and!; try done; same.
  - intros s1 s2 s3 [E1 B1 I1 J1 F1] [E2 B2 I2 J2 F2]. split; auto.
    + intros p b Hb. destruct (B1 p b Hb) as (b1 & Hb1 & (? & ? & ? & ? & ?) & ? & ?).
      destruct (B2 p b1 Hb1) as (b2 & Hb2 & (? & ? & ? & ? & ?) & ? & ?). exists b2.
      split_and!; [done|split_and!; congruence|by transitivity (b_out b1)|by transitivity (b_in b1)].
    + intros f x Hx. destruct (F1 f x Hx) as (x1 & Hx1 & (? & ?) & ? & ? & ? & ?).
      destruct (F2 f x1 Hx1) as (x2 & Hx2 & (? & ?) & ? & ? & ? & ?). exists x2.
      split_and!; [done|split_and!; congruence|by transitivity (f_bbs x1)|by transitivity (f_entries x1)|by transitivity (f_exits x1)|auto].
Qed.

Lemma kept_steady s s' : steady s s' -> kept s s'.
Proof.
  intros W. split; try apply W.
  - intros k p Hk. rewrite (gw_index _ _ _ W); [done|]. congruence.
  - intros k f. by rewrite (gw_functions _ _ _ W).
  - intros f x Hx. exists x. rewrite (gw_fns _ _ _ W). split_and!; [done|same|done..].
Qed.

(** A step of the construction: what it keeps, and what the edges are that it adds. *)
Definition grow (E : CFG -> ArmsEdge -> Prop) (s s' : CFG) : Prop :=
  good s s' /\ kept s s' /\ (tidy s -> tidy s') /\
  forall e x, c_edges s' !! e = Some x -> c_edges s !! e = Some x \/ E s' x.

Definition stable (E : CFG -> ArmsEdge -> Prop) : Prop := forall s s' x, kept s s' -> E s x -> E s' x.

(** No edge is added. *)
Definition no_edge (s : CFG) (x : ArmsEdge) : Prop := False.

Lemma stable_no_edge : stable no_edge.
Proof. by intros s s' x _ []. Qed.

Section Growth.
Context (E : CFG -> ArmsEdge -> Prop) (HE : stable E).

Lemma grow_refl s : cfg_wf s -> grow E s s.
Proof. intros Hwf. split_and!; [by apply good_refl|reflexivity|done|auto]. Qed.

Lemma grow_trans s1 s2 s3 : grow E s1 s2 -> grow E s2 s3 -> grow E s1 s3.
Proof.
  intros (G1 & K1 & T1 & N1) (G2 & K2 & T2 & N2). split_and!; [by eapply good_trans|by transitivity s2|auto|].
  intros e x [Hx|?]%N2; [|auto]. destruct (N1 e x Hx); [auto|]. right. by eapply HE.
Qed.

Lemma grow_wf s s' : grow E s s' -> cfg_wf s'.
Proof. intros (G & _). by eapply good_wf. Qed.

Lemma wp_grow_bind {A B} (m : M A) (f : A -> M B) s (P : A -> CFG -> Prop) (Q : B -> CFG -> Prop) :
  wp m (fun a s' => grow E s s' /\ P a s') s ->
  (forall a s', grow E s s' -> P a s' -> wp (f a) (fun b s'' => grow E s' s'' /\ Q b s'') s') ->
  wp (m ≫= f) (fun b s'' => grow E s s'' /\ Q b s'') s.
Proof.
  intros Hm Hf. eapply wp_bind, wp_mono; [exact Hm|]. cbn beta. intros a s1 [G1 HP].
  eapply wp_mono; [by apply Hf|]. cbn beta. intros b s2 [G2 HQ]. split; [|done]. by eapply grow_trans.
Qed.

Lemma wp_grow_ret {A} (a : A) s (Q : A -> CFG -> Prop) : cfg_wf s -> Q a s -> wp (mret a) (fun a s' => grow E s s' /\ Q a s') s.
Proof. intros Hwf HQ. split; [by apply grow_refl|done]. Qed.

(** A loop, with an invariant, what each round needs and what it leaves. *)
Lemma wp_each_inv {A} (I : CFG -> Prop) (body : A -> M unit) l s (P Q : A -> CFG -> Prop) :
  (forall x s s', kept s s' -> P x s -> P x s') -> (forall x s s', kept s s' -> I s -> I s' -> Q x s -> Q x s') ->
  (forall x s, x ∈ l -> cfg_wf s -> I s -> P x s -> wp (body x) (fun _ s' => grow E s s' /\ I s' /\ Q x s') s) ->
  cfg_wf s -> I s -> (forall x, x ∈ l -> P x s) ->
  wp (each body l) (fun _ s' => grow E s s' /\ I s' /\ forall x, x ∈ l -> Q x s') s.
Proof.
  intros HP HQ. revert s. induction l as [|x l IH]; intros s Hb Hwf HI Hl; cbn [each].
  { apply wp_grow_ret; [done|]. split; [done|]. by intros x ?%not_elem_of_nil. }
  eapply wp_grow_bind with (P := fun _ s' => I s' /\ Q x s'); [apply Hb; [by left|done|done|apply Hl; by left]|].
  intros _ s1 G1 [I1 Q1]. eapply wp_mono; [apply IH|].
  - intros y s2 Hy. apply Hb. by right.
  - by eapply grow_wf.
  - done.
  - intros y Hy. eapply HP; [apply G1|]. apply Hl. by right.
  - cbn beta. intros _ s2 (G2 & I2 & Q2). split_and!; [done|done|]. intros y [->|Hy]%elem_of_cons; [|auto].
    eapply HQ; [apply G2|done|done|done].
Qed.

Lemma wp_each {A} (I : CFG -> Prop) (body : A -> M unit) l s (P Q : A -> CFG -> Prop) :
  (forall x s s', kept s s' -> P x s -> P x s') -> (forall x s s', kept s s' -> Q x s -> Q x s') ->
  (forall x s, x ∈ l -> cfg_wf s -> I s -> P x s -> wp (body x) (fun _ s' => grow E s s' /\ I s' /\ Q x s') s) ->
  cfg_wf s -> I s -> (forall x, x ∈ l -> P x s) ->
  wp (each body l) (fun _ s' => grow E s s' /\ I s' /\ forall x, x ∈ l -> Q x s') s.
Proof. intros HP HQ. apply wp_each_inv; [done|]. intros x s1 s2 K _ _. by apply HQ. Qed.

(** Changes that leave the index alone. *)
Lemma grow_steady s s' : good s s' -> steady s s' ->
  (forall e x, c_edges s' !! e = Some x ->
     c_edges s !! e = Some x \/ E s' x /\ fresh_edge x /\ (internal x = true -> stored s' (e_target x) = true)) -> grow E s s'.
Proof.
  intros G W Hnew. split_and!; [done|by apply kept_steady| |].
  - intros Ht. eapply tidy_steady; [done|by eapply good_wf|done|]. intros e x Hx. destruct (Hnew e x Hx) as [?|(_ & ?)]; auto.
  - intros e x Hx. destruct (Hnew e x Hx) as [?|(? & _)]; auto.
Qed.

Lemma wp_on_bb_grow s p b f :
  cfg_wf s -> c_bbs s !! p = Some b -> same_bb b (f b) -> b_out (f b) = b_out b -> b_in (f b) = b_in b ->
  wp (on_bb p f) (fun _ s' => grow E s s' /\ c_start2bb s' = c_start2bb s /\ c_functions s' = c_functions s) s.
Proof.
  intros Hwf Hb Hs Ho Hi. eapply wp_mono; [by apply (wp_on_bb_flags s p b)|]. cbn beta. intros _ s' [G ->]. split_and!; [|done|done].
  apply grow_steady; [done| |auto]. split; try done.
  intros r c Hr. cbn. destruct (decide (r = p)) as [->|Hne].
  - rewrite lookup_insert_eq. rewrite Hb in Hr. apply (inj Some) in Hr as <-. exists (f b). by rewrite Ho, Hi.
  - rewrite lookup_insert_ne by done. exists c. split_and!; [done|same|done|done].
Qed.

Lemma wp_on_fn_grow s g x f :
  cfg_wf s -> c_fns s !! g = Some x -> same_fn x (f x) ->
  (forall p, p ∈ f_entries (f x) \/ p ∈ f_exits (f x) \/ p ∈ f_bbs (f x) -> bb_ok s p) ->
  f_bbs x ⊆ f_bbs (f x) -> f_entries x ⊆ f_entries (f x) -> f_exits x ⊆ f_exits (f x) -> (f_plt x = true -> f_plt (f x) = true) ->
  (forall p, p ∈ f_bbs (f x) -> p ∈ f_bbs x \/ stored s p = true) ->
  wp (on_fn g f) (fun _ s' => grow E s s' /\ c_fns s' !! g = Some (f x) /\ c_bbs s' = c_bbs s /\
    c_start2bb s' = c_start2bb s /\ c_functions s' = c_functions s) s.
Proof.
  intros Hwf Hx Hs Hok Hbb Hen Hex Hpl Hst. eapply wp_mono; [by apply (wp_on_fn s g x)|]. cbn beta. intros _ s' [G ->].
  split_and!; [|cbn; apply lookup_insert_eq|done..]. split_and!; [done| | |auto].
  - split; try done; [intros p b Hb; exists b; split_and!; [done|same|done|done]|].
    intros h y Hy. cbn. destruct (decide (h = g)) as [->|Hne].
    + rewrite lookup_insert_eq. rewrite Hx in Hy. apply (inj Some) in Hy as <-. by exists (f x).
    + rewrite lookup_insert_ne by done. exists y. split_and!; [done|same|done..].
  - intros Ht. split; [by eapply good_wf|split|apply (td_edges _ Ht)].
    + intros h y Hy p Hp. cbn in Hy. apply lookup_insert_Some in Hy as [[<- <-]|[_ Hy]].
      * destruct (Hst p Hp); [by apply (proj1 (td_stored _ Ht) g x)|done].
      * by apply (proj1 (td_stored _ Ht) h y).
    + apply (td_stored _ Ht).
Qed.
End Growth.

Lemma grow_weaken (E E' : CFG -> ArmsEdge -> Prop) s s' : (forall s x, E s x -> E' s x) -> grow E s s' -> grow E' s s'.
Proof. intros HE (? & ? & ? & N). split_and!; try done. intros e x Hx. destruct (N e x Hx); auto. Qed.

(** ** Functions and blocks *)

Section Blocks.
Context {Ma : Malloc}.
#[local] Notation E := no_edge.
#[local] Notation HE := stable_no_edge.

Definition has_function (a : Z) (s : CFG) : Prop := is_Some (c_functions s !! a).
Definition has_block (a : Z) (s : CFG) : Prop := is_Some (c_start2bb s !! a).

Lemma kept_has_function a s s' : kept s s' -> has_function a s -> has_function a s'.
Proof. intros K [f Hf]. exists f. by apply (kp_functions _ _ K). Qed.
Lemma kept_has_block a s s' : kept s s' -> has_block a s -> has_block a s'.
Proof. intros K [f Hf]. exists f. by apply (kp_index _ _ K). Qed.

Lemma wp_insert_function s f : cfg_wf s ->
  wp (insert_function f) (fun _ s' => grow E s s' /\ c_start2bb s' = c_start2bb s /\ has_function (pf_addr f) s') s.
Proof.
  intros Hwf. unfold insert_function. destruct (find_function_spec s (pf_addr f) Hwf) as (p & Hp & [[-> Ha]|(Hne & Ha & _)]);
    (eapply wp_reads; [exact Hp|]).
  2: { rewrite bool_decide_eq_false_2 by done. apply wp_grow_ret; [done|]. split; [done|by exists p]. }
  cbn [negb bool_decide decide_rel]. destruct (fresh_lookup s) as (_ & _ & Ff).
  set (q := malloc (allocated s)) in *. set (x := Fn (pf_addr f) false false false false (pf_name f) ∅ ∅ ∅ ∅ ∅ ∅).
  set (s' := set_index (<[pf_addr f := q]> (c_functions s)) (c_start2bb s) (c_last2bb s) (c_num_bb s) (set_fns (<[q := x]> (c_fns s)) s)).
  assert ((p ← new_fn (pf_addr f) (pf_name f); store_function p) s = Some (tt, s')) as Hrun.
  { unfold new_fn, store_function, mbind, M_bind, fn_at, modify. cbn. fold q x. rewrite lookup_insert_eq. done. }
  assert (good s s') as G.
  { pose proof (wp_new_fn s (pf_addr f) (pf_name f) Hwf) as H1. apply wp_wlp in H1.
    destruct (H1 _ _ eq_refl) as (G1 & _ & Hx & _). pose proof (wp_store_function _ _ _ (good_wf _ _ G1) Hx) as H2. apply wp_wlp in H2.
    unfold mbind, M_bind in Hrun. destruct (H2 tt s') as (G2 & _); [exact Hrun|]. by eapply good_trans. }
  eapply wp_eq; [exact Hrun|]. split_and!; [|done|exists q; cbn; apply lookup_insert_eq]. split_and!; [done| | |auto].
  - split; try done; [intros p b Hb; exists b; split_and!; [done|same|done|done]| |].
    + intros k g Hk. cbn. rewrite lookup_insert_ne; [done|]. congruence.
    + intros g y Hy. exists y. cbn. rewrite lookup_insert_ne by congruence. split_and!; [done|same|done..].
  - intros Ht. split; [by eapply good_wf|split|apply (td_edges _ Ht)].
    + intros g y Hy p Hp'. cbn in Hy. apply lookup_insert_Some in Hy as [[<- <-]|[_ Hy]]; [by apply elem_of_empty in Hp'|].
      by apply (proj1 (td_stored _ Ht) g y).
    + apply (td_stored _ Ht).
Qed.

(** The containing functions of the new block [p] that are entered. *)
Definition contains (a p : Z) (s : CFG) : Prop := exists f x c, c_functions s !! a = Some f /\ c_fns s !! f = Some x /\
  c_bbs s !! p = Some c /\ p ∈ f_bbs x /\ f ∈ b_funcs c.

Lemma kept_contains a p s s' : kept s s' -> contains a p s -> contains a p s'.
Proof.
  intros K (f & x & c & Hf & Hx & Hc & Hp & Hin). destruct (kp_fns _ _ K f x Hx) as (x' & Hx' & _ & Hb & _).
  destruct (kp_bbs _ _ K p c Hc) as (c' & Hc' & (_ & _ & _ & _ & Hfs) & _). exists f, x', c'.
  split_and!; [by apply (kp_functions _ _ K)|done|done|by apply Hb|by rewrite Hfs].
Qed.

Definition push (cf : Z) (b : ArmsBasicBlock) : ArmsBasicBlock :=
  BB (b_id b) (b_in b) (b_out b) (b_start b) (b_end b) (b_last b) (b_entry b) (b_exit b) (b_dummy b) (b_funcs b ++ [cf]).

Lemma wf_push s p b cf : cfg_wf s -> c_bbs s !! p = Some b -> fn_ok s cf -> cfg_wf (set_bbs (<[p := push cf b]> (c_bbs s)) s).
Proof.
  intros [H0 Ho Hi Hends Hsb Hlb Hf Hen Hfu] Hb Hcf. set (s2 := set_bbs _ s).
  assert (forall r, bb_ok s r -> bb_ok s2 r) as Hok.
  { intros r Hr. unfold bb_ok. cbn. apply lookup_insert_is_Some'. by right. }
  assert (forall r c, c_bbs s2 !! r = Some c -> exists c0, c_bbs s !! r = Some c0 /\ b_in c = b_in c0 /\ b_out c = b_out c0 /\
    (c = c0 \/ c = push cf c0)) as Hback.
  { intros r c Hr. cbn in Hr. apply lookup_insert_Some in Hr as [[<- <-]|[_ Hr]]; [exists b|exists c]; auto. }
  assert (forall a r (g : ArmsBasicBlock -> Z), (forall c, g (push cf c) = g c) -> (exists c, c_bbs s !! r = Some c /\ g c = a) ->
    exists c, c_bbs s2 !! r = Some c /\ g c = a) as Hfwd.
  { intros a r g Hg (c & Hc & Ha). cbn. destruct (decide (r = p)) as [->|Hne].
    - rewrite lookup_insert_eq. exists (push cf b). split; [done|]. rewrite Hg. congruence.
    - rewrite lookup_insert_ne by done. by exists c. }
  split; try done.
  - unfold allocated. cbn. rewrite dom_insert_lookup_L by (by eexists). done.
  - intros r c e (c0 & Hc0 & _ & Hout & _)%Hback He. rewrite Hout in He. by apply (Ho r c0).
  - intros r c e (c0 & Hc0 & Hin & _)%Hback He. rewrite Hin in He. by apply (Hi r c0).
  - intros e x He. destruct (Hends e x He). auto.
  - intros a r Hr. by apply Hfwd, Hsb.
  - intros a r Hr. by apply Hfwd, Hlb.
  - intros f x r Hx Hr. apply Hok. by apply (Hen f x).
  - intros r c f (c0 & Hc0 & _ & _ & [->| ->])%Hback Hin; [by apply (Hfu r c0)|].
    cbn in Hin. apply elem_of_app in Hin as [?| ->%list_elem_of_singleton]; [by apply (Hfu r c0)|done].
Qed.

(** Since the graph [s] the block [p] was added. *)
Lemma grow_push s s1 p b cf :
  grow E s s1 -> c_bbs s !! p = None -> c_bbs s1 !! p = Some b -> fn_ok s1 cf ->
  grow E s (set_bbs (<[p := push cf b]> (c_bbs s1)) s1).
Proof.
  intros (G & K & T & N) Hn Hb Hcf. set (s2 := set_bbs _ s1). pose proof (wf_push s1 p b cf (good_wf _ _ G) Hb Hcf) as Hwf2.
  assert (forall r c, c_bbs s !! r = Some c -> c_bbs s2 !! r = c_bbs s1 !! r) as Hold.
  { intros r c Hr. cbn. rewrite lookup_insert_ne; [done|]. congruence. }
  destruct G as (Hwf1 & X & L). split_and!.
  - split_and!; [done| |].
    + split; [|apply X..]. intros r c Hr. rewrite (Hold r c Hr). by apply (ext_bb _ _ X).
    + intros Hl e x c d He Hc Hd. cbn in He, Hc, Hd.
      apply lookup_insert_Some in Hc as [[Hps <-]|[_ Hc]]; apply lookup_insert_Some in Hd as [[Hpt <-]|[_ Hd]];
        cbn [push b_out b_in]; (eapply (L Hl); [exact He|congruence|congruence]).
  - split; try apply K. intros r c Hr. rewrite (Hold r c Hr). by apply (kp_bbs _ _ K).
  - intros Ht%T. assert (forall r, stored s1 r = true -> stored s2 r = true) as Hst.
    { intros r. unfold stored. cbn. destruct (decide (r = p)) as [->|Hne].
      - rewrite lookup_insert_eq, Hb. cbn. destruct (c_start2bb s1 !! b_start b) as [q|]; [|done]. cbn.
        destruct (decide (q = p)) as [->|Hq]; [by rewrite lookup_insert_eq, Hb|by rewrite lookup_insert_ne].
      - rewrite lookup_insert_ne by done. destruct (c_bbs s1 !! r) as [c|]; [|done].
        destruct (c_start2bb s1 !! b_start c) as [q|]; [|done]. cbn.
        destruct (decide (q = p)) as [->|Hq]; [by rewrite lookup_insert_eq, Hb|by rewrite lookup_insert_ne]. }
    split; [done|split|apply (td_edges _ Ht)].
    + intros f x Hx r Hr. apply Hst. by apply (proj1 (td_stored _ Ht) f x).
    + intros e x Hx Hi. apply Hst. by apply (proj2 (td_stored _ Ht) e x).
  - intros e x Hx. destruct (N e x Hx) as [|[]]. by left.
Qed.

(** The block as ParseAPI has it. *)
Definition same_block (b : pblock) (c : ArmsBasicBlock) : Prop := b_start c = pb_start b /\ b_end c = pb_end b /\ b_last c = pb_last b.

Lemma wp_containing s p b fs : forall s1 c,
  grow E s s1 -> c_bbs s !! p = None -> c_bbs s1 !! p = Some c -> same_block b c -> c_start2bb s1 !! pb_start b = Some p ->
  (forall a, a ∈ fs -> has_function a s1) ->
  wp (each (fun a => cf ← find_function a; add_containing_function p cf;; add_bb cf p) fs) (fun _ s' =>
    grow E s s' /\ c_start2bb s' = c_start2bb s1 /\ (exists c', c_bbs s' !! p = Some c' /\ same_block b c') /\
    (forall a, contains a p s1 -> contains a p s') /\ forall a, a ∈ fs -> contains a p s') s1.
Proof.
  induction fs as [|a fs IH]; intros s1 c G1 Hn Hc Hs Hix Hfs; cbn [each].
  { apply wp_ret. split_and!; [done|done|by exists c|done|]. by intros a ?%not_elem_of_nil. }
  pose proof (grow_wf _ _ _ G1) as Hwf1. destruct (Hfs a) as [f Hf]; [by left|]. destruct (wf_functions _ Hwf1 a f Hf) as (x & Hx & _).
  apply wp_bind. eapply wp_reads; [apply reads_gets|]. rewrite Hf. cbn [default from_option]. change (id f) with f.
  apply wp_bind. unfold add_containing_function, on_bb at 1. eapply wp_reads; [by apply reads_bb_at|].
  apply wp_eq with (a := tt) (s' := set_bbs (<[p := push f c]> (c_bbs s1)) s1); [done|].
  set (s2 := set_bbs _ s1). assert (grow E s s2) as G2 by (apply grow_push; [done|done|done|by exists x]).
  pose proof (grow_wf _ _ _ G2) as Hwf2. assert (c_bbs s2 !! p = Some (push f c)) as Hc2 by (cbn; apply lookup_insert_eq).
  assert (stored s2 p = true) as Hst.
  { unfold stored. rewrite Hc2. cbn [push b_start c_start2bb s2 set_bbs]. rewrite (proj1 Hs), Hix. cbn. rewrite lookup_insert_eq. cbn. by apply bool_decide_eq_true_2. }
  eapply wp_mono; [apply (wp_on_fn_grow E s2 f x); [done|done|same|..]|].
  { cbn. intros r Hr. destruct (decide (r = p)) as [->|Hne]; [by eexists|]. apply (wf_entries _ Hwf2 f x r Hx). set_solver. }
  1-3: cbn; set_solver.
  { done. }
  { cbn. intros r [->%elem_of_singleton|?]%elem_of_union; auto. }
  cbn beta. intros _ s3 (G3 & Hx3 & B3 & I3 & J3).
  assert (grow E s s3) as G by (by apply (grow_trans E HE s s2 s3)).
  assert (forall a', contains a' p s1 -> contains a' p s3) as Hkeep.
  { intros a' (g & y & d & Hg & Hy & Hd & Hp & Hin). destruct (kp_fns _ _ (proj1 (proj2 G3)) g y Hy) as (y' & Hy' & _ & Hb & _).
    exists g, y', (push f c). rewrite B3, J3. split_and!; [done|done|done|by apply Hb|]. rewrite Hc in Hd. apply (inj Some) in Hd as <-. cbn. set_solver. }
  eapply wp_mono; [apply (IH s3 (push f c)); [done|done|by rewrite B3|done|by rewrite I3|]|].
  { intros a' Ha'. unfold has_function. rewrite J3. apply Hfs. by right. }
  cbn beta. intros _ s4 (G4 & I4 & Hb4 & K4 & C4). split_and!; [done|by rewrite I4, I3|done|auto|].
  intros a' [->|Ha']%elem_of_cons; [|auto]. apply K4. eexists f, _, (push f c). rewrite J3, B3.
  split_and!; [done|exact Hx3|done|cbn; set_solver|cbn; set_solver].
Qed.

(** The block is in the graph, and in its functions. *)
Definition block_as (b : pblock) (s : CFG) : Prop := exists p c, c_start2bb s !! pb_start b = Some p /\ c_bbs s !! p = Some c /\
  same_block b c /\ forall a, a ∈ pb_funcs b -> contains a p s.

Lemma kept_block_as b s s' : kept s s' -> block_as b s -> block_as b s'.
Proof.
  intros K (p & c & Hp & Hc & (H1 & H2 & H3) & Hfs). destruct (kp_bbs _ _ K p c Hc) as (c' & Hc' & (_ & Es & Ee & El & _) & _).
  exists p, c'. split_and!; [by apply (kp_index _ _ K)|done|split_and!; congruence|]. intros a Ha. eapply kept_contains; [exact K|auto].
Qed.

Lemma wp_insert_block s b : cfg_wf s -> (forall a, a ∈ pb_funcs b -> has_function a s) ->
  wp (insert_block b) (fun _ s' => grow E s s' /\ (s' = s /\ has_block (pb_start b) s \/
    block_as b s' /\ forall k, k <> pb_start b -> c_start2bb s' !! k = c_start2bb s !! k)) s.
Proof.
  intros Hwf Hfs. unfold insert_block. destruct (find_bb_spec s (pb_start b) Hwf) as (p & Hp & [[-> Ha]|(Hne & Ha & _)]);
    (eapply wp_reads; [exact Hp|]).
  2: { rewrite bool_decide_eq_false_2 by done. apply wp_grow_ret; [done|]. left. split; [done|by exists p]. }
  cbn [negb bool_decide decide_rel].
  eapply wp_bind, wp_mono; [apply wp_and_wlp; [by apply wp_new_bb; [|left]|apply (grown_new_bb (fun _ => False))]|]. cbn beta.
  intros p s1 ((G1 & Hp0 & Hn & [i Hb] & J1 & I1 & _ & F1) & W1 & D1 & _).
  eapply wp_bind, wp_mono; [apply wp_and_wlp; [apply (wp_store_bb _ _ _ (good_wf _ _ G1) Hb)|apply (grown_store_bb (fun k => k = pb_start b))]|].
  { intros b' Hb'. rewrite Hb in Hb'. by injection Hb' as <-. }
  cbn beta. intros _ s2 ((G2 & B2 & _ & _ & J2 & I2 & _) & W2 & D2). cbn [b_start b_last] in I2. rewrite I1 in I2.
  assert (grow E s s2) as G.
  { apply grow_steady; [by eapply good_trans| |intros e x; rewrite D2, D1; auto].
    transitivity s1; [by apply steady_grown|]. eapply grown_weaken; [|exact W2]. cbn. intros k ->. by rewrite I1. }
  eapply wp_mono; [eapply (wp_containing s p b (pb_funcs b) s2); [done|done|rewrite B2; exact Hb|done|by rewrite I2, lookup_insert_eq|]|].
  { intros a Hin. unfold has_function. rewrite J2, J1. by apply Hfs. }
  cbn beta. intros _ s3 (G3 & I3 & (c & Hc & Hsame) & _ & Hall). split; [done|]. right. rewrite I3, I2. split.
  - exists p, c. rewrite I3, I2, lookup_insert_eq. done.
  - intros k Hk. by rewrite lookup_insert_ne.
Qed.

(** The block at [a] is among the entries (exits) of the function at [f]. *)
Definition entry_at (f a : Z) (s : CFG) : Prop := exists g x p, c_functions s !! f = Some g /\ c_fns s !! g = Some x /\
  c_start2bb s !! a = Some p /\ p ∈ f_entries x.
Definition exit_at (f a : Z) (s : CFG) : Prop := exists g x p, c_functions s !! f = Some g /\ c_fns s !! g = Some x /\
  c_start2bb s !! a = Some p /\ p ∈ f_exits x.

Lemma kept_entry_at f a s s' : kept s s' -> entry_at f a s -> entry_at f a s'.
Proof.
  intros K (g & x & p & Hg & Hx & Hp & Hin). destruct (kp_fns _ _ K g x Hx) as (x' & Hx' & _ & _ & He & _).
  exists g, x', p. split_and!; [by apply (kp_functions _ _ K)|done|by apply (kp_index _ _ K)|by apply He].
Qed.
Lemma kept_exit_at f a s s' : kept s s' -> exit_at f a s -> exit_at f a s'.
Proof.
  intros K (g & x & p & Hg & Hx & Hp & Hin). destruct (kp_fns _ _ K g x Hx) as (x' & Hx' & _ & _ & _ & He & _).
  exists g, x', p. split_and!; [by apply (kp_functions _ _ K)|done|by apply (kp_index _ _ K)|by apply He].
Qed.

(** A block found in the index is flagged, and entered in the function. *)
Lemma wp_mark_block (flag : ArmsBasicBlock -> ArmsBasicBlock) (add : ArmsFunction -> ArmsFunction) s f g p :
  (forall b, same_bb b (flag b) /\ b_out (flag b) = b_out b /\ b_in (flag b) = b_in b) ->
  (forall x, same_fn x (add x) /\ f_bbs (add x) = f_bbs x /\ f_entries x ⊆ f_entries (add x) ⊆ {[p]} ∪ f_entries x /\
     f_exits x ⊆ f_exits (add x) ⊆ {[p]} ∪ f_exits x /\ f_plt (add x) = f_plt x) ->
  cfg_wf s -> c_functions s !! f = Some g -> bb_ok s p ->
  wp (on_bb p flag;; on_fn g add) (fun _ s' => grow E s s' /\ c_start2bb s' = c_start2bb s /\ c_functions s' = c_functions s /\
    exists x, c_fns s' !! g = Some (add x)) s.
Proof.
  intros Hflag Hadd Hwf Hg [b Hb]. destruct (Hflag b) as (F1 & F2 & F3).
  eapply (wp_grow_bind E HE); [by apply (wp_on_bb_grow E s p b)|]. cbn beta. intros _ s1 G1 (I1 & J1).
  pose proof (grow_wf _ _ _ G1) as Hwf1. destruct (wf_functions _ Hwf1 f g) as (x & Hx & _); [by rewrite J1|].
  destruct (Hadd x) as (A1 & A2 & [A3 A4] & [A5 A6] & A7). assert (bb_ok s1 p) as Hp.
  { destruct (kp_bbs _ _ (proj1 (proj2 G1)) p b Hb) as (b' & Hb' & _). by exists b'. }
  eapply wp_mono; [apply (wp_on_fn_grow E s1 g x); [done|done|done| |by rewrite A2|done|done|by rewrite A7|intros r; rewrite A2; auto]|].
  { intros r Hr. destruct (decide (r = p)) as [->|Hne]; [done|]. apply (wf_entries _ Hwf1 g x r Hx). rewrite A2 in Hr. set_solver. }
  cbn beta. intros _ s2 (G2 & Hx2 & _ & I2 & J2). split_and!; [done|congruence|congruence|by exists x].
Qed.

Lemma wp_mark_entry_and_exits s f :
  cfg_wf s -> has_function (pf_addr f) s -> has_block (pf_entry f) s -> (forall a, a ∈ pf_returns f -> has_block a s) ->
  wp (mark_entry_and_exits f) (fun _ s' => grow E s s' /\ c_start2bb s' = c_start2bb s /\ entry_at (pf_addr f) (pf_entry f) s' /\
    forall a, a ∈ pf_returns f -> exit_at (pf_addr f) a s') s.
Proof.
  intros Hwf [g Hg] [p Hp] Hret. unfold mark_entry_and_exits.
  eapply wp_reads; [apply reads_gets|]. rewrite Hg. cbn [default from_option]. change (id g) with g.
  eapply wp_reads; [apply reads_gets|]. rewrite Hp. cbn [default from_option]. change (id p) with p.
  destruct (wf_start2bb _ Hwf _ _ Hp) as (b & Hb & _).
  assert (forall (m n k : M unit) Q, wp (m;; n) (fun _ s' => wp k Q s') s -> wp (m;; n;; k) Q s) as Hassoc.
  { intros m n k Q. unfold wp, mbind, M_bind. destruct (m s) as [[? s1]|]; [|done]. by destruct (n s1) as [[? s2]|]. }
  apply Hassoc. unfold set_is_entry_block, add_entry_block. eapply wp_mono; [apply (wp_mark_block _ _ s (pf_addr f) g p); [| |done|done|by exists b]|].
  { intros c. split_and!; [same|done|done]. }
  { intros x. cbn. split_and!; [same|done|set_solver..]. }
  cbn beta. intros _ s1 (G1 & I1 & J1 & x & Hx). pose proof (grow_wf _ _ _ G1) as Hwf1.
  assert (entry_at (pf_addr f) (pf_entry f) s1) as He.
  { eexists g, _, p. rewrite J1, I1. split_and!; [done|exact Hx|done|cbn; set_solver]. }
  eapply wp_mono; [apply (wp_each E HE (fun s' => c_start2bb s' = c_start2bb s /\ c_functions s' !! pf_addr f = Some g) _ (pf_returns f) s1
    (fun _ _ => True) (fun a s' => exit_at (pf_addr f) a s'))|].
  - done.
  - intros a s2 s3. apply kept_exit_at.
  - intros a s2 Ha Hwf2 [I2 J2] _. destruct (Hret a Ha) as [q Hq]. eapply wp_reads; [apply reads_gets|]. rewrite I2, Hq. cbn [default from_option]. change (id q) with q.
    destruct (wf_start2bb _ Hwf _ _ Hq) as (c & Hc & _). destruct (wf_start2bb _ Hwf2 a q) as (c2 & Hc2 & _); [by rewrite I2|].
    unfold set_is_exit_block, add_exit_block. eapply wp_mono; [apply (wp_mark_block _ _ s2 (pf_addr f) g q); [| |done|done|by exists c2]|].
    { intros d. split_and!; [same|done|done]. }
    { intros y. cbn. split_and!; [same|done|set_solver..]. }
    cbn beta. intros _ s3 (G3 & I3 & J3 & y & Hy). split_and!; [done|congruence|congruence|].
    eexists g, _, q. rewrite J3, I3, I2. split_and!; [done|exact Hy|done|cbn; set_solver].
  - done.
  - split; [done|]. by rewrite J1.
  - done.
  - cbn beta. intros _ s2 (G2 & (I2 & J2) & Q2). split_and!; [by apply (grow_trans E HE s s1 s2)|done| |done].
    eapply kept_entry_at; [apply G2|done].
Qed.
End Blocks.

(** ** Views *)

(** What Dyninst promises of the functions of a code object. *)
Definition block_of (funcs : list pfunc) (b : pblock) : Prop := exists f, f ∈ funcs /\ b ∈ pf_blocks f.
Definition start_of (funcs : list pfunc) (a : Z) : Prop := exists b, block_of funcs b /\ pb_start b = a.

Record view_ok (funcs : list pfunc) : Prop := {
  v_funcs b a : block_of funcs b -> a ∈ pb_funcs b -> exists f, f ∈ funcs /\ pf_addr f = a;
  v_entry f : f ∈ funcs -> start_of funcs (pf_entry f);
  v_returns f a : f ∈ funcs -> a ∈ pf_returns f -> start_of funcs a;
  v_types b e : block_of funcs b -> e ∈ pb_targets b -> pe_type e <> NOEDGE /\ pe_type e <> edgetype_end;
  v_targets b e : block_of funcs b -> e ∈ pb_targets b -> pe_type e ∉ [CALL; INDIRECT; RET] ->
    pe_trg e <> sink /\ start_of funcs (pe_trg e)
}.

(** A function of the view is in the graph. *)
Definition function_as (f : pfunc) (s : CFG) : Prop :=
  has_function (pf_addr f) s /\ entry_at (pf_addr f) (pf_entry f) s /\ forall a, a ∈ pf_returns f -> exit_at (pf_addr f) a s.

Lemma kept_function_as f s s' : kept s s' -> function_as f s -> function_as f s'.
Proof.
  intros K (H1 & H2 & H3). split_and!; [by eapply kept_has_function|by eapply kept_entry_at|]. intros a Ha. eapply kept_exit_at; [exact K|auto].
Qed.

(** Since [s0] only blocks of the view were added to the index. *)
Definition indexed_since (funcs : list pfunc) (s0 s : CFG) : Prop :=
  forall k, has_block k s -> has_block k s0 \/ exists b, block_of funcs b /\ pb_start b = k /\ block_as b s.

Lemma indexed_since_same funcs s0 s s' : kept s s' -> c_start2bb s' = c_start2bb s -> indexed_since funcs s0 s -> indexed_since funcs s0 s'.
Proof.
  intros K I Hs k. unfold has_block. rewrite I. intros Hk. destruct (Hs k Hk) as [?|(b & Hb & Hk' & Has)]; [auto|].
  right. exists b. split_and!; [done|done|]. by eapply kept_block_as.
Qed.

Section Views.
Context {Ma : Malloc}.
#[local] Notation E := no_edge.
#[local] Notation HE := stable_no_edge.

(** The blocks of all functions. *)
Lemma wp_insert_blocks s s1 funcs :
  cfg_wf s1 -> view_ok funcs -> c_start2bb s1 = c_start2bb s -> (forall f, f ∈ funcs -> has_function (pf_addr f) s1) ->
  wp (each (fun f => each insert_block (pf_blocks f)) funcs) (fun _ s' => grow E s1 s' /\ indexed_since funcs s s' /\
    forall f, f ∈ funcs -> forall b, b ∈ pf_blocks f -> has_block (pb_start b) s') s1.
Proof.
  intros Hwf1 V I1 H1.
  apply (wp_each E HE (indexed_since funcs s) _ funcs s1 (fun _ s' => forall f, f ∈ funcs -> has_function (pf_addr f) s')
    (fun f s' => forall b, b ∈ pf_blocks f -> has_block (pb_start b) s')).
  - intros f s2 s3 K Hf g Hg. eapply kept_has_function; [exact K|auto].
  - intros f s2 s3 K Hf b Hb. eapply kept_has_block; [exact K|auto].
  - intros f s2 Hf Hwf2 I2 Hfs. apply (wp_each E HE (indexed_since funcs s) _ (pf_blocks f) s2
      (fun _ s' => forall f, f ∈ funcs -> has_function (pf_addr f) s') (fun b => has_block (pb_start b))).
    + intros b s3 s4 K Hg g Hin. eapply kept_has_function; [exact K|auto].
    + intros b s3 s4. apply kept_has_block.
    + intros b s3 Hb Hwf3 I3 Hfs3. assert (block_of funcs b) as Hbo by (by exists f).
      eapply wp_mono; [apply wp_insert_block; [done|]|].
      { intros a Ha. destruct (v_funcs _ V b a Hbo Ha) as (g & Hg & <-). auto. }
      cbn beta. intros _ s4 (G4 & [[-> Hh]|[Has Hk]]); [by split_and!|]. split_and!; [done| |].
      * intros k Hk4. destruct (decide (k = pb_start b)) as [->|Hne]; [right; by exists b|].
        unfold has_block in Hk4. rewrite Hk in Hk4 by done. destruct (I3 k Hk4) as [?|(c & Hc & Hkc & Hcas)]; [auto|].
        right. exists c. split_and!; [done|done|]. eapply kept_block_as; [apply G4|done].
      * destruct Has as (p & _ & Hp & _). by exists p.
    + done.
    + done.
    + auto.
  - done.
  - intros k Hk. left. unfold has_block in *. by rewrite I1 in Hk.
  - auto.
Qed.

Lemma wp_insert_functions_and_bbs s funcs :
  cfg_wf s -> view_ok funcs ->
  wp (insert_functions_and_bbs funcs) (fun _ s' => grow E s s' /\ indexed_since funcs s s' /\
    (forall f, f ∈ funcs -> function_as f s') /\ forall b, block_of funcs b -> has_block (pb_start b) s') s.
Proof.
  intros Hwf V. unfold insert_functions_and_bbs.
  eapply (wp_grow_bind E HE).
  { apply (wp_each E HE (fun s' => c_start2bb s' = c_start2bb s) _ funcs s (fun _ _ => True) (fun f => has_function (pf_addr f))); try done.
    - intros f s1 s2. apply kept_has_function.
    - intros f s1 _ Hwf1 I1 _. eapply wp_mono; [by apply wp_insert_function|]. cbn beta. intros _ s2 (G2 & I2 & H2). split_and!; [done|congruence|done]. }
  cbn beta. intros _ s1 G1 (I1 & H1). pose proof (grow_wf _ _ _ G1) as Hwf1.
  eapply (wp_grow_bind E HE).
  { by apply (wp_insert_blocks s s1 funcs). }
  cbn beta. intros _ s2 G2 (I2 & H2). pose proof (grow_wf _ _ _ G2) as Hwf2.
  assert (forall a, start_of funcs a -> has_block a s2) as Hst by (intros a (b & (f & Hf & Hb) & <-); by apply (H2 f)).
  eapply wp_mono; [apply (wp_each E HE (fun s' => kept s2 s' /\ c_start2bb s' = c_start2bb s2) _ funcs s2 (fun _ _ => True)
    (fun f s' => entry_at (pf_addr f) (pf_entry f) s' /\ forall a, a ∈ pf_returns f -> exit_at (pf_addr f) a s'))|].
  - done.
  - intros f s3 s4 K [H3 H4]. split; [by eapply kept_entry_at|]. intros a Ha. eapply kept_exit_at; [exact K|auto].
  - intros f s3 Hf Hwf3 [K3 I3] _. eapply wp_mono; [apply wp_mark_entry_and_exits; [done|..]|].
    + eapply kept_has_function; [exact K3|]. eapply kept_has_function; [apply G2|auto].
    + eapply kept_has_block; [exact K3|]. apply Hst. by apply (v_entry _ V).
    + intros a Ha. eapply kept_has_block; [exact K3|]. apply Hst. by apply (v_returns _ V f).
    + cbn beta. intros _ s4 (G4 & I4 & Q4 & R4). split_and!; [done|transitivity s3; [done|apply G4]|congruence|done|done].
  - done.
  - by split.
  - done.
  - cbn beta. intros _ s3 (G3 & [K3 I3] & Q3). split_and!; [done|by eapply indexed_since_same| |].
    + intros f Hf. destruct (Q3 f Hf). split_and!; [|done|done]. eapply kept_has_function; [exact K3|]. eapply kept_has_function; [apply G2|auto].
    + intros b Hb. eapply kept_has_block; [exact K3|]. apply Hst. by exists b.
Qed.
End Views.

(** ** Edges *)

Section Edges.
Context {Ma : Malloc} (E : CFG -> ArmsEdge -> Prop) (HE : stable E).

(** A new edge that leaves its function. *)
Lemma grow_linked s s' p q e x :
  cfg_wf s -> good s s' -> linked_to s s' p q e x -> E s' x -> fresh_edge x -> (internal x = true -> stored s q = true) -> grow E s s'.
Proof.
  intros Hwf G L HEx Hx Hst. pose proof (steady_grown _ _ (grown_linked_to (fun _ => False) _ _ _ _ _ _ L)) as W.
  apply grow_steady; [done|done|]. intros d y. rewrite (lk_edges _ _ _ _ _ _ L). intros [[<- <-]|[_ ?]]%lookup_insert_Some; [|auto].
  right. split_and!; [done|done|]. intros Hi. rewrite (lk_target _ _ _ _ _ _ L). eapply stored_steady; [exact W|auto].
Qed.

Definition call_or_ret (t : arms_edge_type) : Prop := t = arms_indirect_call \/ t = arms_ret.

Lemma wp_link_typed_grow s p q t :
  cfg_wf s -> bb_ok s p -> bb_ok s q -> call_or_ret t ->
  (forall s' x, kept s s' -> e_source x = p -> e_target x = q -> e_type x = t -> E s' x) ->
  wp (link_typed p q t) (fun _ s' => grow E s s' /\ c_start2bb s' = c_start2bb s /\ c_functions s' = c_functions s /\
    exists e x c, c_edges s' !! e = Some x /\ e_source x = p /\ e_target x = q /\ e_type x = t /\ c_bbs s' !! p = Some c /\ e ∈ b_out c) s.
Proof.
  intros Hwf Hp Hq Ht Hnew. eapply wp_mono; [by apply wp_link_typed|]. cbn beta. intros _ s' (G & e & x & L & Hx & Hh & Hi).
  pose proof (kept_steady _ _ (steady_grown _ _ (grown_linked_to (fun _ => False) _ _ _ _ _ _ L))) as K.
  pose proof (lk_source _ _ _ _ _ _ L) as Sx. pose proof (lk_target _ _ _ _ _ _ L) as Tx.
  split_and!; [|apply (lk_start2bb _ _ _ _ _ _ L)|apply (lk_functions _ _ _ _ _ _ L)|].
  - apply (grow_linked s s' p q e x Hwf G L); [by apply Hnew| |].
    + split_and!; [done|unfold edge_is_fastpath, is_fastpath; rewrite Hx; by destruct Ht as [->| ->]|].
      exists false. apply Hi. by destruct Ht as [->| ->].
    + unfold internal, edge_is_fastpath, edge_is_function_exit, edge_is_indirect, edge_is_return, edge_is_call, is_fastpath, is_indirect, is_return.
      rewrite Hx. by destruct Ht as [->| ->].
  - destruct Hp as [b Hb]. exists e, x, (link_bb p q e p b). rewrite (lk_edges _ _ _ _ _ _ L), (lk_bbs _ _ _ _ _ _ L), Hb, lookup_insert_eq.
    split_and!; try done. cbn. rewrite decide_True by done. set_solver.
Qed.

Lemma for_each_each body l : for_each body l = each body l.
Proof. induction l as [|x l IH]; [done|]. cbn. by rewrite IH. Qed.

(** Return edges are explained by their type. *)
Context (Hret : forall s x, e_type x = arms_ret -> E s x).

Lemma wp_create_ret_edges_grow s p a :
  cfg_wf s -> bb_ok s p -> wp (create_ret_edges p a) (fun _ s' => grow E s s' /\ c_start2bb s' = c_start2bb s) s.
Proof.
  intros Hwf [b Hb]. unfold create_ret_edges. eapply wp_reads; [by apply reads_bb_at|].
  destruct (find_bb_spec s (b_end b) Hwf) as (r & Hr & [[-> _]|(Hrn & _ & br & Hbr & _)]).
  { eapply wp_reads; [done|]. rewrite decide_True by done. by apply wp_grow_ret. }
  eapply wp_reads; [done|]. rewrite decide_False by done.
  destruct (find_bb_spec s a Hwf) as (q & Hq & [[-> _]|(Hqn & _ & bq & Hbq & _)]).
  { eapply wp_reads; [done|]. rewrite decide_True by done. by apply wp_grow_ret. }
  eapply wp_reads; [done|]. rewrite decide_False by done.
  eapply wp_reads; [by apply reads_bb_at|]. rewrite for_each_each.
  assert (forall s1 s2 x, kept s1 s2 -> bb_ok s1 x -> bb_ok s2 x) as Kb.
  { intros s1 s2 x K [c Hc]. destruct (kp_bbs _ _ K x c Hc) as (c' & Hc' & _). by exists c'. }
  eapply wp_mono; [apply (wp_each E HE (fun s' => c_start2bb s' = c_start2bb s) _ (b_funcs bq) s
    (fun f s' => fn_ok s' f /\ bb_ok s' r) (fun _ _ => True))|].
  - intros f s1 s2 K [[x Hx] Hbb]. split; [|by eapply Kb]. destruct (kp_fns _ _ K f x Hx) as (x' & Hx' & _). by exists x'.
  - done.
  - intros f s1 _ Hwf1 I1 [[x Hx] Hr1]. unfold callback_create_ret_edges. eapply wp_reads; [by apply reads_fn_at|]. rewrite for_each_each.
    eapply wp_mono; [apply (wp_each E HE (fun s' => c_start2bb s' = c_start2bb s) _ (in_order (f_exits x)) s1
      (fun e s' => bb_ok s' e /\ bb_ok s' r) (fun _ _ => True))|].
    + intros e s2 s3 K [H1 H2]. split; by eapply Kb.
    + done.
    + intros e s2 _ Hwf2 I2 [He Hr2]. eapply wp_mono; [apply (wp_link_typed_grow s2 e r arms_ret); [done|done|done|by right|auto]|].
      cbn beta. intros _ s3 (G3 & I3 & _). split_and!; [done|congruence|done].
    + done.
    + done.
    + intros e He%elem_of_in_order. split; [|done]. apply (wf_entries _ Hwf1 f x e Hx). by right; left.
    + cbn beta. intros _ s2 (G2 & I2 & _). done.
  - done.
  - done.
  - intros f Hf. split; [by apply (wf_funcs _ Hwf q bq)|by exists br].
  - cbn beta. intros _ s1 (G1 & I1 & _). done.
Qed.

Definition call_between (p a : Z) (s : CFG) : Prop := forall q, c_start2bb s !! a = Some q ->
  exists e x c, c_edges s !! e = Some x /\ e_source x = p /\ e_target x = q /\ e_type x = arms_indirect_call /\ c_bbs s !! p = Some c /\ e ∈ b_out c.

Lemma wp_create_call_edge_grow s p a :
  cfg_wf s -> bb_ok s p ->
  (forall s' x, kept s s' -> e_source x = p -> starts_at s' a (e_target x) -> e_type x = arms_indirect_call -> E s' x) ->
  wp (create_call_edge p a arms_indirect_call) (fun _ s' => grow E s s' /\ c_start2bb s' = c_start2bb s /\ call_between p a s') s.
Proof.
  intros Hwf Hp Hnew.
  unfold create_call_edge. destruct (find_bb_spec s a Hwf) as (q & Hq & [[-> Hn]|(Hqn & Ha & bq & Hbq & Hs)]).
  - eapply wp_reads; [done|]. rewrite decide_True by done. apply wp_grow_ret; [done|]. split; [done|]. intros q. congruence.
  - eapply wp_reads; [done|]. rewrite decide_False by done.
    eapply wp_mono; [apply (wp_link_typed_grow s p q arms_indirect_call); [done|done|by exists bq|by left|]|].
    + intros s' x K Hsrc Htrg Ht. apply Hnew; [done|done| |done]. destruct (kp_bbs _ _ K q bq Hbq) as (c & Hc & (_ & Hst & _) & _).
      exists c. rewrite Htrg. split; [done|congruence].
    + cbn beta. intros _ s' (G & I1 & _ & e & x & c & Hx & Hsr & Htr & Ht & Hc & Hin). split_and!; [done|done|].
      intros q'. rewrite I1, Ha. intros [= <-]. by exists e, x, c.
Qed.

Lemma wp_handle_call_grow s p a :
  cfg_wf s -> bb_ok s p ->
  (forall s' x, kept s s' -> e_source x = p -> starts_at s' a (e_target x) -> e_type x = arms_indirect_call -> E s' x) ->
  wp (handle_interprocedural p a arms_indirect_call) (fun _ s' => grow E s s' /\ c_start2bb s' = c_start2bb s /\ call_between p a s') s.
Proof.
  intros Hwf Hp Hnew. change (handle_interprocedural p a arms_indirect_call) with (handle_interprocedural_call p a arms_indirect_call).
  unfold handle_interprocedural_call.
  eapply (wp_grow_bind E HE) with (P := fun _ s' => c_start2bb s' = c_start2bb s /\ call_between p a s').
  { by apply wp_create_call_edge_grow. }
  intros _ s1 G1 (I1 & C1). pose proof (grow_wf _ _ _ G1) as Hwf1.
  assert (forall s', kept s1 s' -> c_start2bb s' = c_start2bb s1 -> call_between p a s') as Hcall.
  { intros s' K I' q Hq. rewrite I' in Hq. destruct (C1 q Hq) as (e & x & c & Hx & Hsr & Htr & Ht & Hc & Hin).
    destruct (kp_bbs _ _ K p c Hc) as (c' & Hc' & _ & Ho & _). exists e, x, c'. split_and!; [by apply (kp_edges _ _ K)|done..|by apply Ho]. }
  assert (bb_ok s1 p) as [b Hb].
  { destruct Hp as [b Hb]. destruct (kp_bbs _ _ (proj1 (proj2 G1)) p b Hb) as (b' & Hb' & _). by exists b'. }
  destruct (find_function_spec s1 a Hwf1) as (f & Hf & Hcase). eapply wp_reads; [done|].
  assert (exists plt : bool, reads (if decide (f = NULL) then mret false else x ← fn_at f; mret (f_plt x)) s1 plt) as [plt Hplt].
  { destruct Hcase as [[-> _]|(Hn & _ & x & Hx & _)].
    - exists false. by rewrite decide_True.
    - exists (f_plt x). rewrite decide_False by done. eapply reads_bind; [by apply reads_fn_at|apply reads_ret]. }
  eapply wp_reads; [exact Hplt|]. eapply (wp_grow_bind E HE) with (P := fun _ s' => c_start2bb s' = c_start2bb s1).
  { destruct plt; [|by apply wp_grow_ret]. eapply wp_reads; [by apply reads_bb_at|]. rewrite for_each_each.
    eapply wp_mono; [apply (wp_each E HE (fun s' => c_start2bb s' = c_start2bb s1) _ (b_funcs b) s1 (fun g s' => fn_ok s' g) (fun _ _ => True))|].
    - intros g s2 s3 K [x Hx]. destruct (kp_fns _ _ K g x Hx) as (x' & Hx' & _). by exists x'.
    - done.
    - intros g s2 _ Hwf2 I2 [x Hx]. eapply wp_mono; [apply (wp_on_fn_grow E s2 g x); [done|done|same| |done..|auto]|].
      + intros r. apply (wf_entries _ Hwf2 _ _ _ Hx).
      + cbn beta. intros _ s3 (G3 & _ & _ & I3 & _). split_and!; [done|congruence|done].
    - done.
    - done.
    - intros g Hg. by apply (wf_funcs _ Hwf1 p b).
    - cbn beta. intros _ s2 (G2 & I2 & _). done. }
  intros _ s2 G2 I2. pose proof (grow_wf _ _ _ G2) as Hwf2. cbn [edge_type_is_indirect negb].
  destruct (kp_bbs _ _ (proj1 (proj2 G2)) p b Hb) as (b2 & Hb2 & _).
  assert (c_start2bb s2 = c_start2bb s /\ call_between p a s2) as HQ by (split; [congruence|apply Hcall; [apply G2|done]]).
  eapply wp_reads; [by apply reads_bb_at|]. destruct (b_exit b2); [by apply wp_grow_ret|].
  eapply wp_mono; [apply wp_create_ret_edges_grow; [done|by exists b2]|]. cbn beta. intros _ s3 (G3 & I3). split_and!; [done|destruct HQ; congruence|].
  apply Hcall; [|congruence]. transitivity s2; [apply G2|apply G3].
Qed.
End Edges.

(** ** Every edge *)

(** The resolver gives at least one target, 0 if the script prints nothing. *)
Lemma split_nonempty sep l : split sep l <> [].
Proof. destruct l as [|c l]; [done|]. cbn. case_decide; [done|]. by destruct (split sep l). Qed.

Lemma resolver_nonempty script a : bool_decide (0 < length (arms_icall_resolver script a))%nat = true.
Proof.
  apply bool_decide_eq_true_2. unfold arms_icall_resolver. rewrite length_fmap. pose proof (split_nonempty 44 (script a)).
  destruct (split 44 (script a)); [done|]. cbn. lia.
Qed.

Section Inserted.
Context {Ma : Malloc} (script : Z -> list Z) (funcs : list pfunc) (V : view_ok funcs).

(** An edge of ParseAPI with its new type; its target has its address, or it
    is a new dummy block. *)
Definition copied (b : pblock) (pe : pedge) (s : CFG) (x : ArmsEdge) : Prop :=
  copied_type pe (bool_decide (pe_trg pe = sink)) = Some (e_type x) /\ starts_at s (pb_start b) (e_source x) /\
  (starts_at s (pe_trg pe) (e_target x) \/ pe_type pe ∈ [INDIRECT; RET]).

(** A call the script resolved. *)
Definition resolved (b : pblock) (s : CFG) (x : ArmsEdge) : Prop :=
  e_type x = arms_indirect_call /\ starts_at s (pb_start b) (e_source x) /\
  exists a, a ∈ arms_icall_resolver script (pb_last b) /\ starts_at s a (e_target x).

Definition explained (s : CFG) (x : ArmsEdge) : Prop := e_type x = arms_ret \/
  exists b pe, block_of funcs b /\ pe ∈ pb_targets b /\ (copied b pe s x \/ pe_type pe = CALL /\ resolved b s x).

Lemma kept_starts_at s s' a p : kept s s' -> starts_at s a p -> starts_at s' a p.
Proof. intros K (c & Hc & Ha). destruct (kp_bbs _ _ K p c Hc) as (c' & Hc' & (_ & Hs & _) & _). exists c'. split; [done|congruence]. Qed.

Lemma stable_explained : stable explained.
Proof.
  intros s s' x K [Hr|(b & pe & Hb & Hpe & Hcase)]; [by left|]. right. exists b, pe. split_and!; [done|done|].
  destruct Hcase as [(H1 & H2 & H3)|(Hc & H1 & H2 & a & Ha & H3)]; [left|right].
  - split_and!; [done|by eapply kept_starts_at|]. destruct H3; [left; by eapply kept_starts_at|by right].
  - split; [done|]. split_and!; [done|by eapply kept_starts_at|]. exists a. split; [done|by eapply kept_starts_at].
Qed.

(** The edge of ParseAPI is there: copied, or, for a call without a known target,
    resolved as far as the targets have blocks. *)
Definition edge_as (b : pblock) (pe : pedge) (s : CFG) : Prop := forall p, c_start2bb s !! pb_start b = Some p ->
  pe_type pe <> CALL_FT -> ~ (pe_type pe = RET /\ pe_trg pe = sink) ->
  (exists e x c, c_edges s !! e = Some x /\ e_source x = p /\ c_bbs s !! p = Some c /\ e ∈ b_out c /\ copied b pe s x) \/
  pe_type pe = CALL /\ ~ (pe_trg pe <> sink /\ start_of funcs (pe_trg pe)) /\
  forall a, a ∈ arms_icall_resolver script (pb_last b) -> call_between p a s.

Lemma kept_edge_as b pe s s' : kept s s' -> c_start2bb s' = c_start2bb s -> edge_as b pe s -> edge_as b pe s'.
Proof.
  intros K I Ha p. rewrite I. intros Hp H1 H2. destruct (Ha p Hp H1 H2) as [(e & x & c & Hx & Hsr & Hc & Hin & (Hc1 & Hc2 & Hc3))|(Hcall & Hn & Hres)]; [left|right].
  - destruct (kp_bbs _ _ K p c Hc) as (c' & Hc' & _ & Ho & _). exists e, x, c'.
    split_and!; [by apply (kp_edges _ _ K)|done|done|by apply Ho|]. split_and!; [done|by eapply kept_starts_at|].
    destruct Hc3; [left; by eapply kept_starts_at|by right].
  - split_and!; [done|done|]. intros a Hin q. rewrite I. intros Hq. destruct (Hres a Hin q Hq) as (e & x & c & Hx & Hsr & Htr & Ht & Hc & Hout).
    destruct (kp_bbs _ _ K p c Hc) as (c' & Hc' & _ & Ho & _). exists e, x, c'. split_and!; [by apply (kp_edges _ _ K)|done..|by apply Ho].
Qed.

(** An edge with its type, entered at both ends. *)
Lemma wp_copy_edge s p q pe t (u : bool) :
  cfg_wf s -> bb_ok s p -> bb_ok s q -> copied_type pe u = Some t ->
  wp (x ← new_ArmsEdge p q; copy_edge_type x pe u;; add_outgoing_edge p x;; add_incoming_edge q x)
     (fun _ s' => good s s' /\ exists e x, linked_to s s' p q e x /\ e_type x = t /\ e_hidden x = false /\ is_Some (e_intra x)) s.
Proof.
  intros Hwf Hp Hq Ht. unfold copy_edge_type. rewrite Ht. unfold new_ArmsEdge, new_edge, set_type, on_edge, edge_at, modify.
  unfold wp, mbind, M_bind. cbn. rewrite lookup_insert_eq. cbn. rewrite insert_insert_eq.
  set (e := malloc (allocated s)). set (x := set_type_of t _).
  match goal with |- context [add_outgoing_edge p e ?st] => set (s1 := st) end.
  destruct (run_ends s1 (fun X => {[e]} ∪ X) (fun X => {[e]} ∪ X) p q) as (h & Hrun & Hh); [done|done|].
  unfold mbind, M_bind in Hrun. unfold add_outgoing_edge, add_incoming_edge. rewrite Hrun.
  assert (linked_to s (set_bbs h s1) p q e x) as L.
  { split; [exact (proj1 (fresh_lookup s))|reflexivity|done|done|done|done|done|done|done|apply malloc_valid]. }
  split; [by apply (good_linked_to s _ p q e x)|]. exists e, x. split_and!; [done..|]. subst x. cbn. destruct (inter_type t); by eexists.
Qed.

Lemma wp_create_dummy s f : cfg_wf s -> f = NULL \/ fn_ok s f ->
  wp (create_dummy_basic_block f) (fun p s' => good s s' /\ steady s s' /\ c_edges s' = c_edges s /\ c_start2bb s' = c_start2bb s /\ bb_ok s' p) s.
Proof.
  intros Hwf Hf. unfold create_dummy_basic_block. eapply wp_bind, wp_mono; [by apply wp_count_dummy|]. cbn beta. intros d s1 [G1 ->].
  match goal with |- wp _ _ ?st => set (s1 := st) in * end. pose proof (good_wf _ _ G1) as Hwf1.
  assert (grown (fun _ => False) s s1) as W1 by (split; try done; intros r c Hc; exists c; split_and!; [done|same|done|done]).
  eapply wp_bind, wp_mono; [apply wp_and_wlp; [apply (wp_new_bb s1); [done|exact Hf]|apply (grown_new_bb (fun _ => False))]|].
  cbn beta. intros p s2 ((G2 & _ & _ & [i Hb] & _) & W2 & E2 & _).
  eapply wp_bind, wp_mono; [apply wp_and_wlp; [apply (wp_on_bb_flags _ _ _ _ (good_wf _ _ G2) Hb); same|apply (grown_on_bb (fun _ => False) s2 p set_dummy)]|].
  { intros c. split; [same|done]. }
  cbn beta. intros _ s3 ([G3 Hs3] & W3 & E3). assert (grown (fun _ => False) s s3) as W by (transitivity s1; [done|by transitivity s2]).
  apply wp_ret. split_and!.
  - eapply good_trans; [exact G1|]. by eapply good_trans.
  - by apply steady_grown.
  - by rewrite E3, E2.
  - apply map_eq. intros k. apply (gw_index _ _ _ W k). tauto.
  - rewrite Hs3. eexists. cbn. apply lookup_insert_eq.
Qed.

(** The blocks of the view are in the graph. *)
Definition blocks_in (s : CFG) : Prop := forall a, start_of funcs a -> has_block a s.

Lemma blocks_in_same s s' : c_start2bb s' = c_start2bb s -> blocks_in s -> blocks_in s'.
Proof. intros I Hb a Ha. unfold has_block. rewrite I. by apply Hb. Qed.

Lemma not_exit_types pe t u : copied_type pe u = Some t -> pe_type pe ∈ [CALL; INDIRECT; RET] ->
  forall x, e_type x = t -> internal x = false.
Proof.
  intros Ht Hpe x Hx. unfold internal, edge_is_fastpath, edge_is_function_exit, edge_is_indirect, edge_is_return, edge_is_call, is_fastpath, is_indirect, is_return.
  rewrite Hx. unfold copied_type in Ht. assert (pe_type pe = CALL \/ pe_type pe = INDIRECT \/ pe_type pe = RET) as [He|[He|He]] by set_solver.
  all: rewrite He in Ht; injection Ht as <-; by destruct u, (pe_interproc pe).
Qed.

Lemma not_fastpath pe t u : copied_type pe u = Some t -> t <> arms_fastpath.
Proof. unfold copied_type. destruct (pe_type pe), u, (pe_interproc pe); congruence. Qed.

Lemma wp_insert_plain s g p q b pe t :
  let u := bool_decide (pe_trg pe = sink) in
  cfg_wf s -> g = NULL \/ fn_ok s g -> c_start2bb s !! pb_start b = Some p -> block_of funcs b -> pe ∈ pb_targets b ->
  copied_type pe u = Some t ->
  (q = NULL /\ pe_type pe ∈ [INDIRECT; RET] \/ q <> NULL /\ c_start2bb s !! pe_trg pe = Some q) ->
  wp (q ← (if decide (q = NULL) then create_dummy_basic_block g else mret q);
      x ← new_ArmsEdge p q; copy_edge_type x pe u;; add_outgoing_edge p x;; add_incoming_edge q x)
     (fun _ s' => grow explained s s' /\ c_start2bb s' = c_start2bb s /\
        exists e x c, c_edges s' !! e = Some x /\ e_source x = p /\ c_bbs s' !! p = Some c /\ e ∈ b_out c /\ copied b pe s' x) s.
Proof.
  intros u Hwf Hg Hp Hbo Hpe Ht Hq. destruct (wf_start2bb _ Hwf _ _ Hp) as (c & Hc & Hcs).
  eapply (wp_grow_bind explained stable_explained) with (P := fun q' s' => c_start2bb s' = c_start2bb s /\ bb_ok s' q' /\
    (starts_at s' (pe_trg pe) q' /\ stored s' q' = true \/ pe_type pe ∈ [INDIRECT; RET])).
  { destruct Hq as [[-> Htype]|[Hne Hq]].
    - rewrite decide_True by done. eapply wp_mono; [by apply wp_create_dummy|]. cbn beta. intros q' s' (G & W & E1 & I1 & Hok). split_and!; [|done|done|by right].
      apply grow_steady; [done|done|]. intros e x. rewrite E1. auto.
    - rewrite decide_False by done. destruct (wf_start2bb _ Hwf _ _ Hq) as (d & Hd & Hds). apply wp_grow_ret; [done|].
      split_and!; [done|by exists d|]. left. split; [by exists d|by eapply stored_found]. }
  intros q' s1 G1 (I1 & Hq1 & Hcase). pose proof (grow_wf _ _ _ G1) as Hwf1.
  destruct (kp_bbs _ _ (proj1 (proj2 G1)) p c Hc) as (c1 & Hc1 & (_ & Hs1 & _) & _).
  eapply wp_mono; [apply (wp_copy_edge s1 p q' pe t u); [done|by exists c1|done|done]|].
  cbn beta. intros _ s2 (G2 & e & x & L & Hx & Hh & Hi).
  pose proof (kept_steady _ _ (steady_grown _ _ (grown_linked_to (fun _ => False) _ _ _ _ _ _ L))) as K2.
  pose proof (lk_source _ _ _ _ _ _ L) as Sx. pose proof (lk_target _ _ _ _ _ _ L) as Tx.
  assert (copied b pe s2 x) as Hcop.
  { split_and!; [by rewrite Hx|rewrite Sx; eapply kept_starts_at; [exact K2|]; exists c1; split; [done|congruence]|].
    rewrite Tx. destruct Hcase as [[Hst _]|?]; [left; by eapply kept_starts_at|by right]. }
  split_and!.
  - apply (grow_linked explained s1 s2 p q' e x Hwf1 G2 L).
    + right. exists b, pe. auto.
    + split_and!; [done| |done]. apply bool_decide_eq_false_2. rewrite Hx. by eapply not_fastpath.
    + intros Hint. destruct Hcase as [[_ ?]|Htype]; [done|]. rewrite (not_exit_types pe t u Ht) in Hint; [done| |done]. set_solver.
  - rewrite (lk_start2bb _ _ _ _ _ _ L). done.
  - exists e, x, (link_bb p q' e p c1). rewrite (lk_edges _ _ _ _ _ _ L), (lk_bbs _ _ _ _ _ _ L), Hc1, lookup_insert_eq.
    split_and!; try done. cbn. rewrite decide_True by done. set_solver.
Qed.

(** The targets the script names, as far as they have blocks. *)
Lemma wp_resolve s p b pe :
  cfg_wf s -> c_start2bb s !! pb_start b = Some p -> block_of funcs b -> pe ∈ pb_targets b -> pe_type pe = CALL ->
  wp (each (fun a => handle_interprocedural p a arms_indirect_call) (arms_icall_resolver script (pb_last b)))
     (fun _ s' => grow explained s s' /\ c_start2bb s' = c_start2bb s /\
        forall a, a ∈ arms_icall_resolver script (pb_last b) -> call_between p a s') s.
Proof.
  intros Hwf Hp Hbo Hpe Hcall.
  destruct (wf_start2bb _ Hwf _ _ Hp) as (c & Hc & Hcs).
  eapply wp_mono; [apply (wp_each explained stable_explained (fun s' => kept s s' /\ c_start2bb s' = c_start2bb s)
    _ (arms_icall_resolver script (pb_last b)) s (fun _ _ => True)
    (fun a s' => forall q, c_start2bb s !! a = Some q -> exists e x c, c_edges s' !! e = Some x /\ e_source x = p /\ e_target x = q /\
       e_type x = arms_indirect_call /\ c_bbs s' !! p = Some c /\ e ∈ b_out c))|].
  - done.
  - intros a s1 s2 K Hfrom q Hq'. destruct (Hfrom q Hq') as (e & x & d & Hx & Hsr & Htr & Hty & Hd & Hout).
    destruct (kp_bbs _ _ K p d Hd) as (d' & Hd' & _ & Ho & _). exists e, x, d'. split_and!; [by apply (kp_edges _ _ K)|done..|by apply Ho].
  - intros a s1 Ha Hwf1 [K1 I1] _. eapply wp_mono; [apply (wp_handle_call_grow explained stable_explained (fun s x H => or_introl H)); [done| |]|].
    + destruct (kp_bbs _ _ K1 p c Hc) as (d & Hd & _). by exists d.
    + intros s' x K Hsr Htr Hty. right. exists b, pe. split_and!; [done|done|]. right. split; [done|]. split_and!; [done| |by exists a].
      rewrite Hsr. eapply kept_starts_at; [exact K|]. eapply kept_starts_at; [exact K1|]. by exists c.
    + cbn beta. intros _ s2 (G2 & I2 & C2). split_and!; [done|transitivity s1; [done|apply G2]|congruence|].
      intros q Hq'. apply C2. by rewrite I2, I1.
  - done.
  - done.
  - done.
  - cbn beta. intros _ s1 (G1 & [K1 I1] & C1). split_and!; [done|done|]. intros a Ha q Hq'. rewrite I1 in Hq'. exact (C1 a Ha q Hq').
Qed.

Lemma wp_insert_edge s g p b pe :
  cfg_wf s -> g = NULL \/ fn_ok s g -> c_start2bb s !! pb_start b = Some p -> block_of funcs b -> pe ∈ pb_targets b -> blocks_in s ->
  wp (insert_edge script g p b pe) (fun _ s' => grow explained s s' /\ c_start2bb s' = c_start2bb s /\ edge_as b pe s') s.
Proof.
  intros Hwf Hg Hp Hbo Hpe Hin. unfold insert_edge. set (u := bool_decide (pe_trg pe = sink)).
  destruct (decide (pe_type pe = CALL_FT)) as [Hft|Hft].
  { apply wp_grow_ret; [done|]. split; [done|]. intros p' _ H1. done. }
  destruct (bool_decide (pe_type pe = RET) && u) eqn:Hru.
  { apply andb_true_iff in Hru as [Hr%bool_decide_eq_true Hu%bool_decide_eq_true]. apply wp_grow_ret; [done|]. split; [done|].
    intros p' _ _ H2. by destruct H2. }
  assert (exists t, copied_type pe u = Some t) as [t Ht].
  { destruct (v_types _ V b pe Hbo Hpe). unfold copied_type. destruct (pe_type pe); eauto; done. }
  assert (exists q, reads (if u then mret NULL else find_bb (pe_trg pe)) s q /\
    (q = NULL /\ (u = true \/ c_start2bb s !! pe_trg pe = None) \/ q <> NULL /\ c_start2bb s !! pe_trg pe = Some q)) as (q & Hq & Hcase).
  { destruct u eqn:Hu; [exists NULL; split; [done|by left; auto]|]. destruct (find_bb_spec s (pe_trg pe) Hwf) as (q & Hq & [[-> ?]|(? & ? & _)]); eauto 7. }
  eapply wp_reads; [exact Hq|].
  destruct (bool_decide (q = NULL) && bool_decide (pe_type pe = CALL)) eqn:Hres.
  - apply andb_true_iff in Hres as [->%bool_decide_eq_true Hcall%bool_decide_eq_true]. cbv zeta. rewrite resolver_nonempty.
    eapply (wp_grow_bind explained stable_explained) with (P := fun (r : bool) s' => r = true /\ c_start2bb s' = c_start2bb s /\
      forall a, a ∈ arms_icall_resolver script (pb_last b) -> call_between p a s').
    { eapply (wp_grow_bind explained stable_explained) with (P := fun _ s' => c_start2bb s' = c_start2bb s /\
        forall a, a ∈ arms_icall_resolver script (pb_last b) -> call_between p a s').
      2: { intros _ s1 G1 [I1 C1]. apply wp_grow_ret; [by eapply grow_wf|done]. }
      by apply (wp_resolve s p b pe). }
    intros r s1 G1 (-> & I1 & C1). apply wp_grow_ret; [by eapply grow_wf|]. split; [done|]. intros p' Hp' _ _. rewrite I1, Hp in Hp'.
    injection Hp' as <-. right. split_and!; [done| |done]. intros [Hns Hst]. destruct (Hin _ Hst) as [r Hr].
    destruct Hcase as [[_ [Hu%bool_decide_eq_true|Hn]]|[? _]]; [done|congruence|done].
  - eapply wp_reads; [apply reads_ret|]. cbv iota.
    eapply wp_mono; [apply (wp_insert_plain s g p q b pe t); try done|].
    { destruct Hcase as [[-> Hno]|[Hne Hq']]; [left|right; done]. split; [done|].
      cbn [bool_decide decide_rel andb] in Hres. apply bool_decide_eq_false in Hres.
      destruct (decide (pe_type pe ∈ [CALL; INDIRECT; RET])) as [Hty|Hty]; [set_solver|].
      destruct (v_targets _ V b pe Hbo Hpe Hty) as [Hns Hst]. destruct (Hin _ Hst) as [r Hr].
      destruct Hno as [Hu%bool_decide_eq_true|?]; [done|congruence]. }
    cbn beta. intros _ s1 (G1 & I1 & Hex). split_and!; [done|done|]. intros p' Hp' _ _. rewrite I1, Hp in Hp'. injection Hp' as <-. by left.
Qed.

Lemma wp_insert_block_edges g blocks : forall s seen,
  cfg_wf s -> g = NULL \/ fn_ok s g -> blocks_in s -> (forall b, b ∈ blocks -> block_of funcs b) ->
  wp (insert_block_edges script g blocks seen) (fun seen' s' => grow explained s s' /\ c_start2bb s' = c_start2bb s /\
    (forall a, a ∈ seen' <-> a ∈ seen \/ exists b, b ∈ blocks /\ pb_start b = a) /\
    forall b, b ∈ blocks -> pb_start b ∈ seen \/ exists b', b' ∈ blocks /\ pb_start b' = pb_start b /\ forall pe, pe ∈ pb_targets b' -> edge_as b' pe s') s.
Proof.
  induction blocks as [|b blocks IH]; intros s seen Hwf Hg Hin Hbs; cbn [insert_block_edges].
  { apply wp_grow_ret; [done|]. split_and!; [done| |by intros b ?%not_elem_of_nil]. intros a. split; [auto|].
    intros [?|(b & ?%not_elem_of_nil & _)]; done. }
  assert (block_of funcs b) as Hbo by (apply Hbs; left). destruct (Hin (pb_start b)) as [p Hp]; [by exists b|].
  eapply wp_reads; [apply reads_gets|]. rewrite Hp. cbn [default from_option]. change (id p) with p.
  destruct (decide (pb_start b ∈ seen)) as [Hseen|Hseen].
  { eapply wp_mono; [apply IH; [done|done|done|intros c Hc; apply Hbs; by right]|]. cbn beta. intros seen' s' (G & I & Hs & Hall).
    split_and!; [done|done| |].
    - intros a. rewrite Hs. setoid_rewrite elem_of_cons. naive_solver.
    - intros c [->|Hc]%elem_of_cons; [by left|]. destruct (Hall c Hc) as [?|(c' & Hc' & Hst & He)]; [by left|]. right. exists c'. split_and!; [by right|done|done]. }
  eapply (wp_grow_bind explained stable_explained) with (P := fun _ s' => c_start2bb s' = c_start2bb s /\ forall pe, pe ∈ pb_targets b -> edge_as b pe s').
  { eapply wp_mono; [apply (wp_each_inv explained stable_explained (fun s' => kept s s' /\ c_start2bb s' = c_start2bb s) _ (pb_targets b) s
      (fun _ _ => True) (fun pe => edge_as b pe))|].
    - done.
    - intros pe s1 s2 K [_ I1] [_ I2]. apply kept_edge_as; [done|congruence].
    - intros pe s1 Hpe Hwf1 [K1 I1] _. eapply wp_mono; [apply wp_insert_edge; [done| |by rewrite I1|done|done|by eapply blocks_in_same]|].
      + destruct Hg as [?|[x Hx]]; [by left|right]. destruct (kp_fns _ _ K1 g x Hx) as (x' & Hx' & _). by exists x'.
      + cbn beta. intros _ s2 (G2 & I2 & E2). split_and!; [done|transitivity s1; [done|apply G2]|congruence|done].
    - done.
    - done.
    - done.
    - cbn beta. intros _ s1 (G1 & [_ I1] & E1). done. }
  intros _ s1 G1 (I1 & E1). pose proof (grow_wf _ _ _ G1) as Hwf1. assert (g = NULL \/ fn_ok s1 g) as Hg1.
  { destruct Hg as [?|[x Hx]]; [by left|right]. destruct (kp_fns _ _ (proj1 (proj2 G1)) g x Hx) as (x' & Hx' & _). by exists x'. }
  eapply wp_mono; [apply IH; [done|done|by eapply blocks_in_same|intros c Hc; apply Hbs; by right]|]. cbn beta. intros seen' s' (G & I & Hs & Hall).
  split_and!; [done|congruence| |].
  - intros a. rewrite Hs, elem_of_union, elem_of_singleton. setoid_rewrite elem_of_cons. naive_solver.
  - assert (forall pe, pe ∈ pb_targets b -> edge_as b pe s') as Hb' by (intros pe Hpe; eapply kept_edge_as; [apply G|done|auto]).
    intros c [->|Hc]%elem_of_cons; [right; exists b; split_and!; [by left|done|done]|].
    destruct (Hall c Hc) as [[Heq%elem_of_singleton|?]%elem_of_union|(c' & Hc' & Hst & He)]; [|by left|].
    + right. exists b. split_and!; [by left|done|done].
    + right. exists c'. split_and!; [by right|done|done].
Qed.

Lemma wp_insert_function_edges fs : forall s seen,
  cfg_wf s -> blocks_in s -> (forall f, f ∈ fs -> f ∈ funcs) ->
  wp (insert_function_edges script fs seen) (fun _ s' => grow explained s s' /\ c_start2bb s' = c_start2bb s /\
    forall b, block_of fs b -> pb_start b ∈ seen \/
      exists b', block_of funcs b' /\ pb_start b' = pb_start b /\ forall pe, pe ∈ pb_targets b' -> edge_as b' pe s') s.
Proof.
  induction fs as [|f fs IH]; intros s seen Hwf Hin Hfs; cbn [insert_function_edges].
  { apply wp_grow_ret; [done|]. split; [done|]. by intros b (f & ?%not_elem_of_nil & _). }
  assert (exists g, reads (find_function (pf_addr f)) s g /\ (g = NULL \/ fn_ok s g)) as (g & Hg & Hgo).
  { destruct (find_function_spec s (pf_addr f) Hwf) as (g & Hg & [[-> _]|(_ & _ & x & Hx & _)]); exists g || exists NULL; (split; [done|]).
    - by left.
    - right. by exists x. }
  eapply wp_reads; [exact Hg|]. assert (f ∈ funcs) as Hf by (apply Hfs; left).
  eapply (wp_grow_bind explained stable_explained); [apply (wp_insert_block_edges g (pf_blocks f) s seen); [done|done|done|]|].
  { intros b Hb. by exists f. }
  cbn beta. intros seen1 s1 G1 (I1 & Hseen & Hall).
  eapply wp_mono; [apply (IH s1 seen1); [by eapply grow_wf|by eapply blocks_in_same|intros h Hh; apply Hfs; by right]|].
  cbn beta. intros _ s2 (G2 & I2 & Hrest). split_and!; [done|congruence|].
  assert (forall b, b ∈ pf_blocks f -> pb_start b ∈ seen \/
    exists b', block_of funcs b' /\ pb_start b' = pb_start b /\ forall pe, pe ∈ pb_targets b' -> edge_as b' pe s2) as Hthis.
  { intros b Hb. destruct (Hall b Hb) as [?|(b' & Hb' & Hst & He)]; [by left|right]. exists b'. split_and!; [by exists f|done|].
    intros pe Hpe. eapply kept_edge_as; [apply G2|done|auto]. }
  intros b (h & [->|Hh]%elem_of_cons & Hb); [by apply Hthis|].
  destruct (Hrest b) as [Hs|?]; [by exists h| |by right]. apply Hseen in Hs as [?|(c & Hc & Heq)]; [by left|].
  rewrite <- Heq. by apply Hthis.
Qed.

(** Blocks with the same start are the same block. *)
Lemma wp_insert_edges s :
  cfg_wf s -> blocks_in s -> (forall b b', block_of funcs b -> block_of funcs b' -> pb_start b = pb_start b' -> b = b') ->
  wp (insert_edges script funcs) (fun _ s' => grow explained s s' /\ c_start2bb s' = c_start2bb s /\
    forall b pe, block_of funcs b -> pe ∈ pb_targets b -> edge_as b pe s') s.
Proof.
  intros Hwf Hin Hsame. eapply wp_mono; [by apply (wp_insert_function_edges funcs s ∅)|]. cbn beta. intros _ s' (G & I & Hall).
  split_and!; [done|done|]. intros b pe Hb Hpe. destruct (Hall b Hb) as [[]%elem_of_empty|(b' & Hb' & Hst & He)].
  rewrite (Hsame b' b Hb' Hb Hst) in He. auto.
Qed.
End Inserted.

(** ** The whole binary *)

(** What the function binding table names is marked, if it is a function. *)
Definition plt_at (a : Z) (s : CFG) : Prop :=
  forall f, c_functions s !! a = Some f -> exists x, c_fns s !! f = Some x /\ f_plt x = true.

Lemma plt_at_same a s s' : kept s s' -> c_functions s' = c_functions s -> plt_at a s -> plt_at a s'.
Proof.
  intros K J Hp f. rewrite J. intros Hf. destruct (Hp f Hf) as (x & Hx & Hpl).
  destruct (kp_fns _ _ K f x Hx) as (x' & Hx' & _ & _ & _ & _ & Hk). eauto.
Qed.

Section Binary.
Context {Ma : Malloc}.
#[local] Notation E := no_edge.
#[local] Notation HE := stable_no_edge.

Lemma wp_widen s lo hi : cfg_wf s ->
  wp (widen lo hi) (fun _ s' => grow E s s' /\ c_start2bb s' = c_start2bb s /\ c_functions s' = c_functions s) s.
Proof.
  intros Hwf. unfold widen, modify, wp. cbn. split_and!; [|done|done].
  split_and!; [split_and!|split|intros [_ Hst Hed]; split; [by apply set_addrs_wf|done|done]|auto]; try done.
  - by apply set_addrs_wf.
  - split; intros ? y Hy; exists y; (split; [done|same]).
  - intros p b Hb. exists b. split_and!; [done|same|done|done].
  - intros f x Hx. exists x. split_and!; [done|same|done..].
Qed.

Lemma wp_mark_plt s a : cfg_wf s ->
  wp (mark_function_as_plt a) (fun _ s' => grow E s s' /\ c_start2bb s' = c_start2bb s /\ c_functions s' = c_functions s /\ plt_at a s') s.
Proof.
  intros Hwf. unfold mark_function_as_plt. destruct (find_function_spec s a Hwf) as (f & Hf & [[-> Hn]|(Hne & Ha & x & Hx & _)]);
    (eapply wp_reads; [exact Hf|]).
  { rewrite decide_True by done. apply wp_grow_ret; [done|]. split_and!; [done|done|]. intros g. congruence. }
  rewrite decide_False by done. eapply wp_mono; [apply (wp_on_fn_grow E s f x); [done|done|same| |done..|auto]|].
  { intros r. apply (wf_entries _ Hwf _ _ _ Hx). }
  cbn beta. intros _ s' (G & Hx' & _ & I & J). split_and!; [done|done|done|]. intros g. rewrite J, Ha. intros [= <-]. eauto.
Qed.

Lemma wp_parse_all s modules fbt funcs :
  cfg_wf s -> view_ok funcs ->
  wp (parse_all modules fbt funcs) (fun _ s' => grow E s s' /\ indexed_since funcs s s' /\ (forall f, f ∈ funcs -> function_as f s') /\
    blocks_in funcs s' /\ forall a, a ∈ fbt -> plt_at a s') s.
Proof.
  intros Hwf V. unfold parse_all.
  eapply (wp_grow_bind E HE).
  { apply (wp_each E HE (fun s' => c_start2bb s' = c_start2bb s) _ modules s (fun _ _ => True) (fun _ _ => True)); try done.
    intros m s1 _ Hwf1 I1 _. eapply wp_mono; [by apply wp_widen|]. cbn beta. intros _ s2 (G2 & I2 & _). split_and!; [done|congruence|done]. }
  cbn beta. intros _ s1 G1 (I1 & _). pose proof (grow_wf _ _ _ G1) as Hwf1.
  eapply (wp_grow_bind E HE); [by apply wp_insert_functions_and_bbs|]. cbn beta. intros _ s2 G2 (Hix & Hfs & Hbs). pose proof (grow_wf _ _ _ G2) as Hwf2.
  eapply wp_mono; [apply (wp_each_inv E HE (fun s' => kept s2 s' /\ c_start2bb s' = c_start2bb s2 /\ c_functions s' = c_functions s2) _ fbt s2
    (fun _ _ => True) plt_at)|].
  - done.
  - intros a s3 s4 K (_ & _ & J3) (_ & _ & J4). apply plt_at_same; [done|congruence].
  - intros a s3 _ Hwf3 (K3 & I3 & J3) _.
    eapply (wp_grow_bind E HE); [by apply wp_widen|]. cbn beta. intros _ s4 G4 (I4 & J4).
    eapply wp_mono; [apply wp_mark_plt; by eapply grow_wf|]. cbn beta. intros _ s5 (G5 & I5 & J5 & Hp).
    split_and!; [done| |congruence|congruence|done]. transitivity s3; [done|]. transitivity s4; [apply G4|apply G5].
  - done.
  - done.
  - done.
  - cbn beta. intros _ s3 (G3 & (K3 & I3 & J3) & Hp). split_and!; [done| | | |done].
    + intros k Hk. destruct (indexed_since_same funcs s1 s2 s3 K3 I3 Hix k Hk) as [Hk1|?]; [|by right]. left. unfold has_block in *. by rewrite <- I1.
    + intros f Hf. eapply kept_function_as; [exact K3|auto].
    + intros a (b & Hb & <-). eapply kept_has_block; [exact K3|auto].
Qed.
End Binary.

(** ** Functions *)

Section Functions.
Context {Ma : Malloc} (script : Z -> list Z).

(** The functions are those there were, and those of the view. *)
Definition functions_from (funcs : list pfunc) (s s' : CFG) : Prop :=
  forall k, is_Some (c_functions s' !! k) -> is_Some (c_functions s !! k) \/ exists f, f ∈ funcs /\ pf_addr f = k.

Lemma wlp_insert_functions funcs s : wlp (each insert_function funcs) (fun _ s' => functions_from funcs s s') s.
Proof.
  revert s. induction funcs as [|f funcs IH]; intros s; cbn [each]; [intros a s' [= _ <-] k; auto|].
  apply wlp_bind. assert (wlp (insert_function f) (fun _ s1 => forall k, is_Some (c_functions s1 !! k) -> is_Some (c_functions s !! k) \/ pf_addr f = k) s) as Hf.
  { intros a s1. unfold insert_function, find_function, gets, mbind, M_bind. destruct (bool_decide _); cbn [negb]; [|intros [= _ <-]; auto].
    unfold new_fn, store_function, mbind, M_bind, fn_at, modify. cbn. rewrite lookup_insert_eq. cbn. intros [= _ <-] k. cbn.
    rewrite lookup_insert_is_Some. tauto. }
  eapply wlp_mono; [exact Hf|]. cbn beta. intros _ s1 H1. eapply wlp_mono; [apply IH|]. cbn beta. intros _ s2 H2 k Hk.
  destruct (H2 k Hk) as [[?|<-]%H1|(g & Hg & <-)]; [by left|right; exists f; by split; [left|]|right; exists g; by split; [right|]].
Qed.

Lemma wlp_build_functions modules fbt funcs s :
  wlp (dyninst_build_cfg script modules fbt funcs) (fun _ s' => functions_from funcs s s') s.
Proof.
  assert (forall {A B} (m : M A) (f : A -> M B) s, wlp m (fun _ s' => functions_from funcs s s') s -> (forall a, framed same_functions (f a)) ->
    wlp (m ≫= f) (fun _ s' => functions_from funcs s s') s) as Hthen.
  { intros A B m f s1 Hm Hf. apply wlp_bind. eapply wlp_mono; [exact Hm|]. cbn beta. intros a s2 H2 b s3 H3 k. rewrite (Hf a _ _ _ H3). apply H2. }
  unfold dyninst_build_cfg. apply Hthen; [|intros _; apply framed_insert_edges, _]. unfold parse_all.
  intros u s'. unfold mbind at 1, M_bind at 1. destruct (each _ modules s) as [[[] s1]|] eqn:H1; [|done].
  assert (c_functions s1 = c_functions s) as E1.
  { revert H1. apply (framed_each same_functions). framed. }
  intros Hrun k Hk. rewrite <- E1. revert k Hk. revert u s' Hrun.
  apply (Hthen _ _ (insert_functions_and_bbs funcs) _ s1); [|framed]. unfold insert_functions_and_bbs.
  apply Hthen; [apply wlp_insert_functions|framed].
Qed.

(** No function stands for a library. *)
Lemma framed_insert_function f : framed keeps_no_lib (insert_function f).
Proof.
  intros s a s'. unfold insert_function, find_function, gets, mbind, M_bind. destruct (bool_decide _); cbn [negb]; [|intros [= _ <-] Hn; exact Hn].
  unfold new_fn, store_function, mbind, M_bind, fn_at, modify. cbn. rewrite lookup_insert_eq. cbn. intros [= _ <-] Hn.
  apply map_Forall_insert_2; done.
Qed.
#[local] Hint Resolve framed_insert_function : framed.

Lemma framed_build_no_lib modules fbt funcs : framed keeps_no_lib (dyninst_build_cfg script modules fbt funcs).
Proof. unfold dyninst_build_cfg, parse_all, insert_functions_and_bbs. framed. Qed.
End Functions.


(** ** The graph that is built *)

(** Blocks with the same start are the same block. *)
Definition one_block (funcs : list pfunc) : Prop :=
  forall b b', block_of funcs b -> block_of funcs b' -> pb_start b = pb_start b' -> b = b'.

Definition marked_plt (a : Z) (s : CFG) : Prop := exists f x, c_functions s !! a = Some f /\ c_fns s !! f = Some x /\ f_plt x = true.

(** The graph has the view: its functions, its blocks and its edges, with the
    blocks in their functions, and no others. *)
Record represents (script : Z -> list Z) (fbt : list Z) (funcs : list pfunc) (s : CFG) : Prop := {
  rp_function f : f ∈ funcs -> function_as f s /\ (pf_addr f ∈ fbt -> marked_plt (pf_addr f) s);
  rp_only_functions k : has_function k s -> exists f, f ∈ funcs /\ pf_addr f = k;
  rp_block b : block_of funcs b -> block_as b s;
  rp_only_blocks k : has_block k s -> start_of funcs k;
  rp_edge b pe : block_of funcs b -> pe ∈ pb_targets b -> edge_as script funcs b pe s;
  rp_only_edges e x : c_edges s !! e = Some x -> explained script funcs s x
}.

Section Built.
Context {Ma : Malloc} (script : Z -> list Z).

Lemma cfg_empty_tidy : tidy cfg_empty.
Proof. split; [apply cfg_empty_wf|split|]; intros ? ? Hx; cbn in Hx; by apply lookup_empty_Some in Hx. Qed.

Lemma build_spec modules fbt funcs : view_ok funcs -> one_block funcs ->
  exists s, dyninst_build_cfg script modules fbt funcs cfg_empty = Some (tt, s) /\ tidy s /\ linked s /\ represents script fbt funcs s.
Proof.
  intros V One. destruct cfg_empty_wf as [Hwf Hl].
  assert (wp (dyninst_build_cfg script modules fbt funcs) (fun _ s => tidy s /\ linked s /\
    (functions_from funcs cfg_empty s -> represents script fbt funcs s)) cfg_empty) as Hw.
  { unfold dyninst_build_cfg. eapply wp_bind, wp_mono; [by apply wp_parse_all|]. cbn beta. intros _ s1 (G1 & Hix & Hfs & Hbs & Hplt).
    eapply wp_mono; [apply (wp_insert_edges script funcs V s1); [by eapply grow_wf|done|exact One]|]. cbn beta. intros _ s2 (G2 & I2 & He).
    split_and!.
    - apply G2, G1, cfg_empty_tidy.
    - apply (proj1 G2), (proj1 G1), Hl.
    - intros Hfrom. assert (forall k, has_block k s1 -> exists b, block_of funcs b /\ pb_start b = k /\ block_as b s1) as Hblk.
      { intros k Hk. destruct (Hix k Hk) as [[p Hp]|?]; [|done]. cbn in Hp. by apply lookup_empty_Some in Hp. }
      split.
      + intros f Hf. split; [eapply kept_function_as; [apply G2|auto]|]. intros Hin. destruct (Hfs f Hf) as ([g Hg] & _).
        destruct (Hplt _ Hin g Hg) as (x & Hx & Hpl). destruct (kp_fns _ _ (proj1 (proj2 G2)) g x Hx) as (x' & Hx' & _ & _ & _ & _ & Hk).
        exists g, x'. split_and!; [by apply (kp_functions _ _ (proj1 (proj2 G2)))|done|auto].
      + intros k Hk. destruct (Hfrom k Hk) as [[p Hp]|?]; [cbn in Hp; by apply lookup_empty_Some in Hp|done].
      + intros b Hb. destruct (Hblk (pb_start b)) as (c & Hc & Hst & Has); [apply Hbs; by exists b|].
        rewrite (One c b Hc Hb Hst) in Has. eapply kept_block_as; [apply G2|done].
      + intros k Hk. unfold has_block in Hk. rewrite I2 in Hk. destruct (Hblk k Hk) as (b & ? & ? & _). by exists b.
      + done.
      + intros e x Hx. destruct (proj2 (proj2 (proj2 G2)) e x Hx) as [Hx1|?]; [|done].
        destruct (proj2 (proj2 (proj2 G1)) e x Hx1) as [Hx0|[]]. cbn in Hx0. by apply lookup_empty_Some in Hx0. }
  unfold wp in Hw. pose proof (wlp_build_functions script modules fbt funcs cfg_empty) as Hf. unfold wlp in Hf.
  destruct (dyninst_build_cfg script modules fbt funcs cfg_empty) as [[[] s]|]; [|done]. destruct Hw as (T & L & R).
  exists s. split_and!; [done|done|done|]. by apply R, (Hf tt s).
Qed.


Lemma retouch_spec modules fbt funcs funcs' a s : view_ok (funcs a) -> view_ok (funcs' a) -> one_block (funcs' a) -> cfg_wf s ->
  wp (retouch script modules fbt funcs funcs' a) (fun _ s' => good s s' /\ kept s s' /\ (tidy s -> tidy s') /\
    (forall f, f ∈ funcs' a -> function_as f s') /\ (forall b, block_of (funcs' a) b -> has_block (pb_start b) s') /\
    (forall b pe, block_of (funcs' a) b -> pe ∈ pb_targets b -> edge_as script (funcs' a) b pe s') /\
    forall e x, c_edges s' !! e = Some x -> c_edges s !! e = Some x \/ explained script (funcs' a) s' x) s.
Proof.
  intros V V' One Hwf. unfold retouch. assert (grow no_edge s s) as G0 by (by apply grow_refl).
  eapply wp_bind, wp_mono; [by apply wp_parse_all|]. cbn beta. intros _ s1 (G1 & _).
  eapply wp_bind, wp_mono; [apply wp_insert_functions_and_bbs; [by eapply grow_wf|exact V']|]. cbn beta. intros _ s2 (G2 & _ & Hfs & Hbs).
  eapply wp_mono; [apply (wp_insert_edges script (funcs' a) V' s2); [by eapply grow_wf| |exact One]|].
  { intros k (b & Hb & <-). auto. }
  cbn beta. intros _ s3 (G3 & I3 & He).
  assert (grow (explained script (funcs' a)) s s3) as G.
  { eapply grow_trans; [apply stable_explained| |exact G3]. eapply grow_weaken; [|eapply grow_trans; [apply stable_no_edge|exact G1|exact G2]]. by intros ? ? []. }
  destruct G as (G & K & T & N). split_and!; try done.
  - intros f Hf. eapply kept_function_as; [apply G3|auto].
  - intros b Hb. unfold has_block. rewrite I3. by apply Hbs.
Qed.

End Built.

(** ** A concrete binary *)

#[global] Instance pedge_eq_dec : EqDecision pedge.
Proof. solve_decision. Defined.
#[global] Instance pblock_eq_dec : EqDecision pblock.
Proof. solve_decision. Defined.

(** A check of what ParseAPI promises. *)
Definition blocks_of (funcs : list pfunc) : list pblock := funcs ≫= pf_blocks.

Definition edge_check (funcs : list pfunc) (e : pedge) : bool :=
  bool_decide (pe_type e ∉ [NOEDGE; edgetype_end]) &&
  (bool_decide (pe_type e ∈ [CALL; INDIRECT; RET]) || bool_decide (pe_trg e <> sink /\ pe_trg e ∈ pb_start <$> blocks_of funcs)).

Definition view_check (funcs : list pfunc) : bool :=
  forallb (fun b => forallb (fun a => bool_decide (a ∈ pf_addr <$> funcs)) (pb_funcs b) && forallb (edge_check funcs) (pb_targets b) &&
    forallb (fun c => bool_decide (pb_start b = pb_start c -> b = c)) (blocks_of funcs)) (blocks_of funcs) &&
  forallb (fun f => forallb (fun a => bool_decide (a ∈ pb_start <$> blocks_of funcs)) (pf_entry f :: pf_returns f)) funcs.

Lemma forallb_elem {A} (f : A -> bool) l x : forallb f l = true -> x ∈ l -> f x = true.
Proof. rewrite forallb_forall. setoid_rewrite <- list_elem_of_In. auto. Qed.

Lemma elem_of_blocks_of funcs b : block_of funcs b <-> b ∈ blocks_of funcs.
Proof. unfold block_of, blocks_of. rewrite list_elem_of_bind. naive_solver. Qed.

Lemma elem_of_starts funcs a : a ∈ pb_start <$> blocks_of funcs -> start_of funcs a.
Proof. intros (b & -> & Hb)%list_elem_of_fmap. exists b. by rewrite elem_of_blocks_of. Qed.

Lemma view_checked funcs : view_check funcs = true -> view_ok funcs /\ one_block funcs.
Proof.
  intros [Hb Hf]%andb_true_iff.
  assert (forall b, block_of funcs b -> forallb (fun a => bool_decide (a ∈ pf_addr <$> funcs)) (pb_funcs b) = true /\
    forallb (edge_check funcs) (pb_targets b) = true /\ forallb (fun c => bool_decide (pb_start b = pb_start c -> b = c)) (blocks_of funcs) = true) as Hb'.
  { intros b Hin%elem_of_blocks_of. pose proof (forallb_elem _ _ _ Hb Hin) as H. cbn beta in H. rewrite !andb_true_iff in H. tauto. }
  assert (forall f a, f ∈ funcs -> a ∈ pf_entry f :: pf_returns f -> start_of funcs a) as Hf'.
  { intros f a Hin Ha. apply elem_of_starts. pose proof (forallb_elem _ _ _ (forallb_elem _ _ _ Hf Hin) Ha) as H. by apply bool_decide_eq_true in H. }
  assert (forall b e, block_of funcs b -> e ∈ pb_targets b -> edge_check funcs e = true) as He.
  { intros b e Hin He. destruct (Hb' b Hin) as (_ & H & _). by apply (forallb_elem _ _ _ H). }
  split; [split|].
  - intros b a Hin Ha. destruct (Hb' b Hin) as (H & _). apply (forallb_elem _ _ _ H) in Ha. apply bool_decide_eq_true in Ha.
    apply list_elem_of_fmap in Ha as (f & -> & Hfi). by exists f.
  - intros f Hin. apply (Hf' f); [done|left].
  - intros f a Hin Ha. apply (Hf' f); [done|by right].
  - intros b e Hin Hpe. specialize (He b e Hin Hpe). apply andb_true_iff in He as [H%bool_decide_eq_true _]. set_solver.
  - intros b e Hin Hpe Hty. specialize (He b e Hin Hpe). apply andb_true_iff in He as [_ [H|H]%orb_true_iff]; apply bool_decide_eq_true in H; [done|].
    destruct H. split; [done|by apply elem_of_starts].
  - intros b c Hin Hc%elem_of_blocks_of. destruct (Hb' b Hin) as (_ & _ & H). apply (forallb_elem _ _ _ H) in Hc. by apply bool_decide_eq_true in Hc.
Qed.

(** [main] calls [g] through a pointer the script resolves to 0x2000; [g] branches
    and returns. *)
Definition demo_view : list pfunc :=
  [PFunc 0x1000 "main"
     [PBlock 0x1000 0x1010 0x100c [0x1000] [PEdge CALL true sink; PEdge CALL_FT false 0x1010];
      PBlock 0x1010 0x1020 0x101f [0x1000] [PEdge RET true sink]] 0x1000 [0x1010];
   PFunc 0x2000 "g"
     [PBlock 0x2000 0x2010 0x200e [0x2000] [PEdge COND_TAKEN false 0x2020; PEdge COND_NOT_TAKEN false 0x2010];
      PBlock 0x2010 0x2020 0x201e [0x2000] [PEdge INDIRECT false sink; PEdge DIRECT false 0x2020];
      PBlock 0x2020 0x2030 0x202f [0x2000] [PEdge RET true 0x1010]] 0x2000 [0x2020]].

(** 0x100c: 0x2000, 0x3000. *)
Definition demo_script (a : Z) : list Z := if decide (a = 0x100c) then [48; 120; 50; 48; 48; 48; 44; 51; 48; 48; 48] else [].

Lemma demo_view_ok : view_ok demo_view /\ one_block demo_view.
Proof. apply view_checked. vm_compute. reflexivity. Qed.

Definition built_graph : CFG := from_option snd cfg_empty (dyninst_build_cfg demo_script [(0x1000, 0x2000)] [0x2000] demo_view cfg_empty).


