(* ===== verification/Startup.v ===== *)
(** A run of the analyzer that is not a daemon: [runOnModule],
    [run_lbr_state_analysis] and [write_lbr_state_file] of
    dyninst-static/lbr_analysis_pass.C, from what ParseAPI gives to the state file.

    The daemon takes over from the prepared graph; it is in Handshake.v.  Printing,
    timing and the environment variables are left out; the statistics file is a
    flag that says whether it can be opened. *)

From S2P Require Import Prelude Slots Lbr LbrState StateFile Cfg CfgInv JitPath Jit Enum Kstates Simplify Dummies Tidy AddressTaken Builder Frame Driver BinCfi BuilderProps.
Import Paths.

(** ** The pass *)

(** The options of the command line. *)
Record options := Options {
  optOutput : string;
  optStats : string;
  optICallMapType : string;
  optAddressTakenPolicy : string;
  optWindowSize : Z;
  optDaemon : bool;
  optCFGStats : bool
}.

(** The pointer [run_lbr_state_analysis] returns: it is never set if only the
    statistics of the graph are asked for. *)
Inductive smap_pointer := smap_null | smap_unset | smap_at (m : LBRStateMap).

(** How a run ends: early, in the daemon, or with a file or none.  A pointer that was
    never set may be taken for NULL or not; either way nothing is written. *)
Inductive run_result := Stopped | Serving | Done (file : option (list Z)).

Section Pass.
Context `{Malloc} (md4 : list Z -> list Z).
(** The script, the operands and bin.info, as in Builder.v and Driver.v; what the
    policy bin-cfi sees of the binary; whether the statistics file opens; the block [lbr_pack_paths] gets from
    malloc, with its contents and the pointers of the structure. *)
Context (script : Z -> list Z) (ops : list immediate) (bin : binary) (bininfo : option (list Z)).
Context (stats_open : bool) (block : lbr_paths -> Z * list Z * layout).

Definition run_preprocess (o : options) : M (Z * option at_sets) :=
  preprocess_cfg ops (bin_cfi_policy bin) (optICallMapType o) (optAddressTakenPolicy o) false bininfo None.

(** The configuration, with the assertions of its constructor and of [set_window_size]. *)
Definition run_conf (o : options) : option LBRConfig :=
  c ← new_config true (Z.of_nat WINDOW_SIZE); set_window_size (optWindowSize o) c.

Definition run_lbr_state_analysis (o : options) : M smap_pointer := fun s =>
  conf ← run_conf o;
  '(r, _, s) ← run_preprocess o s;
  if decide (r < 0) then Some (smap_null, s) else
  smap ← (if optCFGStats o then Some smap_unset else m ← get_lbr_states s conf; Some (smap_at m));
  if negb (bool_decide (optStats o = EmptyString)) && negb stats_open then Some (smap_null, s) else Some (smap, s).

Definition write_lbr_state_file (m : LBRStateMap) : M (option (list Z)) :=
  kstates ← generate_lbr_kstates md4 m;
  let '(base, packed, y) := block kstates in
  mret (write_lbr_kstates base packed kstates y).

(** [path] is the path of the binary, the rest what ParseAPI gives. *)
Definition runOnModule (o : options) (path : string) (modules : list (Z * Z)) (fbt : list Z) (funcs : list pfunc) : M run_result :=
  if decide (path = EmptyString) then mret Stopped else
  if bool_decide (optStats o = EmptyString) && optCFGStats o then mret Stopped else
  if decide (optWindowSize o < 2 \/ 16 < optWindowSize o) then mret Stopped else
  dyninst_build_cfg script modules fbt funcs;;
  if optDaemon o then
    '(r, _) ← run_preprocess o;
    if decide (r < 0) then mret Stopped else mret Serving
  else
    smap ← run_lbr_state_analysis o;
    match smap with
    | smap_null => mret Stopped
    | smap_unset => mret (Done None)
    | smap_at m =>
        if bool_decide (optOutput o = EmptyString) || optCFGStats o then mret (Done None) else
        file ← write_lbr_state_file m;
        match file with Some bytes => mret (Done (Some bytes)) | None => mret Stopped end
    end.

(** ** From the view to the file *)

(** The window size is refused before anything is built. *)
Lemma window_size_refused o path modules fbt funcs s :
  optWindowSize o < 2 \/ 16 < optWindowSize o -> runOnModule o path modules fbt funcs s = Some (Stopped, s).
Proof. intros Hw. unfold runOnModule. rewrite (decide_True (P := optWindowSize o < 2 \/ _)) by done. case_decide; [done|]. by destruct (_ && _). Qed.

(** A window size that passes the check passes the assertions. *)
Lemma run_conf_window o : 2 <= optWindowSize o <= 16 -> exists c, run_conf o = Some c /\ cf_window c = optWindowSize o.
Proof.
  intros Hw. unfold run_conf. destruct (new_config true (Z.of_nat WINDOW_SIZE)) as [c|] eqn:Hc; [|by vm_compute in Hc].
  unfold set_window_size. cbn [mbind option_bind]. rewrite decide_True; [by eexists|]. unfold LBR_SIZE, WINDOW_SIZE. cbn. lia.
Qed.

(** Without functions that stand for a library the enumeration finds nothing. *)
Lemma no_lib_states s c : cfg_wf s -> no_lib s -> get_lbr_states s c = Some [].
Proof.
  intros Hwf Hn. unfold get_lbr_states. assert (Forall (fn_ok s) (map_in_order (c_functions s))) as Hfs.
  { apply Forall_forall. intros f (a & Ha)%elem_of_map_in_order. destruct (wf_functions _ Hwf a f Ha) as (x & Hx & _). by exists x. }
  induction Hfs as [|f fs [x Hx] _ IH]; [done|]. cbn [get_states_of]. unfold get_func_lbr_states. rewrite Hx. cbn. by rewrite (Hn f x Hx).
Qed.

(** The file of such a run: the functions whose address is taken, and the empty state. *)
Definition at_file (s : CFG) : lbr_paths :=
  LbrPaths [] ((fun f => flagged s (fn_base s f)) <$> filter (fun f => from_option f_at false (c_fns s !! f) = true) (map_in_order (c_functions s)))
    [VMap 0 [kstate md4 s []]].

Lemma generate_at_file s : cfg_wf s -> reads (generate_lbr_kstates md4 []) s (at_file s).
Proof.
  intros Hwf. destruct (generate_groups md4 s [] Hwf) as (groups & Hgen & _ & Hgrp & _); [intros t u ?%not_elem_of_nil; done|done|done|].
  destruct groups as [|[a grp] groups]; [exact Hgen|]. destruct (Hgrp a grp) as (Hne & _ & Hsound & _); [left|].
  destruct grp as [|t grp]; [done|]. destruct (Hsound t) as [[]%not_elem_of_nil _]. left.
Qed.

(** A view of a program: nothing at address 0 or ADDRESS_TAKEN. *)
Definition program_view (funcs : list pfunc) : Prop :=
  view_ok funcs /\ one_block funcs /\ ~ start_of funcs 0 /\ ~ start_of funcs Tag.ADDRESS_TAKEN /\ forall f, f ∈ funcs -> pf_addr f <> 0.

(** Build and preprocess, in terms of the view. *)
Lemma prepare_spec o modules fbt funcs :
  program_view funcs -> (getAddressTakenParser (optAddressTakenPolicy o) None = BinCFI -> scans bin) ->
  exists s0 r at_ s, dyninst_build_cfg script modules fbt funcs cfg_empty = Some (tt, s0) /\ represents script fbt funcs s0 /\
    run_preprocess o s0 = Some ((r, at_), s) /\ cfg_wf s /\ linked s /\ extends s0 s /\ no_lib s /\ (r = -1 \/ r = 0) /\
    match (m ← parse_bininfo_file bininfo; Some (strtoul <$> m !! main_key)) with
    | None => r = -1
    | Some None => r = 0
    | Some (Some a) => ((forall f, f ∈ funcs -> pf_addr f <> a) -> r = -1) /\
        (start_of funcs a -> (exists f, f ∈ funcs /\ pf_addr f = a) -> r = 0)
    end.
Proof.
  intros (V & One & H0 & Hat & Hf0) Hpol. destruct (build_spec script modules fbt funcs V One) as (s0 & Hrun & T & L & R).
  assert (forall a, ~ start_of funcs a -> c_start2bb s0 !! a = None) as Hnb.
  { intros a Ha. apply eq_None_not_Some. intros Hs. by apply Ha, (rp_only_blocks _ _ _ _ R). }
  assert (forall a, (forall f, f ∈ funcs -> pf_addr f <> a) -> c_functions s0 !! a = None) as Hnf.
  { intros a Ha. apply eq_None_not_Some. intros Hs. destruct (rp_only_functions _ _ _ _ R a Hs) as (f & Hf & He). by apply (Ha f). }
  destruct (preprocess_cfg_spec ops (bin_cfi_policy bin) s0 (optICallMapType o) (optAddressTakenPolicy o) bininfo None) as
    (r & at_ & s & s1 & s2 & Hpre & K & G & _ & _ & _ & Hr & Hend); [done|intros _; auto|auto|auto|by apply bin_cfi_policy_reads|].
  exists s0, r, at_, s. split_and!; [done|done|done|by eapply good_wf|by apply (proj2 (proj2 G))|apply G| |destruct Hend as [?|(? & _)]; auto|].
  { apply K. refine (framed_build_no_lib script modules fbt funcs _ _ _ Hrun _). intros f x Hx. cbn in Hx. by apply lookup_empty_Some in Hx. }
  destruct (parse_bininfo_file bininfo) as [m|]; [|done]. cbn in *. destruct (m !! main_key) as [x|]; [|done]. cbn in *.
  destruct Hr as (_ & Hno & Hyes). split; [auto|]. intros (b & Hb & Hst) (f & Hf & Ha). apply Hyes.
  - destruct (rp_block _ _ _ _ R b Hb) as (p & c & Hp & _). rewrite <- Hst. by eexists.
  - rewrite <- Ha. apply (rp_function _ _ _ _ R f Hf).
Qed.

(** How a run ends, by the options and the result of [preprocess_cfg]. *)
Definition ends (o : options) (r : Z) (s : CFG) : run_result :=
  if decide (r < 0) then Stopped else
  if optDaemon o then Serving else
  if negb (bool_decide (optStats o = EmptyString)) && negb stats_open then Stopped else
  if bool_decide (optOutput o = EmptyString) || optCFGStats o then Done None else
  let '(base, packed, y) := block (at_file s) in
  match write_lbr_kstates base packed (at_file s) y with Some bytes => Done (Some bytes) | None => Stopped end.

Lemma run_spec o path modules fbt funcs :
  program_view funcs -> (getAddressTakenParser (optAddressTakenPolicy o) None = BinCFI -> scans bin) ->
  path <> EmptyString -> 2 <= optWindowSize o <= 16 -> (optCFGStats o = true -> optStats o <> EmptyString) ->
  exists s0 r at_ s, dyninst_build_cfg script modules fbt funcs cfg_empty = Some (tt, s0) /\ represents script fbt funcs s0 /\
    run_preprocess o s0 = Some ((r, at_), s) /\ cfg_wf s /\ linked s /\ extends s0 s /\
    match (m ← parse_bininfo_file bininfo; Some (strtoul <$> m !! main_key)) with
    | None => r = -1
    | Some None => r = 0
    | Some (Some a) => ((forall f, f ∈ funcs -> pf_addr f <> a) -> r = -1) /\
        (start_of funcs a -> (exists f, f ∈ funcs /\ pf_addr f = a) -> r = 0)
    end /\
    runOnModule o path modules fbt funcs cfg_empty = Some (ends o r s, s).
Proof.
  intros Hview Hpol Hpath Hw Hstats.
  destruct (prepare_spec o modules fbt funcs Hview Hpol) as (s0 & r & at_ & s & Hb & R & Hp & Hwf & Hl & Hx & Hn & Hr & Hinfo).
  destruct (run_conf_window o Hw) as (c & Hconf & Hcw). exists s0, r, at_, s. split_and!; try done.
  unfold runOnModule. rewrite decide_False by done.
  replace (bool_decide (optStats o = EmptyString) && optCFGStats o) with false.
  2: { destruct (optCFGStats o); [rewrite bool_decide_eq_false_2 by auto; done|by rewrite andb_false_r]. }
  rewrite decide_False by lia. unfold mbind at 1, M_bind at 1. rewrite Hb. unfold ends.
  destruct (optDaemon o).
  { unfold mbind, M_bind. rewrite Hp. by destruct Hr as [->| ->]. }
  assert (run_lbr_state_analysis o s0 = Some (if decide (r < 0) then smap_null else
    if negb (bool_decide (optStats o = EmptyString)) && negb stats_open then smap_null else if optCFGStats o then smap_unset else smap_at [], s)) as Hana.
  { unfold run_lbr_state_analysis. rewrite Hconf. cbn [mbind option_bind]. rewrite Hp. cbn.
    destruct Hr as [->| ->]; [done|]. rewrite !decide_False by lia. destruct (optCFGStats o).
    - cbn. by destruct (negb _ && _).
    - rewrite no_lib_states by done. cbn. by destruct (negb _ && _). }
  unfold mbind at 1, M_bind at 1. rewrite Hana. case_decide; [done|]. destruct (negb _ && _); [done|].
  destruct (optCFGStats o); [by rewrite orb_true_r|]. rewrite orb_false_r. destruct (bool_decide (optOutput o = EmptyString)); [done|].
  assert (write_lbr_state_file [] s = Some (let '(base, packed, y) := block (at_file s) in write_lbr_kstates base packed (at_file s) y, s)) as Hfile.
  { unfold write_lbr_state_file, mbind, M_bind. pose proof (generate_at_file s Hwf) as Hks. red in Hks. rewrite Hks. by destruct (block (at_file s)) as [[base packed] y]. }
  unfold mbind, M_bind. rewrite Hfile. destruct (block (at_file s)) as [[base packed] y]. by destruct (write_lbr_kstates base packed _ y).
Qed.

End Pass.

(** ** A concrete run *)

Lemma demo_program_view : program_view demo_view.
Proof.
  destruct demo_view_ok as [V One]. assert (forall a, start_of demo_view a -> a ∈ pb_start <$> blocks_of demo_view) as Hst.
  { intros a (b & Hb%elem_of_blocks_of & <-). by apply list_elem_of_fmap_2. }
  assert (forall a, bool_decide (a ∈ pb_start <$> blocks_of demo_view) = false -> ~ start_of demo_view a) as Hno.
  { intros a Ha%bool_decide_eq_false Hs. by apply Ha, Hst. }
  split_and!; [done|done|by apply Hno; vm_compute|by apply Hno; vm_compute|].
  assert (Forall (fun f => pf_addr f <> 0) demo_view) as Hall by (apply (bool_decide_eq_true_1 _); vm_compute; reflexivity).
  by apply Forall_forall.
Qed.

Definition demo_options : options := Options ".states" EmptyString "none" "bin-cfi" 16 false false.
Definition startup_md4 (x : list Z) : list Z := replicate 16 171.
Definition demo_block (p : lbr_paths) : Z * list Z * layout :=
  (0x10000, replicate (Z.to_nat (sizeof_of p)) 0,
   Layout stale_pointer stale_pointer stale_pointer (replicate (length (p_state_map p)) stale_pointer)).

