(* ===== verification/Process.v ===== *)
(** The supervised program: shared/wrappers.c, which is preloaded into it, and
    include/common/util/safeio.h, on top of the handlers of Armor.v.

    [armor_main] runs in place of [main]: it opens /dev/armor, hands the addresses of the
    wrappers to the module, starts the supervision and calls [main]; the wrapper of
    [pthread_create] replaces the start routine of threads.  System calls that are
    not the module's ([open], [fcntl], [close]) have their results as arguments, and so
    have [malloc] and the [pthread_create] of the C library.  Printing is left out. *)

From S2P Require Import Prelude Slots Lbr LbrState Wrappers Kernel Armor.

(** ** Descriptors *)

(** [fcntl(fd, F_GETFD)], [fcntl(fd, F_DUPFD, min_fd)] (or its close-on-exec
    variant) and [close(fd)]. *)
Record fd_calls := FdCalls { fd_getfd : Z -> Z; fd_dup : bool -> Z -> Z -> Z; fd_close : Z -> Z }.

Definition FD_CLOEXEC : Z := 1.
Definition UTIL_SAFEIO_MIN_FD : Z := 1000.

Definition util_safeio_get_fd_min (c : fd_calls) (fd min_fd : Z) (force_new : bool) : Z :=
  if decide (fd < 0 \/ min_fd <= fd /\ force_new = false) then fd else
  let flags := fd_getfd c fd in
  if decide (flags < 0) then -1 else
  let new_fd := fd_dup c (negb (bool_decide (Z.land flags FD_CLOEXEC = 0))) fd min_fd in
  if decide (new_fd < 0) then -1 else
  if decide (fd_close c fd < 0) then -1 else new_fd.

Definition util_safeio_get_fd (c : fd_calls) (fd : Z) : Z := util_safeio_get_fd_min c fd UTIL_SAFEIO_MIN_FD false.

(** ** The program *)

(** The global variables. *)
Record globals := Globals {
  armor_fd : Z;
  armor_start_code : Z;
  armor_end_code : Z;
  armor_range_code : Z;
  orig_main : Z
}.

Definition globals_init : globals := Globals 0 0 0x7f0000000000 0x7f0000000000 NULL.

Definition set_fd (fd : Z) (g : globals) : globals :=
  Globals fd (armor_start_code g) (armor_end_code g) (armor_range_code g) (orig_main g).
Definition set_main (m : Z) (g : globals) : globals :=
  Globals (armor_fd g) (armor_start_code g) (armor_end_code g) (armor_range_code g) m.
Definition set_code (start end_ : Z) (g : globals) : globals :=
  Globals (armor_fd g) start end_ (u64 (end_ - start)) (orig_main g).

(** The addresses of its symbols, of the label behind the call of [main], and of the
    array [code] on the stack. *)
Record symbols := Symbols {
  sy_armor_lib_enter : Z;
  sy_armor_lib_return : Z;
  sy_armor_cbk_target_call : Z;
  sy_pthread_create : Z;
  sy_pthread_create_marker : Z;
  sy_armor_pthread : Z;
  sy_calllabel : Z;
  sy_code : Z
}.

(** How the wrapper ends: [exit], or a call of [main]. *)
Inductive outcome := Exit (code : Z) | CallMain (entry : Z).

Definition EXIT_FAILURE : Z := 1.

(** [strstr(h, n) != NULL]. *)
Fixpoint strstr (h n : string) : bool :=
  String.prefix n h || match h with EmptyString => false | String _ h => strstr h n end.

Section Process.
Context (md4 : list Z -> list Z) (jiffies_to_timeval : Z -> Z * Z) (current : Z) (y : symbols).
(** What the kernel finds in the user memory of the other calls, whether the module gets
    its hash, the descriptor [open] gives, and whether [tocopy] can be read. *)
Context (e : env) (crypto_ok : bool) (new_fd : Z) (fds : fd_calls) (readable : bool).

(** [open("/dev/armor", O_RDONLY)]. *)
Definition open_armor : K Z :=
  r ← armor_open crypto_ok; mret (if decide (r.1 < 0) then -1 else new_fd).

(** [ioctl] of the C library gives -1 for an error, the inline call the value itself. *)
Definition libc_ioctl (cmd arg : Z) (e : env) : K Z :=
  r ← armor_ioctl md4 jiffies_to_timeval current cmd arg e; mret (if decide (r.1 < 0) then -1 else r.1).
Definition ARMOR_INLINE_IOCTL (cmd arg : Z) : K reply := armor_ioctl md4 jiffies_to_timeval current cmd arg e.

Definition tocopy (load_from : Z) : kernel_copy :=
  KernelCopy NULL 0 (sy_armor_cbk_target_call y) load_from (sy_armor_lib_enter y) (sy_armor_lib_return y)
    (sy_pthread_create y) (u64 (sy_pthread_create_marker y - 1)).

Definition env_tocopy (load_from : Z) : env :=
  Env (e_kmalloc e) (e_free_page e) (tocopy load_from, readable) (e_read_plt_got e) (e_read_simples e) (e_read_bytes e) (e_copy_to_user e).

(** [None] for [exit(EXIT_FAILURE)]. *)
Definition initialize_armor (load_from : Z) (g : globals) : K (option globals) :=
  fd ← open_armor;
  let g := set_fd (util_safeio_get_fd fds fd) g in
  if decide (armor_fd g < 0) then mret None else
  if decide (load_from = 0) then ARMOR_INLINE_IOCTL ARMOR_IOC_INIT 42;; mret (Some g) else
  ret ← libc_ioctl ARMOR_IOC_COPY_PATHS 0 (env_tocopy load_from);
  if c_true ret then mret None else mret (Some g).

(** [code[0]] after the ioctl. *)
Definition code0 (out : output) : Z := match out with OutCode start _ => start | _ => 0 end.

Definition armor_main (argv0 : string) (pa_initialized : bool) (g : globals) : K (outcome * globals) :=
  if strstr argv0 "di-opt" then mret (CallMain (orig_main g), g) else
  if pa_initialized then
    r ← initialize_armor 0 g;
    match r with Some g => mret (CallMain (orig_main g), g) | None => mret (Exit EXIT_FAILURE, g) end
  else
  let load_from := u64 (sy_calllabel y - 2) in
  r ← initialize_armor load_from g;
  match r with
  | None => mret (Exit EXIT_FAILURE, g)
  | Some g =>
      r ← ARMOR_INLINE_IOCTL ARMOR_IOC_INIT (sy_code y);
      if c_true r.1 then mret (Exit EXIT_FAILURE, g) else
      let g := set_code (code0 r.2) 0x7f0000000000 g in
      mret (CallMain (orig_main g), g)
  end.

(** [__libc_start_main] keeps [main], and the real one calls [armor_main]. *)
Definition libc_start_main (main : Z) (argv0 : string) (pa_initialized : bool) (g : globals) : K (outcome * globals) :=
  armor_main argv0 pa_initialized (set_main main g).

(** ** Threads *)

(** [struct armor_pthread_data], at an address of the heap. *)
Record armor_pthread_data := PthreadData { pd_start_routine : Z; pd_arg : Z }.

(** [armor_pthread]: the call it makes, and the heap without the structure. *)
Definition armor_pthread (arg : Z) (heap : gmap Z armor_pthread_data) : option ((Z * Z) * gmap Z armor_pthread_data) :=
  p ← heap !! arg; Some ((pd_start_routine p, pd_arg p), delete arg heap).

(** The inline calls on [armor_fd], which is 0 as long as the device is not open. *)
Definition ARMOR_INLINE_IOCTL_FAST (cmd : Z) (g : globals) : K unit :=
  if decide (armor_fd g = 0) then mret tt else ARMOR_INLINE_IOCTL cmd 0;; mret tt.

(** [real]: [pthread_create] of the C library with a start routine and its argument;
    [p]: the result of [malloc].  [None] for [exit(EXIT_FAILURE)]. *)
Definition pthread_create (real : Z -> Z -> K Z) (p start_routine arg : Z) (g : globals) (heap : gmap Z armor_pthread_data) :
  K (option Z * gmap Z armor_pthread_data) :=
  ARMOR_INLINE_IOCTL_FAST ARMOR_IOC_LIB_ENTER g;;
  if decide (armor_fd g <> 0 /\ armor_start_code g < start_routine /\ start_routine < armor_end_code g) then
    if decide (p = NULL) then mret (None, heap) else
    ret ← real (sy_armor_pthread y) p;
    ARMOR_INLINE_IOCTL_FAST ARMOR_IOC_LIB_EXIT g;; mret (Some ret, <[p := PthreadData start_routine arg]> heap)
  else
    ret ← real start_routine arg;
    ARMOR_INLINE_IOCTL_FAST ARMOR_IOC_LIB_EXIT g;; mret (Some ret, heap).

End Process.

(** ** What the ioctls of the wrapper do *)

Section Runs.
Context (md4 : list Z -> list Z) (jiffies_to_timeval : Z -> Z * Z) (current : Z) (y : symbols).
Context (e : env) (crypto_ok : bool) (new_fd : Z) (fds : fd_calls) (readable : bool).
#[local] Notation ioctl := (armor_ioctl md4 jiffies_to_timeval current).
#[local] Notation main_ := (armor_main md4 jiffies_to_timeval current y e crypto_ok new_fd fds readable).

(** Everything but the device, the locks and semaphores of the handshake. *)
Definition untouched (s s' : kstate) : Prop :=
  k_msr s' = k_msr s /\ k_cpu s' = k_cpu s /\ k_tasks s' = k_tasks s /\ k_killed s' = k_killed s /\ k_user s' = k_user s /\ k_tb s' = k_tb s /\
  j_hash (k_jit s') = j_hash (k_jit s) /\ j_hashes (k_jit s') = j_hashes (k_jit s).

#[export] Instance untouched_preorder : PreOrder untouched.
Proof. split; [done|]. intros s1 s2 s3 (? & ? & ? & ? & ? & ? & ? & ?) (? & ? & ? & ? & ? & ? & ? & ?). split_and!; congruence. Qed.

Lemma open_armor_run s : exists r s1, open_armor crypto_ok new_fd s = Done r s1 /\ untouched s s1 /\ d_opens (k_dev s1) = d_opens (k_dev s) + 1 /\
  (0 <= d_target_started (k_dev s) -> 0 <= d_target_started (k_dev s1)) /\
  r = if d_initialized (k_dev s) || crypto_ok then new_fd else -1.
Proof.
  unfold open_armor, armor_open. krun. kproj. destruct (d_initialized (k_dev s)) eqn:Hi; cbn [d_initialized set_opens]; rewrite Hi; krun.
  { do 2 eexists. split; [reflexivity|]. done. }
  destruct crypto_ok; krun; do 2 eexists; (split; [reflexivity|]); done.
Qed.

Lemma copy_paths_run s load_from : exists r s1, ioctl ARMOR_IOC_COPY_PATHS 0 (env_tocopy y e readable load_from) s = Done (r, OutNone) s1 /\
  untouched s s1 /\ d_tocopy (k_dev s1) = tocopy y load_from /\ r = (if readable && e_kmalloc e 0 then 0 else 1) /\
  (r = 0 -> d_main_task (k_dev s1) = current /\ d_target_started (k_dev s1) = d_target_started (k_dev s) + 1).
Proof.
  change (ioctl ARMOR_IOC_COPY_PATHS 0 (env_tocopy y e readable load_from) s) with (ioctl_copy_paths current (env_tocopy y e readable load_from) s).
  unfold ioctl_copy_paths. cbn [env_tocopy e_read_copy e_kmalloc e_read_bytes]. destruct readable; krun; [|by do 2 eexists].
  destruct (e_kmalloc e 0) eqn:Hk; cbn [negb]; krun; [|by do 2 eexists].
  destruct (e_read_bytes e _ _) as [bytes copied]. cbn [tocopy kc_paths]. rewrite bool_decide_eq_false_2 by (by intros []). cbn [andb]. krun.
  by do 2 eexists.
Qed.

Definition all_zero (s : kstate) : Prop :=
  k_tb s = Tables Cache.init_lbr_cache (replicate LIB_CACHE_SIZE wrapper_zero) (replicate CBK_CACHE_SIZE wrapper_zero)
             (replicate SIG_CACHE_SIZE wrapper_zero) /\
  j_hashes (k_jit s) = 0 /\ j_disable (k_jit s) = false.

Lemma init_run s : sy_code y <> 42 -> exists s1,
  ioctl ARMOR_IOC_INIT (sy_code y) e s = Done (e_copy_to_user e, OutCode (t_start_code (task_of current s)) (t_end_code (task_of current s))) s1 /\
  k_dev s1 = k_dev s /\ k_cpu s1 = k_cpu s /\ k_killed s1 = k_killed s /\ k_msr s1 = Hw.enable_lbr <$> k_msr s /\ all_zero s1 /\
  tst_task current s1 = true /\ t_hooked (task_of current s1) = true /\ forall t, t <> current -> task_of t s1 = task_of t s.
Proof.
  intros Hc. change (ioctl ARMOR_IOC_INIT (sy_code y) e s) with (ioctl_init current (sy_code y) e s). unfold ioctl_init. rewrite decide_False by done. krun.
  assert (forall t f m s0, task_of t (on_task current f (on_msr m s0)) = if decide (t = current) then f (task_of current s0) else task_of t s0) as Ht
    by (intros t f m s0; by rewrite task_of_on_task).
  eexists. split; [f_equal; rewrite Ht, task_of_on_task, !decide_True by done; reflexivity|].
  do 4 (split; [reflexivity|]). split; [split_and!; reflexivity|]. split; [|split].
  - unfold tst_task. rewrite Ht, decide_True by done. cbn [t_personality set_personality].
    rewrite TaskBits.tst_task_lbr_bit. unfold TaskBits.set_task_lbr. rewrite Z.lor_spec. apply orb_true_r.
  - rewrite Ht, task_of_on_task, !decide_True by done. reflexivity.
  - intros t Hne. rewrite Ht, decide_False by done. rewrite task_of_on_task, decide_False by done. reflexivity.
Qed.

Lemma initialize_run load_from g s :
  let fd := util_safeio_get_fd fds (if d_initialized (k_dev s) || crypto_ok then new_fd else -1) in
  exists s2, initialize_armor md4 jiffies_to_timeval current y e crypto_ok new_fd fds readable load_from g s =
      Done (if decide (fd < 0) then None else if decide (load_from = 0) then Some (set_fd fd g)
            else if readable && e_kmalloc e 0 then Some (set_fd fd g) else None) s2 /\ untouched s s2 /\
    (0 <= fd -> load_from <> 0 -> readable && e_kmalloc e 0 = true -> 0 <= d_target_started (k_dev s) ->
     d_tocopy (k_dev s2) = tocopy y load_from /\ d_main_task (k_dev s2) = current /\ 0 < d_target_started (k_dev s2)).
Proof.
  intros fd. destruct (open_armor_run s) as (fd0 & s1 & Hopen & U1 & _ & Hsem & ->).
  unfold initialize_armor, mbind at 1, K_bind at 1. rewrite Hopen. cbn [proc_bind armor_fd set_fd]. fold fd.
  destruct (decide (fd < 0)) as [Hfd|Hfd]; [exists s1; split_and!; [reflexivity|done|lia]|].
  destruct (decide (load_from = 0)) as [H0|H0]; [exists s1; split_and!; [reflexivity|done|done]|].
  destruct (copy_paths_run s1 load_from) as (r & s2 & Hcopy & U2 & Htc & Hr & Hok). unfold libc_ioctl, mbind, K_bind. rewrite Hcopy.
  exists s2. destruct (readable && e_kmalloc e 0); subst r; (split; [reflexivity|]); (split; [by transitivity s1|]); [|done].
  intros _ _ _ Hs. destruct (Hok eq_refl) as [? ->]. apply Hsem in Hs. split_and!; [done|done|lia].
Qed.

(** The LBR right after it was enabled. *)
Lemma enabled_window m : recording (Hw.enable_lbr m) /\ window_of (Hw.enable_lbr m) = replicate 16 (0, 0).
Proof.
  split.
  - unfold Hw.enable_lbr, recording. rewrite Hw.flush_lbr_eq. split; Hw.msr.
  - unfold Hw.enable_lbr, window_of. rewrite Hw.get_flush_lbr. reflexivity.
Qed.

(** The state in which [main] is called: the analyzer can fetch the addresses of the
    wrappers, the task is supervised with empty tables and an empty cache, and the
    first branch the processor records on the task's CPU is the call of [main]. *)
Record started (branch : Z -> Z -> gmap Z Z -> gmap Z Z) (main load_from : Z) (s s' : kstate) : Prop := {
  st_tocopy : d_tocopy (k_dev s') = tocopy y load_from;
  st_main_task : d_main_task (k_dev s') = current;
  st_sem : 0 < d_target_started (k_dev s');
  st_task : tst_task current s' = true /\ t_hooked (task_of current s') = true;
  st_others t : t <> current -> task_of t s' = task_of t s;
  st_empty : all_zero s';
  st_killed : k_killed s' = k_killed s;
  st_lbr : window_of (branch load_from main (cpu_msr s')) = (Hw.LBR_FROM load_from, main) :: replicate 15 (0, 0)
}.


(** ** Threads *)

Definition cpu_ok (s : kstate) : Prop := (k_cpu s < length (k_msr s))%nat.

(** [pthread_create] of the C library returns, on some CPU. *)
Definition returns (real : Z -> Z -> K Z) : Prop :=
  forall f x s, cpu_ok s -> exists ret s', real f x s = Done ret s' /\ cpu_ok s'.

Lemma debugctl_set s v : cpu_ok s -> Hw.rdmsrl Hw.MSR_IA32_DEBUGCTLMSR (cpu_msr (set_msr (Hw.wrmsrl Hw.MSR_IA32_DEBUGCTLMSR v (cpu_msr s)) s)) = v.
Proof. intros Hc. unfold cpu_msr at 1, set_msr, on_msr. cbn [k_msr k_cpu]. rewrite list_lookup_total_insert_eq by done. Hw.msr. Qed.

(** Both inline calls only switch the recording, and count. *)
Lemma fast_run cmd v s : cpu_ok s ->
  cmd = ARMOR_IOC_LIB_ENTER /\ v = 0 \/ cmd = ARMOR_IOC_LIB_EXIT /\ v = Hw.IA32_DEBUGCTL ->
  exists s', ARMOR_INLINE_IOCTL md4 jiffies_to_timeval current e cmd 0 s = Done ok s' /\ cpu_ok s' /\
    Hw.rdmsrl Hw.MSR_IA32_DEBUGCTLMSR (cpu_msr s') = v /\ k_tb s' = k_tb s /\ k_tasks s' = k_tasks s /\ k_killed s' = k_killed s.
Proof.
  intros Hc [[-> ->]|[-> ->]]; unfold ARMOR_INLINE_IOCTL.
  - change (ioctl ARMOR_IOC_LIB_ENTER 0 e s) with (ioctl_lib_enter current 0 s). unfold ioctl_lib_enter, wrmsrl. krun. eexists. split; [reflexivity|].
    split; [unfold cpu_ok; cbn; by rewrite length_insert|]. by split; [apply (debugctl_set (on_stats _ s))|].
  - change (ioctl ARMOR_IOC_LIB_EXIT 0 e s) with (ioctl_lib_exit current 0 s). unfold ioctl_lib_exit, wrmsrl. krun. eexists. split; [reflexivity|].
    split; [unfold cpu_ok; cbn; by rewrite length_insert|]. by split; [apply (debugctl_set (on_stats _ s))|].
Qed.

(** C40. A thread of the program starts through the wrapper.  With the device open,
    [pthread_create] of the C library runs with recording off, the tables of the module are
    not touched around it, and afterwards recording is on.  A start routine strictly
    between [armor_start_code] and [armor_end_code] is replaced by [armor_pthread], which
    in the new thread calls exactly that routine with its argument and frees the
    structure that carried them; any other routine is passed on as it is.  If the
    structure cannot be allocated the process exits, with recording off. *)
Theorem pthread_create_wraps real p start_routine arg g heap s :
  returns real -> cpu_ok s -> armor_fd g <> 0 -> heap !! p = None ->
  let wrapped := bool_decide (armor_start_code g < start_routine < armor_end_code g) in
  exists s1, cpu_ok s1 /\ Hw.rdmsrl Hw.MSR_IA32_DEBUGCTLMSR (cpu_msr s1) = 0 /\ k_tb s1 = k_tb s /\ k_tasks s1 = k_tasks s /\
    if wrapped && bool_decide (p = NULL) then
      pthread_create md4 jiffies_to_timeval current y e real p start_routine arg g heap s = Done (None, heap) s1
    else exists ret s2 heap' s3,
      real (if wrapped then sy_armor_pthread y else start_routine) (if wrapped then p else arg) s1 = Done ret s2 /\
      pthread_create md4 jiffies_to_timeval current y e real p start_routine arg g heap s = Done (Some ret, heap') s3 /\
      Hw.rdmsrl Hw.MSR_IA32_DEBUGCTLMSR (cpu_msr s3) = Hw.IA32_DEBUGCTL /\ k_tb s3 = k_tb s2 /\ k_tasks s3 = k_tasks s2 /\
      if wrapped then armor_pthread p heap' = Some ((start_routine, arg), heap) else heap' = heap.
Proof.
  intros Hreal Hc Hfd Hp wrapped. destruct (fast_run ARMOR_IOC_LIB_ENTER 0 s Hc) as (s1 & Hrun1 & Hc1 & Hm1 & T1 & K1 & _); [by left|].
  exists s1. split_and!; [done..|]. unfold pthread_create, ARMOR_INLINE_IOCTL_FAST. rewrite !(decide_False (P := armor_fd g = 0)) by done.
  assert (forall f x k, exists ret s2 s3, real f x s1 = Done ret s2 /\
    (ret ← real f x; (ARMOR_INLINE_IOCTL md4 jiffies_to_timeval current e ARMOR_IOC_LIB_EXIT 0;; mret tt);; mret (Some ret, k : gmap Z armor_pthread_data)) s1
      = Done (Some ret, k) s3 /\
    Hw.rdmsrl Hw.MSR_IA32_DEBUGCTLMSR (cpu_msr s3) = Hw.IA32_DEBUGCTL /\ k_tb s3 = k_tb s2 /\ k_tasks s3 = k_tasks s2) as Hcall.
  { intros f x k. destruct (Hreal f x s1 Hc1) as (ret & s2 & Hr & Hc2).
    destruct (fast_run ARMOR_IOC_LIB_EXIT Hw.IA32_DEBUGCTL s2 Hc2) as (s3 & Hrun3 & _ & Hm3 & T3 & K3 & _); [by right|].
    exists ret, s2, s3. split_and!; try done. unfold mbind, K_bind. rewrite Hr. cbn [proc_bind]. by rewrite Hrun3. }
  assert (forall (k : K (option Z * gmap Z armor_pthread_data)),
    ((ARMOR_INLINE_IOCTL md4 jiffies_to_timeval current e ARMOR_IOC_LIB_ENTER 0;; mret tt);; k) s = k s1) as Hpre
    by (intros k; unfold mbind, K_bind; by rewrite Hrun1).
  rewrite Hpre. unfold wrapped. destruct (decide (armor_start_code g < start_routine < armor_end_code g)) as [Hw|Hw].
  - rewrite bool_decide_eq_true_2 by done. rewrite decide_True by tauto. cbn [andb].
    destruct (decide (p = NULL)) as [Hn|Hn]; [by rewrite bool_decide_eq_true_2|]. rewrite bool_decide_eq_false_2 by done.
    destruct (Hcall (sy_armor_pthread y) p (<[p := PthreadData start_routine arg]> heap)) as (ret & s2 & s3 & Hr & Hrun & Hm & T & K0).
    exists ret, s2, (<[p := PthreadData start_routine arg]> heap), s3. split_and!; try done.
    unfold armor_pthread. rewrite lookup_insert_eq. cbn. by rewrite delete_insert_id.
  - rewrite bool_decide_eq_false_2 by done. rewrite decide_False by tauto. cbn [andb].
    destruct (Hcall start_routine arg heap) as (ret & s2 & s3 & Hr & Hrun & Hm & T & K0). by exists ret, s2, heap, s3.
Qed.
End Runs.

(** ** A concrete program *)

(** Task 8 of [demo], loaded at 0x555555554000, with descriptor 3 moved to 1000. *)
Definition demo_symbols : symbols :=
  Symbols 0x7f0000001000 0x7f0000001080 0x7f0000001200 0x7f0000001300 0x7f0000001400 0x7f0000001500 0x7f0000001602 0x7ffd00001000.
Definition demo_fds : fd_calls := FdCalls (fun _ => 0) (fun _ _ m => m) (fun _ => 0).
Definition demo_globals : globals := set_main 0x400100 globals_init.

Lemma record_branch_records : records_branches record_branch.
Proof. intros from to m a _. unfold record_branch. cbv zeta. rewrite !Hw.rdmsrl_wrmsrl. reflexivity. Qed.


Lemma pthread_create_wraps_witness :
  let g := set_code 0x400000 0x7f0000000000 (set_fd 1000 demo_globals) in
  let real f x s := Done 0 s in
  exists s1, cpu_ok s1 /\ Hw.rdmsrl Hw.MSR_IA32_DEBUGCTLMSR (cpu_msr s1) = 0 /\ k_tb s1 = k_tb demo /\ k_tasks s1 = k_tasks demo /\
    exists ret s2 heap' s3,
      real 0x7f0000001500 0x602000 s1 = Done ret s2 /\
      pthread_create demo_md4 demo_time 7 demo_symbols demo_env real 0x602000 0x400800 5 g ∅ demo = Done (Some ret, heap') s3 /\
      Hw.rdmsrl Hw.MSR_IA32_DEBUGCTLMSR (cpu_msr s3) = Hw.IA32_DEBUGCTL /\ k_tb s3 = k_tb s2 /\ k_tasks s3 = k_tasks s2 /\
      armor_pthread 0x602000 heap' = Some ((0x400800, 5), ∅).
Proof.
  intros g real. refine (pthread_create_wraps demo_md4 demo_time 7 demo_symbols demo_env real 0x602000 0x400800 5 g ∅ demo _ _ _ _).
  - intros f x s Hc. by exists 0, s.
  - unfold cpu_ok. cbn. lia.
  - discriminate.
  - apply lookup_empty.
Defined.
