(* ===== verification/Padyn.v ===== *)
(** Instrumenting the program: dyninst-pass/padyn.cpp, the pass that wraps library
    functions and the indirect calls of libraries.

    What Dyninst knows of the process (the PLT, functions, points, whether a snippet
    can be inserted) is the record [process]; what the pass asks it to change is in
    the result.  Where the pass calls [exit] or follows a null pointer it gives [None].
    The last steps of [wrapLibraries] hand the tables to the kernel module, by the
    handlers of Armor.v.  Printing is left out. *)

From S2P Require Import Prelude Slots Lbr LbrState StateFile Wrappers Kernel Armor Cfg CfgInv Jit Process.

(** ** What Dyninst gives *)

(** A point where a subroutine is called. *)
Record call_point := CallPoint { pt_address : Z; pt_fallthrough : Z; pt_dynamic : bool }.

(** A function of a library.  [lf_symbols] are the offsets of the symbols of its
    module, [lf_snippets] the snippets already at its entry; a vector [findPoint] does not give is [None]. *)
Record lib_function := LibFunction {
  lf_base : Z;
  lf_symbols : option (list Z);
  lf_instrumentable : bool;
  lf_subroutines : option (list call_point);
  lf_exits : option (list Z);
  lf_entries : option (list Z);
  lf_snippets : list Z
}.

Record plt_entry := PltEntry { pe_name : string; pe_target : Z; pe_rel : Z }.
Record lib_procedure := LibProcedure { lp_name : string; lp_calls : option (list call_point) }.
Record lib_module := LibModule { lm_name : string; lm_shared : bool; lm_procedures : list lib_procedure }.

(** [findFunction] by name gives the number of functions found, by address the first
    one; [readDataSpace] the value of the variable after the read; [finalize n] whether the
    changes can be committed after [n] libraries. *)
Record process := MkProcess {
  named : string -> nat;
  findModule : string -> option (list plt_entry);
  read_got : Z -> Z;
  function_at : Z -> option lib_function;
  deleteSnippet : Z -> bool;
  insertSnippet : Z -> bool;
  finalizeInsertionSet : nat -> bool;
  libraries : list lib_module
}.

(** ** Wrapping library functions *)

Definition FLAG63 : Z := Z.shiftl 1 63.
Definition ARMOR_LIB_ENTER : string := "armor_lib_enter".
Definition ARMOR_CBK_ENTER : string := "armor_cbk_enter".
Definition MAX_CALL_INSN_SIZE : Z := 10.

(** The local variables of [wrapLibraries]; the entries and the snippets the pass asked
    Dyninst to change. *)
Record wrapping := Wrapping {
  w_plts : list Z;
  w_gots : list Z;
  wrapped_functions : gset Z;
  w_got : gset Z;
  simple_rets : gset Z;
  w_inserted : list Z;
  w_deleted : list Z
}.

Definition put_plt (i : nat) (p g : Z) (w : wrapping) : wrapping :=
  Wrapping (<[i := p]> (w_plts w)) (<[i := g]> (w_gots w)) (wrapped_functions w) (w_got w) (simple_rets w) (w_inserted w) (w_deleted w).
Definition add_got (g : Z) (w : wrapping) : wrapping :=
  Wrapping (w_plts w) (w_gots w) (wrapped_functions w) ({[g]} ∪ w_got w) (simple_rets w) (w_inserted w) (w_deleted w).
Definition add_simple (a : Z) (w : wrapping) : wrapping :=
  Wrapping (w_plts w) (w_gots w) (wrapped_functions w) (w_got w) ({[a]} ∪ simple_rets w) (w_inserted w) (w_deleted w).
Definition add_wrapped (g p : Z) (deleted : list Z) (w : wrapping) : wrapping :=
  Wrapping (w_plts w) (w_gots w) ({[g]} ∪ wrapped_functions w) (w_got w) (simple_rets w) (w_inserted w ++ [p]) (w_deleted w ++ deleted).

Section Padyn.
Context (q : process).

Definition findFunc (name : string) : option unit := if decide (named q name = 1%nat) then Some tt else None.

Definition isSimple (f : lib_function) : bool :=
  match lf_subroutines f with Some (_ :: _) => false | _ => true end.

Definition getPLT : option (list plt_entry) :=
  match findModule q "DEFAULT_MODULE" with
  | Some plt => Some plt
  | None => findModule q "pure-ftpd"
  end.

Definition getSymbol (f : lib_function) (offset : Z) : option Z :=
  symbols ← lf_symbols f; find (fun o => bool_decide (o = offset)) symbols.

Definition unsupported (name : string) : bool :=
  bool_decide (name = "siglongjmp"%string) || bool_decide (name = "longjmp"%string) || bool_decide (name = "__sigsetjmp"%string) ||
  bool_decide (name = "select"%string) || bool_decide (name = "_setjmp"%string).

Definition no_points (l : option (list Z)) : bool := match l with Some (_ :: _) => false | _ => true end.

(** The snippet at the single entry, after those already there are deleted. *)
Definition instrument (g : Z) (f : lib_function) (w : wrapping) : option wrapping :=
  match lf_entries f with
  | Some [p] =>
      if negb (forallb (deleteSnippet q) (lf_snippets f)) then None else
      if negb (insertSnippet q p) then None else
      Some (add_wrapped g p (lf_snippets f) w)
  | _ => None
  end.

(** One entry of the PLT, at the index [i]. *)
Definition wrap_entry (i : nat) (rel : plt_entry) (w : wrapping) : option wrapping :=
  let g := read_got q (pe_rel rel) in
  let w := put_plt i (pe_target rel) g (add_got g w) in
  let flagged := put_plt i (Z.lor (pe_target rel) FLAG63) (Z.lor g FLAG63) w in
  if decide (g ∈ wrapped_functions w) then Some w else
  if decide (pe_name rel = "pthread_create"%string) then Some w else
  if unsupported (pe_name rel) then Some flagged else
  match function_at q g with
  | None =>
      if decide (pe_name rel = "time"%string) then Some (add_simple (u64 (g + 21)) w) else
      if decide (pe_name rel = "gettimeofday"%string) then Some (add_simple (u64 (g + 282)) w) else
      Some w
  | Some f =>
      match getSymbol f (u64 (g - lf_base f)) with
      | None => Some w
      | Some _ =>
          if negb (lf_instrumentable f) then Some flagged else
          if isSimple f then
            if no_points (lf_exits f) then Some w else
            Some (foldl (fun w a => add_simple a w) w (default [] (lf_exits f)))
          else if no_points (lf_exits f) then Some w else
          instrument g f w
      end
  end.

Fixpoint wrap_entries (i : nat) (plt : list plt_entry) (w : wrapping) : option wrapping :=
  match plt with
  | [] => Some w
  | rel :: plt => w ← wrap_entry i rel w; wrap_entries (S i) plt w
  end.

(** Up to the commit.  The two arrays come from malloc; [m1] and [m2] are what memory
    holds there. *)
Definition wrap_all (m1 m2 : nat -> Z) : option wrapping :=
  findFunc ARMOR_LIB_ENTER;;
  plt ← getPLT;
  w ← wrap_entries 0 plt (Wrapping (m1 <$> seq 0 (length plt)) (m2 <$> seq 0 (length plt)) ∅ ∅ ∅ [] []);
  if negb (finalizeInsertionSet q 0) then None else Some w.

(** ** The tables for the kernel module *)

Section Push.
Context (md4 : list Z -> list Z) (jiffies_to_timeval : Z -> Z * Z) (current : Z).
(** What the kernel finds for the two calls, whether the module gets its hash, the
    descriptor [open] gives, and the addresses of the three arrays. *)
Context (e1 e2 : env) (crypto_ok : bool) (new_fd : Z) (a_plts a_gots a_exits : Z).

Definition words (l : list Z) : list Z := concat (le_bytes 8 <$> l).

Definition plt_got_copy (w : wrapping) : plt_got_copy_t :=
  PltGot (8 * Z.of_nat (length (w_plts w))) (Z.of_nat (length (w_plts w))) (UserPtr a_plts) (UserPtr a_gots).
Definition simples (w : wrapping) : simples_t :=
  Simples (8 * Z.of_nat (size (simple_rets w))) (Z.of_nat (size (simple_rets w))) (UserPtr a_exits).

(** The memory of the process as [e] reads it; [e] says what fails. *)
Definition env_of (w : wrapping) (e : env) : env :=
  Env (e_kmalloc e) (e_free_page e) (e_read_copy e) (plt_got_copy w, (e_read_plt_got e).2) (simples w, (e_read_simples e).2)
    (fun a n => (if decide (a = a_plts) then words (w_plts w) else if decide (a = a_gots) then words (w_gots w)
                 else words (in_order (simple_rets w)), (e_read_bytes e a n).2))
    (e_copy_to_user e).

Definition push_tables (w : wrapping) : K (option unit) :=
  fd ← open_armor crypto_ok new_fd;
  if decide (fd < 0) then mret None else
  ret ← libc_ioctl md4 jiffies_to_timeval current ARMOR_IOC_PUSH_PLTS 0 (env_of w e1);
  if c_true ret then mret None else
  ret ← libc_ioctl md4 jiffies_to_timeval current ARMOR_IOC_PUSH_EXITS 0 (env_of w e2);
  if c_true ret then mret None else
  armor_close;; mret (Some tt).

(** [None] is the call of [exit]; that the end of a process closes its descriptors is
    not part of it. *)
Definition wrapLibraries (m1 m2 : nat -> Z) : K (option wrapping) :=
  match wrap_all m1 m2 with
  | None => mret None
  | Some w => r ← push_tables w; mret (match r with Some _ => Some w | None => None end)
  end.
End Push.

(** ** Wrapping the indirect calls of libraries *)

(** A snippet at a point, with the size of the call. *)
Definition wrap_point (p : call_point) (acc : list (Z * Z)) : option (list (Z * Z)) :=
  if pt_dynamic p then
    let insn_size := u64 (pt_fallthrough p - pt_address p) in
    if decide (MAX_CALL_INSN_SIZE < insn_size) then None else
    if negb (insertSnippet q (pt_address p)) then None else Some (acc ++ [(pt_address p, insn_size)])
  else Some acc.

Fixpoint fold_opt {A B} (body : A -> B -> option B) (l : list A) (acc : B) : option B :=
  match l with
  | [] => Some acc
  | x :: l => acc ← body x acc; fold_opt body l acc
  end.

(** [s.find(t) != npos]. *)
Definition skipped_procedure (modname name : string) : bool :=
  strstr name "_dl" ||
  (bool_decide (modname = "libpthread.so.0"%string) && bool_decide (name = "start_thread"%string)) ||
  (bool_decide (modname = "libcrypto.so.1.0.0"%string) &&
   (bool_decide (name = "CRYPTO_malloc_locked"%string) || bool_decide (name = "CRYPTO_malloc"%string) || bool_decide (name = "CRYPTO_realloc"%string))).

Definition wrap_procedure (modname : string) (f : lib_procedure) (acc : list (Z * Z)) : option (list (Z * Z)) :=
  if skipped_procedure modname (lp_name f) then Some acc else
  calls ← lp_calls f; fold_opt wrap_point calls acc.

Definition skipped_library (m : lib_module) : bool :=
  negb (lm_shared m) || bool_decide (lm_name m = "libwrappers.so"%string) || bool_decide (lm_name m = "libdyninstAPI_RT.so.9.0"%string) ||
  bool_decide (lm_name m = "libdyninstAPI_RT.so.8.2"%string) || bool_decide (lm_name m = "libdl.so.2"%string).

(** [n] counts the commits. *)
Fixpoint wrap_modules (n : nat) (mods : list lib_module) (acc : list (Z * Z)) : option (list (Z * Z)) :=
  match mods with
  | [] => Some acc
  | m :: mods =>
      if skipped_library m then wrap_modules n mods acc else
      findFunc ARMOR_CBK_ENTER;;
      acc ← fold_opt (wrap_procedure (lm_name m)) (lm_procedures m) acc;
      if negb (finalizeInsertionSet q n) then None else wrap_modules (S n) mods acc
  end.

Definition wrapIndirects : option (list (Z * Z)) := wrap_modules 1 (libraries q) [].

(** [runOnModule]: both tables of what was wrapped, [None] where the process ends. *)
Definition padyn_runOnModule md4 jiffies_to_timeval current e1 e2 crypto_ok new_fd a_plts a_gots a_exits (m1 m2 : nat -> Z) :
  K (option (wrapping * list (Z * Z))) :=
  r ← wrapLibraries md4 jiffies_to_timeval current e1 e2 crypto_ok new_fd a_plts a_gots a_exits m1 m2;
  mret (w ← r; l ← wrapIndirects; Some (w, l)).
End Padyn.

(** ** What becomes of an entry of the PLT *)

(** Left alone, marked for the analyzer, simple with its exits, or wrapped. *)
Inductive fate :=
| Left
| Marked
| SimpleExits (exits : list Z)
| Wrapped (f : lib_function).

Definition is_marked (x : fate) : bool := match x with Marked => true | _ => false end.
Definition is_wrapped (x : fate) : bool := match x with Wrapped _ => true | _ => false end.

Section Fates.
Context (q : process).

Definition got_of (rel : plt_entry) : Z := read_got q (pe_rel rel).

Definition fate_of_function (g : Z) (f : lib_function) : fate :=
  match getSymbol f (u64 (g - lf_base f)), lf_exits f with
  | None, _ => Left
  | Some _, exits =>
      if negb (lf_instrumentable f) then Marked else
      match exits with
      | Some (a :: l) => if isSimple f then SimpleExits (a :: l) else Wrapped f
      | _ => Left
      end
  end.

Definition fate_of (rel : plt_entry) : fate :=
  if bool_decide (pe_name rel = "pthread_create"%string) then Left else
  if unsupported (pe_name rel) then Marked else
  match function_at q (got_of rel) with
  | Some f => fate_of_function (got_of rel) f
  | None =>
      if bool_decide (pe_name rel = "time"%string) then SimpleExits [u64 (got_of rel + 21)] else
      if bool_decide (pe_name rel = "gettimeofday"%string) then SimpleExits [u64 (got_of rel + 282)] else Left
  end.

(** The snippet can be inserted: there is one entry, and Dyninst does what it is asked. *)
Definition entry_of (f : lib_function) : Z := match lf_entries f with Some [p] => p | _ => 0 end.
Definition can_wrap (f : lib_function) : bool :=
  match lf_entries f with Some [p] => forallb (deleteSnippet q) (lf_snippets f) && insertSnippet q p | _ => false end.

Lemma instrument_eq g f w : instrument q g f w = if can_wrap f then Some (add_wrapped g (entry_of f) (lf_snippets f) w) else None.
Proof.
  unfold instrument, can_wrap, entry_of. destruct (lf_entries f) as [[|p [|]]|]; try done.
  by destruct (forallb _ _), (insertSnippet q p).
Qed.

(** An entry by its fate. *)
Lemma wrap_entry_eq i rel w : let g := got_of rel in let w1 := put_plt i (pe_target rel) g (add_got g w) in
  wrap_entry q i rel w = if decide (g ∈ wrapped_functions w) then Some w1 else
    match fate_of rel with
    | Left => Some w1
    | Marked => Some (put_plt i (Z.lor (pe_target rel) FLAG63) (Z.lor g FLAG63) w1)
    | SimpleExits l => Some (foldl (fun w a => add_simple a w) w1 l)
    | Wrapped f => if can_wrap f then Some (add_wrapped g (entry_of f) (lf_snippets f) w1) else None
    end.
Proof.
  cbv zeta. unfold wrap_entry. fold (got_of rel). set (w1 := put_plt _ _ _ _). unfold fate_of, fate_of_function.
  change (wrapped_functions w1) with (wrapped_functions w). case_decide; [done|].
  destruct (bool_decide_reflect (pe_name rel = "pthread_create"%string)) as [Hp|Hp]; [by rewrite decide_True|rewrite decide_False by done].
  destruct (unsupported (pe_name rel)); [done|]. destruct (function_at q (got_of rel)) as [f|].
  - destruct (getSymbol f _); [|done]. destruct (lf_instrumentable f); cbn [negb]; [|done]. unfold no_points.
    destruct (lf_exits f) as [[|a l]|], (isSimple f); try done. cbn [default]. apply instrument_eq.
  - destruct (bool_decide_reflect (pe_name rel = "time"%string)) as [Ht|Ht]; [by rewrite decide_True|rewrite decide_False by done].
    destruct (bool_decide_reflect (pe_name rel = "gettimeofday"%string)) as [Hg|Hg]; [by rewrite decide_True|by rewrite decide_False].
Qed.

(** A function that was wrapped is at its address for every entry. *)
Lemma fate_wrapped rel f : fate_of rel = Wrapped f -> function_at q (got_of rel) = Some f /\ isSimple f = false.
Proof.
  unfold fate_of, fate_of_function. case_match; [done|]. case_match; [done|].
  destruct (function_at q (got_of rel)) as [f'|]; [|by repeat case_match].
  destruct (getSymbol f' _); [|done]. destruct (lf_instrumentable f'); cbn [negb]; [|done]. destruct (lf_exits f') as [[|a l]|]; try done.
  destruct (isSimple f') eqn:Hs; [done|]. by intros [= <-].
Qed.

(** It adds no exit. *)
Lemma fate_simple_not_wrapped rel rel' f l : fate_of rel' = Wrapped f -> got_of rel' = got_of rel -> fate_of rel <> SimpleExits l.
Proof.
  intros [Hf Hs]%fate_wrapped Hg. rewrite Hg in Hf. unfold fate_of, fate_of_function. case_match; [done|]. case_match; [done|]. rewrite Hf.
  destruct (getSymbol f _); [|done]. destruct (lf_instrumentable f); cbn [negb]; [|done]. rewrite Hs. by destruct (lf_exits f) as [[|]|].
Qed.

(** The bit 63 of entry [i]: its function is marked and no entry before wrapped it. *)
Definition wrapped_before (plt : list plt_entry) (i : nat) (g : Z) : bool :=
  existsb (fun r => bool_decide (got_of r = g) && is_wrapped (fate_of r)) (take i plt).
Definition marks (plt : list plt_entry) (i : nat) (rel : plt_entry) : bool :=
  is_marked (fate_of rel) && negb (wrapped_before plt i (got_of rel)).
Definition mark_if (b : bool) (a : Z) : Z := if b then Z.lor a FLAG63 else a.

(** The state after the entries [plt] of a table of [n]. *)
Record wraps (n : nat) (plt : list plt_entry) (w : wrapping) : Prop := {
  ws_length : length (w_plts w) = n /\ length (w_gots w) = n;
  ws_plts i rel : plt !! i = Some rel -> w_plts w !! i = Some (mark_if (marks plt i rel) (pe_target rel)) /\
    w_gots w !! i = Some (mark_if (marks plt i rel) (got_of rel));
  ws_wrapped g : g ∈ wrapped_functions w <-> exists rel f, rel ∈ plt /\ got_of rel = g /\ fate_of rel = Wrapped f;
  ws_got g : g ∈ w_got w <-> exists rel, rel ∈ plt /\ got_of rel = g;
  ws_simple a : a ∈ simple_rets w <-> exists rel l, rel ∈ plt /\ fate_of rel = SimpleExits l /\ a ∈ l;
  ws_asked : exists fs : list (Z * lib_function), NoDup fs.*1 /\ (forall g, g ∈ fs.*1 <-> g ∈ wrapped_functions w) /\
    Forall (fun x => function_at q x.1 = Some x.2) fs /\ w_inserted w = entry_of <$> fs.*2 /\ w_deleted w = fs.*2 ≫= lf_snippets;
  ws_ok rel f : rel ∈ plt -> fate_of rel = Wrapped f -> can_wrap f = true
}.

Lemma marks_snoc plt rel i r : plt !! i = Some r -> marks (plt ++ [rel]) i r = marks plt i r.
Proof. intros Hi%lookup_lt_Some. unfold marks, wrapped_before. by rewrite take_app_le by lia. Qed.

Lemma wrapped_before_end n plt w rel : wraps n plt w ->
  wrapped_before (plt ++ [rel]) (length plt) (got_of rel) = bool_decide (got_of rel ∈ wrapped_functions w).
Proof.
  intros W. apply eq_bool_prop_intro. rewrite bool_decide_spec, (ws_wrapped _ _ _ W). unfold wrapped_before. rewrite take_app_length.
  rewrite Is_true_true, existsb_exists. setoid_rewrite <- list_elem_of_In. setoid_rewrite andb_true_iff. setoid_rewrite bool_decide_eq_true. split.
  - intros (r & Hr & Hg & Hf). destruct (fate_of r) as [| | |f] eqn:He; try done. by exists r, f.
  - intros (r & f & Hr & Hg & Hf). exists r. by rewrite Hf.
Qed.

(** One more entry: what the next state has to say of itself. *)
Lemma wraps_snoc n plt rel w w' (b : bool) (ws : option lib_function) : wraps n plt w -> (length plt < n)%nat ->
  b = marks (plt ++ [rel]) (length plt) rel ->
  w_plts w' = <[length plt := mark_if b (pe_target rel)]> (w_plts w) -> w_gots w' = <[length plt := mark_if b (got_of rel)]> (w_gots w) ->
  w_got w' = {[got_of rel]} ∪ w_got w ->
  (forall a, a ∈ simple_rets w' <-> a ∈ simple_rets w \/ exists l, fate_of rel = SimpleExits l /\ a ∈ l) ->
  (forall f, fate_of rel = Wrapped f -> can_wrap f = true) ->
  match ws with
  | None => (forall f, fate_of rel = Wrapped f -> got_of rel ∈ wrapped_functions w) /\
      wrapped_functions w' = wrapped_functions w /\ w_inserted w' = w_inserted w /\ w_deleted w' = w_deleted w
  | Some f => fate_of rel = Wrapped f /\ got_of rel ∉ wrapped_functions w /\
      wrapped_functions w' = {[got_of rel]} ∪ wrapped_functions w /\ w_inserted w' = w_inserted w ++ [entry_of f] /\ w_deleted w' = w_deleted w ++ lf_snippets f
  end ->
  wraps n (plt ++ [rel]) w'.
Proof.
  intros W Hn Hb Hp Hg Hgot Hsim Hok Hws. pose proof W as [[L1 L2] Hent Hwr Hgo Hsi (fs & N & Hfs & Hfa & Hin & Hde) Hokw].
  assert (forall g, g ∈ wrapped_functions w' <-> exists r f, r ∈ plt ++ [rel] /\ got_of r = g /\ fate_of r = Wrapped f) as Hwr'.
  { intros g. setoid_rewrite elem_of_app. setoid_rewrite list_elem_of_singleton. destruct ws as [f|].
    - destruct Hws as (Hf & _ & -> & _). rewrite elem_of_union, elem_of_singleton, Hwr. naive_solver.
    - destruct Hws as (Hf & -> & _). rewrite Hwr. split; [naive_solver|]. intros (r & f & [Hr| ->] & Hrg & Hrf); [eauto|].
      subst g. apply Hwr. eauto. }
  split; [rewrite Hp, Hg, !length_insert; done| |done| | | |].
  - intros i r Hr. rewrite Hp, Hg. apply lookup_app_Some in Hr as [Hr|[Hi Hr]].
    + pose proof (lookup_lt_Some _ _ _ Hr). rewrite !list_lookup_insert_ne by lia. rewrite marks_snoc by done. by apply Hent.
    + apply list_lookup_singleton_Some in Hr as [Hi0 <-]. replace i with (length plt) by lia. rewrite !list_lookup_insert_eq by lia. by rewrite <- Hb.
  - intros g. rewrite Hgot, elem_of_union, elem_of_singleton, Hgo. setoid_rewrite elem_of_app. setoid_rewrite list_elem_of_singleton. naive_solver.
  - intros a. rewrite Hsim, Hsi. setoid_rewrite elem_of_app. setoid_rewrite list_elem_of_singleton. naive_solver.
  - destruct ws as [f|].
    + destruct Hws as (Hf & Hni & Hw & Hi & Hd). exists (fs ++ [(got_of rel, f)]). rewrite !fmap_app. cbn. split_and!.
      * apply NoDup_app. split; [done|]. split; [|apply NoDup_singleton]. intros g Hgin. rewrite list_elem_of_singleton. intros ->. by apply Hni, Hfs.
      * intros g. rewrite elem_of_app, Hfs, Hw, list_elem_of_singleton, elem_of_union, elem_of_singleton. tauto.
      * apply Forall_app. split; [done|]. constructor; [|done]. by apply fate_wrapped.
      * by rewrite Hi, Hin.
      * rewrite Hd, Hde, bind_app. cbn. by rewrite app_nil_r.
    + destruct Hws as (_ & Hw & Hi & Hd). exists fs. rewrite Hw, Hi, Hd. done.
  - intros r f [Hr|Hr%list_elem_of_singleton]%elem_of_app; [by apply Hokw|]. subst r. apply Hok.
Qed.

Lemma add_simples l w : let w' := foldl (fun w a => add_simple a w) w l in
  w_plts w' = w_plts w /\ w_gots w' = w_gots w /\ wrapped_functions w' = wrapped_functions w /\ w_got w' = w_got w /\
  w_inserted w' = w_inserted w /\ w_deleted w' = w_deleted w /\ forall a, a ∈ simple_rets w' <-> a ∈ simple_rets w \/ a ∈ l.
Proof.
  revert w. induction l as [|a l IH]; intros w; cbn; [split_and!; set_solver|].
  destruct (IH (add_simple a w)) as (-> & -> & -> & -> & -> & -> & Hs). split_and!; try done. intros x. rewrite Hs. cbn. set_solver.
Qed.

Lemma wrap_entry_step n plt rel w : wraps n plt w -> (length plt < n)%nat ->
  match wrap_entry q (length plt) rel w with
  | Some w' => wraps n (plt ++ [rel]) w'
  | None => exists f, fate_of rel = Wrapped f /\ can_wrap f = false
  end.
Proof.
  intros W Hn. rewrite wrap_entry_eq. pose proof (wrapped_before_end n plt w rel W) as Hwb. case_decide as Hin.
  { rewrite bool_decide_eq_true_2 in Hwb by done. pose proof (proj1 (ws_wrapped _ _ _ W _) Hin) as (r & f & Hr & Hg & Hf).
    eapply (wraps_snoc _ _ _ w _ false None); [done|done|unfold marks; rewrite Hwb; by destruct (is_marked _)|done|done|done| | |done].
    - intros a. split; [tauto|]. intros [?|(l & Hl & _)]; [done|]. by destruct (fate_simple_not_wrapped rel r f l).
    - intros f' [Hf' _]%fate_wrapped. pose proof (fate_wrapped _ _ Hf) as [Hf0 _]. rewrite Hg, Hf' in Hf0. injection Hf0 as ->. by eapply (ws_ok _ _ _ W). }
  rewrite bool_decide_eq_false_2 in Hwb by done.
  assert (marks (plt ++ [rel]) (length plt) rel = is_marked (fate_of rel)) as Hm by (unfold marks; rewrite Hwb; by destruct (is_marked _)).
  destruct (fate_of rel) as [| |l|f] eqn:Hf.
  - eapply (wraps_snoc _ _ _ w _ false None); try done; rewrite ?Hf; naive_solver.
  - eapply (wraps_snoc _ _ _ w _ true None); try done; rewrite ?Hf; [cbn; by rewrite list_insert_insert_eq..|naive_solver|naive_solver|naive_solver].
  - destruct (add_simples l (put_plt (length plt) (pe_target rel) (got_of rel) (add_got (got_of rel) w))) as (E1 & E2 & E3 & E4 & E5 & E6 & E7).
    eapply (wraps_snoc _ _ _ w _ false None); rewrite ?E1, ?E2, ?E3, ?E4, ?E5, ?E6; try done; rewrite ?Hf; [|naive_solver|naive_solver].
    intros a. rewrite E7. naive_solver.
  - destruct (can_wrap f) eqn:Hc; [|by exists f].
    eapply (wraps_snoc _ _ _ w _ false (Some f)); try done; rewrite ?Hf; naive_solver.
Qed.

Lemma wrap_entries_spec n plt l w : wraps n plt w -> (length plt + length l = n)%nat ->
  match wrap_entries q (length plt) l w with
  | Some w' => wraps n (plt ++ l) w'
  | None => exists rel f, rel ∈ l /\ fate_of rel = Wrapped f /\ can_wrap f = false
  end.
Proof.
  revert plt w. induction l as [|rel l IH]; intros plt w W Hn; cbn [wrap_entries]; [by rewrite app_nil_r|]. cbn in Hn.
  pose proof (wrap_entry_step n plt rel w W ltac:(lia)) as Hs. destruct (wrap_entry q _ rel w) as [w1|]; cbn.
  - specialize (IH (plt ++ [rel]) w1 Hs). rewrite length_app, <- app_assoc in IH. cbn in IH.
    replace (S (length plt)) with (length plt + 1)%nat by lia. specialize (IH ltac:(lia)).
    destruct (wrap_entries q _ l w1) as [w2|]; [done|]. destruct IH as (r & f & Hr & Hrest). exists r, f. split; [by right|done].
  - destruct Hs as (f & Hf). exists rel, f. split; [left|done].
Qed.

(** What [wrap_all] needs to succeed, and what it then did. *)
Definition wrappable (plt : list plt_entry) : Prop :=
  named q ARMOR_LIB_ENTER = 1%nat /\ (forall rel f, rel ∈ plt -> fate_of rel = Wrapped f -> can_wrap f = true) /\ finalizeInsertionSet q 0 = true.

Lemma wrap_all_spec m1 m2 :
  match wrap_all q m1 m2 with
  | Some w => exists plt, getPLT q = Some plt /\ wrappable plt /\ wraps (length plt) plt w
  | None => forall plt, getPLT q = Some plt -> ~ wrappable plt
  end.
Proof.
  unfold wrap_all, findFunc, wrappable. case_decide as Hn; cbn; [|naive_solver]. destruct (getPLT q) as [plt|]; cbn; [|done].
  set (w0 := Wrapping _ _ _ _ _ _ _). assert (wraps (length plt) [] w0) as W0.
  { split; cbn; [by rewrite !length_fmap, !length_seq|done|set_solver|set_solver|set_solver| |set_solver].
    exists []. cbn. split_and!; [constructor|set_solver|done|done|done]. }
  pose proof (wrap_entries_spec (length plt) [] plt w0 W0 eq_refl) as Hs. cbn in Hs. destruct (wrap_entries q 0 plt w0) as [w|]; cbn.
  - destruct (finalizeInsertionSet q 0); cbn; [|naive_solver]. exists plt. split_and!; [done|done|apply Hs|done|done].
  - destruct Hs as (rel & f & Hr & Hf & Hc). intros plt' [= <-] (_ & Hok & _). specialize (Hok rel f Hr Hf). congruence.
Qed.
End Fates.

(** ** What the kernel module gets *)

Section Pushed.
Context (md4 : list Z -> list Z) (jiffies_to_timeval : Z -> Z * Z) (current : Z).
Context (e1 e2 : env) (crypto_ok : bool) (new_fd : Z) (a_plts a_gots a_exits : Z).
Context (Hdiff : a_plts <> a_gots /\ a_exits <> a_plts /\ a_exits <> a_gots).
#[local] Notation ioctl cmd e := (libc_ioctl md4 jiffies_to_timeval current cmd 0 e).
#[local] Notation env_of w e := (env_of a_plts a_gots a_exits w e).

(** Whether the copies of the first and of the second call succeed. *)
Definition plts_copied (w : wrapping) (e : env) : bool :=
  let n := 8 * Z.of_nat (length (w_plts w)) in
  (e_read_plt_got e).2 && e_kmalloc e 0 && (e_read_bytes e a_plts n).2 && e_kmalloc e 1 && (e_read_bytes e a_gots n).2.
Definition exits_copied (w : wrapping) (e : env) : bool :=
  (e_read_simples e).2 && e_kmalloc e 0 && (e_read_bytes e a_exits (8 * Z.of_nat (size (simple_rets w)))).2.

(** The tables as the module keeps them. *)
Definition kernel_plts (w : wrapping) : plt_got_copy_t :=
  PltGot (8 * Z.of_nat (length (w_plts w))) (Z.of_nat (length (w_plts w))) (KernelBuf (words (w_plts w))) (KernelBuf (words (w_gots w))).
Definition kernel_exits (w : wrapping) : simples_t :=
  Simples (8 * Z.of_nat (size (simple_rets w))) (Z.of_nat (size (simple_rets w))) (KernelBuf (words (in_order (simple_rets w)))).

Lemma push_plts_run w e s : exists s1, ioctl ARMOR_IOC_PUSH_PLTS (env_of w e) s = Done (if plts_copied w e then 0 else 1) s1 /\ untouched s s1 /\
  (plts_copied w e = true -> d_plt_got (k_dev s1) = kernel_plts w /\ d_plt_available (k_dev s1) = d_plt_available (k_dev s) + 1 /\
   d_exitpoints_available (k_dev s1) = d_exitpoints_available (k_dev s) /\ d_opens (k_dev s1) = d_opens (k_dev s) /\
   d_initialized (k_dev s1) = d_initialized (k_dev s) /\ d_target_started (k_dev s1) = d_target_started (k_dev s)).
Proof.
  destruct Hdiff as (H1 & H2 & H3). unfold libc_ioctl.
  change (armor_ioctl md4 jiffies_to_timeval current ARMOR_IOC_PUSH_PLTS 0 (env_of w e)) with (ioctl_push_plts (env_of w e)).
  unfold ioctl_push_plts, Padyn.env_of, plt_got_copy. cbn [e_read_plt_got e_kmalloc e_read_bytes pg_plts pg_gots pg_size pg_items].
  unfold plts_copied. rewrite decide_True by done. rewrite decide_False by done. rewrite decide_True by done.
  destruct (e_read_plt_got e).2; cbn [negb andb]; krun; [|by eexists; split; [reflexivity|]; split]. destruct (e_kmalloc e 0); cbn [negb andb]; krun; [|by eexists; split; [reflexivity|]; split].
  destruct (e_read_bytes e a_plts _).2; cbn [negb andb]; krun; [|by eexists; split; [reflexivity|]; split]. destruct (e_kmalloc e 1); cbn [negb andb]; krun; [|by eexists; split; [reflexivity|]; split].
  destruct (e_read_bytes e a_gots _).2; cbn [negb andb]; krun; [|by eexists; split; [reflexivity|]; split]. eexists. split; [reflexivity|]. by split_and!.
Qed.

Lemma push_exits_run w e s : exists s1, ioctl ARMOR_IOC_PUSH_EXITS (env_of w e) s = Done (if exits_copied w e then 0 else 1) s1 /\ untouched s s1 /\
  (exits_copied w e = true -> d_simples (k_dev s1) = kernel_exits w /\ d_exitpoints_available (k_dev s1) = d_exitpoints_available (k_dev s) + 1 /\
   d_plt_got (k_dev s1) = d_plt_got (k_dev s) /\ d_plt_available (k_dev s1) = d_plt_available (k_dev s) /\ d_opens (k_dev s1) = d_opens (k_dev s) /\
   d_initialized (k_dev s1) = d_initialized (k_dev s) /\ d_target_started (k_dev s1) = d_target_started (k_dev s)).
Proof.
  destruct Hdiff as (H1 & H2 & H3). unfold libc_ioctl.
  change (armor_ioctl md4 jiffies_to_timeval current ARMOR_IOC_PUSH_EXITS 0 (env_of w e)) with (ioctl_push_exits (env_of w e)).
  unfold ioctl_push_exits, Padyn.env_of, simples. cbn [e_read_simples e_kmalloc e_read_bytes sp_exitpoints sp_size sp_items].
  unfold exits_copied. rewrite !decide_False by done.
  destruct (e_read_simples e).2; cbn [negb andb]; krun; [|by eexists; split; [reflexivity|]; split]. destruct (e_kmalloc e 0); cbn [negb andb]; krun; [|by eexists; split; [reflexivity|]; split].
  destruct (e_read_bytes e a_exits _).2; cbn [negb andb]; krun; [|by eexists; split; [reflexivity|]; split]. eexists. split; [reflexivity|]. by split_and!.
Qed.

(** The device after the tables were handed over; [s] is the state before. *)
Record handed_over (w : wrapping) (s s' : kstate) : Prop := {
  ho_plts : d_plt_got (k_dev s') = kernel_plts w;
  ho_exits : d_simples (k_dev s') = kernel_exits w;
  ho_plt_sem : d_plt_available (k_dev s') = (if d_initialized (k_dev s) then d_plt_available (k_dev s) else 0) + 1;
  ho_exit_sem : d_exitpoints_available (k_dev s') = (if d_initialized (k_dev s) then d_exitpoints_available (k_dev s) else 0) + 1;
  ho_opens : d_opens (k_dev s') = d_opens (k_dev s);
  ho_initialized : d_initialized (k_dev s') = bool_decide (d_opens (k_dev s) <> 0)
}.

Lemma close_run s : exists r s1, armor_close s = Done r s1 /\ untouched s s1 /\ d_plt_got (k_dev s1) = d_plt_got (k_dev s) /\
  d_simples (k_dev s1) = d_simples (k_dev s) /\ d_plt_available (k_dev s1) = d_plt_available (k_dev s) /\
  d_exitpoints_available (k_dev s1) = d_exitpoints_available (k_dev s) /\ d_opens (k_dev s1) = d_opens (k_dev s) - 1 /\
  d_initialized (k_dev s1) = bool_decide (d_opens (k_dev s) - 1 <> 0) && d_initialized (k_dev s).
Proof.
  unfold armor_close. krun. kproj. cbn [d_opens set_opens]. case_decide as Hd.
  - do 2 eexists. split; [reflexivity|]. rewrite bool_decide_eq_true_2 by done. by split_and!.
  - krun. do 2 eexists. split; [reflexivity|]. rewrite bool_decide_eq_false_2 by lia. by split_and!.
Qed.

(** Opening the device: it is initialised afterwards, and its semaphores are as
    they were or, if it was not, zero. *)
Lemma open_device s : d_initialized (k_dev s) || crypto_ok = true -> exists s1, open_armor crypto_ok new_fd s = Done new_fd s1 /\ untouched s s1 /\
  d_opens (k_dev s1) = d_opens (k_dev s) + 1 /\ d_initialized (k_dev s1) = true /\
  d_plt_available (k_dev s1) = (if d_initialized (k_dev s) then d_plt_available (k_dev s) else 0) /\
  d_exitpoints_available (k_dev s1) = (if d_initialized (k_dev s) then d_exitpoints_available (k_dev s) else 0).
Proof.
  intros Hok. unfold open_armor, armor_open. krun. kproj. destruct (d_initialized (k_dev s)) eqn:Hi; cbn [d_initialized set_opens]; rewrite Hi; krun.
  { eexists. split; [reflexivity|]. by split_and!. }
  cbn in Hok. rewrite Hok. cbn [negb]. krun. eexists. split; [reflexivity|]. by split_and!.
Qed.

Lemma push_tables_spec w s : exists r s', push_tables md4 jiffies_to_timeval current e1 e2 crypto_ok new_fd a_plts a_gots a_exits w s = Done r s' /\
  untouched s s' /\
  (r = Some tt <-> d_initialized (k_dev s) || crypto_ok = true /\ 0 <= new_fd /\ plts_copied w e1 = true /\ exits_copied w e2 = true) /\
  (r = Some tt -> handed_over w s s').
Proof.
  unfold push_tables. destruct (d_initialized (k_dev s) || crypto_ok) eqn:Hok.
  2: { destruct (open_armor_run crypto_ok new_fd s) as (r & s1 & Ho & U & _ & _ & Hr). rewrite Hok in Hr. subst r.
       unfold mbind, K_bind. rewrite Ho. cbn [proc_bind]. rewrite decide_True by lia. do 2 eexists. split; [reflexivity|]. split; [done|]. naive_solver. }
  destruct (open_device s Hok) as (s1 & Ho & U1 & O1 & I1 & P1 & X1). unfold mbind at 1, K_bind at 1. rewrite Ho. cbn [proc_bind].
  case_decide as Hfd; [do 2 eexists; split; [reflexivity|]; split; [done|]; split; [split; [done|intros (_ & ? & _); lia]|done]|].
  destruct (push_plts_run w e1 s1) as (s2 & Hp & U2 & Hs2). unfold mbind at 1, K_bind at 1. rewrite Hp. cbn [proc_bind].
  destruct (plts_copied w e1); [change (c_true 0) with false|change (c_true 1) with true]; cbn match.
  2: { do 2 eexists. split; [reflexivity|]. split; [by transitivity s1|]. naive_solver. }
  destruct (push_exits_run w e2 s2) as (s3 & Hx & U3 & Hs3). unfold mbind at 1, K_bind at 1. rewrite Hx. cbn [proc_bind].
  destruct (exits_copied w e2); [change (c_true 0) with false|change (c_true 1) with true]; cbn match.
  2: { do 2 eexists. split; [reflexivity|]. split; [transitivity s1; [done|by transitivity s2]|]. naive_solver. }
  destruct (close_run s3) as (r4 & s4 & Hc & U4 & C1 & C2 & C3 & C4 & C5 & C6). unfold mbind, K_bind. rewrite Hc. cbn [proc_bind].
  destruct (Hs2 eq_refl) as (A1 & A2 & A3 & A4 & A5 & _), (Hs3 eq_refl) as (B1 & B2 & B3 & B4 & B5 & B6 & _).
  do 2 eexists. split; [reflexivity|]. split; [transitivity s1; [done|transitivity s2; [done|by transitivity s3]]|]. split; [split; [intros _; split_and!; [done|lia|done|done]|done]|].
  intros _. split; [congruence|congruence|..].
  - rewrite C3, B4, A2, P1. done.
  - rewrite C4, B2, A3, X1. done.
  - rewrite C5, B5, A4, O1. lia.
  - rewrite C6, B6, A5, I1, B5, A4, O1, andb_true_r. apply bool_decide_ext. lia.
Qed.
End Pushed.

(** ** The calls of libraries that are wrapped *)

Section Indirects.
Context (q : process).

Definition insn_size (p : call_point) : Z := u64 (pt_fallthrough p - pt_address p).

(** The points a procedure, a library and all of them give: the dynamic calls of
    what is not skipped. *)
Definition procedure_points (modname : string) (f : lib_procedure) : list call_point :=
  if skipped_procedure modname (lp_name f) then [] else filter (fun p => pt_dynamic p = true) (default [] (lp_calls f)).
Definition library_points (m : lib_module) : list call_point := lm_procedures m ≫= procedure_points (lm_name m).
Definition kept_libraries : list lib_module := filter (fun m => skipped_library m = false) (libraries q).

(** The snippet goes in; all those of a procedure do; the library is committed as the
    [n]th. *)
Definition point_fits (p : call_point) : Prop := insn_size p <= MAX_CALL_INSN_SIZE /\ insertSnippet q (pt_address p) = true.
Definition procedure_fits (modname : string) (f : lib_procedure) : Prop :=
  (skipped_procedure modname (lp_name f) = false -> is_Some (lp_calls f)) /\ Forall point_fits (procedure_points modname f).
Definition library_fits (n : nat) (m : lib_module) : Prop :=
  named q ARMOR_CBK_ENTER = 1%nat /\ Forall (procedure_fits (lm_name m)) (lm_procedures m) /\ finalizeInsertionSet q n = true.

Definition site (p : call_point) : Z * Z := (pt_address p, insn_size p).

(** A loop that appends what each element gives, or stops where one does not fit. *)
Lemma fold_opt_spec {A} (body : A -> list (Z * Z) -> option (list (Z * Z))) (fits : A -> Prop) (points : A -> list call_point) l acc :
  (forall x acc, match body x acc with Some acc' => fits x /\ acc' = acc ++ (site <$> points x) | None => ~ fits x end) ->
  match fold_opt body l acc with
  | Some acc' => Forall fits l /\ acc' = acc ++ (site <$> (l ≫= points))
  | None => ~ Forall fits l
  end.
Proof.
  intros Hb. revert acc. induction l as [|x l IH]; intros acc; cbn [fold_opt]; [by rewrite app_nil_r|].
  specialize (Hb x acc). destruct (body x acc) as [acc1|]; cbn; [|by intros [? _]%Forall_cons]. destruct Hb as [Hx ->].
  specialize (IH (acc ++ (site <$> points x))). destruct (fold_opt body l _) as [acc2|]; [|by intros [_ ?]%Forall_cons]. destruct IH as [Hl ->].
  split; [by constructor|]. by rewrite fmap_app, app_assoc.
Qed.

Lemma wrap_point_spec p acc : match wrap_point q p acc with
  | Some acc' => (pt_dynamic p = true -> point_fits p) /\ acc' = acc ++ (site <$> filter (fun p => pt_dynamic p = true) [p])
  | None => ~ (pt_dynamic p = true -> point_fits p)
  end.
Proof.
  unfold wrap_point, point_fits. fold (insn_size p). rewrite filter_cons, filter_nil. destruct (pt_dynamic p); [|cbn; by rewrite app_nil_r].
  rewrite (decide_True (P := true = true)) by done. case_decide; [intros Hf; destruct (Hf eq_refl); lia|].
  destruct (insertSnippet q (pt_address p)); cbn; [|naive_solver]. split; [split; [lia|done]|done].
Qed.

Lemma Forall_dynamic l : Forall (fun p => pt_dynamic p = true -> point_fits p) l <-> Forall point_fits (filter (fun p => pt_dynamic p = true) l).
Proof.
  rewrite !Forall_forall. split; intros H p.
  - intros [Hd Hp]%list_elem_of_filter. by apply H.
  - intros Hp Hd. apply H. by apply list_elem_of_filter.
Qed.

Lemma bind_filter l : l ≫= (fun p => filter (fun p => pt_dynamic p = true) [p]) = filter (fun p => pt_dynamic p = true) l.
Proof. induction l as [|p l IH]; [done|]. cbn [mbind list_bind]. rewrite IH, !filter_cons. by case_decide. Qed.

Lemma wrap_procedure_spec modname f acc : match wrap_procedure q modname f acc with
  | Some acc' => procedure_fits modname f /\ acc' = acc ++ (site <$> procedure_points modname f)
  | None => ~ procedure_fits modname f
  end.
Proof.
  unfold wrap_procedure, procedure_fits, procedure_points. destruct (skipped_procedure modname (lp_name f)).
  { split; [split; [done|constructor]|]. by rewrite app_nil_r. }
  destruct (lp_calls f) as [calls|]; cbn; [|intros [Hs _]; by destruct (Hs eq_refl)].
  pose proof (fold_opt_spec (wrap_point q) _ _ calls acc wrap_point_spec) as H.
  destruct (fold_opt _ calls acc).
  - destruct H as [Hf%Forall_dynamic ->]. rewrite bind_filter. by split.
  - intros [_ Hf%Forall_dynamic]. done.
Qed.

Lemma wrap_modules_spec n mods acc : let kept := filter (fun m => skipped_library m = false) mods in
  match wrap_modules q n mods acc with
  | Some acc' => (forall k m, kept !! k = Some m -> library_fits (n + k) m) /\ acc' = acc ++ (site <$> (kept ≫= library_points))
  | None => exists k m, kept !! k = Some m /\ ~ library_fits (n + k) m
  end.
Proof.
  cbv zeta. revert n acc. induction mods as [|m mods IH]; intros n acc; cbn [wrap_modules].
  { rewrite filter_nil. split; [done|]. by rewrite app_nil_r. }
  rewrite filter_cons. destruct (skipped_library m); [rewrite (decide_False (P := true = false)) by done; apply IH|rewrite (decide_True (P := false = false)) by done].
  assert (~ library_fits n m -> exists k m', (m :: filter (fun m => skipped_library m = false) mods) !! k = Some m' /\ ~ library_fits (n + k) m') as Hno.
  { intros Hf. exists 0%nat, m. by rewrite Nat.add_0_r. }
  unfold findFunc. destruct (decide (named q ARMOR_CBK_ENTER = 1%nat)) as [Hc|Hc]; cbn; [|apply Hno; unfold library_fits; tauto].
  pose proof (fold_opt_spec (wrap_procedure q (lm_name m)) _ _ (lm_procedures m) acc (wrap_procedure_spec (lm_name m))) as Hp.
  destruct (fold_opt _ (lm_procedures m) acc) as [acc1|]; cbn; [|apply Hno; unfold library_fits; tauto]. destruct Hp as [Hp ->].
  destruct (finalizeInsertionSet q n) eqn:Hz; cbn; [|apply Hno; unfold library_fits; rewrite Hz; naive_solver].
  specialize (IH (S n) (acc ++ (site <$> library_points m))). fold (library_points m). destruct (wrap_modules q (S n) mods _) as [acc2|].
  - destruct IH as [Hk ->]. split; [|by rewrite fmap_app, app_assoc]. intros [|k] m'; cbn; [intros [= <-]; by rewrite Nat.add_0_r|].
    intros Hm. replace (n + S k)%nat with (S n + k)%nat by lia. by apply Hk.
  - destruct IH as (k & m' & Hm & Hf). exists (S k), m'. split; [done|]. by replace (n + S k)%nat with (S n + k)%nat by lia.
Qed.

(** C19. [wrapIndirects] is exact.  It inserts a call of armor_cbk_enter before exactly the
    dynamic calls of the functions it does not skip, in the shared libraries it does not
    skip, in order, each with the size of its instruction, which is at most
    10.  It ends the process exactly if the callback is not one function, the calls of a
    function are not to be had, an instruction is longer, or Dyninst refuses a
    snippet or a commit. *)
Theorem wrapIndirects_exact :
  match wrapIndirects q with
  | Some l => (forall k m, kept_libraries !! k = Some m -> library_fits (S k) m) /\
      l = site <$> (kept_libraries ≫= library_points) /\ (forall a n, (a, n) ∈ l -> 0 <= n <= 10)
  | None => exists k m, kept_libraries !! k = Some m /\ ~ library_fits (S k) m
  end.
Proof.
  unfold wrapIndirects. pose proof (wrap_modules_spec 1 (libraries q) []) as H. cbv zeta in H. fold kept_libraries in H.
  destruct (wrap_modules q 1 (libraries q) []) as [l|]; [|done]. destruct H as [Hfit Hl]. split_and!; [done|done|].
  intros a n. rewrite Hl. cbn [app]. intros (p & Hp & Hin)%list_elem_of_fmap. unfold site in Hp. simplify_eq.
  apply list_elem_of_bind in Hin as (m & Hpm & [k Hk]%list_elem_of_lookup). destruct (Hfit k m Hk) as (_ & Hprocs & _).
  apply list_elem_of_bind in Hpm as (f & Hpf & Hf). rewrite Forall_forall in Hprocs. destruct (Hprocs f Hf) as [_ Hpts].
  rewrite Forall_forall in Hpts. destruct (Hpts p Hpf) as [Hsz _]. unfold MAX_CALL_INSN_SIZE in Hsz. split; [|done].
  unfold insn_size, u64. apply Z.mod_pos_bound. lia.
Qed.
End Indirects.

(** ** From the program to the analyzer *)

(** A user address, which has bit 63 clear. *)
Definition user_address (a : Z) : Prop := 0 <= a < 2 ^ 63.

Lemma flag_add a : user_address a -> Z.lor a FLAG63 = a + 2 ^ 63.
Proof.
  intros Ha. assert (Z.land a FLAG63 = 0) as Hl.
  { apply Z.bits_inj'. intros k Hk. unfold FLAG63. rewrite Z.land_spec, Z.shiftl_1_l, Z.pow2_bits_eqb, Z.bits_0 by lia.
    destruct (Z.eqb_spec 63 k) as [<-|]; [|apply andb_false_r]. rewrite andb_true_r. apply Z.testbit_false; [lia|].
    rewrite Z.div_small by exact Ha. done. }
  rewrite <- Z.lxor_lor, <- Z.add_nocarry_lxor by done. done.
Qed.

Lemma has_flag b a : user_address a -> Tag.has Tag.LIB_FLAG (mark_if b a) = b.
Proof.
  intros Ha. unfold Tag.LIB_FLAG. rewrite Tag.has_bit by lia. assert (Z.testbit a 63 = false) as Hf.
  { apply Z.testbit_false; [lia|]. rewrite Z.div_small by exact Ha. done. }
  destruct b; cbn [mark_if]; [|done]. rewrite Z.lor_spec, Hf. done.
Qed.

Section Tables.
Context (q : process).

Definition user_entry (rel : plt_entry) : Prop := user_address (pe_target rel) /\ user_address (got_of q rel).

(** The entries with their marks, and the rows of the two tables they make. *)
Definition marked_entries (plt : list plt_entry) : list (plt_entry * bool) := imap (fun i rel => (rel, marks q plt i rel)) plt.
Definition row (x : plt_entry * bool) : Z * Z := (mark_if x.2 (pe_target x.1), mark_if x.2 (got_of q x.1)).

(** The scan of the analyzer over such rows. *)
Lemma scan_rows a b rs : user_address a -> user_address b -> Forall (fun x => user_entry x.1) rs ->
  match scan_plt_got a b (row <$> rs) with
  | (true, _) => exists rel, (rel, false) ∈ rs /\ pe_target rel = a /\ got_of q rel = b
  | (false, true) => exists rel, (rel, true) ∈ rs /\ got_of q rel = b
  | (false, false) => forall rel m, (rel, m) ∈ rs -> got_of q rel = b -> m = false /\ pe_target rel <> a
  end.
Proof.
  intros Ua Ub. induction rs as [|[rel m] rs IH]; intros Hu; cbn [fmap list_fmap scan_plt_got]; [by intros ? ? ?%not_elem_of_nil|].
  apply Forall_cons in Hu as [[Ut Ug] Hu]. specialize (IH Hu). cbn [row fst snd] in *. rewrite (has_flag m _ Ug).
  assert (forall (P : plt_entry -> Prop) m', (exists r, (r, m') ∈ rs /\ P r) -> exists r, (r, m') ∈ (rel, m) :: rs /\ P r) as Hmore.
  { intros P m' (r & Hr & HP). exists r. split; [by right|done]. }
  destruct m; cbn [mark_if andb].
  - rewrite decide_False. 2: { rewrite !flag_add by done. unfold user_address in *. intros [? _]. lia. }
    change Tag.LIB_FLAG with FLAG63. rewrite !flag_add by done. case_bool_decide as Hb; [exists rel; split; [left|lia]|].
    destruct (scan_plt_got a b (row <$> rs)) as [[] []]; [by apply Hmore..|]. intros r m [[= -> ->]|Hr]%elem_of_cons; [lia|by apply IH].
  - case_decide as Hd; [exists rel; split; [left|done]|].
    destruct (scan_plt_got a b (row <$> rs)) as [[] []]; [by apply Hmore..|]. intros r m [[= -> ->]|Hr]%elem_of_cons; [|by apply IH]. naive_solver.
Qed.

Lemma wraps_rows plt w : wraps q (length plt) plt w -> zip (w_plts w) (w_gots w) = row <$> marked_entries plt.
Proof.
  intros W. destruct (ws_length _ _ _ _ W) as [L1 L2]. apply list_eq. intros i. unfold marked_entries. rewrite list_lookup_fmap, list_lookup_imap.
  destruct (plt !! i) as [rel|] eqn:Hi; cbn.
  - destruct (ws_plts _ _ _ _ W i rel Hi) as [H1 H2]. by apply lookup_zip_with_Some; eauto.
  - apply lookup_ge_None_2. apply lookup_ge_None_1 in Hi. rewrite length_zip. lia.
Qed.

Lemma elem_of_marked_entries plt rel m : (rel, m) ∈ marked_entries plt <-> exists i, plt !! i = Some rel /\ marks q plt i rel = m.
Proof.
  unfold marked_entries. rewrite elem_of_lookup_imap. split; intros (i & H); [destruct H as (r & [= -> ->] & Hi)|]; exists i; [done|].
  exists rel. destruct H as [? <-]. done.
Qed.

(** Every word of the tables fits. *)
Lemma wraps_u64 plt w : wraps q (length plt) plt w -> Forall user_entry plt -> Forall is_u64 (w_plts w) /\ Forall is_u64 (w_gots w).
Proof.
  intros W Hu. assert (forall m a, user_address a -> is_u64 (mark_if m a)) as Hm.
  { intros [] a Ha; cbn; [rewrite flag_add by done|]; unfold user_address, is_u64 in *; lia. }
  destruct (ws_length _ _ _ _ W) as [L1 L2]. rewrite Forall_forall in Hu.
  split; apply Forall_lookup; intros i x Hx; (destruct (plt !! i) as [rel|] eqn:Hi;
    [|apply lookup_ge_None_1 in Hi; apply lookup_lt_Some in Hx; lia]);
    destruct (ws_plts _ _ _ _ W i rel Hi) as [H1 H2]; apply list_elem_of_lookup_2, Hu in Hi as [? ?];
    [rewrite H1 in Hx|rewrite H2 in Hx]; injection Hx as <-; by apply Hm.
Qed.
End Tables.

Section Run.
Context (q : process) (md4 : list Z -> list Z) (jiffies_to_timeval : Z -> Z * Z) (current : Z).
Context (e1 e2 : env) (crypto_ok : bool) (new_fd : Z) (a_plts a_gots a_exits : Z).

(** The device can be opened and the kernel can copy the tables. *)
Definition pushable (w : wrapping) (s : kstate) : Prop :=
  d_initialized (k_dev s) || crypto_ok = true /\ 0 <= new_fd /\ plts_copied a_plts a_gots w e1 = true /\ exits_copied a_exits w e2 = true.

(** C17. [wrapLibraries] is exact.  It ends the process exactly if armor_lib_enter is not
    one function, there is no PLT, a function it wants to wrap has not one
    entry or Dyninst refuses a change there, or the tables cannot be handed to the kernel
    module.  Otherwise ([wraps]) every entry of the PLT has a row with its PLT and GOT
    address, with bit 63 set exactly if the analyzer has to let it pass (not supported, or not
    instrumentable, and not wrapped through an entry before); exactly the functions that are
    found, have a symbol and an exit, are instrumentable and make calls are wrapped, each once and after the
    snippets at its entry are deleted; and the exits of exactly the simple functions are collected.  The
    kernel module holds both tables, and each semaphore is raised by one ([handed_over]); tasks,
    registers and tables of the module are as they were. *)
Theorem wrapLibraries_exact m1 m2 s : a_plts <> a_gots /\ a_exits <> a_plts /\ a_exits <> a_gots ->
  exists r s', wrapLibraries q md4 jiffies_to_timeval current e1 e2 crypto_ok new_fd a_plts a_gots a_exits m1 m2 s = Done r s' /\ untouched s s' /\
  match r with
  | Some w => exists plt, getPLT q = Some plt /\ wrappable q plt /\ pushable w s /\ wraps q (length plt) plt w /\ handed_over w s s'
  | None => (forall plt, getPLT q = Some plt -> ~ wrappable q plt) \/
      exists plt w, getPLT q = Some plt /\ wraps q (length plt) plt w /\ ~ pushable w s
  end.
Proof.
  intros Hdiff. unfold wrapLibraries. pose proof (wrap_all_spec q m1 m2) as H. destruct (wrap_all q m1 m2) as [w|].
  2: { do 2 eexists. split; [reflexivity|]. split; [done|]. by left. }
  destruct H as (plt & Hplt & Hw & W).
  destruct (push_tables_spec md4 jiffies_to_timeval current e1 e2 crypto_ok new_fd a_plts a_gots a_exits Hdiff w s) as (r & s' & Hrun & U & Hiff & Hho).
  unfold mbind, K_bind. rewrite Hrun. cbn [proc_bind]. do 2 eexists. split; [reflexivity|]. split; [done|]. fold (pushable w s) in Hiff.
  destruct r as [[]|].
  - exists plt. split_and!; [done|done|by apply Hiff|done|by apply Hho].
  - right. exists plt, w. split_and!; [done|done|]. intros Hp. by apply Hiff in Hp.
Qed.

End Run.

(** ** A concrete process *)

(** Four entries: [read] is wrapped, [strlen] is simple, [longjmp] is not supported, and
    [read] comes again under another name.  libc has one call through a register. *)
Definition demo_read : lib_function :=
  LibFunction 0x7000 (Some [0x100]) true (Some [CallPoint 0x7110 0x7115 false]) (Some [0x7180]) (Some [0x7100]) [].
Definition demo_strlen : lib_function := LibFunction 0x7000 (Some [0x200]) true (Some []) (Some [0x7220; 0x7230]) (Some [0x7200]) [].

Definition demo_process : process := MkProcess
  (fun _ => 1%nat)
  (fun m => if decide (m = "DEFAULT_MODULE"%string)
    then Some [PltEntry "read" 0x400400 0x600000; PltEntry "strlen" 0x400410 0x600008; PltEntry "longjmp" 0x400420 0x600010;
               PltEntry "__read" 0x400430 0x600018] else None)
  (fun a => if decide (a = 0x600008) then 0x7200 else if decide (a = 0x600010) then 0x7300 else 0x7100)
  (fun g => if decide (g = 0x7100) then Some demo_read else if decide (g = 0x7200) then Some demo_strlen else None)
  (fun _ => true) (fun _ => true) (fun _ => true)
  [LibModule "libc.so.6" true [LibProcedure "qsort" (Some [CallPoint 0x7500 0x7502 true; CallPoint 0x7510 0x7515 false])];
   LibModule "libdl.so.2" true [LibProcedure "dlopen" None]].

Definition demo_wrap : option wrapping := wrap_all demo_process (fun _ => 0) (fun _ => 0).

Example demo_wrap_value : demo_wrap = Some (Wrapping [0x400400; 0x400410; 0x400420 + 2 ^ 63; 0x400430] [0x7100; 0x7200; 0x7300 + 2 ^ 63; 0x7100]
  {[0x7100]} {[0x7100; 0x7200; 0x7300]} {[0x7220; 0x7230]} [0x7100] []).
Proof. vm_compute. reflexivity. Qed.

Example demo_indirects : wrapIndirects demo_process = Some [(0x7500, 2)].
Proof. vm_compute. reflexivity. Qed.

(** The daemon has the device open. *)
Definition demo_opened : kstate := on_dev (fun d => set_initialized true (set_opens 1 d)) demo.
Definition demo_wrapping : wrapping := default (Wrapping [] [] ∅ ∅ ∅ [] []) demo_wrap.
Definition demo_plt : list plt_entry := default [] (getPLT demo_process).

Lemma wrapLibraries_exact_witness : exists w s',
  wrapLibraries demo_process Armor.demo_md4 Armor.demo_time 7 demo_env demo_env true 3 0x10000 0x20000 0x30000 (fun _ => 0) (fun _ => 0) demo_opened =
    Done (Some w) s' /\ untouched demo_opened s' /\ wraps demo_process 4 demo_plt w /\ handed_over w demo_opened s'.
Proof.
  destruct (wrapLibraries_exact demo_process Armor.demo_md4 Armor.demo_time 7 demo_env demo_env true 3 0x10000 0x20000 0x30000
    (fun _ => 0) (fun _ => 0) demo_opened ltac:(split_and!; lia)) as (r & s' & Hrun & U & Hr).
  destruct r as [w|].
  - exists w, s'. destruct Hr as (plt & Hplt & _ & _ & W & H). split; [exact Hrun|]. split; [exact U|].
    assert (plt = demo_plt) as -> by (unfold demo_plt; by rewrite Hplt). split; [exact W|exact H].
  - exfalso. assert (match wrapLibraries demo_process Armor.demo_md4 Armor.demo_time 7 demo_env demo_env true 3 0x10000 0x20000 0x30000 (fun _ => 0) (fun _ => 0) demo_opened
      with Done (Some _) _ => true | _ => false end = true) as Hv by (vm_compute; reflexivity). rewrite Hrun in Hv. discriminate Hv.
Defined.

Lemma demo_user_entries : Forall (user_entry demo_process) demo_plt.
Proof. unfold user_entry, user_address. apply (bool_decide_eq_true_1 _). vm_compute. reflexivity. Qed.

Lemma demo_exits_u64 rel l x : rel ∈ demo_plt -> fate_of demo_process rel = SimpleExits l -> x ∈ l -> is_u64 x.
Proof.
  assert (Forall (fun rel => forallb (fun x => (0 <=? x) && (x <? 2 ^ 64)) (match fate_of demo_process rel with SimpleExits l => l | _ => [] end) = true) demo_plt)
    as Hall by (apply (bool_decide_eq_true_1 _); vm_compute; reflexivity).
  intros Hr Hf Hx. rewrite Forall_forall in Hall. specialize (Hall rel Hr). cbn beta in Hall. rewrite Hf in Hall. rewrite forallb_forall in Hall.
  specialize (Hall x (proj1 (list_elem_of_In _ _) Hx)). apply andb_true_iff in Hall as [?%Z.leb_le ?%Z.ltb_lt]. done.
Qed.

