(* ===== verification/Cli.v ===== *)
(** The command line: include/common/opt/cli.h, passcli.h and passi.h, the driver
    di-opt/di-opt.cpp, and the options of dyninst-static/lbr_analysis_pass.C.

    The driver splits the arguments into options, input, output and arguments of
    the program, loads the plugins, whose options and passes register themselves, and
    refuses what nobody registered.  A plugin is what its registrations do to the
    parser.  [None] is a failed assertion or a null pointer that is followed.  Timing and the
    text of the usage message are left out. *)

From S2P Require Import Prelude Cfg CfgInv AddressTaken Builder Driver Startup.

(** ** Strings *)

(** [OptUtil::split]. *)
Fixpoint split (sep : Ascii.ascii) (text : string) : list string :=
  match text with
  | EmptyString => [EmptyString]
  | String c text =>
      if decide (c = sep) then EmptyString :: split sep text else
      match split sep text with
      | [] => [String c EmptyString]
      | t :: tokens => String c t :: tokens
      end
  end.

(** [OptUtil::join], from the token [start] to [end_]. *)
Definition join (tokens : list string) (start end_ : nat) (sep : Ascii.ascii) : string :=
  foldl (fun oss i => ((if (start <? i)%nat then oss +:+ String sep EmptyString else oss) +:+ default EmptyString (tokens !! i))%string)
    EmptyString (seq start (S end_ - start)).

Definition dash : Ascii.ascii := Ascii.Ascii true false true true false true false false.
Definition equals : Ascii.ascii := Ascii.Ascii true false true true true true false false.

(** Whether the first character is a dash; a string has a null character at its end. *)
Definition starts_dash (s : string) : bool := match s with String c _ => bool_decide (c = dash) | EmptyString => false end.
Definition tail (s : string) : string := match s with String _ s => s | EmptyString => EmptyString end.

(** ** Parameters *)

(** [owner] is a pointer to a pass; -1 marks a bad value. *)
Record OptParam := Param { key : string; value : string; raw : string; owner : Z }.

Definition INVALID : Z := -1.
Definition hasKey (p : OptParam) : bool := negb (bool_decide (key p = EmptyString)).
Definition is_owner (o : Z) : bool := negb (bool_decide (o = NULL)) && negb (bool_decide (o = INVALID)).
Definition hasOwner (p : OptParam) : bool := is_owner (owner p).
Definition isInvalid (p : OptParam) : bool := bool_decide (owner p = INVALID).
Definition set_owner (o : Z) (p : OptParam) : OptParam := Param (key p) (value p) (raw p) o.

Definition fromString (str : string) : OptParam :=
  if negb (starts_dash str) || (String.length str <=? 1)%nat then Param EmptyString str str NULL else
  match split equals str with
  | [] => Param str EmptyString str NULL
  | token :: tokens => Param (tail token) (join (token :: tokens) 1 (length tokens) equals) str NULL
  end.

(** ** The parser *)

Record opt_parser := OptParser {
  params : list OptParam;
  passes : list OptParam;
  loadPaths : list string;
  input : string;
  output : string;
  args : list string;
  err : string
}.

Definition new_parser : opt_parser := OptParser [] [] [] EmptyString EmptyString [] EmptyString.

Definition add_param p (st : opt_parser) := OptParser (params st ++ [p]) (passes st) (loadPaths st) (input st) (output st) (args st) (err st).
Definition add_path p (st : opt_parser) := OptParser (params st) (passes st) (loadPaths st ++ [p]) (input st) (output st) (args st) (err st).
Definition set_input s (st : opt_parser) := OptParser (params st) (passes st) (loadPaths st) s (output st) (args st) (err st).
Definition set_output s (st : opt_parser) := OptParser (params st) (passes st) (loadPaths st) (input st) s (args st) (err st).
Definition add_args l (st : opt_parser) := OptParser (params st) (passes st) (loadPaths st) (input st) (output st) (args st ++ l) (err st).
Definition set_err s (st : opt_parser) := OptParser (params st) (passes st) (loadPaths st) (input st) (output st) (args st) s.
Definition set_lists l l' (st : opt_parser) := OptParser l l' (loadPaths st) (input st) (output st) (args st) (err st).

Definition parseError (opt msg : string) (st : opt_parser) : opt_parser :=
  set_err ("Bad argument: '" +:+ opt +:+ "' (" +:+ msg +:+ ")")%string st.

Definition parseArg (param : OptParam) (st : opt_parser) : Z * opt_parser :=
  if decide (input st <> EmptyString) then (-1, parseError (value param) "Invalid argument" st) else (0, set_input (value param) st).

Definition INT_MAX : Z := 2 ^ 31 - 1.

Definition parseParam (p0 : OptParam) (rest : list OptParam) (st : opt_parser) : Z * opt_parser :=
  if decide (key p0 = "load"%string) then (0, add_path (value p0) st) else
  if decide (key p0 = "args"%string) then
    match rest with [] => (INT_MAX, st) | _ => (0, add_args (raw <$> rest) st) end else
  if decide (key p0 = "o"%string) then
    match rest with [] => (2, st) | p1 :: _ => (0, set_output (value p1) st) end else
  (0, add_param p0 st).

Definition parseParamGroup (group : list string) (force : bool) (st : opt_parser) : option (Z * opt_parser) :=
  match fromString <$> group with
  | [] => None
  | p0 :: rest =>
      if negb (hasKey p0) then
        match rest with [] => Some (parseArg p0 st) | _ => None end
      else
        let '(ret, st) := parseParam p0 rest st in
        if (0 <? ret) && force then Some (-1, parseError (String dash (key p0)) "Insufficient number of arguments" st) else Some (ret, st)
  end.

(** The loop, [fuel] rounds at most. *)
Fixpoint parse_loop (fuel : nat) (strParams : list string) (st : opt_parser) : option (Z * opt_parser) :=
  match strParams, fuel with
  | [], _ => Some (0, st)
  | _, O => None
  | s :: rest, S fuel =>
      '(ret, st) ← parseParamGroup [s] false st;
      let count := if 0 <? ret then Z.to_nat (Z.min (ret - 1) (Z.of_nat (length rest))) else 0%nat in
      '(ret, st) ← (if 0 <? ret then parseParamGroup (s :: take count rest) true st else Some (ret, st));
      if ret <? 0 then Some (ret, st) else parse_loop fuel (drop count rest) st
  end.

Definition parse (strParams : list string) (st : opt_parser) : option (Z * opt_parser) := parse_loop (length strParams) strParams st.

(** ** Registration *)

(** The loop over the passes: an unowned entry with the key is erased, and the entry
    behind it is not looked at.  It ends early if the entry has an owner. *)
Fixpoint drop_passes (k : string) (l : list OptParam) : bool * list OptParam :=
  match l with
  | [] => (false, [])
  | p :: l =>
      if decide (key p = k) then
        if hasOwner p then (true, p :: l) else
        match l with [] => (false, []) | n :: l => let '(b, l) := drop_passes k l in (b, n :: l) end
      else let '(b, l) := drop_passes k l in (b, p :: l)
  end.

(** The first parameter with the key, with its index. *)
Fixpoint find_param (k : string) (l : list OptParam) : option (nat * OptParam) :=
  match l with
  | [] => None
  | p :: l => if decide (key p = k) then Some (0%nat, p) else '(i, p) ← find_param k l; Some (S i, p)
  end.

(** The result, where the target is in its list, and the lists. *)
Definition registerParam (k : string) (own : Z) (isPass : bool) (st : opt_parser) : Z * option nat * opt_parser :=
  let '(taken, l) := drop_passes k (passes st) in
  let st := set_lists (params st) l st in
  if taken then (-1, None, st) else
  match find_param k (params st) with
  | None => (0, None, st)
  | Some (i, p) =>
      if hasOwner p then (-1, None, st) else
      let p := if is_owner own then set_owner own p else p in
      if isPass then (1, Some (length l), set_lists (delete i (params st)) (l ++ [p]) st)
      else (1, Some i, set_lists (<[i := p]> (params st)) l st)
  end.

(** The constructor of [cl::opt]; [this] is its address.  Where the option is taken
    already, the target is NULL and is followed. *)
Definition cl_opt {T} (this : Z) (name : string) (parse : string -> option T) (init : T) (st : opt_parser) : option (T * opt_parser) :=
  let '(ret, trg, st) := registerParam name this false st in
  if decide (ret = 0) then Some (init, st) else
  i ← trg; p ← params st !! i;
  match parse (value p) with
  | None => Some (init, set_lists (<[i := set_owner INVALID p]> (params st)) (passes st) st)
  | Some v => Some (v, st)
  end.

Definition RegisterPass (pass : Z) (name : string) (st : opt_parser) : opt_parser := (registerParam name pass true st).2.

(** ** Values *)

Definition is_space (c : Ascii.ascii) : bool :=
  let n := Ascii.nat_of_ascii c in (n =? 32)%nat || ((9 <=? n)%nat && (n <=? 13)%nat).
Definition digit (c : Ascii.ascii) : option Z :=
  let n := Z.of_nat (Ascii.nat_of_ascii c) in if (48 <=? n) && (n <=? 57) then Some (n - 48) else None.

Fixpoint skip_spaces (s : string) : string :=
  match s with String c s' => if is_space c then skip_spaces s' else s | EmptyString => s end.

(** The digits to the end of the string; [None] for another character. *)
Fixpoint digits (acc : Z) (s : string) : option Z :=
  match s with
  | EmptyString => Some acc
  | String c s => d ← digit c; digits (acc * 10 + d) s
  end.

(** A number read from a stream that is then at its end, as a C type from [lo] to [hi]. *)
Definition parse_number (lo hi : Z) (s : string) : option Z :=
  let s := skip_spaces s in
  '(neg, s) ← match s with
    | String c s' => if decide (c = dash) then Some (true, s') else
        if decide (c = Ascii.Ascii true true false true false true false false) then Some (false, s') else Some (false, s)
    | EmptyString => None
    end;
  if decide (s = EmptyString) then None else
  n ← digits 0 s;
  let v := if neg : bool then - n else n in
  if decide (lo <= v <= hi) then Some v else None.

Definition parse_int : string -> option Z := parse_number (- 2 ^ 31) (2 ^ 31 - 1).
Definition parse_bool (arg : string) : option bool :=
  n ← parse_number (- 2 ^ 63) (2 ^ 63 - 1) (if decide (arg = EmptyString) then "1"%string else arg);
  if decide (n = 0) then Some false else if decide (n = 1) then Some true else None.
Definition parse_string (arg : string) : option string := Some arg.

(** ** Loading and checking *)

(** What a plugin registers. *)
Definition plugin : Type := opt_parser -> option opt_parser.

(** [dlopen] gives a plugin or an error message; [Some (-1, _)] is the error. *)
Fixpoint load_loop (dlopen : string -> string + plugin) (paths : list string) (st : opt_parser) : option (Z * opt_parser) :=
  match paths with
  | [] => Some (0, st)
  | path :: paths =>
      match dlopen path with
      | inl msg => Some (-1, parseError path msg st)
      | inr register => st ← register st; load_loop dlopen paths st
      end
  end.
Definition load dlopen (st : opt_parser) : option (Z * opt_parser) := load_loop dlopen (loadPaths st) st.

Fixpoint check_list (l : list OptParam) (st : opt_parser) : Z * opt_parser :=
  match l with
  | [] => (0, st)
  | p :: l =>
      if negb (hasOwner p) then
        (-1, if negb (isInvalid p) then parseError (String dash (key p)) "Unknown argument" st
             else parseError (String dash (key p)) ("Bad value '" +:+ value p +:+ "'")%string st)
      else check_list l st
  end.

Inductive OptParamParserReqs := OPPR_NONE | OPPR_IO | OPPR_ARGS | OPPR_IO_OR_ARGS.

#[global] Instance reqs_eq_dec : EqDecision OptParamParserReqs.
Proof. solve_decision. Defined.

Definition hasIO (st : opt_parser) : bool := negb (bool_decide (input st = EmptyString)) && negb (bool_decide (output st = EmptyString)).

Definition check (reqs : OptParamParserReqs) (st : opt_parser) : Z * opt_parser :=
  let '(ret, st) := check_list (params st) st in
  if ret <? 0 then (ret, st) else
  let '(ret, st) := check_list (passes st) st in
  if ret <? 0 then (ret, st) else
  let hasArgs := negb (bool_decide (args st = [])) in
  if negb (hasIO st) && negb hasArgs && bool_decide (reqs = OPPR_IO_OR_ARGS) then (-1, set_err "Args or input+output files missing!" st) else
  if negb (hasIO st) && bool_decide (reqs = OPPR_IO) then
    if decide (input st = EmptyString) then (-1, set_err "Input file missing!" st) else
    if decide (output st = EmptyString) then (-1, set_err "Output file missing!" st) else (ret, st)
  else
  if negb hasArgs && bool_decide (reqs = OPPR_ARGS) then (-1, set_err "Args missing!" st) else (ret, st).

Definition parseAndLoad (strParams : list string) dlopen (reqs : OptParamParserReqs) (st : opt_parser) : option (Z * opt_parser) :=
  '(ret, st) ← parse strParams st;
  if ret <? 0 then Some (ret, st) else
  '(ret, st) ← load dlopen st;
  if ret <? 0 then Some (ret, st) else
  Some (check reqs st).

(** ** The driver *)

(** The options of the analyzer, in the order in which its plugin registers them; the
    addresses of its objects are [this], [this] + 1, and so on. *)
Definition analysis_plugin (this : Z) (st : opt_parser) : option (options * opt_parser) :=
  '(_, st) ← cl_opt this "debug" parse_bool false st;
  '(_, st) ← cl_opt (this + 1) "debug-pass" parse_string EmptyString st;
  '(o_output, st) ← cl_opt (this + 2) "output" parse_string EmptyString st;
  '(_, st) ← cl_opt (this + 3) "v" parse_bool false st;
  '(o_stats, st) ← cl_opt (this + 4) "stats" parse_string EmptyString st;
  '(o_icall, st) ← cl_opt (this + 5) "icall-map-type" parse_string "none"%string st;
  '(o_policy, st) ← cl_opt (this + 6) "address-taken-policy" parse_string "default"%string st;
  '(o_window, st) ← cl_opt (this + 7) "window-size" parse_int 2 st;
  '(o_daemon, st) ← cl_opt (this + 8) "daemon" parse_bool false st;
  '(o_cfg_stats, st) ← cl_opt (this + 9) "cfg-stats" parse_bool false st;
  let st := RegisterPass (this + 10) "lbr_analysis_pass" st in
  Some (Options o_output o_stats o_icall o_policy o_window o_daemon o_cfg_stats, st).

(** What the driver does with the binary or the process. *)
Inductive action :=
| Usage (msg : string)
| OpenBinary (path : string)
| CreateProcess (argv : list string)
| RunPass (pass : Z)
| Terminate
| WriteFile (path : string)
| Detach
| Continue.

Record std_opts := StdOpts { detach : bool; quit : bool; forceRewriting : bool }.

Definition STD_CL_OPTS (this : Z) (st : opt_parser) : option (std_opts * opt_parser) :=
  '(_, st) ← cl_opt this "time-passes" parse_bool false st;
  '(d, st) ← cl_opt (this + 1) "detach" parse_bool true st;
  '(q, st) ← cl_opt (this + 2) "quit" parse_bool false st;
  '(f, st) ← cl_opt (this + 3) "force-rewriting" parse_bool false st;
  Some (StdOpts d q f, st).

(** The loop over the passes: [run] gives the result of [runOnModule] and whether the
    pass wrote the output.  The actions, [modified] and [outputWritten]. *)
Fixpoint run_passes (run : Z -> bool * bool) (ps : list OptParam) (modified outputWritten : bool) : list action * bool * bool :=
  match ps with
  | [] => ([], modified, outputWritten)
  | p :: ps =>
      if outputWritten then run_passes run ps modified outputWritten else
      let '(retB, written) := run (owner p) in
      let '(acts, m, w) := run_passes run ps (modified || retB) written in (RunPass (owner p) :: acts, m, w)
  end.

(** [handle] is whether [openBinary] gives the binary. *)
Definition di_opt_main (this : Z) (dlopen : string -> string + plugin) (run : Z -> bool * bool) (handle : bool) (argv : list string) : option (list action) :=
  '(ret, st) ← parse argv new_parser;
  if ret <? 0 then Some [Usage (err st)] else
  '(std, st) ← STD_CL_OPTS this st;
  '(ret, st) ← load dlopen st;
  if ret <? 0 then Some [Usage (err st)] else
  let '(ret, st) := check OPPR_IO_OR_ARGS st in
  if ret <? 0 then Some [Usage (err st)] else
  let opening := if hasIO st then OpenBinary (input st) else CreateProcess (args st) in
  let '(acts, modified, written) := run_passes run (passes st) false false in
  let acts := opening :: acts in
  let pHandle := negb (hasIO st) && handle in
  let beHandle := hasIO st && handle in
  if quit std then Some (acts ++ (if pHandle then [Terminate] else [])) else
  let modified := modified || forceRewriting std in
  if modified && negb written && beHandle then Some (acts ++ [WriteFile (output st)]) else
  if pHandle then Some (acts ++ [if detach std then Detach else Continue]) else Some acts.

(** ** Splitting and joining *)

Fixpoint contains (c : Ascii.ascii) (s : string) : bool :=
  match s with EmptyString => false | String d s => bool_decide (d = c) || contains c s end.

Lemma string_app_assoc (a b c : string) : (a +:+ (b +:+ c) = (a +:+ b) +:+ c)%string.
Proof. induction a as [|x a IH]; [done|]. exact (f_equal (String x) IH). Qed.

Lemma string_app_nil (a : string) : (a +:+ EmptyString = a)%string.
Proof. induction a as [|x a IH]; [done|]. exact (f_equal (String x) IH). Qed.

Lemma split_cons sep c s : split sep (String c s) =
  if decide (c = sep) then EmptyString :: split sep s else match split sep s with [] => [String c EmptyString] | t :: l => String c t :: l end.
Proof. done. Qed.

Lemma contains_cons c d s : contains c (String d s) = bool_decide (d = c) || contains c s.
Proof. done. Qed.

Lemma split_one sep s : contains sep s = false -> split sep s = [s].
Proof.
  induction s as [|c s IH]; [done|]. rewrite contains_cons, split_cons. intros [Hc%bool_decide_eq_false Hs]%orb_false_iff. rewrite decide_False by done. by rewrite IH.
Qed.

Lemma split_app sep s t : contains sep s = false -> split sep (s +:+ String sep t)%string = s :: split sep t.
Proof.
  induction s as [|c s IH]; [intros _; change (EmptyString +:+ String sep t)%string with (String sep t); by rewrite split_cons, decide_True|].
  change (String c s +:+ String sep t)%string with (String c (s +:+ String sep t)). rewrite contains_cons, split_cons.
  intros [Hc%bool_decide_eq_false Hs]%orb_false_iff. rewrite decide_False by done. by rewrite IH.
Qed.

(** The tokens with the separator before each. *)
Definition separated (sep : Ascii.ascii) (l : list string) : string := foldr (fun t s => String sep (t +:+ s)%string) EmptyString l.

Lemma join_steps sep l pre acc : (2 <= length pre)%nat ->
  foldl (fun oss i => ((if (1 <? i)%nat then oss +:+ String sep EmptyString else oss) +:+ default EmptyString (app pre l !! i))%string)
    acc (seq (length pre) (length l)) = (acc +:+ separated sep l)%string.
Proof.
  revert pre acc. induction l as [|t l IH]; intros pre acc Hp; cbn [length seq foldl]; [by rewrite string_app_nil|].
  rewrite list_lookup_middle by done. cbn [default]. rewrite (proj2 (Nat.ltb_lt 1 (length pre))) by lia.
  specialize (IH (pre ++ [t])). rewrite length_app, <- app_assoc in IH. cbn [length app] in IH.
  replace (S (length pre)) with (length pre + 1)%nat by lia. rewrite IH by lia. cbn [separated foldr]. by rewrite <- !string_app_assoc.
Qed.

Lemma join_tail sep a t l : join (a :: t :: l) 1 (S (length l)) sep = (t +:+ separated sep l)%string.
Proof.
  unfold join. replace (S (S (length l)) - 1)%nat with (S (length l)) by lia. cbn [seq foldl]. change ((1 <? 1)%nat) with false. cbn [lookup list_lookup default].
  apply (join_steps sep l [a; t]). cbn. lia.
Qed.

Lemma split_joined sep s : exists t l, split sep s = t :: l /\ (t +:+ separated sep l)%string = s.
Proof.
  induction s as [|c s (t & l & Hs & IH)]; [by exists EmptyString, []|]. rewrite split_cons, Hs. case_decide as Hc.
  - subst c. exists EmptyString, (t :: l). split; [done|]. exact (f_equal (String sep) IH).
  - exists (String c t), l. split; [done|]. exact (f_equal (String c) IH).
Qed.

(** A key with a value, and a key alone. *)
Lemma fromString_value k v : contains equals k = false -> k <> EmptyString ->
  fromString (String dash (k +:+ String equals v)%string) = Param k v (String dash (k +:+ String equals v)%string) NULL.
Proof.
  intros Hk Hn. unfold fromString. set (str := String dash _). destruct k as [|c k]; [done|].
  assert (contains equals (String dash (String c k)) = false) as Hd by done.
  assert (split equals str = String dash (String c k) :: split equals v) as -> by (exact (split_app equals _ v Hd)).
  replace (negb (starts_dash str) || (String.length str <=? 1)%nat) with false by done.
  destruct (split_joined equals v) as (t & l & -> & Hj). cbn [length]. rewrite join_tail, Hj. done.
Qed.

Lemma fromString_key k : contains equals k = false -> k <> EmptyString -> fromString (String dash k) = Param k EmptyString (String dash k) NULL.
Proof.
  intros Hk Hn. unfold fromString. destruct k as [|c k]; [done|]. rewrite split_one by done. done.
Qed.

Lemma fromString_plain s : starts_dash s = false -> fromString s = Param EmptyString s s NULL.
Proof. intros Hs. unfold fromString. by rewrite Hs. Qed.

(** ** The parser ends and gives 0 or -1 *)

Lemma parse_group_one s st : exists r st', parseParamGroup [s] false st = Some (r, st') /\ (0 < r -> hasKey (fromString s) = true).
Proof.
  unfold parseParamGroup. cbn [fmap list_fmap]. destruct (hasKey (fromString s)); cbn [negb].
  - destruct (parseParam _ [] st) as [r st']. rewrite andb_false_r. by exists r, st'.
  - unfold parseArg. case_decide; do 2 eexists; (split; [reflexivity|lia]).
Qed.

Lemma parse_group_forced s l st : hasKey (fromString s) = true -> exists r st', parseParamGroup (s :: l) true st = Some (r, st') /\ (r = 0 \/ r = -1).
Proof.
  intros Hk. unfold parseParamGroup. cbn [fmap list_fmap]. rewrite Hk. cbn [negb]. destruct (parseParam _ _ st) as [r st'] eqn:Hp. rewrite andb_true_r.
  destruct (Z.ltb_spec 0 r); [do 2 eexists; split; [reflexivity|by right]|]. do 2 eexists. split; [reflexivity|]. left.
  unfold parseParam in Hp. repeat case_decide; repeat case_match; simplify_eq; unfold INT_MAX in *; lia.
Qed.

Lemma parse_group_small s st r st' : parseParamGroup [s] false st = Some (r, st') -> r <= 0 -> r = 0 \/ r = -1.
Proof.
  unfold parseParamGroup. cbn [fmap list_fmap]. destruct (negb _).
  - unfold parseArg. case_decide; intros [= <- _]; auto.
  - unfold parseParam. cbn. repeat case_decide; cbn; rewrite ?andb_false_r; intros [= <- _]; unfold INT_MAX; auto; lia.
Qed.

Lemma parse_loop_total fuel strs st : (length strs <= fuel)%nat -> exists r st', parse_loop fuel strs st = Some (r, st') /\ (r = 0 \/ r = -1).
Proof.
  revert strs st. induction fuel as [|fuel IH]; intros [|s rest] st Hf; cbn [length] in Hf; try lia; cbn [parse_loop]; [by do 2 eexists; split; [|left]..|].
  destruct (parse_group_one s st) as (r & st1 & Hg & Hk). rewrite Hg. cbn [mbind option_bind]. set (count := if 0 <? r then _ else _).
  assert (length (drop count rest) <= fuel)%nat as Hd by (rewrite length_drop; lia). destruct (Z.ltb_spec 0 r) as [Hr|Hr].
  - destruct (parse_group_forced s (take count rest) st1 (Hk Hr)) as (r2 & st2 & Hg2 & Hr2). rewrite Hg2. cbn [mbind option_bind].
    destruct (r2 <? 0); [by do 2 eexists|]. by apply IH.
  - cbn [mbind option_bind]. pose proof (parse_group_small _ _ _ _ Hg Hr). destruct (r <? 0); [by do 2 eexists|]. by apply IH.
Qed.

(** ** Printing a command line and parsing it back *)

Inductive word :=
| WLoad (path : string)
| WOption (k v : string)
| WInput (file : string)
| WOutput (file : string).

Definition option_text (k v : string) : string :=
  String dash (if decide (v = EmptyString) then k else (k +:+ String equals v)%string).

Definition render (w : word) : list string :=
  match w with
  | WLoad path => [String dash ("load" +:+ String equals path)%string]
  | WOption k v => [option_text k v]
  | WInput file => [file]
  | WOutput file => ["-o"%string; file]
  end.

(** The words that mean what they look like. *)
Definition good_word (w : word) : Prop :=
  match w with
  | WLoad _ => True
  | WOption k _ => k <> EmptyString /\ contains equals k = false /\ k <> "load"%string /\ k <> "args"%string /\ k <> "o"%string
  | WInput file => starts_dash file = false /\ file <> EmptyString
  | WOutput file => starts_dash file = false
  end.

Definition exec (st : opt_parser) (w : word) : opt_parser :=
  match w with
  | WLoad path => add_path path st
  | WOption k v => add_param (Param k v (option_text k v) NULL) st
  | WInput file => set_input file st
  | WOutput file => set_output file st
  end.

Definition is_input (w : word) : bool := match w with WInput _ => true | _ => false end.
Fixpoint inputs (ws : list word) : nat := match ws with [] => 0 | w :: ws => (if is_input w then 1 else 0) + inputs ws end.

(** The whole line; the arguments of the program come last. *)
Definition render_line (ws : list word) (l : list string) : list string :=
  (ws ≫= render) ++ match l with [] => [] | _ => "-args"%string :: l end.

Lemma parse_word w rest fuel st : good_word w -> (is_input w = true -> input st = EmptyString) ->
  parse_loop (S fuel) (render w ++ rest) st = parse_loop fuel rest (exec st w).
Proof.
  intros Hg Hin. destruct w as [path|k v|file|file]; cbn [render app parse_loop].
  - unfold parseParamGroup. cbn [fmap list_fmap]. rewrite fromString_value by done. done.
  - destruct Hg as (Hn & Hc & H1 & H2 & H3).
    assert (fromString (option_text k v) = Param k v (option_text k v) NULL) as Hf.
    { unfold option_text. case_decide as Hv; [subst v; by apply fromString_key|by apply fromString_value]. }
    unfold parseParamGroup. cbn [fmap list_fmap]. rewrite Hf. unfold hasKey, parseParam. cbn [key value]. rewrite bool_decide_eq_false_2 by done. cbn [negb].
    rewrite !decide_False by done. done.
  - destruct Hg as [Hg Hn]. unfold parseParamGroup. cbn [fmap list_fmap]. rewrite fromString_plain by done. unfold parseArg. cbn [hasKey key negb].
    rewrite Hin by done. done.
  - change (parseParamGroup ["-o"%string] false st) with (Some (2, st)). cbn [mbind option_bind].
    replace (Z.to_nat (Z.min (2 - 1) (Z.of_nat (length (file :: rest))))) with 1%nat by (cbn [length]; lia).
    assert (parseParamGroup ["-o"%string; file] true st = Some (0, set_output (value (fromString file)) st)) as Ho by reflexivity.
    change (0 <? 2) with true. cbn match. cbn [take drop]. change (take 0 rest) with (@nil string). change (drop 0 rest) with rest. rewrite Ho, fromString_plain by done. done.
Qed.

Lemma input_exec st w : input (exec st w) = match w with WInput file => file | _ => input st end.
Proof. by destruct w. Qed.

Lemma parse_words ws rest fuel st : Forall good_word ws -> (inputs ws + (if decide (input st = EmptyString) then 0 else 1) <= 1)%nat ->
  (length (ws ≫= render) + length rest <= fuel)%nat ->
  exists fuel', (length rest <= fuel')%nat /\ parse_loop fuel ((ws ≫= render) ++ rest) st = parse_loop fuel' rest (foldl exec st ws).
Proof.
  revert fuel st. induction ws as [|w ws IH]; intros fuel st Hg Hi Hf; [by exists fuel|]. apply Forall_cons in Hg as [Hw Hg].
  change ((w :: ws) ≫= render) with (render w ++ (ws ≫= render)) in *. rewrite length_app in Hf. cbn [inputs] in Hi.
  assert (1 <= length (render w))%nat as Hr by (destruct w; cbn; lia). destruct fuel as [|fuel]; [lia|].
  rewrite <- app_assoc, parse_word; [|done|].
  - apply IH; [done| |lia]. rewrite input_exec. destruct w; cbn [is_input] in Hi; try lia; repeat case_decide; lia.
  - intros Hin. rewrite Hin in Hi. by case_decide; [|lia].
Qed.

Lemma parse_args l fuel st : l <> [] -> (S (length l) <= fuel)%nat -> Z.of_nat (length l) < INT_MAX ->
  parse_loop fuel ("-args"%string :: l) st = Some (0, add_args l st).
Proof.
  intros Hl Hf Hm. destruct fuel as [|fuel]; [lia|]. cbn [parse_loop].
  change (parseParamGroup ["-args"%string] false st) with (Some (INT_MAX, st)). cbn [mbind option_bind].
  change (0 <? INT_MAX) with true. cbn match. replace (Z.to_nat (Z.min (INT_MAX - 1) (Z.of_nat (length l)))) with (length l) by lia.
  rewrite firstn_all, drop_all. destruct l as [|a l]; [done|].
  assert (parseParamGroup ("-args"%string :: a :: l) true st = Some (0, add_args (raw <$> (fromString <$> a :: l)) st)) as -> by reflexivity.
  cbn [mbind option_bind]. change (0 <? 0) with false. cbn match. destruct fuel; cbn [parse_loop]; do 3 f_equal;
    rewrite <- list_fmap_compose; apply list_fmap_id_alt || (rewrite (list_fmap_ext _ id); [by rewrite list_fmap_id|]); intros; unfold compose, fromString; repeat case_match; done.
Qed.

(** A rendered line parses to what it says. *)
Lemma parse_render_spec ws l st : Forall good_word ws -> (inputs ws <= 1)%nat -> input st = EmptyString -> Z.of_nat (length l) < INT_MAX ->
  parse (render_line ws l) st = Some (0, add_args l (foldl exec st ws)).
Proof.
  intros Hg Hi He Hm. unfold parse, render_line. destruct (parse_words ws (match l with [] => [] | _ => "-args"%string :: l end)
    (length ((ws ≫= render) ++ match l with [] => [] | _ => "-args"%string :: l end)) st Hg) as (fuel & Hf & ->).
  - rewrite decide_True by done. lia.
  - by rewrite length_app.
  - destruct l as [|a l]; [|by apply parse_args].
    assert (forall st, add_args [] st = st) as -> by (intros []; unfold add_args; cbn; by rewrite app_nil_r). by destruct fuel.
Qed.

(** ** Registration, on the list of parameters *)

(** A declared option: its name, which values it takes, and its address. *)
Record decl := Decl { d_name : string; d_ok : string -> bool; d_this : Z }.

Definition claimed (d : decl) (p : OptParam) : OptParam := set_owner (if d_ok d (value p) then d_this d else INVALID) p.

Fixpoint reg (l : list OptParam) (d : decl) : list OptParam :=
  match l with
  | [] => []
  | p :: l => if decide (key p = d_name d) then claimed d p :: l else p :: reg l d
  end.

(** The value of an option: of the first parameter with its name. *)
Definition opt_value {T} (name : string) (parse : string -> option T) (init : T) (l : list OptParam) : T :=
  match find_param name l with None => init | Some (_, p) => default init (parse (value p)) end.

Definition decl_of {T} (this : Z) (name : string) (parse : string -> option T) : decl := Decl name (fun v => bool_decide (is_Some (parse v))) this.

Lemma find_param_lookup k l i p : find_param k l = Some (i, p) -> l !! i = Some p /\ key p = k.
Proof.
  revert i. induction l as [|q l IH]; intros i; cbn; [done|]. case_decide as Hk; [by intros [= <- <-]|].
  destruct (find_param k l) as [[j r]|]; cbn; [|done]. intros [= <- <-]. by apply IH.
Qed.

Lemma reg_found l d i p : find_param (d_name d) l = Some (i, p) -> reg l d = <[i := claimed d p]> l.
Proof.
  revert i. induction l as [|q l IH]; intros i; cbn; [done|]. case_decide as Hk; [by intros [= <- <-]|].
  destruct (find_param (d_name d) l) as [[j r]|]; cbn; [|done]. intros [= <- <-]. by rewrite (IH j).
Qed.

Lemma reg_not_found l d : find_param (d_name d) l = None -> reg l d = l.
Proof.
  induction l as [|q l IH]; cbn; [done|]. case_decide as Hk; [done|]. destruct (find_param (d_name d) l) as [[j r]|]; cbn; [done|]. intros _. by rewrite IH.
Qed.

Lemma find_param_reg k l d : k <> d_name d -> find_param k (reg l d) = find_param k l.
Proof.
  intros Hk. induction l as [|q l IH]; cbn; [done|]. case_decide as Hq; cbn [find_param].
  - cbn [claimed set_owner key]. by rewrite !decide_False by congruence.
  - by rewrite IH.
Qed.

Lemma find_param_regs k l ds : k ∉ d_name <$> ds -> find_param k (foldl reg l ds) = find_param k l.
Proof.
  revert l. induction ds as [|d ds IH]; intros l Hk; cbn [foldl]; [done|]. cbn in Hk. apply not_elem_of_cons in Hk as [Hd Hk]. rewrite IH by done. by apply find_param_reg.
Qed.

(** No parameter is owned. *)
Definition unowned (l : list OptParam) : Prop := Forall (fun p => owner p = NULL) l.

Lemma find_unowned k l i p : unowned l -> find_param k l = Some (i, p) -> hasOwner p = false.
Proof.
  intros Hu [Hp _]%find_param_lookup. unfold unowned in Hu. rewrite Forall_forall in Hu. specialize (Hu p (list_elem_of_lookup_2 _ _ _ Hp)). cbn beta in Hu.
  unfold hasOwner. by rewrite Hu.
Qed.

(** [cl::opt] after the options [ds], on the parameters [l]. *)
Lemma cl_opt_run {T} this name (parse : string -> option T) init st l ds :
  unowned l -> params st = foldl reg l ds -> passes st = [] -> name ∉ d_name <$> ds -> is_owner this = true ->
  cl_opt this name parse init st =
    Some (opt_value name parse init l, set_lists (foldl reg l (ds ++ [decl_of this name parse])) [] st).
Proof.
  intros Hu Hp Hs Hn Ho. pose proof (find_param_regs name l ds Hn) as Hf. unfold cl_opt, registerParam, opt_value. rewrite Hs, Hp. cbn [drop_passes]. cbn match.
  change (params (set_lists (foldl reg l ds) [] st)) with (foldl reg l ds). rewrite Hf, foldl_snoc. set (d := decl_of this name parse).
  destruct (find_param name l) as [[i p]|] eqn:Hl.
  2: { cbn. rewrite (reg_not_found _ d) by exact Hf. done. }
  rewrite (find_unowned name l i p Hu Hl), Ho. cbn match. rewrite (decide_False (P := 1 = 0)) by lia. cbn [mbind option_bind].
  pose proof (find_param_lookup _ _ _ _ Hf) as [Hi Hk]. pose proof (lookup_lt_Some _ _ _ Hi) as Hlt.
  rewrite (reg_found _ d i p) by exact Hf. cbn [params set_lists]. rewrite list_lookup_insert_eq by done. cbn [mbind option_bind].
  change (value (set_owner this p)) with (value p). unfold claimed, d, decl_of. cbn [d_ok d_this].
  destruct (parse (value p)) as [v|]; cbn [default].
  - rewrite bool_decide_eq_true_2 by done. done.
  - rewrite bool_decide_eq_false_2 by (by intros [? ?]). cbn [passes set_lists]. unfold set_lists. cbn. by rewrite list_insert_insert_eq.
Qed.

(** What the options [ds] do to one parameter. *)
Definition claim_by (p : OptParam) (d : decl) : OptParam := if decide (key p = d_name d) then claimed d p else p.

Lemma regs_cons p l ds : foldl reg (p :: l) ds = foldl claim_by p ds :: foldl reg l (filter (fun d => d_name d <> key p) ds).
Proof.
  revert p l. induction ds as [|d ds IH]; intros p l; [done|]. cbn [foldl reg]. rewrite filter_cons. unfold claim_by at 2. case_decide as Hk.
  - rewrite IH. rewrite (decide_False (P := d_name d <> key p)) by congruence. done.
  - rewrite IH. rewrite (decide_True (P := d_name d <> key p)) by congruence. done.
Qed.

Lemma claims_other p ds : key p ∉ d_name <$> ds -> foldl claim_by p ds = p.
Proof.
  induction ds as [|d ds IH]; [done|]. cbn. intros [Hd Hn]%not_elem_of_cons. unfold claim_by at 2. rewrite decide_False by done. by apply IH.
Qed.

Lemma claims_owned p ds : owner p = NULL -> NoDup (d_name <$> ds) -> Forall (fun d => is_owner (d_this d) = true) ds ->
  hasOwner (foldl claim_by p ds) = true <-> exists d, d ∈ ds /\ d_name d = key p /\ d_ok d (value p) = true.
Proof.
  intros Hp. induction ds as [|d ds IH]; intros Hn Ho; cbn [foldl].
  { unfold hasOwner. rewrite Hp. split; [done|]. by intros (d & ?%not_elem_of_nil & _). }
  apply NoDup_cons in Hn as [Hd Hn]. apply Forall_cons in Ho as [Hod Ho]. unfold claim_by at 2. setoid_rewrite elem_of_cons. case_decide as Hk.
  - rewrite claims_other by (cbn; by rewrite Hk). unfold hasOwner, claimed. cbn [owner set_owner]. split.
    + destruct (d_ok d (value p)) eqn:Hv; [|done]. intros _. exists d. auto.
    + intros (d' & [->|Hin] & Hn' & Hv); [by rewrite Hv|]. destruct Hd. rewrite <- Hk, <- Hn'. by apply list_elem_of_fmap_2.
  - rewrite IH by done. naive_solver.
Qed.

(** The parameters the options [ds] accept: each is declared, has a good value and
    comes once. *)
Definition accepted (ds : list decl) (l : list OptParam) : Prop :=
  NoDup (key <$> l) /\ forall p, p ∈ l -> exists d, d ∈ ds /\ d_name d = key p /\ d_ok d (value p) = true.

Lemma regs_owned l ds : unowned l -> NoDup (d_name <$> ds) -> Forall (fun d => is_owner (d_this d) = true) ds ->
  Forall (fun p => hasOwner p = true) (foldl reg l ds) <-> accepted ds l.
Proof.
  unfold accepted. revert ds. induction l as [|p l IH]; intros ds Hu Hn Ho.
  { assert (foldl reg [] ds = []) as -> by (clear; induction ds; done). split; [intros _; split; [constructor|by intros p ?%not_elem_of_nil]|done]. }
  apply Forall_cons in Hu as [Hp Hu]. rewrite regs_cons, Forall_cons, claims_owned by done. rewrite IH; [|done| |].
  2: { eapply sublist_NoDup; [exact Hn|]. apply fmap_sublist, sublist_filter. }
  2: { rewrite Forall_forall in Ho. apply Forall_forall. intros d [_ Hd]%list_elem_of_filter. by apply Ho. }
  cbn [fmap list_fmap]. rewrite NoDup_cons. setoid_rewrite elem_of_cons. split.
  - intros [Hex [Hnd Hall]]. split_and!; [|done|].
    + intros (p' & Hk & Hin)%list_elem_of_fmap. destruct (Hall p' Hin) as (d & [Hne _]%list_elem_of_filter & Hd & _). congruence.
    + intros p' [->|Hin]; [done|]. destruct (Hall p' Hin) as (d & [_ Hd]%list_elem_of_filter & Hrest). by exists d.
  - intros [[Hni Hnd] Hall]. split_and!; [apply Hall; by left|done|]. intros p' Hin. destruct (Hall p' (or_intror Hin)) as (d & Hd & Hdn & Hv).
    exists d. split; [|done]. apply list_elem_of_filter. split; [|done]. rewrite Hdn. intros Hk. apply Hni. rewrite <- Hk. by apply list_elem_of_fmap_2.
Qed.

(** A pass takes its parameter out of the list. *)
Definition pass_decl (this : Z) (name : string) : decl := Decl name (fun _ => true) this.
Definition passes_of (this : Z) (name : string) (l : list OptParam) : list OptParam :=
  match find_param name l with Some (_, p) => [set_owner this p] | None => [] end.

Lemma RegisterPass_run this name st l ds :
  unowned l -> params st = foldl reg l ds -> passes st = [] -> name ∉ d_name <$> ds -> is_owner this = true ->
  exists l', RegisterPass this name st = set_lists l' (passes_of this name l) st /\
    (Forall (fun p => hasOwner p = true) l' <-> Forall (fun p => hasOwner p = true) (foldl reg l (ds ++ [pass_decl this name]))).
Proof.
  intros Hu Hp Hs Hn Ho. pose proof (find_param_regs name l ds Hn) as Hf. unfold RegisterPass, registerParam, passes_of. rewrite Hs, Hp. cbn [drop_passes]. cbn match.
  change (params (set_lists (foldl reg l ds) [] st)) with (foldl reg l ds). rewrite Hf, foldl_snoc. set (d := pass_decl this name).
  destruct (find_param name l) as [[i p]|] eqn:Hl.
  2: { exists (foldl reg l ds). split; [done|]. by rewrite (reg_not_found _ d). }
  rewrite (find_unowned name l i p Hu Hl), Ho. eexists. split; [reflexivity|]. rewrite (reg_found _ d i p) by exact Hf.
  pose proof (find_param_lookup _ _ _ _ Hf) as [Hi _]. apply list_elem_of_split_length in Hi as (l1 & l2 & -> & ->).
  rewrite delete_middle, insert_app_r_alt, Nat.sub_diag by lia. cbn.
  assert (hasOwner (claimed d p) = true) as Hc by exact Ho. rewrite !Forall_app, Forall_cons. tauto.
Qed.

(** ** The options of the driver and of the analyzer *)

Lemma owner_pos z : 0 < z -> is_owner z = true.
Proof. intros Hz. unfold is_owner, NULL, INVALID. rewrite !bool_decide_eq_false_2 by lia. done. Qed.

Definition std_decls (this : Z) : list decl :=
  [decl_of this "time-passes" parse_bool; decl_of (this + 1) "detach" parse_bool; decl_of (this + 2) "quit" parse_bool;
   decl_of (this + 3) "force-rewriting" parse_bool].
Definition analysis_decls (this : Z) : list decl :=
  [decl_of this "debug" parse_bool; decl_of (this + 1) "debug-pass" parse_string; decl_of (this + 2) "output" parse_string;
   decl_of (this + 3) "v" parse_bool; decl_of (this + 4) "stats" parse_string; decl_of (this + 5) "icall-map-type" parse_string;
   decl_of (this + 6) "address-taken-policy" parse_string; decl_of (this + 7) "window-size" parse_int; decl_of (this + 8) "daemon" parse_bool;
   decl_of (this + 9) "cfg-stats" parse_bool].
Definition pass_name : string := "lbr_analysis_pass".

(** The values the options have after a command line with the parameters [l]. *)
Definition std_of (l : list OptParam) : std_opts :=
  StdOpts (opt_value "detach" parse_bool true l) (opt_value "quit" parse_bool false l) (opt_value "force-rewriting" parse_bool false l).
Definition options_of (l : list OptParam) : options :=
  Options (opt_value "output" parse_string EmptyString l) (opt_value "stats" parse_string EmptyString l)
    (opt_value "icall-map-type" parse_string "none"%string l) (opt_value "address-taken-policy" parse_string "default"%string l)
    (opt_value "window-size" parse_int 2 l) (opt_value "daemon" parse_bool false l) (opt_value "cfg-stats" parse_bool false l).

(** A name that is not among those of concrete options. *)
Ltac other_name := cbn [fmap list_fmap app d_name decl_of]; apply (bool_decide_eq_true_1 _); vm_compute; reflexivity.
Ltac next_opt l ds :=
  erewrite (cl_opt_run _ _ _ _ _ l ds); [|done|reflexivity|reflexivity|other_name|apply owner_pos; lia]; cbn [mbind option_bind app].

Lemma std_run this st : 0 < this -> unowned (params st) -> passes st = [] ->
  STD_CL_OPTS this st = Some (std_of (params st), set_lists (foldl reg (params st) (std_decls this)) [] st).
Proof.
  intros Ht Hu Hp. unfold STD_CL_OPTS, std_of. set (l := params st) in *.
  erewrite (cl_opt_run _ _ _ _ _ l []); [|done|reflexivity|done|other_name|apply owner_pos; lia]; cbn [mbind option_bind app].
  next_opt l [decl_of this "time-passes" parse_bool].
  next_opt l [decl_of this "time-passes" parse_bool; decl_of (this + 1) "detach" parse_bool].
  next_opt l [decl_of this "time-passes" parse_bool; decl_of (this + 1) "detach" parse_bool; decl_of (this + 2) "quit" parse_bool].
  reflexivity.
Qed.

Lemma analysis_run this this0 st l : 0 < this -> unowned l -> params st = foldl reg l (std_decls this0) -> passes st = [] ->
  analysis_plugin this st = Some (options_of l,
    RegisterPass (this + 10) pass_name (set_lists (foldl reg l (std_decls this0 ++ analysis_decls this)) [] st)).
Proof.
  intros Ht Hu Hl Hp. unfold analysis_plugin, options_of. pose (ds := std_decls this0).
  erewrite (cl_opt_run _ _ _ _ _ l ds); [|done|exact Hl|done|other_name|apply owner_pos; lia]. cbn [mbind option_bind].
  next_opt l (ds ++ take 1 (analysis_decls this)). next_opt l (ds ++ take 2 (analysis_decls this)). next_opt l (ds ++ take 3 (analysis_decls this)).
  next_opt l (ds ++ take 4 (analysis_decls this)). next_opt l (ds ++ take 5 (analysis_decls this)). next_opt l (ds ++ take 6 (analysis_decls this)).
  next_opt l (ds ++ take 7 (analysis_decls this)). next_opt l (ds ++ take 8 (analysis_decls this)). next_opt l (ds ++ take 9 (analysis_decls this)).
  reflexivity.
Qed.

(** ** Checking *)

Lemma check_list_spec l st : exists st', check_list l st = (if forallb hasOwner l then 0 else -1, st') /\ (forallb hasOwner l = true -> st' = st).
Proof.
  induction l as [|p l IH]; cbn; [by eexists|]. destruct (hasOwner p); cbn; [done|]. by eexists.
Qed.

(** What has to be given besides the options. *)
Definition supplied (st : opt_parser) : bool := hasIO st || negb (bool_decide (args st = [])).

Lemma check_spec st : exists st', check OPPR_IO_OR_ARGS st = (if forallb hasOwner (params st) && forallb hasOwner (passes st) && supplied st then 0 else -1, st') /\
  (forallb hasOwner (params st) && forallb hasOwner (passes st) && supplied st = true -> st' = st).
Proof.
  unfold check, supplied. destruct (check_list_spec (params st) st) as (s1 & -> & H1). destruct (forallb hasOwner (params st)); cbn [andb]; [|by eexists].
  rewrite (H1 eq_refl). change (0 <? 0) with false. cbn match. destruct (check_list_spec (passes st) st) as (s2 & -> & H2).
  destruct (forallb hasOwner (passes st)); cbn [andb]; [|by eexists]. rewrite (H2 eq_refl). change (0 <? 0) with false. cbn match.
  rewrite (bool_decide_eq_true_2 (OPPR_IO_OR_ARGS = OPPR_IO_OR_ARGS)), (bool_decide_eq_false_2 (OPPR_IO_OR_ARGS = OPPR_IO)),
    (bool_decide_eq_false_2 (OPPR_IO_OR_ARGS = OPPR_ARGS)) by done. rewrite !andb_false_r, !andb_true_r.
  destruct (hasIO st), (bool_decide (args st = [])); cbn; by eexists.
Qed.

(** ** The driver on a command line *)

(** What the words say. *)
Definition given (ws : list word) : list OptParam :=
  omap (fun w => match w with WOption k v => Some (Param k v (option_text k v) NULL) | _ => None end) ws.
Definition loads (ws : list word) : list string := omap (fun w => match w with WLoad path => Some path | _ => None end) ws.

(** The parser after the line. *)
Definition parsed_line (ws : list word) (l : list string) : opt_parser := add_args l (foldl exec new_parser ws).

Lemma exec_fields ws st : let st' := foldl exec st ws in
  params st' = params st ++ given ws /\ loadPaths st' = loadPaths st ++ loads ws /\ passes st' = passes st.
Proof.
  cbv zeta. revert st. induction ws as [|w ws IH]; intros st; cbn [foldl]; [by rewrite !app_nil_r|].
  destruct (IH (exec st w)) as (-> & -> & ->). destruct w; cbn; rewrite <- ?app_assoc; done.
Qed.

Lemma given_unowned ws : unowned (given ws).
Proof. apply Forall_forall. intros p (w & _ & Hw)%list_elem_of_omap. destruct w; try done. by injection Hw as <-. Qed.

(** C22. Parsing a command line ends with 0 or -1, and no assertion fails, whatever the
    arguments are.  A line written down from options, plugins, files and arguments of the
    program (keys without an equals sign, which are not those of the parser; files that do
    not start with a dash; at most one input) parses to exactly what was written: the
    options and plugins in their order, values with all their equals signs, and arguments
    as they are. *)
Theorem parse_command_line ws l strs st :
  Forall good_word ws -> (inputs ws <= 1)%nat -> Z.of_nat (length l) < INT_MAX ->
  (exists r st', parse strs st = Some (r, st') /\ (r = 0 \/ r = -1)) /\
  parse (render_line ws l) new_parser = Some (0, parsed_line ws l) /\
  params (parsed_line ws l) = given ws /\ loadPaths (parsed_line ws l) = loads ws /\ args (parsed_line ws l) = l.
Proof.
  intros Hg Hi Hl. split; [by apply parse_loop_total|]. split; [by apply parse_render_spec|].
  destruct (exec_fields ws new_parser) as (Hp & Hs & _). unfold parsed_line. cbn [params loadPaths args add_args]. split_and!; [done|done|].
  assert (forall ws st, args (foldl exec st ws) = args st) as ->; [|done]. clear. induction ws as [|w ws IH]; intros st; cbn [foldl]; [done|].
  rewrite IH. by destruct w.
Qed.

Section Driver.
Context (this this' : Z) (dlopen : string -> string + plugin) (run : Z -> bool * bool) (handle : bool).

(** The options that are known, with the pass. *)
Definition known : list decl := std_decls this ++ analysis_decls this' ++ [pass_decl (this' + 10) pass_name].

(** The line is accepted: every option is known, has a good value and comes once, and
    there are two files or arguments. *)
Definition line_ok (ws : list word) (l : list string) : Prop := accepted known (given ws) /\ supplied (parsed_line ws l) = true.

(** The passes that run, and what is done in the end. *)
Definition to_run (ws : list word) : bool := bool_decide (is_Some (find_param pass_name (given ws))).
Definition ending (ws : list word) (l : list string) : list action :=
  let st := parsed_line ws l in let std := std_of (given ws) in let '(retB, written) := run (this' + 10) in
  if quit std then (if negb (hasIO st) && handle then [Terminate] else []) else
  if (to_run ws && retB || forceRewriting std) && negb (to_run ws && written) && (hasIO st && handle) then [WriteFile (output st)] else
  if negb (hasIO st) && handle then [if detach std then Detach else Continue] else [].

Lemma known_names : NoDup (d_name <$> known).
Proof. cbn [known fmap list_fmap app d_name decl_of pass_decl std_decls analysis_decls]. apply (bool_decide_eq_true_1 _). vm_compute. reflexivity. Qed.

Lemma known_owners : 0 < this -> 0 < this' -> Forall (fun d => is_owner (d_this d) = true) known.
Proof.
  intros H H'. unfold known, std_decls, analysis_decls. cbn [app].
  repeat (apply Forall_cons; split; [apply owner_pos; cbn [d_this decl_of pass_decl]; lia|]). constructor.
Qed.

Lemma forallb_Forall_owner l : forallb hasOwner l = true <-> Forall (fun p => hasOwner p = true) l.
Proof. rewrite forallb_forall, Forall_forall. by setoid_rewrite list_elem_of_In. Qed.

End Driver.

(** ** The command line of the script *)

(** run-analyser.sh: the analyzer as a daemon. *)
Definition daemon_line : list word :=
  [WLoad "../bin/lbr_analysis_pass.di"; WOption "lbr_analysis_pass" EmptyString; WOption "icall-map-type" "at"; WOption "window-size" "16";
   WOption "daemon" EmptyString; WOutput "exe"; WInput "exe.1"].

Example daemon_line_text : render_line daemon_line [] =
  ["-load=../bin/lbr_analysis_pass.di"; "-lbr_analysis_pass"; "-icall-map-type=at"; "-window-size=16"; "-daemon"; "-o"; "exe"; "exe.1"]%string.
Proof. reflexivity. Qed.

Example daemon_line_options : options_of (given daemon_line) = Options EmptyString EmptyString "at" "default" 16 true false.
Proof. vm_compute. reflexivity. Qed.

Lemma daemon_line_good : Forall good_word daemon_line.
Proof. repeat constructor; try done. Qed.

Definition only_analysis (path : string) : string + plugin := inr (fun st => snd <$> analysis_plugin 200 st).

Lemma parse_command_line_witness :
  (exists r st', parse ["-o"%string] new_parser = Some (r, st') /\ (r = 0 \/ r = -1)) /\
  parse (render_line daemon_line ["a"%string]) new_parser = Some (0, parsed_line daemon_line ["a"%string]) /\
  params (parsed_line daemon_line ["a"%string]) = given daemon_line /\ loadPaths (parsed_line daemon_line ["a"%string]) = loads daemon_line /\
  args (parsed_line daemon_line ["a"%string]) = ["a"%string].
Proof. apply (parse_command_line daemon_line ["a"%string] ["-o"%string] new_parser); [apply daemon_line_good|cbn; lia|cbn; unfold INT_MAX; lia]. Defined.


(** Two plugins that both declare the option [debug] and a line that uses it: the second
    registration follows a null pointer. *)
Example debug_twice_crashes :
  parseAndLoad ["-load=a"; "-load=b"; "-debug"]%string only_analysis OPPR_NONE new_parser = None.
Proof. vm_compute. reflexivity. Qed.
