(* ===== verification/Verdicts.v ===== *)
(** The parts together: a daemon that was started on a binary, the kernel module it
    serves, and any tasks.  Every graph it ever works on comes from the one that was
    prepared, and every verdict that an LBR is valid is backed by a walk. *)

From S2P Require Import Prelude Slots Lbr LbrState StateFile Cfg CfgInv JitPath Jit Wrappers Kernel Armor ArmorInv Handshake Dummies Tidy AddressTaken Builder Frame Driver BinCfi BuilderProps Startup.

Section Verdicts.
Context {Ma : Malloc} (md4 : list Z -> list Z) (jiffies_to_timeval : Z -> Z * Z) (dt : Z).
Context (script : Z -> list Z) (modules : list (Z * Z)) (fbt : list Z) (funcs funcs' : Z -> list pfunc) (fuel : nat).
#[local] Notation again := (retouch script modules fbt funcs funcs').
#[local] Notation analysis := (jit_analysis again fuel).

(** The table of exits the daemon fetched. *)
Definition exits_of (u : setup) : list Z := dec_words (Z.to_nat (sp_items (su_simples u))) (su_exits u).

(** A graph that grew out of [s0]. *)
Definition grown_from (s0 : CFG) (g : Z * CFG) : Prop := cfg_wf g.2 /\ linked g.2 /\ extends s0 g.2.

Context (V : forall a, view_ok (funcs a)) (V' : forall a, view_ok (funcs' a)) (One : forall a, one_block (funcs' a)).

Lemma again_adds : retouch_adds again.
Proof. intros a s Hwf. apply wp_wlp. eapply wp_mono; [by apply retouch_spec|]. cbn beta. intros _ s' (? & _). done. Qed.

#[local] Opaque jit_validate_lbr.

Lemma analysis_grows s0 u l g v g' : grown_from s0 g -> analysis u l g = Some (v, g') ->
  grown_from s0 g' /\ (v = 1 -> explains (su_offsets u) (exits_of u) l g'.2).
Proof.
  intros (Hwf & Hl & Hx) Hrun. unfold jit_analysis, exits_of in *.
  set (ex := dec_words (Z.to_nat (sp_items (su_simples u))) (su_exits u)) in *. cbv zeta in Hrun.
  generalize dependent ex. intros ex. set (plt := zip _ _). clearbody plt. intros Hrun.
  destruct (jit_validate_lbr again (su_offsets u) fuel ex plt l g.1 g.2) as [[[v1 last] s']|] eqn:Hv; [|done].
  pose proof (wlp_jit_validate_lbr again (su_offsets u) fuel ex plt l g.1 g.2 again_adds Hwf _ _ Hv) as [(W & X & L) Hw].
  apply (inj Some), pair_equal_spec in Hrun as [<- <-]. split; [|exact Hw]. split_and!; [done|auto|by transitivity g.2].
Qed.

(** The daemon changes its graph only in the analysis. *)
Lemma resume_graph pc g r pc' g' : resume analysis pc g r = Some (pc', g') ->
  g' = g \/ exists u l v, analysis u l g = Some (v, g').
Proof.
  unfold resume. case_decide; [intros [= _ <-]; by left|].
  destruct pc, r.2 as [| | | | | |[] ?]; try done; try (intros [= _ <-]; by left).
  destruct (negb _); [intros [= _ <-]; by left|]. destruct (negb _); [intros [= _ <-]; by left|].
  destruct (analysis u l g) as [[v g1]|] eqn:Ha; [|done]. intros [= _ <-]. right. eauto.
Qed.

#[local] Notation moves := (moves md4 jiffies_to_timeval analysis dt).
#[local] Notation run := (run md4 jiffies_to_timeval analysis dt).

Lemma moves_graph s0 m C C' : moves m C C' -> grown_from s0 C.2.2 -> grown_from s0 C'.2.2.
Proof.
  assert (forall pc g r d', resume analysis pc g r = Some d' -> grown_from s0 g -> grown_from s0 d'.2) as Hres.
  { intros pc g r [pc' g'] Hr Hg. destruct (resume_graph _ _ _ _ _ Hr) as [->|(u & l & v & Ha)]; [done|]. by eapply analysis_grows. }
  destruct 1; cbn; try done; by eapply Hres.
Qed.

Lemma run_graph s0 ms C C' : run ms C C' -> grown_from s0 C.2.2 -> grown_from s0 C'.2.2.
Proof. induction 1 as [|m ms C C1 C2 Hm _ IH]; [done|]. intros Hg. by eapply IH, moves_graph. Qed.

(** The step in which the verdict is made. *)
Lemma verdict_step C C' u l plts g v g' : moves Daemon C C' -> C.2 = (DGots u l plts, g) -> C'.2 = (DPut u v, g') -> analysis u l g = Some (v, g').
Proof.
  assert (forall r, resume analysis (DGots u l plts) g r = Some (DPut u v, g') -> analysis u l g = Some (v, g')) as Hres.
  { intros r. unfold resume. case_decide; [done|]. destruct r.2 as [| | | | | |[] ?]; try done. destruct (negb _); [done|]. destruct (negb _); [done|].
    destruct (analysis u l g) as [[v1 g1]|]; [|done]. by intros [= <- <-]. }
  intros Hm H1 H2. inversion Hm; subst; cbn in H1, H2; try done; simplify_eq; by eapply Hres.
Qed.

End Verdicts.

(** ** A concrete verdict *)

(** The daemon on [demo_view]; the LBR has the call of [g], 0x100c -> 0x2000, and its
    return, 0x202f -> 0x1010. *)
Definition daemon_options : options := Options EmptyString EmptyString "none" "default" 16 true false.
Definition served_graph : CFG := from_option snd cfg_empty
  (runOnModule startup_md4 demo_script [] bin_example (Some dummies_bininfo) true demo_block daemon_options "/bin/toy" [(0x1000, 0x2000)] [] demo_view cfg_empty).
Definition served_lbr : lbr_t := Lbr 0 0 15 (replicate 14 0 ++ [0x100c; 0x202f]) (replicate 14 0 ++ [0x2000; 0x1010]) NULL.
Definition served_analysis : setup -> lbr_t -> Z * CFG -> option (Z * (Z * CFG)) :=
  jit_analysis (retouch demo_script [(0x1000, 0x2000)] [] (fun _ => demo_view) (fun _ => demo_view)) 9.

Example served_verdict : fst <$> served_analysis demo_setup served_lbr (JIT_ADDR_UNKNOWN, served_graph) = Some 1.
Proof. vm_compute. reflexivity. Qed.

(** A call into the middle of [g] is parsed anew, has no edge, and is not valid. *)
Example served_reject : fst <$> served_analysis demo_setup
  (Lbr 0 0 15 (replicate 14 0 ++ [0x100c; 0x202f]) (replicate 14 0 ++ [0x2010; 0x1010]) NULL) (JIT_ADDR_UNKNOWN, served_graph) = Some 0.
Proof. vm_compute. reflexivity. Qed.

Lemma served_graph_run :
  runOnModule startup_md4 demo_script [] bin_example (Some dummies_bininfo) true demo_block daemon_options "/bin/toy" [(0x1000, 0x2000)] [] demo_view cfg_empty
  = Some (Serving, served_graph).
Proof.
  assert (fst <$> runOnModule startup_md4 demo_script [] bin_example (Some dummies_bininfo) true demo_block daemon_options "/bin/toy"
    [(0x1000, 0x2000)] [] demo_view cfg_empty = Some Serving) as H by (vm_compute; reflexivity).
  unfold served_graph. destruct (runOnModule _ _ _ _ _ _ _ _ _ _ _ _ _) as [[r s]|]; [|discriminate H]. cbn in H |- *. by injection H as ->.
Qed.

